(* ===== verification/_CoqProject ===== *)
-Q . S2P
Prelude.v
Bytes.v
Vmproto.v
Auth.v
HostOps.v
Networking.v
Communicator.v
Firecracker.v
Machine.v
Manager.v
Fleet.v
NodeMain.v
GuestOps.v
GuestComm.v
PipeLog.v
Mmds.v
RuntimeSpec.v
Registry.v
Init.v
Layers.v
GuestMain.v
NodeCli.v
EndToEnd.v
