(* ===== verification/Prelude.v ===== *)
(** * container-infra

    A verification development for the container-infra repository: a node
    manager that runs container images in Firecracker microVMs (src/nodemanager),
    the init program inside each microVM (src/instance), the packets they
    exchange (src/vmproto), the authentication tokens (src/proto) and a command
    line client (src/nodecli).

    ** The program and the files that model it

    On the host (src/nodemanager):

    - Networking.v - src/networking.rs: tap devices, iptables rule books, the
      /30 network of a machine, the allocator of networks.  [net_run] is an
      arbitrary sequence of its operations.
    - Firecracker.v - src/machine/firecracker.rs: the jailer process, the HTTP
      requests that configure a microVM, the removal of its jail.
    - Communicator.v - src/machine/vsock.rs: framing of packets, the log buffer
      and its subscribers, the task that reads what the guest sends.
    - Machine.v - src/machine/machine.rs: boot, shutdown, logs.
    - Manager.v - src/manager.rs: the node's state [InnerNodeManager], every
      gRPC handler, the tasks run on a guest's exit and on shutdown.
      [manager_run] is an arbitrary sequence of calls, guest packets, exits and
      shutdown signals.
    - Fleet.v - what the node promises its clients, as a transition system on
      the set of its instances, and the proof that Manager.v refines it.
    - NodeMain.v - src/main.rs: the process, from the configuration file to
      what is dropped at its end.

    In the guest (src/instance):

    - Init.v - src/sh.rs, src/init.rs: programs run as children, mounts.
    - Mmds.v - src/mmds.rs: the metadata client and its token.
    - Registry.v - src/containers/registry.rs: manifests, configurations and
      layers from a container registry, with retries.
    - Layers.v - src/containers/mod.rs, fs.rs: the pool of download threads and
      the overlay mount.
    - RuntimeSpec.v - src/containers/rt.rs: the process of the container.
    - GuestComm.v, PipeLog.v - src/host.rs: packets to and from the host; the
      threads that forward the container's output.
    - GuestMain.v - src/main.rs: the main thread, the listener, the thread that
      waits for the container, the panic hook.

    Shared: Vmproto.v (src/vmproto), Auth.v (src/proto/src/auth.rs), NodeCli.v
    (src/nodecli/src/main.rs).  EndToEnd.v composes client, manager, metadata
    and guest.  HostOps.v and GuestOps.v list the operations the two sides ask
    of their environment; Bytes.v has the byte-level functions of the Rust
    standard library; this file has the rest of what the components share.

    A component's definitions bear the names of the code's functions, with
    [new] and [drop] prefixed or suffixed by the type.  Each file but the
    shared ones has its operations first, then its lemmas, then its theorems,
    and ends with a module [Demo] that runs the definitions on concrete inputs.

    ** How code becomes definitions

    A function that acts on its surroundings is an [eff]: from a state and the
    history of the operations performed so far it gives an [outcome] (a result,
    an error, or a panic), the new state and the operations it performed.  The
    answers come from an [Environment], an arbitrary function of the history: a
    theorem without hypotheses on it holds for every behaviour of the kernel,
    the network, Firecracker, the registry and the peer.  A lock is such an
    operation too: what another task did under it meanwhile is its answer
    ([LockComm]).  [owned] runs the
    destructor of a local value on early exits, [zoom] is a method call on a
    field, [try], [ignore], [unwrap], [attempt] and [map_err] are the ways the
    code treats a [Result].  The statement [⟪ s , h ⟫ m ⟪ o s' t , Q ⟫] reads: run
    from state [s] after history [h], [m] yields an outcome [o], a state [s']
    and a trace [t] that satisfy [Q]; it is total, so that it also says that [m]
    returns.  Fixed-width integers are [Z] with [arith], which panics in a
    [Debug] build and wraps in a [Release] build; theorems hold for both unless
    they name one.

    Crates that the code calls are interfaces: [Jwt], [Codec] (bitcode),
    [CircularBuffer] and [ToJson] are classes, with the laws [JwtLaws],
    [CodecLaws] and [CircularBufferLaws] where a theorem needs them, each met by
    a concrete instance ([PlainJwt], [CountableCodec], [ListBuffer]).  JSON
    parsers, the oci_spec builders, the backoff policy and the iteration order
    of a [HashMap] are parameters.

    ** What is proved

    - The node's accounts: on every reachable node no two machines share a
      network or a device, and what was created on the host and not removed is
      exactly what the machines hold (Networking.v, Manager.v [node_accounts]);
      at the end of the process nothing is left (NodeMain.v).  The invariant is
      [net_wf] lifted to the node as [node_wf]; [keeps] says that an operation
      preserves it.
    - Each operation: booting, shutting down, provisioning, deprovisioning,
      draining, publishing a port, with every error path (Machine.v,
      Firecracker.v, Manager.v); the abstract contract of all of them together
      (Fleet.v [node_refines_fleet]).
    - Access: when a token is accepted (Auth.v), that a refused call does
      nothing and that an instance's token is confined to it (Manager.v).
    - Channels: frames and packets in both directions, on every input; the
      exit a guest announces is the one reported; a subscriber sees every later
      entry (Communicator.v, GuestComm.v); a log stream is joined between two
      packets, wherever the packet handler is (Manager.v [stream_logs_spec]);
      the output of the container as lines (PipeLog.v, a refinement of
      [lines_of]).
    - The guest: how its process ends, in exactly one reboot but for two cases
      that are named, and the stop protocol (GuestMain.v); a pull ends under
      every order of its threads and leaves what it should (Layers.v,
      Registry.v, Init.v); metadata is read with a valid token (Mmds.v).
    - The whole: what is asked for on the command line is what the machine is
      booted with and the container runs (EndToEnd.v).

    Some theorems state behaviour that falls short of its purpose: networks
    reused from the 16384th on, slots lost by failed provisions, a jail left
    by a failed boot, output corrupted past a newline, an exit message that is
    never read.

    ** Fuel and bounds

    [packet_loop] and [listen] have the length of the stream as fuel: every
    round consumes at least the four bytes of a frame's length, and
    [packet_handler_total] shows that it is never exhausted.  The download
    pool has [pool_fuel], four turns per layer and the number of threads;
    [layers_pulled] shows that every order of turns ends within it.  The
    socket wait of [spawn] has the bound of the code.  The retries of a pull
    are as many as the backoff policy grants.  The log thread and the client's
    log loop read from streams with no end of their own: their fuel is the
    number of reads considered, and the theorems hold for each.

    ** What is not modelled

    - The code tonic generates, the gRPC transport, clap: a call is a value, a
      command an element of [Commands].
    - Interleaving inside an operation that holds the node's lock; it cannot be
      seen by the others.  Operations cut off at an await by the end of the
      process.
    - In the guest, the requests of two layers' pulls do not interleave inside a
      turn.  A panic of another thread than the main one may come after any
      operation of the main thread ([interrupted]), but two threads do not run
      the panic hook at once.  An operation of the environment is taken to
      return: only the receive of an exit code may wait for ever.
    - Texts of log and error messages that only humans read, unless a
      theorem is about them. *)

From Stdlib Require Export ZArith Lia.
From Stdlib Require Export Strings.Byte.
From Stdlib Require Import Strings.Ascii.
From stdpp Require Export base list list_numbers gmap strings pretty sorting.

Set Default Goal Selector "!".

(** ** Outcomes

    A Rust function that can fail either returns [Ok], returns [Err], or
    panics. *)

Inductive outcome (E A : Type) : Type :=
| Ok (a : A)
| Err (e : E)
| Panic.
Arguments Ok {E A} a.
Arguments Err {E A} e.
Arguments Panic {E A}.

Definition is_ok {E A} (o : outcome E A) : bool :=
  match o with Ok _ => true | _ => false end.

Definition is_panic {E A} (o : outcome E A) : bool :=
  match o with Panic => true | _ => false end.

(** ** Effects

    An interface lists the operations a component asks of its environment
    (spawning a command, writing a file, reading the clock, ...) with the
    type of the answer to each of them.  The environment is arbitrary: its
    answer may depend on everything that happened before. *)

Structure Iface : Type := MkIface { op : Type; ans : op → Type }.

Definition entry (I : Iface) : Type := { o : op I & ans I o }.
Definition history (I : Iface) : Type := list (entry I).

Class Environment (I : Iface) : Type :=
  respond : history I → ∀ o : op I, ans I o.

(** The result of running an effectful computation: its outcome, the
    state it leaves (kept on [Err] and on [Panic], since Rust keeps the
    mutations made through [&mut self]) and the operations it performed. *)

Record run (I : Iface) (S E A : Type) : Type := Run {
  out : outcome E A;
  st : S;
  tr : history I;
}.
Arguments Run {I S E A} out st tr.
Arguments out {I S E A} r.
Arguments st {I S E A} r.
Arguments tr {I S E A} r.

Definition eff (I : Iface) (S E A : Type) : Type := S → history I → run I S E A.

Section combinators.
Context {I : Iface} {S E : Type}.

Definition eff_ret {A} (a : A) : eff I S E A := λ s _, Run (Ok a) s [].

Definition eff_bind {A B} (k : A → eff I S E B) (m : eff I S E A) : eff I S E B :=
  λ s h,
    match m s h with
    | Run (Ok a) s1 t1 =>
        let r := k a s1 (h ++ t1) in Run (out r) (st r) (t1 ++ tr r)
    | Run (Err e) s1 t1 => Run (Err e) s1 t1
    | Run Panic s1 t1 => Run Panic s1 t1
    end.

Definition throw {A} (e : E) : eff I S E A := λ s _, Run (Err e) s [].
Definition panic {A} : eff I S E A := λ s _, Run Panic s [].
Definition get : eff I S E S := λ s _, Run (Ok s) s [].
Definition put (s : S) : eff I S E () := λ _ _, Run (Ok ()) s [].
Definition modify (f : S → S) : eff I S E () := λ s _, Run (Ok ()) (f s) [].

(** The environment performs [o] and its answer is recorded. *)
Definition perform `{Environment I} (o : op I) : eff I S E (ans I o) :=
  λ s h, let a := respond h o in Run (Ok a) s [existT o a].

(** [let _ = m;]: an error is dropped, a panic is not. *)
Definition ignore {A} (m : eff I S E A) : eff I S E () := λ s h,
  match m s h with
  | Run Panic s1 t1 => Run Panic s1 t1
  | Run _ s1 t1 => Run (Ok ()) s1 t1
  end.

(** [m.map_err(f)] *)
Definition map_err {E' A} (f : E → E') (m : eff I S E A) : eff I S E' A := λ s h,
  match m s h with
  | Run (Ok a) s1 t1 => Run (Ok a) s1 t1
  | Run (Err e) s1 t1 => Run (Err (f e)) s1 t1
  | Run Panic s1 t1 => Run Panic s1 t1
  end.

(** The outcome as a value, for code that matches on a [Result]. *)
Definition try {A} (m : eff I S E A) : eff I S E (E + A) := λ s h,
  match m s h with
  | Run (Ok a) s1 t1 => Run (Ok (inr a)) s1 t1
  | Run (Err e) s1 t1 => Run (Ok (inl e)) s1 t1
  | Run Panic s1 t1 => Run Panic s1 t1
  end.

(** The same where the caller has errors of its own. *)
Definition attempt {E' A} (m : eff I S E' A) : eff I S E (E' + A) := λ s h,
  match m s h with
  | Run (Ok a) s1 t1 => Run (Ok (inr a)) s1 t1
  | Run (Err e) s1 t1 => Run (Ok (inl e)) s1 t1
  | Run Panic s1 t1 => Run Panic s1 t1
  end.

(** [m.unwrap()] and [m.expect(..)]. *)
Definition unwrap {E' A} (m : eff I S E' A) : eff I S E A := λ s h,
  match m s h with
  | Run (Ok a) s1 t1 => Run (Ok a) s1 t1
  | Run _ s1 t1 => Run Panic s1 t1
  end.

(** A checked arithmetic result: [None] is the overflow panic. *)
Definition or_panic {A} (x : option A) : eff I S E A :=
  match x with Some a => eff_ret a | None => panic end.

(** A method call on the sub-object [get_ s]. *)
Definition zoom {T A} (get_ : S → T) (set_ : T → S → S) (m : eff I T E A) : eff I S E A :=
  λ s h, let r := m (get_ s) h in Run (out r) (set_ (st r) s) (tr r).

(** An owned local [x : T] used by [m]; on an early return or a panic it
    goes out of scope and its destructor [drop] runs. *)
Definition owned {T A} (drop : T → eff I () E ()) (x : T) (m : eff I T E A)
    : eff I S E (A * T) := λ s h,
  match m x h with
  | Run (Ok a) x1 t1 => Run (Ok (a, x1)) s t1
  | Run (Err e) x1 t1 => Run (Err e) s (t1 ++ tr (drop x1 () (h ++ t1)))
  | Run Panic x1 t1 => Run Panic s (t1 ++ tr (drop x1 () (h ++ t1)))
  end.

(** A computation that does not touch the state. *)
Definition stateless {A} (m : eff I () E A) : eff I S E A :=
  λ s h, let r := m () h in Run (out r) s (tr r).
End combinators.

#[export] Instance eff_mret I S E : MRet (eff I S E) := λ _, eff_ret.
#[export] Instance eff_mbind I S E : MBind (eff I S E) := λ _ _, eff_bind.

(** [for x in l { f(x)?; }] *)
Fixpoint for_each {I S E A} (f : A → eff I S E ()) (l : list A) : eff I S E () :=
  match l with
  | [] => mret ()
  | x :: l => f x;; for_each f l
  end.

(** ** Reasoning about effects: a weakest-precondition reading *)

Section wp.
Context {I : Iface} {S E : Type}.

Definition wp {A} (m : eff I S E A) (s : S) (h : history I)
    (Q : outcome E A → S → history I → Prop) : Prop :=
  Q (out (m s h)) (st (m s h)) (tr (m s h)).

Lemma wp_mono {A} (m : eff I S E A) s h (Q Q' : outcome E A → S → history I → Prop) :
  wp m s h Q → (∀ o s' t, Q o s' t → Q' o s' t) → wp m s h Q'.
Proof. unfold wp. auto. Qed.

Lemma wp_conj {A} (m : eff I S E A) s h (Q Q' : outcome E A → S → history I → Prop) :
  wp m s h Q → wp m s h Q' → wp m s h (λ o s' t, Q o s' t ∧ Q' o s' t).
Proof. unfold wp. auto. Qed.

Lemma wp_ret {A} (a : A) s h (Q : outcome E A → S → history I → Prop) :
  Q (Ok a) s [] → wp (mret a) s h Q.
Proof. done. Qed.

Lemma wp_throw {A} (e : E) s h (Q : outcome E A → S → history I → Prop) :
  Q (Err e) s [] → wp (throw e) s h Q.
Proof. done. Qed.

Lemma wp_panic {A} s h (Q : outcome E A → S → history I → Prop) :
  Q Panic s [] → wp panic s h Q.
Proof. done. Qed.

Lemma wp_get s h (Q : outcome E S → S → history I → Prop) :
  Q (Ok s) s [] → wp get s h Q.
Proof. done. Qed.

Lemma wp_modify f s h (Q : outcome E () → S → history I → Prop) :
  Q (Ok ()) (f s) [] → wp (modify f) s h Q.
Proof. done. Qed.

Lemma wp_put s' s h (Q : outcome E () → S → history I → Prop) :
  Q (Ok ()) s' [] → wp (put s') s h Q.
Proof. done. Qed.

Lemma wp_perform `{Environment I} (o : op I) s h (Q : outcome E (ans I o) → S → history I → Prop) :
  (∀ a, a = respond h o → Q (Ok a) s [existT o a]) → wp (perform o) s h Q.
Proof. unfold wp, perform. simpl. auto. Qed.

Lemma wp_bind {A B} (m : eff I S E A) (k : A → eff I S E B) s h
    (Q : outcome E B → S → history I → Prop) :
  wp m s h (λ o s1 t1,
    match o with
    | Ok a => wp (k a) s1 (h ++ t1) (λ o2 s2 t2, Q o2 s2 (t1 ++ t2))
    | Err e => Q (Err e) s1 t1
    | Panic => Q Panic s1 t1
    end) →
  wp (m ≫= k) s h Q.
Proof.
  unfold wp, mbind, eff_mbind, eff_bind.
  destruct (m s h) as [[] s1 t1]; simpl; auto.
Qed.

Lemma wp_ignore {A} (m : eff I S E A) s h (Q : outcome E () → S → history I → Prop) :
  wp m s h (λ o s1 t1, match o with Panic => Q Panic s1 t1 | _ => Q (Ok ()) s1 t1 end) →
  wp (ignore m) s h Q.
Proof. unfold wp, ignore. destruct (m s h) as [[] s1 t1]; simpl; auto. Qed.

Lemma wp_try {A} (m : eff I S E A) s h (Q : outcome E (E + A) → S → history I → Prop) :
  wp m s h (λ o s1 t1,
    match o with
    | Ok a => Q (Ok (inr a)) s1 t1
    | Err e => Q (Ok (inl e)) s1 t1
    | Panic => Q Panic s1 t1
    end) →
  wp (try m) s h Q.
Proof. unfold wp, try. destruct (m s h) as [[] s1 t1]; simpl; auto. Qed.

Lemma wp_or_panic {A} (x : option A) s h (Q : outcome E A → S → history I → Prop) :
  match x with Some a => Q (Ok a) s [] | None => Q Panic s [] end →
  wp (or_panic x) s h Q.
Proof. destruct x; done. Qed.
End wp.

Section wp_state.
Context {I : Iface} {S E : Type}.

Lemma wp_map_err {E' A} (f : E → E') (m : eff I S E A) s h
    (Q : outcome E' A → S → history I → Prop) :
  wp m s h (λ o s1 t1,
    match o with
    | Ok a => Q (Ok a) s1 t1
    | Err e => Q (Err (f e)) s1 t1
    | Panic => Q Panic s1 t1
    end) →
  wp (map_err f m) s h Q.
Proof. unfold wp, map_err. destruct (m s h) as [[] s1 t1]; simpl; auto. Qed.

Lemma wp_attempt {E' A} (m : eff I S E' A) s h (Q : outcome E (E' + A) → S → history I → Prop) :
  wp m s h (λ o s1 t1,
    match o with
    | Ok a => Q (Ok (inr a)) s1 t1
    | Err e => Q (Ok (inl e)) s1 t1
    | Panic => Q Panic s1 t1
    end) →
  wp (attempt m) s h Q.
Proof. unfold wp, attempt. destruct (m s h) as [[] s1 t1]; simpl; auto. Qed.

Lemma wp_unwrap {E' A} (m : eff I S E' A) s h (Q : outcome E A → S → history I → Prop) :
  wp m s h (λ o s1 t1, match o with Ok a => Q (Ok a) s1 t1 | _ => Q Panic s1 t1 end) →
  wp (unwrap m) s h Q.
Proof. unfold wp, unwrap. destruct (m s h) as [[] s1 t1]; simpl; auto. Qed.

Lemma wp_zoom {T A} (get_ : S → T) (set_ : T → S → S) (m : eff I T E A) s h
    (Q : outcome E A → S → history I → Prop) :
  wp m (get_ s) h (λ o t' u, Q o (set_ t' s) u) → wp (zoom get_ set_ m) s h Q.
Proof. done. Qed.

Lemma wp_stateless {A} (m : eff I () E A) (s : S) h
    (Q : outcome E A → S → history I → Prop) :
  wp m () h (λ o _ u, Q o s u) → wp (stateless m) s h Q.
Proof. done. Qed.

Lemma wp_owned {T A} (drop : T → eff I () E ()) (x : T) (m : eff I T E A) (s : S) h
    (Q : outcome E (A * T) → S → history I → Prop) :
  wp m x h (λ o x1 t1,
    match o with
    | Ok a => Q (Ok (a, x1)) s t1
    | Err e => wp (drop x1) () (h ++ t1) (λ _ _ t2, Q (Err e) s (t1 ++ t2))
    | Panic => wp (drop x1) () (h ++ t1) (λ _ _ t2, Q Panic s (t1 ++ t2))
    end) →
  wp (owned drop x m) s h Q.
Proof. unfold wp, owned. destruct (m x h) as [[] x1 t1]; simpl; auto. Qed.
End wp_state.

(** From the state [s], after the history [h], running [m] gives an outcome
    [o], a state [s'] and a trace [t] that satisfy [Q]. *)
Declare Scope eff_scope.
Delimit Scope eff_scope with eff.

#[warnings="-closed-notation-not-level-0"]
Notation "⟪ s , h ⟫ m ⟪ o s' t , Q ⟫" := (wp m s h (λ o s' t, Q))
  (at level 20, s constr, h constr, m at level 200, o name, s' name, t name, Q at level 200,
   format "'[hv' ⟪  s ,  h  ⟫ '/  '  m  '/' ⟪  o  s'  t ,  '/  ' Q  ⟫ ']'") : eff_scope.

Open Scope eff_scope.

(** The loop rule: an invariant over the elements already visited. *)
Lemma wp_for_each {I S E A} (f : A → eff I S E ()) (P : list A → S → history I → Prop)
    (R : outcome E () → S → history I → Prop) (l done : list A) s h t :
  P done s t →
  (∀ d x l' s1 t1, done ++ l = d ++ x :: l' → P d s1 t1 →
    wp (f x) s1 (h ++ t1) (λ o s2 t2,
      match o with
      | Ok _ => P (d ++ [x]) s2 (t1 ++ t2)
      | Err e => R (Err e) s2 (t1 ++ t2)
      | Panic => R Panic s2 (t1 ++ t2)
      end)) →
  (∀ s1 t1, P (done ++ l) s1 t1 → R (Ok ()) s1 t1) →
  wp (for_each f l) s (h ++ t) (λ o s' t', R o s' (t ++ t')).
Proof.
  revert done s t; induction l as [|x l IH]; intros done s t HP Hstep Hend; simpl.
  - apply wp_ret. rewrite app_nil_r. apply Hend. by rewrite app_nil_r.
  - apply wp_bind. eapply wp_mono; [exact (Hstep done x l s t eq_refl HP)|].
    intros [[]|e|] s1 t1 HQ; [|done..].
    rewrite <-(app_assoc h t t1). eapply wp_mono.
    + apply (IH (done ++ [x])); [exact HQ| |].
      * intros d y l2 s2 t2 Heq. apply (Hstep d y l2). by rewrite <-Heq, <-(app_assoc done).
      * intros s2 t2. rewrite <-(app_assoc done). apply Hend.
    + intros o s2 t2. by rewrite app_assoc.
Qed.

(** Equations of sequencing. *)
Lemma seq_ret_unit {I S E} (m : eff I S E ()) s h : (m;; mret ()) s h = m s h.
Proof.
  unfold mbind, eff_mbind, eff_bind. destruct (m s h) as [[[]|e|] s1 t1]; [|done..].
  simpl. by rewrite app_nil_r.
Qed.

Lemma get_bind {I S E A} (k : S → eff I S E A) s h : (get ≫= k) s h = k s s h.
Proof.
  unfold mbind, eff_mbind, eff_bind. simpl. rewrite app_nil_r. by destruct (k s s h).
Qed.

Lemma wp_get_bind {I S E A} (k : S → eff I S E A) s h (Q : outcome E A → S → history I → Prop) :
  wp (k s) s h Q → wp (get ≫= k) s h Q.
Proof. unfold wp. by rewrite get_bind. Qed.

Lemma ret_bind {I S E A B} (a : A) (k : A → eff I S E B) s h : (mret a ≫= k) s h = k a s h.
Proof.
  unfold mbind, eff_mbind, eff_bind. simpl. rewrite app_nil_r. by destruct (k a s h).
Qed.

Lemma bind_run {I S E A B} (m : eff I S E A) (k : A → eff I S E B) s h :
  (m ≫= k) s h =
    match m s h with
    | Run (Ok a) s1 t1 => let r := k a s1 (h ++ t1) in Run (out r) (st r) (t1 ++ tr r)
    | Run (Err e) s1 t1 => Run (Err e) s1 t1
    | Run Panic s1 t1 => Run Panic s1 t1
    end.
Proof. reflexivity. Qed.

(** A first step that only returns. *)
Lemma pure_bind {I S E A B} (m : eff I S E A) (k : A → eff I S E B) a s h :
  m s h = Run (Ok a) s [] → (m ≫= k) s h = k a s h.
Proof.
  intros Hm. unfold mbind, eff_mbind, eff_bind. rewrite Hm. simpl. rewrite app_nil_r.
  by destruct (k a s h).
Qed.

Lemma bind_panic {I S E A B} (m : eff I S E A) (k : A → eff I S E B) s h :
  out (m s h) = Panic → out ((m ≫= k) s h) = Panic.
Proof.
  unfold mbind, eff_mbind, eff_bind. by destruct (m s h) as [[] s1 t1].
Qed.

Lemma seq_cong {I S E} (m k k' : eff I S E ()) s h :
  (∀ s' h', k s' h' = k' s' h') → (m;; k) s h = (m;; k') s h.
Proof.
  intros Hk. unfold mbind, eff_mbind, eff_bind. destruct (m s h) as [[]]; [|done..].
  simpl. by rewrite Hk.
Qed.

(** Evaluate a computation whose steps are concrete. *)
Ltac eff_simpl := unfold mbind, eff_mbind, eff_bind, mret, eff_mret, eff_ret; simpl.

(** Walk one step through a computation. *)
Ltac wp_step :=
  match goal with
  | |- wp (mret _) _ _ _ => apply wp_ret
  | |- wp (throw _) _ _ _ => apply wp_throw
  | |- wp panic _ _ _ => apply wp_panic
  | |- wp get _ _ _ => apply wp_get
  | |- wp (modify _) _ _ _ => apply wp_modify
  | |- wp (put _) _ _ _ => apply wp_put
  | |- @wp _ _ _ _ (@perform ?I _ _ _ ?o) _ _ _ => apply (@wp_perform I _ _ _ o); intros ? _
  | |- wp (or_panic _) _ _ _ => apply wp_or_panic
  | |- wp (_ ≫= _) _ _ _ => apply wp_bind
  | |- wp (ignore _) _ _ _ => apply wp_ignore
  | |- wp (try _) _ _ _ => apply wp_try
  | |- wp (map_err _ _) _ _ _ => apply wp_map_err
  | |- wp (unwrap _) _ _ _ => apply wp_unwrap
  | |- wp (attempt _) _ _ _ => apply wp_attempt
  | |- wp (zoom _ _ _) _ _ _ => apply wp_zoom
  | |- wp (stateless _) _ _ _ => apply wp_stateless
  | |- wp (owned _ _ _) _ _ _ => apply wp_owned
  end.
Ltac wp_steps := repeat (wp_step; simpl).

(** Use a specification proved for the computation at the head. *)
Tactic Notation "wp_use" open_constr(H) := eapply wp_mono; [apply H|].

(** The operations of a trace, without their answers. *)
Definition ops {I} (t : history I) : list (op I) := map (@projT1 _ _) t.

Lemma ops_app {I} (t u : history I) : ops (t ++ u) = ops t ++ ops u.
Proof. apply map_app. Qed.

(** ** Which operations a computation may perform

    [performs P m]: whatever the environment answers, every operation of [m]
    satisfies [P].  The rules below follow the program text, so that a search
    over the hint database [performs] proves it. *)

Definition performs {I S E A} (P : op I → Prop) (m : eff I S E A) : Prop :=
  ∀ s h, Forall P (ops (tr (m s h))).

Section performs.
Context {I : Iface} {S E : Type} (P : op I → Prop).

Lemma performs_pure {A} (m : eff I S E A) : (∀ s h, tr (m s h) = []) → performs P m.
Proof. intros Hm s h. rewrite Hm. constructor. Qed.

Lemma performs_ret {A} (a : A) : performs (S := S) (E := E) P (mret a).
Proof. by apply performs_pure. Qed.
Lemma performs_throw {A} e : performs (S := S) (E := E) (A := A) P (throw e).
Proof. by apply performs_pure. Qed.
Lemma performs_panic {A} : performs (S := S) (E := E) (A := A) P panic.
Proof. by apply performs_pure. Qed.
Lemma performs_get : performs (S := S) (E := E) P get.
Proof. by apply performs_pure. Qed.
Lemma performs_modify f : performs (S := S) (E := E) P (modify f).
Proof. by apply performs_pure. Qed.
Lemma performs_or_panic {A} (x : option A) : performs (S := S) (E := E) P (or_panic x).
Proof. apply performs_pure. by destruct x. Qed.

Lemma performs_perform `{Environment I} (o : op I) : P o → performs (S := S) (E := E) P (perform o).
Proof. intros Ho s h. by repeat constructor. Qed.

Lemma performs_bind {A B} (m : eff I S E A) (k : A → eff I S E B) :
  performs P m → (∀ a, performs P (k a)) → performs P (m ≫= k).
Proof.
  intros Hm Hk s h. specialize (Hm s h). unfold mbind, eff_mbind, eff_bind.
  destruct (m s h) as [[a|e|] s1 t1]; simpl in *; [|done..].
  rewrite ops_app. apply Forall_app. split; [done|apply Hk].
Qed.

Lemma performs_ignore {A} (m : eff I S E A) : performs P m → performs P (ignore m).
Proof. intros Hm s h. specialize (Hm s h). unfold ignore. by destruct (m s h) as [[] ??]. Qed.
Lemma performs_try {A} (m : eff I S E A) : performs P m → performs P (try m).
Proof. intros Hm s h. specialize (Hm s h). unfold try. by destruct (m s h) as [[] ??]. Qed.
Lemma performs_map_err {E' A} (f : E → E') (m : eff I S E A) : performs P m → performs P (map_err f m).
Proof. intros Hm s h. specialize (Hm s h). unfold map_err. by destruct (m s h) as [[] ??]. Qed.
Lemma performs_zoom {T A} (g : S → T) (f : T → S → S) (m : eff I T E A) :
  performs P m → performs P (zoom g f m).
Proof. intros Hm s h. apply Hm. Qed.
Lemma performs_stateless {A} (m : eff I () E A) : performs P m → performs (S := S) P (stateless m).
Proof. intros Hm s h. apply Hm. Qed.

Lemma performs_owned {T A} (drop : T → eff I () E ()) (x : T) (m : eff I T E A) :
  performs P m → (∀ y, performs P (drop y)) → performs (S := S) P (owned drop x m).
Proof.
  intros Hm Hd s h. specialize (Hm x h). unfold owned.
  destruct (m x h) as [[a|e|] s1 t1]; simpl in *; [done|..];
    rewrite ops_app; (apply Forall_app; split; [done|apply Hd]).
Qed.

Lemma performs_for_each {A} (f : A → eff I S E ()) l :
  (∀ x, performs P (f x)) → performs P (for_each f l).
Proof.
  intros Hf. induction l as [|x l IH]; simpl; [apply performs_ret|by apply performs_bind].
Qed.
End performs.

Lemma performs_wp {I S E A} (P : op I → Prop) (m : eff I S E A) s h :
  performs P m → wp m s h (λ _ _ t, Forall P (ops t)).
Proof. intros Hm. apply Hm. Qed.

Create HintDb performs discriminated.
#[export] Hint Resolve performs_ret performs_throw performs_panic performs_get performs_modify
  performs_or_panic performs_bind performs_ignore performs_try performs_map_err performs_zoom
  performs_stateless performs_owned performs_for_each : performs.
#[export] Hint Extern 1 (@performs _ _ _ _ ?P (@perform _ _ _ _ ?o)) =>
  exact (performs_perform P o Logic.I) : performs.

(** [t] performs the operations [L] in order: all of them, each answered [ok],
    or those up to the first that is not. *)
Definition all_performed {I} (ok : entry I → bool) (L : list (op I)) (t : history I) : Prop :=
  ops t = L ∧ Forall (λ e, ok e = true) t.

Definition cut_short {I} (ok : entry I → bool) (L : list (op I)) (t : history I) : Prop :=
  ∃ before e after, t = before ++ [e] ∧ L = ops t ++ after ∧ Forall (λ e, ok e = true) before ∧ ok e = false.

(** [issues ok L m]: [m] performs the operations [L] in order and stops at the
    first that fails; the state is untouched. *)
Definition issues {I S E} (ok : entry I → bool) (L : list (op I)) (m : eff I S E ()) : Prop :=
  ∀ s h, wp m s h (λ o s' t,
    s' = s ∧ o ≠ Panic ∧ (if is_ok o then all_performed ok L t else cut_short ok L t)).

Lemma issues_seq {I S E} (ok : entry I → bool) L1 L2 (m k : eff I S E ()) :
  issues ok L1 m → issues ok L2 k → issues ok (L1 ++ L2) (m;; k).
Proof.
  intros Hm Hk s h. wp_step. wp_use Hm. intros [[]|e|] s1 t1 (-> & Ho & Ht); simpl in Ht; [| |done].
  - wp_use Hk. destruct Ht as [<- Ha]. intros o s2 t2 (-> & ? & Ht2). split_and!; [done..|].
    destruct (is_ok o).
    + destruct Ht2 as [<- Ha2]. split; [apply ops_app|by apply Forall_app].
    + destruct Ht2 as (before & x & after & -> & -> & Hb & Hx). exists (t1 ++ before), x, after.
      rewrite (ops_app t1), <-!app_assoc. split_and!; [done..|by apply Forall_app|done].
  - destruct Ht as (before & x & after & Ht1 & -> & Hb & Hx). split_and!; [done..|].
    exists before, x, (after ++ L2). by rewrite <-app_assoc.
Qed.

(** What a computation returns, when it returns normally. *)

Definition returns {I S E A} (P : A → Prop) (m : eff I S E A) : Prop :=
  ∀ s h a, out (m s h) = Ok a → P a.

Section returns.
Context {I : Iface} {S E A : Type} (P : A → Prop).

Lemma returns_ret a : P a → returns (I := I) (S := S) (E := E) P (mret a).
Proof. by intros Ha s h ? [= <-]. Qed.

Lemma returns_throw e : returns (I := I) (S := S) (E := E) P (throw e).
Proof. by intros s h. Qed.

Lemma returns_bind {B} (m : eff I S E B) (k : B → eff I S E A) :
  (∀ b, returns P (k b)) → returns P (m ≫= k).
Proof.
  intros Hk s h a. unfold mbind, eff_mbind, eff_bind.
  destruct (m s h) as [[b|e|] s1 t1]; simpl; [apply Hk|done..].
Qed.
End returns.

#[export] Hint Resolve returns_ret returns_throw returns_bind : performs.

(** ** Machine integers

    A value of a w-bit Rust integer type is a [Z] in range; arithmetic on
    it panics on overflow in a debug build and wraps in a release build. *)

Inductive profile : Set := Debug | Release.

Definition wrap (w z : Z) : Z := z `mod` 2 ^ w.
Definition swrap (w z : Z) : Z := (z + 2 ^ (w - 1)) `mod` 2 ^ w - 2 ^ (w - 1).

Definition is_uint (w z : Z) : bool := (0 <=? z)%Z && (z <? 2 ^ w)%Z.
Definition is_sint (w z : Z) : bool := (- 2 ^ (w - 1) <=? z)%Z && (z <? 2 ^ (w - 1))%Z.

(** The result [r] of an operation on uN values: [None] is the panic. *)
Definition arith (p : profile) (w r : Z) : option Z :=
  if is_uint w r then Some r
  else match p with Debug => None | Release => Some (wrap w r) end.

(** The same on signed values. *)
Definition sarith (p : profile) (w r : Z) : option Z :=
  if is_sint w r then Some r
  else match p with Debug => None | Release => Some (swrap w r) end.

Section ints.
Local Open Scope Z_scope.

Lemma is_uint_spec w z : is_uint w z = true ↔ 0 <= z < 2 ^ w.
Proof. unfold is_uint. rewrite andb_true_iff, Z.leb_le, Z.ltb_lt. lia. Qed.

Lemma is_sint_spec w z : is_sint w z = true ↔ - 2 ^ (w - 1) <= z < 2 ^ (w - 1).
Proof. unfold is_sint. rewrite andb_true_iff, Z.leb_le, Z.ltb_lt. lia. Qed.

Lemma wrap_small w z : 0 <= z < 2 ^ w → wrap w z = z.
Proof. apply Z.mod_small. Qed.

Lemma wrap_range w z : 0 <= w → 0 <= wrap w z < 2 ^ w.
Proof. intros. apply Z.mod_pos_bound. lia. Qed.

Lemma swrap_small w z : 0 < w → - 2 ^ (w - 1) <= z < 2 ^ (w - 1) → swrap w z = z.
Proof.
  intros Hw Hz. unfold swrap.
  assert (2 ^ w = 2 * 2 ^ (w - 1)) by (rewrite <-Z.pow_succ_r by lia; f_equal; lia).
  rewrite Z.mod_small by lia. lia.
Qed.

(** A cast to the signed type of the same width and back is the identity. *)
Lemma wrap_swrap w z : 0 < w → wrap w (swrap w z) = wrap w z.
Proof.
  intros Hw. unfold wrap, swrap.
  assert (2 ^ w <> 0) by lia.
  rewrite Zminus_mod_idemp_l. f_equal. lia.
Qed.

Lemma arith_fits p w r : 0 <= r < 2 ^ w → arith p w r = Some r.
Proof. intros H. unfold arith. by rewrite (proj2 (is_uint_spec _ _) H). Qed.

Lemma sarith_fits p w r : - 2 ^ (w - 1) <= r < 2 ^ (w - 1) → sarith p w r = Some r.
Proof. intros H. unfold sarith. by rewrite (proj2 (is_sint_spec _ _) H). Qed.

Lemma arith_overflow w r : ¬ 0 <= r < 2 ^ w → arith Debug w r = None.
Proof.
  intros H. unfold arith. destruct (is_uint w r) eqn:E; [|done].
  by apply is_uint_spec in E.
Qed.
End ints.

(** ** Vec *)

(** [Vec::push] appends; [Vec::pop] removes the last element. *)
Definition vec_pop {A} (l : list A) : option (A * list A) :=
  match reverse l with
  | [] => None
  | x :: r => Some (x, reverse r)
  end.

Lemma vec_pop_snoc {A} (l : list A) x : vec_pop (l ++ [x]) = Some (x, l).
Proof. unfold vec_pop. by rewrite reverse_snoc, reverse_involutive. Qed.

Lemma vec_pop_Some {A} (l l' : list A) x : vec_pop l = Some (x, l') → l = l' ++ [x].
Proof.
  destruct l as [|y l _] using rev_ind; [done|].
  rewrite vec_pop_snoc. by intros [= -> ->].
Qed.

Lemma vec_pop_None {A} (l : list A) : vec_pop l = None → l = [].
Proof.
  destruct l as [|y l _] using rev_ind; [done|]. by rewrite vec_pop_snoc.
Qed.

Lemma omap_nil_Forall {A B} (f : A → option B) (l : list A) :
  Forall (λ x, f x = None) l → omap f l = [].
Proof. induction 1 as [|x l Hx _ IH]; [done|]. simpl. rewrite Hx. exact IH. Qed.

Lemma two_lookups {A} (l : list A) i j a b :
  l !! i = Some a → l !! j = Some b → i ≠ j → ∃ k, l ≡ₚ a :: b :: k.
Proof.
  intros Ha Hb Hij.
  assert (∃ j', delete i l !! j' = Some b) as [j' Hj'].
  { exists (if decide (i < j) then Nat.pred j else j). rewrite list_lookup_delete.
    repeat case_decide; try lia; try done; by replace (S (Nat.pred j)) with j by lia. }
  exists (delete j' (delete i l)).
  etrans; [exact (delete_Permutation _ _ _ Ha)|]. constructor.
  exact (delete_Permutation _ _ _ Hj').
Qed.

(** [parts.join(sep)] on strings. *)
Fixpoint join (sep : string) (l : list string) : string :=
  match l with
  | [] => ""
  | [x] => x
  | x :: l => x +:+ sep +:+ join sep l
  end.

(** A string without an equals sign: what a key of [KEY=VALUE] can be. *)
Fixpoint no_equals (s : string) : bool :=
  match s with
  | EmptyString => true
  | String c s => negb (bool_decide (c = "="%char)) && no_equals s
  end.
