(* ===== verification/Bytes.v ===== *)
(** * Bytes, big-endian integers and lossy UTF-8 decoding

    What the program uses of the Rust standard library on [u8], [u32] and
    [String]: [to_be_bytes], [from_be_bytes], [read_exact],
    [slice::copy_within], [String::from_utf8_lossy].  A [String] is the
    sequence of its UTF-8 bytes. *)

From S2P Require Import Prelude.

Local Open Scope Z_scope.

(** ** u8 *)

Definition Z_of_byte (b : byte) : Z := Z.of_N (Byte.to_N b).

(** [z as u8] *)
Definition byte_of_Z (z : Z) : byte :=
  match Byte.of_N (Z.to_N (z `mod` 256)) with Some b => b | None => x00 end.

Lemma Z_of_byte_range b : 0 <= Z_of_byte b < 256.
Proof. unfold Z_of_byte. pose proof (Byte.to_N_bounded b). lia. Qed.

Lemma Z_of_byte_of_Z z : Z_of_byte (byte_of_Z z) = z `mod` 256.
Proof.
  unfold Z_of_byte, byte_of_Z.
  assert (0 <= z `mod` 256 < 256) by (apply Z.mod_pos_bound; lia).
  destruct (Byte.of_N (Z.to_N (z `mod` 256))) as [b|] eqn:Hb.
  - apply Byte.to_of_N in Hb. rewrite Hb. lia.
  - apply Byte.of_N_None_iff in Hb. lia.
Qed.

Lemma byte_of_Z_of_byte b : byte_of_Z (Z_of_byte b) = b.
Proof.
  unfold byte_of_Z. rewrite Z.mod_small by apply Z_of_byte_range.
  unfold Z_of_byte. rewrite N2Z.id. by rewrite Byte.of_to_N.
Qed.

#[export] Instance byte_eq_dec : EqDecision byte := Byte.byte_eq_dec.

(** ** u32 in network order *)

(** [(n as u32).to_be_bytes()] *)
Definition u32_to_be_bytes (n : Z) : list byte :=
  [byte_of_Z (Z.shiftr n 24); byte_of_Z (Z.shiftr n 16); byte_of_Z (Z.shiftr n 8); byte_of_Z n].

(** [u32::from_be_bytes(buf)] of a four-byte array *)
Definition u32_from_be_bytes (l : list byte) : Z :=
  foldl (λ acc b, Z.lor (Z.shiftl acc 8) (Z_of_byte b)) 0 l.

Lemma lor_shift_byte acc b : Z.lor (Z.shiftl acc 8) (Z_of_byte b) = 256 * acc + Z_of_byte b.
Proof.
  pose proof (Z_of_byte_range b).
  pose proof (Z.add_lor_land (Z.shiftl acc 8) (Z_of_byte b)) as Hadd.
  rewrite Z.shiftl_mul_pow2 in * by lia.
  enough (Z.land (acc * 2 ^ 8) (Z_of_byte b) = 0) by lia.
  apply Z.bits_inj'. intros n Hn. rewrite Z.land_spec, Z.bits_0.
  destruct (decide (n < 8)).
  - by rewrite Z.mul_pow2_bits_low.
  - destruct (decide (Z_of_byte b = 0)) as [->|]; [by rewrite Z.bits_0, andb_false_r|].
    rewrite (Z.bits_above_log2 (Z_of_byte b)); [apply andb_false_r|lia|].
    assert (Z.log2 (Z_of_byte b) < 8) by (apply Z.log2_lt_pow2; simpl; lia). lia.
Qed.

Lemma u32_from_to_be n : u32_from_be_bytes (u32_to_be_bytes n) = wrap 32 n.
Proof.
  unfold u32_from_be_bytes, u32_to_be_bytes. simpl foldl.
  rewrite !lor_shift_byte, !Z_of_byte_of_Z, !Z.shiftr_div_pow2 by lia.
  unfold wrap. change (2 ^ 24) with (256 * (256 * 256)). change (2 ^ 16) with (256 * 256).
  change (2 ^ 8) with 256. change (2 ^ 32) with (256 * (256 * (256 * 256))).
  rewrite !Z.rem_mul_r, <-!Z.div_div by lia. lia.
Qed.

Lemma u32_to_be_length n : length (u32_to_be_bytes n) = 4%nat.
Proof. done. Qed.

Lemma u32_from_be_range l : length l = 4%nat → 0 <= u32_from_be_bytes l < 2 ^ 32.
Proof.
  destruct l as [|a [|b [|c [|d [|]]]]]; try done. intros _.
  unfold u32_from_be_bytes. simpl foldl. rewrite !lor_shift_byte.
  pose proof (Z_of_byte_range a). pose proof (Z_of_byte_range b).
  pose proof (Z_of_byte_range c). pose proof (Z_of_byte_range d). lia.
Qed.

Lemma byte_of_Z_eq z b : z `mod` 256 = Z_of_byte b → byte_of_Z z = b.
Proof.
  intros Hz. rewrite <-(byte_of_Z_of_byte b). unfold byte_of_Z at 1 2.
  by rewrite Hz, (Z.mod_small (Z_of_byte b)) by apply Z_of_byte_range.
Qed.

(** Every four bytes are the encoding of a number. *)
Lemma u32_to_from_be l : length l = 4%nat → u32_to_be_bytes (u32_from_be_bytes l) = l.
Proof.
  destruct l as [|a [|b [|c [|d [|]]]]]; try done. intros _.
  unfold u32_from_be_bytes, u32_to_be_bytes. simpl foldl. rewrite !lor_shift_byte, !Z.shiftr_div_pow2 by lia.
  pose proof (Z_of_byte_range a). pose proof (Z_of_byte_range b).
  pose proof (Z_of_byte_range c). pose proof (Z_of_byte_range d).
  repeat f_equal; apply byte_of_Z_eq; Z.div_mod_to_equations; lia.
Qed.

Arguments byte_of_Z : simpl never.
Arguments Z_of_byte : simpl never.
Arguments u32_to_be_bytes : simpl never.
Arguments u32_from_be_bytes : simpl never.

(** ** Byte streams *)

(** What is left to be received on a stream that then closes.
    [read_exact] on a buffer of [n] bytes either fills it or fails with
    [UnexpectedEof]. *)
Definition read_exact (n : nat) (s : list byte) : option (list byte * list byte) :=
  if decide (n ≤ length s)%nat then Some (take n s, drop n s) else None.

Lemma read_exact_app n a s : length a = n → read_exact n (a ++ s) = Some (a, s).
Proof.
  intros <-. unfold read_exact. rewrite decide_True by (rewrite length_app; lia).
  by rewrite take_app_length, drop_app_length.
Qed.

Lemma read_exact_short n s : (length s < n)%nat → read_exact n s = None.
Proof. intros. unfold read_exact. by rewrite decide_False by lia. Qed.

Lemma read_exact_length n s a s' :
  read_exact n s = Some (a, s') → s = a ++ s' ∧ length a = n.
Proof.
  unfold read_exact. case_decide; [|done]. intros [= <- <-].
  by rewrite take_drop, length_take_le by lia.
Qed.

(** [buf[pos..pos + data.len()].copy_from_slice(data)] within bounds *)
Definition splice (pos : nat) (data buf : list byte) : list byte :=
  take pos buf ++ data ++ drop (pos + length data) buf.

(** [buf.copy_within(a..b, 0)] within bounds *)
Definition copy_within_front (a b : nat) (buf : list byte) : list byte :=
  splice 0 (take (b - a) (drop a buf)) buf.

Lemma splice_length pos data buf :
  (pos + length data ≤ length buf)%nat → length (splice pos data buf) = length buf.
Proof. intros. unfold splice. rewrite !length_app, length_take, length_drop. lia. Qed.

Lemma splice_take pos data buf :
  (pos + length data ≤ length buf)%nat →
  take (pos + length data) (splice pos data buf) = take pos buf ++ data.
Proof.
  intros. unfold splice. rewrite app_assoc.
  apply take_app_length'. rewrite length_app, length_take. lia.
Qed.

Lemma copy_within_front_length a b buf :
  (a ≤ b ≤ length buf)%nat → length (copy_within_front a b buf) = length buf.
Proof.
  intros. apply splice_length. rewrite length_take, length_drop. lia.
Qed.

(** ** Lossy UTF-8 decoding *)

(** Continuation bytes and the second-byte ranges of well-formed UTF-8. *)
Definition is_cont (b : byte) : bool := Z.land (Z_of_byte b) 192 =? 128.

Definition byte_in (lo hi : Z) (b : byte) : bool :=
  (lo <=? Z_of_byte b) && (Z_of_byte b <=? hi).

Definition utf8_char_width (b : byte) : Z :=
  if Z_of_byte b <? 128 then 1
  else if byte_in 194 223 b then 2
  else if byte_in 224 239 b then 3
  else if byte_in 240 244 b then 4
  else 0.

Definition second_ok (b0 b1 : byte) : bool :=
  match Z_of_byte b0 with
  | 224 => byte_in 160 191 b1
  | 237 => byte_in 128 159 b1
  | 240 => byte_in 144 191 b1
  | 244 => byte_in 128 143 b1
  | _ => byte_in 128 191 b1
  end.

(** U+FFFD *)
Definition replacement : list byte := [xef; xbf; xbd].

(** Each maximal invalid prefix becomes one replacement character. *)
Fixpoint utf8_lossy (l : list byte) : list byte :=
  match l with
  | [] => []
  | b0 :: r0 =>
      match utf8_char_width b0 with
      | 1 => b0 :: utf8_lossy r0
      | 2 =>
          match r0 with
          | b1 :: r1 =>
              if is_cont b1 then b0 :: b1 :: utf8_lossy r1 else replacement ++ utf8_lossy r0
          | [] => replacement
          end
      | 3 =>
          match r0 with
          | b1 :: r1 =>
              if second_ok b0 b1 then
                match r1 with
                | b2 :: r2 =>
                    if is_cont b2 then b0 :: b1 :: b2 :: utf8_lossy r2
                    else replacement ++ utf8_lossy r1
                | [] => replacement
                end
              else replacement ++ utf8_lossy r0
          | [] => replacement
          end
      | 4 =>
          match r0 with
          | b1 :: r1 =>
              if second_ok b0 b1 then
                match r1 with
                | b2 :: r2 =>
                    if is_cont b2 then
                      match r2 with
                      | b3 :: r3 =>
                          if is_cont b3 then b0 :: b1 :: b2 :: b3 :: utf8_lossy r3
                          else replacement ++ utf8_lossy r2
                      | [] => replacement
                      end
                    else replacement ++ utf8_lossy r1
                | [] => replacement
                end
              else replacement ++ utf8_lossy r0
          | [] => replacement
          end
      | _ => replacement ++ utf8_lossy r0
      end
  end.

Definition is_ascii (b : byte) : bool := Z_of_byte b <? 128.

Lemma utf8_lossy_ascii l : forallb is_ascii l = true → utf8_lossy l = l.
Proof.
  induction l as [|b l IH]; [done|]. simpl. rewrite andb_true_iff. intros [Hb Hl].
  unfold utf8_char_width. unfold is_ascii in Hb. rewrite Hb. by rewrite IH.
Qed.

(** [String::from_utf8_lossy(..).to_string()] *)
Definition from_utf8_lossy (l : list byte) : string := String.string_of_list_byte (utf8_lossy l).

(** The string of the bytes of a byte-string literal [b"..."]. *)
Definition bytes (s : string) : list byte := String.list_byte_of_string s.

(** ** Encoding any countable value as bytes

    Used where a concrete serializer is needed to evaluate the development:
    one byte per bit of the [Countable] code of the value. *)

Fixpoint bits_of_pos (p : positive) : list byte :=
  match p with
  | xH => [x02]
  | xO p => x00 :: bits_of_pos p
  | xI p => x01 :: bits_of_pos p
  end.

Fixpoint pos_of_bits (l : list byte) : option positive :=
  match l with
  | [] => None
  | b :: l =>
      if decide (b = x00) then xO <$> pos_of_bits l
      else if decide (b = x01) then xI <$> pos_of_bits l
      else match l with [] => Some xH | _ => None end
  end.

Lemma pos_of_bits_of_pos p : pos_of_bits (bits_of_pos p) = Some p.
Proof. induction p; simpl; rewrite ?IHp; done. Qed.

Definition bytes_of `{Countable A} (a : A) : list byte := bits_of_pos (encode a).
Definition of_bytes `{Countable A} (l : list byte) : option A := p ← pos_of_bits l; decode p.

Lemma of_bytes_of `{Countable A} (a : A) : of_bytes (bytes_of a) = Some a.
Proof. unfold of_bytes, bytes_of. rewrite pos_of_bits_of_pos. simpl. apply decode_encode. Qed.
