(* ===== verification/Vmproto.v ===== *)
(** * The vmproto crate: the packets between host and guest

    Data types of src/vmproto/src/guest.rs and src/vmproto/src/host.rs, the
    names under which states and log types are shown, and the interface the
    two sides rely on for the bitcode serializer (an external crate): the
    class [Codec] and its law [CodecLaws].  A concrete codec built on
    stdpp's [Countable] shows that the law can be met. *)

From S2P Require Import Prelude Bytes.

(** src/vmproto/src/lib.rs *)
Definition MAX_PACKET_SIZE : Z := 1024 * 1024.

(** ** guest.rs *)

Inductive GuestExitCode : Set :=
| GracefulShutdown
| FailedToPullContainerImage
| ContainerExited (code : Z).

Inductive InitVmState : Set := Online | PullingContainerImage | ExecutingContainer.

Definition init_vm_state_as_str (s : InitVmState) : string :=
  match s with
  | Online => "online"
  | PullingContainerImage => "pulling_container_image"
  | ExecutingContainer => "executing_container"
  end.

Inductive LogMessageType : Set := System | Stdout | Stderr.

Definition log_message_type_as_str (t : LogMessageType) : string :=
  match t with
  | System => "system"
  | Stdout => "stdout"
  | Stderr => "stderr"
  end.

Record LogMessage : Set := {
  text : string;
  timestamp_ms : Z;
  message_type : LogMessageType;
}.

(** The reading of the system clock is the number of milliseconds since the
    Unix epoch, negative before it ([duration_since] then fails). *)
Definition get_timestamp_ms (clock : Z) : Z := wrap 64 (Z.max 0 clock).

Definition log_message_new (clock : Z) (t : string) (ty : LogMessageType) : LogMessage :=
  {| text := t; timestamp_ms := get_timestamp_ms clock; message_type := ty |}.

Definition log_message_system (clock : Z) (t : string) : LogMessage :=
  log_message_new clock t System.

Definition log_message_stdout (clock : Z) (t : string) : LogMessage :=
  log_message_new clock t Stdout.

Definition log_message_stderr (clock : Z) (t : string) : LogMessage :=
  log_message_new clock t Stderr.

Inductive GuestPacket : Set :=
| Log (m : LogMessage)
| VmState (s : InitVmState) (ts : Z)
| Exited (c : GuestExitCode).

(** ** host.rs *)

Inductive HostPacket : Set := Shutdown.

(** ** Decidable equality *)

#[export] Instance guest_exit_code_eq_dec : EqDecision GuestExitCode.
Proof. solve_decision. Defined.
#[export] Instance init_vm_state_eq_dec : EqDecision InitVmState.
Proof. solve_decision. Defined.
#[export] Instance log_message_type_eq_dec : EqDecision LogMessageType.
Proof. solve_decision. Defined.
#[export] Instance log_message_eq_dec : EqDecision LogMessage.
Proof. solve_decision. Defined.
#[export] Instance guest_packet_eq_dec : EqDecision GuestPacket.
Proof. solve_decision. Defined.
#[export] Instance host_packet_eq_dec : EqDecision HostPacket.
Proof. solve_decision. Defined.

(** ** The serializer *)

(** [bitcode::encode] and [bitcode::decode] at the two packet types. *)
Class Codec : Type := {
  serialize_guest_packet : GuestPacket → list byte;
  deserialize_guest_packet : list byte → option GuestPacket;
  serialize_host_packet : HostPacket → list byte;
  deserialize_host_packet : list byte → option HostPacket;
}.

(** What bitcode documents: decoding an encoded value gives it back. *)
Class CodecLaws `(C : Codec) : Prop := {
  guest_roundtrip p : deserialize_guest_packet (serialize_guest_packet p) = Some p;
  host_roundtrip p : deserialize_host_packet (serialize_host_packet p) = Some p;
}.

(** ** A codec that satisfies the law *)

Module CountableCodec.
Definition exit_enc (c : GuestExitCode) : option (option Z) :=
  match c with
  | GracefulShutdown => None
  | FailedToPullContainerImage => Some None
  | ContainerExited z => Some (Some z)
  end.

Definition exit_dec (c : option (option Z)) : GuestExitCode :=
  match c with
  | None => GracefulShutdown
  | Some None => FailedToPullContainerImage
  | Some (Some z) => ContainerExited z
  end.

Definition state_enc (s : InitVmState) : nat :=
  match s with Online => 0 | PullingContainerImage => 1 | ExecutingContainer => 2 end.

Definition state_dec (n : nat) : InitVmState :=
  match n with 0 => Online | 1 => PullingContainerImage | _ => ExecutingContainer end.

Definition type_enc (t : LogMessageType) : nat :=
  match t with System => 0 | Stdout => 1 | Stderr => 2 end.

Definition type_dec (n : nat) : LogMessageType :=
  match n with 0 => System | 1 => Stdout | _ => Stderr end.

Definition packet_enc (p : GuestPacket)
    : (string * Z * nat) + ((nat * Z) + option (option Z)) :=
  match p with
  | Log m => inl (text m, timestamp_ms m, type_enc (message_type m))
  | VmState s t => inr (inl (state_enc s, t))
  | Exited c => inr (inr (exit_enc c))
  end.

Definition packet_dec (x : (string * Z * nat) + ((nat * Z) + option (option Z))) : GuestPacket :=
  match x with
  | inl (t, z, n) => Log {| text := t; timestamp_ms := z; message_type := type_dec n |}
  | inr (inl (n, z)) => VmState (state_dec n) z
  | inr (inr c) => Exited (exit_dec c)
  end.

Lemma packet_dec_enc p : packet_dec (packet_enc p) = p.
Proof. destruct p as [[? ? []]|[] ?|[]]; done. Qed.

#[export] Instance codec : Codec := {
  serialize_guest_packet p := bytes_of (packet_enc p);
  deserialize_guest_packet l := packet_dec <$> of_bytes l;
  serialize_host_packet _ := [];
  deserialize_host_packet l := match l with [] => Some Shutdown | _ => None end;
}.

#[global] Instance codec_laws : CodecLaws codec.
Proof.
  split.
  - intros p. simpl. rewrite of_bytes_of. simpl. by rewrite packet_dec_enc.
  - by intros [].
Qed.
End CountableCodec.

(** ** The wire format

    Both sides send a packet as the length of its encoding, a big-endian
    u32, followed by the encoding. *)

Definition frame (data : list byte) : list byte :=
  u32_to_be_bytes (wrap 32 (Z.of_nat (length data))) ++ data.

Arguments frame : simpl never.

Lemma frame_length data : length (frame data) = 4 + length data.
Proof. unfold frame. by rewrite length_app. Qed.

Lemma frame_read data rest :
  (Z.of_nat (length data) < 2 ^ 32)%Z →
  read_exact 4 (frame data ++ rest) =
    Some (u32_to_be_bytes (Z.of_nat (length data)), data ++ rest) ∧
  u32_from_be_bytes (u32_to_be_bytes (Z.of_nat (length data))) = Z.of_nat (length data).
Proof.
  intros Hlen. unfold frame. rewrite wrap_small by lia. split.
  - rewrite <-app_assoc. by apply read_exact_app.
  - rewrite u32_from_to_be. apply wrap_small. lia.
Qed.
