(* ===== verification/Auth.v ===== *)
(** * Authentication tokens (src/proto/src/auth.rs)

    The jwt and hmac crates are the interface [Jwt]: a type of keys, the
    construction of a key from bytes, signing and verification.  Its law is
    the documented one: verifying a signed token with the key that signed it
    gives the claims back.  [None] is a panic in the functions of this
    file. *)

From S2P Require Import Prelude Bytes.

Local Open Scope Z_scope.

Record RegisteredClaims : Set := {
  issuer : option string;
  subject : option string;
  audience : option string;
  expiration : option Z;
  not_before : option Z;
  issued_at : option Z;
  json_web_token_id : option string;
}.

Class Jwt : Type := {
  Key : Type;
  (** [Hmac::<Sha256>::new_from_slice] *)
  new_from_slice : string → option Key;
  (** [claims.sign_with_key(key)] *)
  sign_with_key : RegisteredClaims → Key → option string;
  (** [token.verify_with_key(key)] *)
  verify_with_key : string → Key → option RegisteredClaims;
}.

Class JwtLaws (J : Jwt) : Prop := {
  sign_total c k : is_Some (sign_with_key c k);
  verify_sign c k token : sign_with_key c k = Some token → verify_with_key token k = Some c;
}.

Section auth.
Context `{J : Jwt}.

(** The reading of the system clock is the number of seconds since the Unix
    epoch; [duration_since] fails on a negative one. *)
Definition unix_t_s (clock : Z) : option Z := if clock <? 0 then None else Some clock.

Definition validate_authentication (clock : Z) (token : string) (secret : Key)
    (expected_audience : option string) : option bool :=
  match verify_with_key token secret with
  | None => Some false
  | Some claims =>
      if decide (expected_audience ≠ audience claims) then Some false
      else
        t ← unix_t_s clock;
        Some ((t <? default 0 (expiration claims)) && (default 0 (not_before claims) <? t))
  end.

Definition validate_authentication_secrets_as_bytes (clock : Z) (token secret : string)
    (expected_audience : option string) : option bool :=
  k ← new_from_slice secret;
  validate_authentication clock token k expected_audience.

Definition sign_token (prof : profile) (clock : Z) (secret : Key) (aud : option string)
    : option string :=
  t ← unix_t_s clock;
  exp ← arith prof 64 (t + 60 * 60);
  nbf ← arith prof 64 (t - 60);
  sign_with_key
    {| issuer := None; subject := None; audience := aud; expiration := Some exp;
       not_before := Some nbf; issued_at := Some t; json_web_token_id := None |} secret.

Definition sign_token_bytes (prof : profile) (clock : Z) (secret : string) (aud : option string)
    : option string :=
  k ← new_from_slice secret;
  sign_token prof clock k aud.

(** ** Properties *)

(** C23: A token is accepted exactly when it verifies under the key, its
    audience is the expected one (both absent included), it carries an
    expiration in the future and its not-before time, if any, has passed. *)
Theorem validate_authentication_iff clock token secret aud :
  0 < clock →
  validate_authentication clock token secret aud = Some true ↔
  ∃ claims exp,
    verify_with_key token secret = Some claims ∧ audience claims = aud ∧
    expiration claims = Some exp ∧ clock < exp ∧
    (∀ nbf, not_before claims = Some nbf → nbf < clock).
Proof.
  intros Hc. unfold validate_authentication, unix_t_s.
  rewrite (proj2 (Z.ltb_ge clock 0)) by lia.
  destruct (verify_with_key token secret) as [claims|]; [|naive_solver].
  destruct (decide (aud ≠ audience claims)) as [Ha|Ha%dec_stable].
  { split; [done|]. intros (c & e & [= <-] & <- & _). done. }
  simpl. split.
  - intros [= Hb]. apply andb_true_iff in Hb as [H1%Z.ltb_lt H2%Z.ltb_lt].
    destruct (expiration claims) as [e|] eqn:He; simpl in H1; [|lia].
    exists claims, e. split_and!; try done. intros nbf Hn. by rewrite Hn in H2.
  - intros (c & e & [= <-] & _ & -> & He & Hn). f_equal. apply andb_true_iff.
    rewrite !Z.ltb_lt. split; [done|]. destruct (not_before claims); simpl; [by apply Hn|lia].
Qed.

(** A token is bound to one audience: if it is ever accepted for an
    audience it is never accepted for another one, so a token for one
    instance opens neither another instance nor the node-wide calls (whose
    expected audience is absent). *)
Theorem audience_separation t1 t2 token secret aud1 aud2 :
  validate_authentication t1 token secret aud1 = Some true →
  aud1 ≠ aud2 →
  validate_authentication t2 token secret aud2 = Some false.
Proof.
  unfold validate_authentication. destruct (verify_with_key token secret) as [claims|]; [|done].
  destruct (decide (aud1 ≠ audience claims)) as [|Ha%dec_stable]; [done|].
  intros _ Hne. rewrite decide_True; [done|]. congruence.
Qed.

Context `{!JwtLaws J}.

(** C24: A token signed at time [t0] for an audience is accepted for that
    audience exactly from 59 seconds before [t0] until one hour after it
    (both ends excluded as the code compares them). *)
Theorem sign_then_validate prof t0 t secret aud token :
  60 <= t0 < 2 ^ 64 - 3600 →
  0 <= t →
  sign_token prof t0 secret aud = Some token →
  validate_authentication t token secret aud = Some (bool_decide (t0 - 60 < t < t0 + 3600)).
Proof.
  intros Ht0 Ht. unfold sign_token, unix_t_s.
  rewrite (proj2 (Z.ltb_ge t0 0)) by lia. simpl.
  rewrite (arith_fits prof 64 (t0 + 60 * 60)), (arith_fits prof 64 (t0 - 60)) by lia. simpl.
  intros Hs%verify_sign. unfold validate_authentication, unix_t_s. rewrite Hs.
  rewrite (proj2 (Z.ltb_ge t 0)) by lia. simpl. rewrite decide_False by naive_solver.
  f_equal. apply eq_true_iff_eq. rewrite andb_true_iff, bool_decide_eq_true, !Z.ltb_lt. lia.
Qed.

(** Signing succeeds from the 60th second of the epoch on.  Before it,
    [unix_t_s - 60] underflows: a debug build panics and a release build
    signs a token whose not-before time lies in the far future, which is
    accepted at no time before that. *)
Theorem sign_token_first_minute t0 secret aud :
  0 <= t0 < 60 →
  sign_token Debug t0 secret aud = None ∧
  ∃ token,
    sign_token Release t0 secret aud = Some token ∧
    ∀ t, 0 <= t < 2 ^ 64 - 60 + t0 → validate_authentication t token secret aud = Some false.
Proof.
  intros Ht0. unfold sign_token, unix_t_s. rewrite (proj2 (Z.ltb_ge t0 0)) by lia. simpl.
  rewrite (arith_fits _ 64 (t0 + 60 * 60)) by lia.
  rewrite (arith_fits _ 64 (t0 + 60 * 60)) by lia. simpl.
  rewrite (arith_overflow 64 (t0 - 60)) by lia. split; [done|].
  unfold arith. destruct (is_uint 64 (t0 - 60)) eqn:Hu; [apply is_uint_spec in Hu; lia|].
  assert (Hw : wrap 64 (t0 - 60) = 2 ^ 64 + t0 - 60).
  { unfold wrap. symmetry. apply Z.mod_unique with (-1); lia. }
  rewrite Hw. simpl. edestruct sign_total as [token Htok]. exists token. split; [exact Htok|].
  intros t Ht. apply verify_sign in Htok. unfold validate_authentication, unix_t_s. rewrite Htok.
  rewrite (proj2 (Z.ltb_ge t 0)) by lia. simpl. rewrite decide_False by naive_solver.
  f_equal. apply andb_false_iff. right. apply Z.ltb_ge. lia.
Qed.
End auth.

(** ** A concrete signer

    The token is the encoding of the claims and of the key: nothing secret,
    but it satisfies the law. *)

Module PlainJwt.

Definition fields : Type :=
  (option string * option string * option string * option Z * option Z * option Z * option string)%type.

Definition to_fields (c : RegisteredClaims) : fields :=
  (issuer c, subject c, audience c, expiration c, not_before c, issued_at c, json_web_token_id c).

Definition of_fields (f : fields) : RegisteredClaims :=
  let '(a, b, c, d, e, g, h) := f in
  {| issuer := a; subject := b; audience := c; expiration := d; not_before := e;
     issued_at := g; json_web_token_id := h |}.

Lemma of_to_fields c : of_fields (to_fields c) = c.
Proof. by destruct c. Qed.

Definition sign (c : RegisteredClaims) (k : string) : option string :=
  Some (String.string_of_list_byte (bytes_of (to_fields c, k))).

Definition verify (token k : string) : option RegisteredClaims :=
  x ← of_bytes (A := fields * string) (String.list_byte_of_string token);
  if decide (x.2 = k) then Some (of_fields x.1) else None.

#[export] Instance jwt : Jwt := {
  Key := string;
  new_from_slice s := Some s;
  sign_with_key := sign;
  verify_with_key := verify;
}.

#[global] Instance jwt_laws : JwtLaws jwt.
Proof.
  split; [by eexists|]. intros c k token [= <-]. simpl. unfold verify.
  rewrite String.list_byte_of_string_of_list_byte, of_bytes_of. simpl.
  rewrite decide_True by done. by destruct c.
Qed.

End PlainJwt.

(** ** Evaluation on concrete inputs *)

Definition demo_token (prof : profile) (t : Z) (aud : option string) : string :=
  default "" (sign_token (J := PlainJwt.jwt) prof t "secret" aud).

Lemma validate_authentication_iff_witness :
  validate_authentication (J := PlainJwt.jwt) 1000 (demo_token Debug 1000 (Some "my_aud")) "secret" (Some "my_aud")
    = Some true.
Proof.
  apply (validate_authentication_iff (J := PlainJwt.jwt)); [lia|].
  eexists _, 4600. split_and!; [vm_compute; reflexivity|reflexivity|reflexivity|lia|].
  intros nbf [= <-]. lia.
Defined.

Lemma audience_separation_witness :
  validate_authentication (J := PlainJwt.jwt) 2000 (demo_token Debug 1000 (Some "vm-1")) "secret" (Some "vm-2")
    = Some false.
Proof.
  apply (audience_separation (J := PlainJwt.jwt) 1000 2000 _ "secret" (Some "vm-1"));
    [vm_compute; reflexivity|done].
Defined.

Lemma sign_then_validate_witness :
  validate_authentication (J := PlainJwt.jwt) 4599 (demo_token Debug 1000 None) "secret" None = Some true ∧
  validate_authentication (J := PlainJwt.jwt) 4600 (demo_token Debug 1000 None) "secret" None = Some false.
Proof.
  split.
  - rewrite (sign_then_validate (J := PlainJwt.jwt) Debug 1000 4599 "secret" None);
      [reflexivity|lia|lia|vm_compute; reflexivity].
  - rewrite (sign_then_validate (J := PlainJwt.jwt) Debug 1000 4600 "secret" None);
      [reflexivity|lia|lia|vm_compute; reflexivity].
Defined.

Lemma sign_token_first_minute_witness :
  sign_token (J := PlainJwt.jwt) Debug 30 "secret" None = None.
Proof. apply (sign_token_first_minute (J := PlainJwt.jwt) 30 "secret" None). lia. Defined.
