(* ===== verification/HostOps.v ===== *)
(** * What nodemanager asks of the host

    The interface [HostI] lists the operations through which the nodemanager
    crate acts on the machine it runs on: external commands, the jailer
    process, the file system, Firecracker's HTTP API, the guest's socket and
    the channels of the tokio runtime.  Everything behind it (the kernel,
    iptables, Firecracker, tokio) is the environment. *)

From S2P Require Import Prelude Bytes Vmproto.

(** ** Paths

    A [Path] is its sequence of components, as [Path::components] gives
    them; the root directory of an absolute path is the component ["/"]. *)

Abbreviation Path := (list string).

(** [base.join(p)]: an absolute [p] replaces [base]. *)
Definition path_join (base p : Path) : Path :=
  match p with
  | "/" :: _ => p
  | _ => base ++ p
  end.

(** [path.file_name()] *)
Definition file_name (p : Path) : option string :=
  match last p with
  | None | Some "/" | Some "." | Some ".." => None
  | Some c => Some c
  end.

(** [path.parent()] *)
Definition parent (p : Path) : option Path :=
  match last p with
  | None | Some "/" => None
  | Some _ => Some (removelast p)
  end.

(** The path as a string, for an argument of a command. *)
Definition show_path (p : Path) : string :=
  match p with
  | "/" :: p => "/" +:+ join "/" p
  | _ => join "/" p
  end.

Lemma parent_snoc p c : c ≠ "/" → parent (p ++ [c]) = Some p.
Proof.
  intros Hc. unfold parent. rewrite last_snoc, removelast_last.
  destruct (decide (c = "/")) as [->|]; [done|].
  repeat (match goal with |- context [match ?x with _ => _ end] => destruct x end; try done).
Qed.

(** ** Data that reaches the environment *)

(** src/nodemanager/src/machine/vsock.rs *)
Inductive MachineExit : Set :=
| ExitUnknown
| ExitContainer (code : Z)
| ExitGraceful
| ExitFailedToPull.

Inductive MachineLog : Set :=
| VmLog (m : LogMessage)
| StateLog (s : InitVmState) (ts : Z).

#[export] Instance machine_exit_eq_dec : EqDecision MachineExit.
Proof. solve_decision. Defined.
#[export] Instance machine_log_eq_dec : EqDecision MachineLog.
Proof. solve_decision. Defined.

(** How a spawned command ended: it could not be started, could not be
    waited for, or exited with a code ([None] when a signal killed it). *)
Inductive cmd_status : Set := SpawnError | WaitError | ExitStatus (code : option Z).

(** async_process::Stdio, as far as it is used. *)
Inductive Stdio : Set := StdioInherit | StdioNull.

#[export] Instance stdio_eq_dec : EqDecision Stdio.
Proof. solve_decision. Defined.

(** http::Method, as far as it is used. *)
Inductive Method : Set := GET | PUT.

#[export] Instance method_eq_dec : EqDecision Method.
Proof. solve_decision. Defined.

Inductive api_answer : Set := TransportError | StatusCode (code : Z).

Inductive accept_answer : Set := Accepted | AcceptError | AcceptElapsed.

(** ** The operations *)

Inductive HostOp : Set :=
(* networking.rs *)
| RunCommand (prog : string) (args : list string)
(* firecracker.rs *)
| NewUuid
| CreateDirAll (p : Path)
| WriteFile (p : Path) (contents : string)
| SpawnJailer (prog : Path) (args : list string) (env_cleared : bool) (stdin stdout stderr : Stdio)
| PathExists (p : Path)
| SleepMicros (n : Z)
| ApiConnect (p : Path)
| ApiRequest (uuid route : string) (method : Method) (body : string)
| CopyFile (src dst : Path)
| Chown (p : Path) (uid gid : Z)
| CreateFile (p : Path)
| SetLen (p : Path) (len : Z)
| BindUnix (p : Path)
| KillChild (uuid : string)
| RemoveDirAll (p : Path)
(* machine.rs *)
| RandomU32
| VarIsSet (name : string)
| AcceptTimeout (p : Path) (ms : Z)
| LockCommTimeout (ms : Z)
| JoinTimeout (ms : Z)
(* vsock.rs *)
| LockComm
| NewChannel (capacity : Z)
| TrySend (subscriber : Z) (l : MachineLog)
| StreamWriteAll (data : list byte)
| StreamFlush
| TryLockComm
| SendStop (e : MachineExit)
(* manager.rs *)
| NotifyExit (uuid : string) (e : MachineExit)
(* main.rs *)
| BuildRuntime (worker_threads : Z)
| ReadToString (p : Path)
| ServeGrpc (addr : string)
| CtrlC.

(** [LockComm] takes the lock of a machine's communicator; its answer is the
    packets that machine's packet handler dealt with under that lock while
    this task waited for it, and whether it then found that no further packet
    can be read.

    The answers; a [bool] is whether the operation returned [Ok] (or, for
    [PathExists] and [VarIsSet], the boolean asked for). *)
Definition host_ans (o : HostOp) : Set :=
  match o with
  | RunCommand _ _ => cmd_status
  | NewUuid => string
  | ApiRequest _ _ _ _ => api_answer
  | AcceptTimeout _ _ => accept_answer
  | RandomU32 => Z
  | NewChannel _ => Z
  | SleepMicros _ => unit
  | ReadToString _ => option string
  | LockComm => list GuestPacket * bool
  | _ => bool
  end.

Definition HostI : Iface := {| op := HostOp; ans := host_ans |}.

#[export] Instance host_op_eq_dec : EqDecision HostOp.
Proof. solve_decision. Defined.

(** ** Errors

    [anyhow::Error] values: what failed, as far as the code distinguishes. *)
Inductive HostError : Set :=
| CommandNotRun (prog : string)
| CommandFailed (prog : string) (args : list string)
| IoFailed (o : HostOp)
| Message (s : string)
| SerializeFailed.

(** A fallible operation followed by [?]. *)
Definition io `{Environment HostI} {S} (o : HostOp) (is_err : host_ans o → bool)
    : eff HostI S HostError () :=
  a ← perform (I := HostI) o;
  if is_err a then throw (IoFailed o) else mret ().

Abbreviation run_io o := (io o negb).

(** ** Traces of host operations *)

(** The commands of a trace with what became of them. *)
Definition command_of (e : entry HostI) : option (string * list string * cmd_status) :=
  let 'existT o s := e in
  match o return host_ans o → option (string * list string * cmd_status) with
  | RunCommand p a => λ s, Some (p, a, s)
  | _ => λ _, None
  end s.

Definition commands (t : history HostI) : list (string * list string * cmd_status) :=
  omap command_of t.

Definition command_lines (t : history HostI) : list (string * list string) :=
  fst <$> commands t.

Lemma commands_app t u : commands (t ++ u) = commands t ++ commands u.
Proof. apply omap_app. Qed.

Lemma command_lines_app t u : command_lines (t ++ u) = command_lines t ++ command_lines u.
Proof. unfold command_lines. by rewrite commands_app, fmap_app. Qed.

Definition succeeded (s : cmd_status) : bool :=
  match s with ExitStatus (Some c) => (c =? 0)%Z | _ => false end.
Arguments succeeded : simpl never.

(** ** Concrete environments, for evaluation *)

(** Everything succeeds; a command exits with the status [f] gives it. *)
Definition env_with (f : string → list string → cmd_status) : Environment HostI := λ _ o,
  match o return host_ans o with
  | RunCommand p a => f p a
  | NewUuid => "0f8fad5b-d9cb-469f-a165-70867728950e"
  | ApiRequest _ _ _ _ => StatusCode 204
  | AcceptTimeout _ _ => Accepted
  | RandomU32 => 4242%Z
  | NewChannel _ => 0%Z
  | SleepMicros _ => ()
  | ReadToString _ => Some ""
  | LockComm => ([], false)
  | CreateDirAll _ | WriteFile _ _ | SpawnJailer _ _ _ _ _ _ | PathExists _ | ApiConnect _
  | CopyFile _ _ | Chown _ _ _ | CreateFile _ | SetLen _ _ | BindUnix _ | KillChild _
  | RemoveDirAll _ | VarIsSet _ | LockCommTimeout _ | JoinTimeout _ | TrySend _ _
  | StreamWriteAll _ | StreamFlush | TryLockComm | SendStop _ | NotifyExit _ _
  | BuildRuntime _ | ServeGrpc _ | CtrlC => true
  end.

Definition env_ok : Environment HostI := env_with (λ _ _, ExitStatus (Some 0%Z)).

(** The program [p] with first argument [a] fails, everything else works. *)
Definition env_failing (p a : string) : Environment HostI :=
  env_with (λ p' args,
    if bool_decide (p' = p ∧ head args = Some a) then ExitStatus (Some 1%Z) else ExitStatus (Some 0%Z)).
