(* ===== verification/Networking.v ===== *)
(** * Virtual networks of the microVMs (src/nodemanager/src/networking.rs)

    [TunTap] devices, [IpRuleBook]s, [NetworkStack]s and the
    [NetworkManager] that numbers them.  A destructor ([impl Drop]) is a
    function [drop_...] called where the value goes out of scope. *)

From S2P Require Import Prelude Bytes Vmproto HostOps.

(** ** Ipv4Addr *)

Record Ipv4Addr : Set := Ipv4 { oct_a : Z; oct_b : Z; oct_c : Z; oct_d : Z }.

#[export] Instance ipv4_eq_dec : EqDecision Ipv4Addr.
Proof. solve_decision. Defined.

(** [addr.to_string()] *)
Definition show_ipv4 (a : Ipv4Addr) : string :=
  pretty (oct_a a) +:+ "." +:+ pretty (oct_b a) +:+ "." +:+ pretty (oct_c a) +:+ "." +:+ pretty (oct_d a).

(** ** Data *)

Record TunTap : Set := { name : string }.

Record IpRuleBook : Set := { delete_args : list (list string) }.

Record NetworkStack : Set := {
  ipv4_addr : Ipv4Addr;
  gateway : Ipv4Addr;
  nic : TunTap;
  ip_rule_book : IpRuleBook;
}.

Record NetworkStackSlot : Set := {
  slot_ipv4_addr : Ipv4Addr;
  slot_gateway : Ipv4Addr;
  tap_dev_name : string;
}.

Record NetworkManager : Set := {
  recovered_slots : list NetworkStackSlot;
  next_id : Z;
  global_rules : IpRuleBook;
}.

#[export] Instance slot_eq_dec : EqDecision NetworkStackSlot.
Proof. solve_decision. Defined.

Definition subnet_mask (s : NetworkStack) : string := "255.255.255.252".

Definition set_rule_book (b : IpRuleBook) (s : NetworkStack) : NetworkStack :=
  {| ipv4_addr := ipv4_addr s; gateway := gateway s; nic := nic s; ip_rule_book := b |}.

Definition set_next_id (n : Z) (m : NetworkManager) : NetworkManager :=
  {| recovered_slots := recovered_slots m; next_id := n; global_rules := global_rules m |}.

Definition set_recovered (l : list NetworkStackSlot) (m : NetworkManager) : NetworkManager :=
  {| recovered_slots := l; next_id := next_id m; global_rules := global_rules m |}.

Section networking.
Context `{Env : Environment HostI}.

(** ** Commands *)

Definition cmd {S} (prog : string) (args : list string) : eff HostI S HostError () :=
  s ← perform (I := HostI) (RunCommand prog args);
  match s with
  | SpawnError | WaitError => throw (CommandNotRun prog)
  | ExitStatus c =>
      if succeeded (ExitStatus c) then mret () else throw (CommandFailed prog args)
  end.

(** ** TunTap *)

Definition tuntap_new {S} (n : string) : eff HostI S HostError TunTap :=
  cmd "ip" ["tuntap"; "add"; n; "mode"; "tap"];;
  mret {| name := n |}.

Definition add_address {S} (t : TunTap) (cidr : string) : eff HostI S HostError () :=
  cmd "ip" ["addr"; "add"; cidr; "dev"; name t].

Definition up {S} (t : TunTap) : eff HostI S HostError () :=
  cmd "ip" ["link"; "set"; name t; "up"].

Definition drop_tuntap {S} (t : TunTap) : eff HostI S HostError () :=
  ignore (cmd (S := S) "ip" ["link"; "del"; name t]).

(** ** IpRuleBook *)

Definition ip_rule_book_new : IpRuleBook := {| delete_args := [] |}.

Definition add_ip_rule (args delete : list string) : eff HostI IpRuleBook HostError () :=
  cmd "iptables-nft" args;;
  modify (λ b, {| delete_args := delete_args b ++ [delete] |}).

Definition replace_first_arg (args : list string) (delete_replace_arg : string) : list string :=
  delete_replace_arg :: drop 1 args.

Definition add_ip_rule_replace_first_arg (args : list string) (delete_replace_arg : string)
    : eff HostI IpRuleBook HostError () :=
  add_ip_rule args (replace_first_arg args delete_replace_arg).

Definition drop_ip_rule_book {S} (b : IpRuleBook) : eff HostI S HostError () :=
  for_each (λ rule, ignore (cmd (S := S) "iptables-nft" rule)) (delete_args b).

(** ** NetworkStack *)

(** Fields are dropped in declaration order. *)
Definition drop_network_stack {S} (s : NetworkStack) : eff HostI S HostError () :=
  drop_tuntap (nic s);;
  drop_ip_rule_book (ip_rule_book s).

(** The tap device is a local of [new]: an error after its creation
    drops it. *)
Definition network_stack_new {S} (slot : NetworkStackSlot) : eff HostI S HostError NetworkStack :=
  tap ← tuntap_new (tap_dev_name slot);
  r ← owned drop_tuntap tap
        (t ← get;
         add_address t (show_ipv4 (slot_gateway slot) +:+ "/30");;
         up t);
  mret {| ipv4_addr := slot_ipv4_addr slot;
          gateway := slot_gateway slot;
          nic := r.2;
          ip_rule_book := ip_rule_book_new |}.

Definition on_rules (m : eff HostI IpRuleBook HostError ()) : eff HostI NetworkStack HostError () :=
  zoom ip_rule_book set_rule_book m.

Definition setup_public_nat (outbound_if_name : string) : eff HostI NetworkStack HostError () :=
  s ← get;
  let addr := show_ipv4 (ipv4_addr s) in
  let nic_name := name (nic s) in
  on_rules (add_ip_rule_replace_first_arg
    ["-A"; "POSTROUTING"; "-t"; "nat"; "-o"; outbound_if_name; "-s"; addr; "-j"; "MASQUERADE"]
    "-D");;
  on_rules (add_ip_rule_replace_first_arg
    ["-A"; "FORWARD"; "-i"; nic_name; "-o"; outbound_if_name; "-j"; "ACCEPT"]
    "-D").

Definition setup_forwarding (inbound_if_name : string) (inbound_port guest_port : Z)
    : eff HostI NetworkStack HostError () :=
  s ← get;
  let nic_name := name (nic s) in
  on_rules (add_ip_rule_replace_first_arg
    ["-A"; "PREROUTING"; "-t"; "nat"; "-i"; inbound_if_name; "-p"; "tcp";
     "--dport"; pretty inbound_port; "-j"; "DNAT";
     "--to-destination"; show_ipv4 (ipv4_addr s) +:+ ":" +:+ pretty guest_port]
    "-D");;
  on_rules (add_ip_rule_replace_first_arg
    ["-I"; "FORWARD"; "-i"; nic_name; "-o"; inbound_if_name; "-p"; "tcp";
     "--sport"; pretty guest_port; "-m"; "state"; "--state"; "ESTABLISHED,RELATED";
     "-j"; "ACCEPT"]
    "-D");;
  on_rules (add_ip_rule_replace_first_arg
    ["-I"; "FORWARD"; "-i"; inbound_if_name; "-o"; nic_name; "-p"; "tcp";
     "--dport"; pretty guest_port; "-m"; "state"; "--state"; "NEW,ESTABLISHED,RELATED";
     "-j"; "ACCEPT"]
    "-D").

(** [reclaim(self)] builds the slot, then [self] goes out of scope. *)
Definition network_stack_reclaim {S} (s : NetworkStack) : eff HostI S HostError NetworkStackSlot :=
  drop_network_stack s;;
  mret {| slot_ipv4_addr := ipv4_addr s;
          slot_gateway := gateway s;
          tap_dev_name := name (nic s) |}.

(** ** NetworkManager *)

(** On a failing rule the local rule book is dropped. *)
Definition network_manager_new {S} : eff HostI S HostError NetworkManager :=
  r ← owned drop_ip_rule_book ip_rule_book_new
        (add_ip_rule_replace_first_arg
           ["-I"; "FORWARD"; "-m"; "conntrack"; "--ctstate"; "RELATED,ESTABLISHED"; "-j"; "ACCEPT"]
           "-D");
  mret {| recovered_slots := []; next_id := 0; global_rules := r.2 |}.

Variable prof : profile.

(** u16 arithmetic on the identifiers. *)
Definition next_slot : eff HostI NetworkManager HostError NetworkStackSlot :=
  m ← get;
  match vec_pop (recovered_slots m) with
  | Some (slot, rest) =>
      modify (set_recovered rest);;
      mret slot
  | None =>
      let id := next_id m in
      next ← or_panic (arith prof 16 (id + 1));
      modify (set_next_id next);;
      let tap_dev_name := "tap" +:+ pretty id in
      id4 ← or_panic (arith prof 16 (id * 4));
      ip_id ← or_panic (arith prof 16 (id4 + 1));
      let first_half := wrap 8 (Z.shiftr ip_id 8) in
      let second_half := wrap 8 (Z.land ip_id 255) in
      let gateway := Ipv4 172 16 first_half second_half in
      host ← or_panic (arith prof 8 (second_half + 1));
      let ipv4_addr := Ipv4 172 16 first_half host in
      mret {| slot_ipv4_addr := ipv4_addr; slot_gateway := gateway; tap_dev_name := tap_dev_name |}
  end.

Definition provision_stack : eff HostI NetworkManager HostError NetworkStack :=
  slot ← next_slot;
  network_stack_new slot.

Definition reclaim (stack : NetworkStack) : eff HostI NetworkManager HostError () :=
  slot ← network_stack_reclaim stack;
  modify (λ m, set_recovered (recovered_slots m ++ [slot]) m).
End networking.

(** ** Commands: what they do to the trace *)

Definition cmd_error (prog : string) (args : list string) (a : cmd_status) : HostError :=
  match a with
  | SpawnError | WaitError => CommandNotRun prog
  | ExitStatus _ => CommandFailed prog args
  end.

Section facts.
Context `{Env : Environment HostI}.

Lemma wp_cmd_eq {S} prog args (s : S) h (Q : outcome HostError () → S → history HostI → Prop) :
  (let a := respond h (RunCommand prog args : op HostI) in
   Q (if succeeded a then Ok () else Err (cmd_error prog args a)) s
     [existT (RunCommand prog args : op HostI) a]) →
  wp (cmd prog args) s h Q.
Proof.
  simpl. generalize (eq_refl (respond h (RunCommand prog args : op HostI))).
  generalize (respond h (RunCommand prog args : op HostI)) at 2 3 4 5.
  intros a Ha HQ. unfold cmd. wp_step.
  apply (@wp_perform HostI _ _ _ (RunCommand prog args)). intros ? ->. simpl in *. rewrite Ha.
  destruct a as [| |c]; [by wp_steps..|].
  by destruct c as [[| |]|]; wp_steps.
Qed.

Lemma wp_cmd {S} prog args (s : S) h (Q : outcome HostError () → S → history HostI → Prop) :
  (∀ a, Q (if succeeded a then Ok () else Err (cmd_error prog args a)) s
          [existT (RunCommand prog args : op HostI) a]) →
  wp (cmd prog args) s h Q.
Proof. intros HQ. apply wp_cmd_eq. apply HQ. Qed.

Lemma wp_ignore_cmd {S} prog args (s : S) h (Q : outcome HostError () → S → history HostI → Prop) :
  (∀ a, Q (Ok ()) s [existT (RunCommand prog args : op HostI) a]) →
  wp (ignore (cmd prog args)) s h Q.
Proof.
  intros HQ. wp_step. apply wp_cmd. intros a. by destruct (succeeded a).
Qed.

(** Dropping a rule book runs each of its delete commands once, in
    order, and ignores their failures. *)
Lemma drop_ip_rule_book_spec {S} (b : IpRuleBook) (s : S) h :
  ⟪ s , h ⟫ drop_ip_rule_book b ⟪ o s' t ,
    o = Ok () ∧ s' = s ∧
    command_lines t = pair "iptables-nft" <$> delete_args b ∧ length t = length (delete_args b) ⟫.
Proof.
  unfold drop_ip_rule_book.
  pose proof (wp_for_each (λ rule, ignore (cmd (S := S) "iptables-nft" rule))
    (λ d s' t, s' = s ∧ command_lines t = pair "iptables-nft" <$> d ∧ length t = length d)
    (λ o s' t, o = Ok () ∧ s' = s ∧
       command_lines t = pair "iptables-nft" <$> delete_args b ∧ length t = length (delete_args b))
    (delete_args b) [] s h []) as Hloop.
  rewrite app_nil_r in Hloop. apply Hloop; [done| |by intros s1 t1 (-> & ? & ?)].
  intros d rule rest s1 t1 _ (-> & Ht & Hl). apply wp_ignore_cmd. intros a.
  rewrite command_lines_app, fmap_app, Ht, !length_app, Hl. done.
Qed.

Lemma drop_network_stack_spec {S} (n : NetworkStack) (s : S) h :
  ⟪ s , h ⟫ drop_network_stack n ⟪ o s' t ,
    o = Ok () ∧ s' = s ∧
    command_lines t =
      ("ip", ["link"; "del"; name (nic n)])
        :: (pair "iptables-nft" <$> delete_args (ip_rule_book n)) ⟫.
Proof.
  unfold drop_network_stack, drop_tuntap. wp_step. apply wp_ignore_cmd. intros a.
  wp_use (drop_ip_rule_book_spec (S := S) (ip_rule_book n)).
  intros o s' t (-> & -> & Ht & _). rewrite command_lines_app, Ht. done.
Qed.

(** ** Rules recorded by a stack *)

(** The iptables rules a trace added successfully, and the deletions it
    asked for. *)
Definition is_delete (args : list string) : bool :=
  match args with a :: _ => bool_decide (a = "-D") | [] => false end.

Definition added_rules (t : history HostI) : list (list string) :=
  omap (λ '(p, a, s),
    if bool_decide (p = "iptables-nft") && negb (is_delete a) && succeeded s then Some a else None)
    (commands t).

Definition deleted_rules (t : history HostI) : list (list string) :=
  omap (λ '(p, a),
    if bool_decide (p = "iptables-nft") && is_delete a then Some a else None)
    (command_lines t).

Definition delete_of (rule : list string) : list string := replace_first_arg rule "-D".

Lemma added_rules_app t u : added_rules (t ++ u) = added_rules t ++ added_rules u.
Proof. unfold added_rules. by rewrite commands_app, omap_app. Qed.

Lemma deleted_rules_app t u : deleted_rules (t ++ u) = deleted_rules t ++ deleted_rules u.
Proof. unfold deleted_rules. by rewrite command_lines_app, omap_app. Qed.

(** What a call on a rule book does: it records the rules it added, and
    only those, whatever its outcome. *)
Definition records (b b' : IpRuleBook) (t : history HostI) : Prop :=
  delete_args b' = delete_args b ++ (delete_of <$> added_rules t) ∧ deleted_rules t = [].

Lemma add_rule_records args (b : IpRuleBook) h :
  is_delete args = false →
  ⟪ b , h ⟫ add_ip_rule_replace_first_arg args "-D" ⟪ o b' t ,
    records b b' t ∧ o ≠ Panic ∧ (o = Ok () → added_rules t = [args]) ∧
    command_lines t = [("iptables-nft", args)] ⟫.
Proof.
  intros Hadd. unfold add_ip_rule_replace_first_arg, add_ip_rule. wp_step. apply wp_cmd.
  intros a. unfold records, added_rules, deleted_rules. simpl. rewrite Hadd. simpl.
  destruct (succeeded a) eqn:Ha; wp_steps; simpl; rewrite ?Ha, ?Hadd; simpl.
  - done.
  - by rewrite app_nil_r.
Qed.

(** It fails only because iptables refused this very rule, and then records
    nothing. *)
Lemma add_rule_fails args (b : IpRuleBook) h :
  ⟪ b , h ⟫ add_ip_rule_replace_first_arg args "-D" ⟪ o b' t , ∀ e, o = Err e →
    b' = b ∧ ∃ a, t = [existT (RunCommand "iptables-nft" args : op HostI) a] ∧ succeeded a = false ⟫.
Proof.
  unfold add_ip_rule_replace_first_arg, add_ip_rule. wp_step. apply wp_cmd.
  intros a. destruct (succeeded a) eqn:Ha; wp_steps; [done|].
  intros e _. split; [done|]. by exists a.
Qed.

Definition same_stack (s s' : NetworkStack) : Prop :=
  ipv4_addr s' = ipv4_addr s ∧ gateway s' = gateway s ∧ nic s' = nic s.

Lemma on_rules_records args (s : NetworkStack) h :
  is_delete args = false →
  ⟪ s , h ⟫ on_rules (add_ip_rule_replace_first_arg args "-D") ⟪ o s' t ,
    records (ip_rule_book s) (ip_rule_book s') t ∧ same_stack s s' ∧ o ≠ Panic ∧
    (o = Ok () → added_rules t = [args]) ∧ command_lines t = [("iptables-nft", args)] ⟫.
Proof.
  intros Hadd. unfold on_rules. wp_step. wp_use add_rule_records; [done|].
  intros o b' t (? & ? & ? & ?). unfold same_stack. auto.
Qed.

Lemma records_trans b b1 b2 t u : records b b1 t → records b1 b2 u → records b b2 (t ++ u).
Proof.
  unfold records. intros [H1 H1'] [H2 H2'].
  by rewrite H2, H1, added_rules_app, deleted_rules_app, fmap_app, app_assoc, H1', H2'.
Qed.

Lemma same_stack_trans s s1 s2 : same_stack s s1 → same_stack s1 s2 → same_stack s s2.
Proof. unfold same_stack. intros (? & ? & ?) (? & ? & ?). split_and!; congruence. Qed.

(** A sequence of rule additions that stops at the first failure. *)
Definition add_rules (l : list (list string)) : eff HostI NetworkStack HostError () :=
  for_each (λ args, on_rules (add_ip_rule_replace_first_arg args "-D")) l.

Lemma add_rules_spec (l : list (list string)) (s : NetworkStack) h :
  Forall (λ args, is_delete args = false) l →
  ⟪ s , h ⟫ add_rules l ⟪ o s' t ,
    records (ip_rule_book s) (ip_rule_book s') t ∧ same_stack s s' ∧ o ≠ Panic ∧
    (o = Ok () → added_rules t = l) ∧
    command_lines t `prefix_of` (pair "iptables-nft" <$> l) ⟫.
Proof.
  intros Hl. unfold add_rules.
  pose proof (wp_for_each (λ args, on_rules (add_ip_rule_replace_first_arg args "-D"))
    (λ d s' t, records (ip_rule_book s) (ip_rule_book s') t ∧ same_stack s s' ∧
       added_rules t = d ∧ command_lines t = pair "iptables-nft" <$> d)
    (λ o s' t, records (ip_rule_book s) (ip_rule_book s') t ∧ same_stack s s' ∧ o ≠ Panic ∧
       (o = Ok () → added_rules t = l) ∧ command_lines t `prefix_of` (pair "iptables-nft" <$> l))
    l [] s h []) as Hloop.
  rewrite app_nil_r in Hloop. apply Hloop.
  - unfold records. by rewrite app_nil_r.
  - intros d x l' s1 t1 Heq (Hr & Hs & Ha & Hc). simpl in Heq. subst l.
    apply Forall_app in Hl as [_ [Hx _]%Forall_cons].
    wp_use on_rules_records; [done|]. intros o s2 t2 (Hr2 & Hs2 & Hnp & Ha2 & Hc2).
    pose proof (records_trans _ _ _ _ _ Hr Hr2). pose proof (same_stack_trans _ _ _ Hs Hs2).
    destruct o as [[]|e|]; [| |done].
    + rewrite added_rules_app, command_lines_app, Ha, Hc, Hc2, Ha2, fmap_app by done. done.
    + rewrite command_lines_app, Hc, Hc2, fmap_app, fmap_cons. split_and!; try done.
      exists (pair "iptables-nft" <$> l'). by rewrite <-app_assoc.
  - intros s1 t1 (? & ? & ? & Hc). simpl in *. rewrite Hc. done.
Qed.

(** The rules of each operation. *)
Definition nat_rules (s : NetworkStack) (out_if : string) : list (list string) :=
  [["-A"; "POSTROUTING"; "-t"; "nat"; "-o"; out_if; "-s"; show_ipv4 (ipv4_addr s); "-j"; "MASQUERADE"];
   ["-A"; "FORWARD"; "-i"; name (nic s); "-o"; out_if; "-j"; "ACCEPT"]].

Definition forwarding_rules (s : NetworkStack) (in_if : string) (in_port guest_port : Z)
    : list (list string) :=
  [["-A"; "PREROUTING"; "-t"; "nat"; "-i"; in_if; "-p"; "tcp"; "--dport"; pretty in_port;
    "-j"; "DNAT"; "--to-destination"; show_ipv4 (ipv4_addr s) +:+ ":" +:+ pretty guest_port];
   ["-I"; "FORWARD"; "-i"; name (nic s); "-o"; in_if; "-p"; "tcp"; "--sport"; pretty guest_port;
    "-m"; "state"; "--state"; "ESTABLISHED,RELATED"; "-j"; "ACCEPT"];
   ["-I"; "FORWARD"; "-i"; in_if; "-o"; name (nic s); "-p"; "tcp"; "--dport"; pretty guest_port;
    "-m"; "state"; "--state"; "NEW,ESTABLISHED,RELATED"; "-j"; "ACCEPT"]].

Lemma setup_public_nat_rules out_if s h :
  setup_public_nat out_if s h = add_rules (nat_rules s out_if) s h.
Proof.
  unfold setup_public_nat. rewrite get_bind. apply seq_cong. intros.
  symmetry. apply seq_ret_unit.
Qed.

Lemma setup_forwarding_rules in_if in_port guest_port s h :
  setup_forwarding in_if in_port guest_port s h =
  add_rules (forwarding_rules s in_if in_port guest_port) s h.
Proof.
  unfold setup_forwarding. rewrite get_bind. do 2 (apply seq_cong; intros).
  symmetry. apply seq_ret_unit.
Qed.
End facts.

(** ** Slots and their identifiers *)

(** The number of /30 networks the 16-bit identifiers can address. *)
Definition max_slots : Z := 16384.

Definition slot_of (id : Z) : NetworkStackSlot :=
  {| slot_ipv4_addr := Ipv4 172 16 (id `div` 64) (4 * (id `mod` 64) + 2);
     slot_gateway := Ipv4 172 16 (id `div` 64) (4 * (id `mod` 64) + 1);
     tap_dev_name := "tap" +:+ pretty id |}.

Definition stack_slot (s : NetworkStack) : NetworkStackSlot :=
  {| slot_ipv4_addr := ipv4_addr s; slot_gateway := gateway s; tap_dev_name := name (nic s) |}.

(** The address of an IPv4 address as a 32-bit number. *)
Definition ipv4_num (a : Ipv4Addr) : Z :=
  16777216 * oct_a a + 65536 * oct_b a + 256 * oct_c a + oct_d a.

(** Its /30 network. *)
Definition network30 (a : Ipv4Addr) : Z := ipv4_num a `div` 4.

Section slots.
Local Open Scope Z_scope.

Lemma slot_network id : 0 <= id →
  network30 (slot_ipv4_addr (slot_of id)) = 721682432 + id.
Proof.
  intros. unfold network30, ipv4_num. cbn [slot_of slot_ipv4_addr oct_a oct_b oct_c oct_d].
  pose proof (Z.div_mod id 64). symmetry. apply Z.div_unique with 2; lia.
Qed.

Lemma slot_of_inj i j : 0 <= i → 0 <= j →
  slot_ipv4_addr (slot_of i) = slot_ipv4_addr (slot_of j) → i = j.
Proof.
  intros Hi Hj Heq. pose proof (slot_network i Hi). pose proof (slot_network j Hj).
  rewrite Heq in *. lia.
Qed.

(** The octets computed from an in-range identifier. *)
Lemma octets id : 0 <= id < max_slots →
  wrap 8 (Z.shiftr (id * 4 + 1) 8) = id / 64 ∧ wrap 8 (Z.land (id * 4 + 1) 255) = 4 * (id mod 64) + 1.
Proof.
  unfold max_slots. intros Hid. unfold wrap. change 255 with (Z.ones 8).
  rewrite Z.land_ones, Z.shiftr_div_pow2, Zmod_mod by lia.
  change (2 ^ 8) with 256.
  pose proof (Z.div_mod id 64 ltac:(lia)). pose proof (Z.mod_pos_bound id 64 ltac:(lia)).
  split.
  - rewrite <-(Z.div_unique (id * 4 + 1) 256 (id / 64) (4 * (id mod 64) + 1)) by lia.
    apply Z.mod_small. lia.
  - symmetry. apply Z.mod_unique with (id / 64); lia.
Qed.
End slots.

Section manager_facts.
Context `{Env : Environment HostI} (prof : profile).
Local Open Scope Z_scope.

Lemma next_slot_recovered m h rest slot :
  recovered_slots m = rest ++ [slot] →
  next_slot prof m h = Run (Ok slot) (set_recovered rest m) [].
Proof.
  intros Hm. unfold next_slot. rewrite get_bind, Hm, vec_pop_snoc. done.
Qed.

Lemma next_slot_fresh m h :
  recovered_slots m = [] → 0 <= next_id m < max_slots →
  next_slot prof m h = Run (Ok (slot_of (next_id m))) (set_next_id (next_id m + 1) m) [].
Proof.
  intros Hm Hid. pose proof (octets _ Hid) as [Ho1 Ho2]. unfold max_slots in Hid.
  pose proof (Z.mod_pos_bound (next_id m) 64 ltac:(lia)).
  unfold next_slot. rewrite get_bind, Hm. cbn [vec_pop reverse rev_append].
  unfold vec_pop. simpl reverse. cbv iota.
  rewrite (arith_fits prof 16 (next_id m + 1)), (arith_fits prof 16 (next_id m * 4)) by lia.
  unfold mbind, eff_mbind, eff_bind. simpl.
  rewrite (arith_fits prof 16 (next_id m * 4 + 1)) by lia. simpl.
  rewrite Ho1, Ho2, arith_fits by lia. simpl.
  replace (4 * (next_id m mod 64) + 1 + 1) with (4 * (next_id m mod 64) + 2) by lia. done.
Qed.

(** Identifiers from 16384 on: a debug build panics. *)
Lemma next_slot_overflow_debug m h :
  recovered_slots m = [] → max_slots <= next_id m < 65536 →
  out (next_slot Debug m h) = Panic ∧
  (st (next_slot Debug m h) = m ∨ (next_id m < 65535 ∧ st (next_slot Debug m h) = set_next_id (next_id m + 1) m)) ∧
  tr (next_slot Debug m h) = [].
Proof.
  intros Hm Hid. unfold max_slots in Hid. unfold next_slot. rewrite get_bind, Hm.
  unfold vec_pop. simpl reverse. cbv iota.
  destruct (decide (next_id m = 65535)) as [Heq|].
  { rewrite (arith_overflow 16 (next_id m + 1)) by lia. eff_simpl. auto. }
  rewrite (arith_fits Debug 16 (next_id m + 1)) by lia.
  rewrite (arith_overflow 16 (next_id m * 4)) by lia. eff_simpl. auto with lia.
Qed.
End manager_facts.

(** ** The allocation invariant

    [slots_wf m live]: the slots in use and the recovered ones are those of
    pairwise distinct identifiers the manager has already handed out. *)

Definition slots_wf (m : NetworkManager) (live : list NetworkStackSlot) : Prop :=
  ∃ ids free : list Z,
    live ≡ₚ slot_of <$> ids ∧
    recovered_slots m = slot_of <$> free ∧
    NoDup (ids ++ free) ∧
    Forall (λ i, 0 ≤ i < max_slots ∧ i < next_id m)%Z (ids ++ free) ∧
    (0 ≤ next_id m < 65536)%Z.

#[export] Instance slots_wf_proper : Proper (eq ==> Permutation ==> iff) slots_wf.
Proof.
  intros m ? <- l1 l2 Hl. unfold slots_wf.
  split; intros (ids & free & Hp & H); exists ids, free; (split; [|exact H]).
  - by rewrite <-Hl.
  - by rewrite Hl.
Qed.

Section allocation.
Context `{Env : Environment HostI} (prof : profile).

(** Allocation leaves the rules of the node alone. *)
Lemma next_slot_global m h :
  ⟪ m , h ⟫ next_slot prof ⟪ _ m' _ , global_rules m' = global_rules m ⟫.
Proof. unfold next_slot. repeat first [wp_step | case_match | done]. Qed.

Lemma slots_wf_lose m s live : slots_wf m (s :: live) → slots_wf m live.
Proof.
  intros (ids & free & Hp & Hf & Hnd & Hall & ? & ?).
  assert (s ∈ slot_of <$> ids) as Hs by (rewrite <-Hp; left).
  apply list_elem_of_fmap in Hs as (i & -> & Hi).
  apply elem_of_Permutation in Hi as [ids' Hids].
  rewrite Hids in Hp, Hnd, Hall. simpl in *.
  apply NoDup_cons in Hnd as [_ ?]. apply Forall_cons in Hall as [_ ?].
  exists ids', free. split_and!; try done. by apply Permutation_cons_inv in Hp.
Qed.

Lemma slots_wf_reclaim m s live :
  slots_wf m (s :: live) → slots_wf (set_recovered (recovered_slots m ++ [s]) m) live.
Proof.
  intros (ids & free & Hp & Hf & Hnd & Hall & ? & ?).
  assert (s ∈ slot_of <$> ids) as Hs by (rewrite <-Hp; left).
  apply list_elem_of_fmap in Hs as (i & -> & Hi).
  apply elem_of_Permutation in Hi as [ids' Hids].
  assert (ids ++ free ≡ₚ ids' ++ free ++ [i]) as Hperm.
  { rewrite Hids. simpl. by rewrite app_assoc, <-Permutation_cons_append. }
  rewrite Hperm in Hnd, Hall. rewrite Hids in Hp. simpl in Hp.
  exists ids', (free ++ [i]). split_and!; try done; simpl.
  - by apply Permutation_cons_inv in Hp.
  - by rewrite Hf, fmap_app.
Qed.

Lemma next_slot_wf m live h :
  slots_wf m live →
  prof = Debug ∨ (next_id m < max_slots)%Z →
  ⟪ m , h ⟫ next_slot prof ⟪ o m' t ,
    t = [] ∧ (next_id m' ≤ next_id m + 1)%Z ∧
    match o with
    | Ok slot => slots_wf m' (slot :: live)
    | Err _ => False
    | Panic => prof = Debug ∧ slots_wf m' live
    end ⟫.
Proof.
  intros (ids & free & Hp & Hf & Hnd & Hall & ? & ?) Hroom. unfold wp.
  destruct free as [|i free' _] using rev_ind.
  - destruct (decide (next_id m < max_slots)%Z) as [Hlt|Hge].
    + rewrite next_slot_fresh; [|done|lia]. simpl. split_and!; [done|lia|].
      exists (next_id m :: ids), []. rewrite app_nil_r in *. simpl.
      unfold max_slots in *. split_and!; try lia; [by rewrite Hp|done| |].
      * apply NoDup_cons. split; [|done]. intros Hin.
        rewrite Forall_forall in Hall. specialize (Hall _ Hin). lia.
      * apply Forall_cons. split; [lia|].
        eapply Forall_impl; [exact Hall|]. simpl. lia.
    + destruct Hroom as [->|]; [|lia].
      destruct (next_slot_overflow_debug m h Hf ltac:(lia)) as (-> & Hst & ->).
      assert (Hinv : slots_wf m live) by (exists ids, []; done).
      destruct Hst as [->|[? ->]]; simpl; split_and!; try done; try lia.
      exists ids, []. split_and!; simpl; try done; try lia.
      eapply Forall_impl; [exact Hall|]. simpl. lia.
  - rewrite (next_slot_recovered prof m h (slot_of <$> free') (slot_of i)) by (by rewrite Hf, fmap_app).
    simpl. split_and!; [done|lia|].
    assert (ids ++ free' ++ [i] ≡ₚ (i :: ids) ++ free') as Hperm.
    { rewrite app_assoc, <-Permutation_cons_append. done. }
    rewrite Hperm in Hnd, Hall. exists (i :: ids), free'. split_and!; try done. simpl. by rewrite Hp.
Qed.
End allocation.

(** ** Stacks and their devices *)

Section stacks.
Context `{Env : Environment HostI}.

Definition tap_add (n : string) : string * list string := ("ip", ["tuntap"; "add"; n; "mode"; "tap"]).
Definition tap_del (n : string) : string * list string := ("ip", ["link"; "del"; n]).

(** The devices a trace created, and those it deleted. *)
Definition tap_created_by (c : string * list string * cmd_status) : option string :=
  match c with
  | (p, [x; y; n; z; w], s) =>
      if bool_decide (p = "ip" ∧ [x; y; z; w] = ["tuntap"; "add"; "mode"; "tap"]) && succeeded s
      then Some n else None
  | _ => None
  end.

Definition tap_deleted_by (c : string * list string) : option string :=
  match c with
  | (p, [x; y; n]) =>
      if bool_decide (p = "ip" ∧ [x; y] = ["link"; "del"]) then Some n else None
  | _ => None
  end.

Definition taps_created (t : history HostI) : list string := omap tap_created_by (commands t).

Definition taps_deleted (t : history HostI) : list string :=
  omap tap_deleted_by (command_lines t).

Lemma taps_created_app t u : taps_created (t ++ u) = taps_created t ++ taps_created u.
Proof. unfold taps_created. by rewrite commands_app, omap_app. Qed.

Lemma taps_deleted_app t u : taps_deleted (t ++ u) = taps_deleted t ++ taps_deleted u.
Proof. unfold taps_deleted. by rewrite command_lines_app, omap_app. Qed.

Lemma network_stack_new_spec {S} slot (s : S) h :
  ⟪ s , h ⟫ network_stack_new slot ⟪ o s' t ,
    s' = s ∧
    match o with
    | Ok n =>
        stack_slot n = slot ∧ delete_args (ip_rule_book n) = [] ∧
        taps_created t = [tap_dev_name slot] ∧ taps_deleted t = []
    | Err _ => taps_deleted t = taps_created t
    | Panic => False
    end ∧ added_rules t = [] ∧ deleted_rules t = [] ⟫.
Proof.
  unfold network_stack_new, tuntap_new, add_address, up.
  do 2 wp_step. apply wp_cmd. intros a0. destruct (succeeded a0) eqn:H0; wp_steps.
  2: { unfold taps_created, added_rules, deleted_rules. simpl. by rewrite H0. }
  apply wp_cmd. intros a1. destruct (succeeded a1) eqn:H1; wp_steps.
  - apply wp_cmd. intros a2. destruct (succeeded a2) eqn:H2; wp_steps.
    + unfold taps_created, taps_deleted, added_rules, deleted_rules. simpl. rewrite H0. by destruct slot.
    + unfold drop_tuntap. apply wp_ignore_cmd. intros a3.
      unfold taps_created, taps_deleted, added_rules, deleted_rules. simpl. by rewrite H0.
  - unfold drop_tuntap. apply wp_ignore_cmd. intros a3.
    unfold taps_created, taps_deleted, added_rules, deleted_rules. simpl. by rewrite H0.
Qed.

Lemma provision_stack_spec prof m live h :
  slots_wf m live →
  prof = Debug ∨ (next_id m < max_slots)%Z →
  ⟪ m , h ⟫ provision_stack prof ⟪ o m' t ,
    (next_id m' ≤ next_id m + 1)%Z ∧ added_rules t = [] ∧ deleted_rules t = [] ∧
    match o with
    | Ok n => slots_wf m' (stack_slot n :: live) ∧ delete_args (ip_rule_book n) = [] ∧
        taps_created t = [name (nic n)] ∧ taps_deleted t = []
    | _ => slots_wf m' live ∧ taps_deleted t = taps_created t
    end ⟫.
Proof.
  intros Hwf Hroom. unfold provision_stack. wp_step.
  wp_use (next_slot_wf prof m live h Hwf Hroom).
  intros [slot|e|] m1 t1 (-> & Hn & Hok); [|done|by destruct Hok].
  wp_use (network_stack_new_spec (S := NetworkManager)).
  intros [n|e|] m2 t2 (-> & H2 & Ha & Hd); simpl; [|split_and!; eauto using slots_wf_lose|done].
  destruct H2 as (Hs & ? & Ht & ?). subst slot. done.
Qed.

Lemma provision_stack_global prof m h :
  global_rules (st (provision_stack prof m h)) = global_rules m.
Proof.
  change (⟪ m , h ⟫ provision_stack prof ⟪ _ m' _ , global_rules m' = global_rules m ⟫).
  unfold provision_stack. wp_step. eapply wp_mono; [apply next_slot_global|].
  intros [slot|e|] m1 t1 Hm; [|done..]. wp_use (network_stack_new_spec (S := NetworkManager)).
  by intros o m2 t2 [-> _].
Qed.

Lemma reclaim_state m n h :
  st (reclaim n m h) = set_recovered (recovered_slots m ++ [stack_slot n]) m.
Proof.
  change (⟪ m , h ⟫ reclaim n ⟪ _ m' _ , m' = set_recovered (recovered_slots m ++ [stack_slot n]) m ⟫).
  unfold reclaim, network_stack_reclaim. do 2 wp_step.
  wp_use (drop_network_stack_spec (S := NetworkManager)). intros o m' t (-> & -> & _). by wp_steps.
Qed.

Lemma reclaim_spec m n live h :
  slots_wf m (stack_slot n :: live) →
  ⟪ m , h ⟫ reclaim n ⟪ o m' t ,
    o = Ok () ∧ slots_wf m' live ∧ next_id m' = next_id m ∧
    command_lines t =
      tap_del (name (nic n)) :: (pair "iptables-nft" <$> delete_args (ip_rule_book n)) ⟫.
Proof.
  intros Hwf. unfold reclaim, network_stack_reclaim. do 2 wp_step.
  wp_use (drop_network_stack_spec (S := NetworkManager)).
  intros o m' t (-> & -> & Ht). wp_steps. rewrite !app_nil_r. split_and!; try done.
  by apply slots_wf_reclaim.
Qed.
End stacks.

(** ** The network of a node over time

    A sequence of the operations the rest of the program performs on the
    manager and on the stacks it handed out, in any order: provisioning,
    adding rules to a live stack, reclaiming a stack, or losing one (it is
    dropped without being reclaimed). *)

Inductive net_op : Set :=
| NetProvision
| NetPublicNat (i : nat) (out_if : string)
| NetForward (i : nat) (in_if : string) (in_port guest_port : Z)
| NetReclaim (i : nat)
| NetLose (i : nat).

#[export] Instance net_op_eq_dec : EqDecision net_op.
Proof. solve_decision. Defined.

Record net_state : Type := {
  mgr : NetworkManager;
  live : list NetworkStack;
  past : history HostI;
}.

Class Held : Type := held : IpRuleBook → list (list string).

Definition none_held : Held := λ _, [].
Definition all_held : Held := delete_args.

Section net.
Context `{Env : Environment HostI} (prof : profile).

Definition net_on_stack (i : nat) (m : eff HostI NetworkStack HostError ()) (w : net_state) : net_state :=
  match live w !! i with
  | Some n =>
      let r := m n (past w) in
      {| mgr := mgr w; live := <[i := st r]> (live w); past := past w ++ tr r |}
  | None => w
  end.

Definition net_exec (w : net_state) (o : net_op) : net_state :=
  match o with
  | NetProvision =>
      let r := provision_stack prof (mgr w) (past w) in
      {| mgr := st r;
         live := match out r with Ok n => live w ++ [n] | _ => live w end;
         past := past w ++ tr r |}
  | NetPublicNat i out_if => net_on_stack i (setup_public_nat out_if) w
  | NetForward i in_if p q => net_on_stack i (setup_forwarding in_if p q) w
  | NetReclaim i =>
      match live w !! i with
      | Some n =>
          let r := reclaim n (mgr w) (past w) in
          {| mgr := st r; live := delete i (live w); past := past w ++ tr r |}
      | None => w
      end
  | NetLose i =>
      match live w !! i with
      | Some n =>
          let r := drop_network_stack n () (past w) in
          {| mgr := mgr w; live := delete i (live w); past := past w ++ tr r |}
      | None => w
      end
  end.

(** Right after [NetworkManager::new] returned. *)
Definition net_init (rules : IpRuleBook) : net_state :=
  {| mgr := {| recovered_slots := []; next_id := 0; global_rules := rules |};
     live := [];
     past := [] |}.

Definition net_run (rules : IpRuleBook) (ops : list net_op) : net_state :=
  foldl net_exec (net_init rules) ops.

Definition provisions (ops : list net_op) : nat :=
  length (filter (λ o, o = NetProvision) ops).

(** *** The invariant

    [held] says which of the node's own rules the history accounts for: all
    of them when it starts with the process, none when it starts once
    [NetworkManager::new] returned. *)

Context `{Acc : Held}.

Definition stack_book (n : NetworkStack) : list (list string) := delete_args (ip_rule_book n).

Record net_wf (w : net_state) : Prop := {
  wf_slots : slots_wf (mgr w) (stack_slot <$> live w);
  wf_books : Forall (λ n, Forall (λ r, is_delete r = true) (stack_book n)) (live w);
  wf_taps : taps_created (past w) ≡ₚ taps_deleted (past w) ++ ((λ n, name (nic n)) <$> live w);
  wf_rules : delete_of <$> added_rules (past w) ≡ₚ
             deleted_rules (past w) ++ (live w ≫= stack_book) ++ held (global_rules (mgr w));
}.

(** Commands of iptables create and delete no device. *)
Lemma iptables_no_taps (t : history HostI) :
  Forall (λ c, c.1 = "iptables-nft") (command_lines t) → taps_created t = [] ∧ taps_deleted t = [].
Proof.
  intros Hcl. split; apply omap_nil_Forall.
  - unfold command_lines in Hcl. rewrite Forall_fmap in Hcl.
    eapply Forall_impl; [exact Hcl|]. intros [[p a] s] Hp. simpl in Hp. subst p.
    by repeat (destruct a as [|? a]; try done).
  - eapply Forall_impl; [exact Hcl|].
    intros [p a] Hp. simpl in Hp. subst p. by repeat (destruct a as [|? a]; try done).
Qed.

Lemma stack_op_spec (l : list (list string)) (n : NetworkStack) h :
  Forall (λ args, is_delete args = false) l →
  ⟪ n , h ⟫ add_rules l ⟪ _ n' t ,
    stack_slot n' = stack_slot n ∧
    stack_book n' = stack_book n ++ (delete_of <$> added_rules t) ∧
    deleted_rules t = [] ∧ taps_created t = [] ∧ taps_deleted t = [] ⟫.
Proof.
  intros Hl. wp_use add_rules_spec; [done|].
  intros o n' t ([Hr Hd] & (? & ? & Hnic) & _ & _ & [rest Hpre]).
  assert (Hcl : Forall (λ c, c.1 = "iptables-nft") (command_lines t)).
  { assert (Forall (λ c, c.1 = "iptables-nft") (pair "iptables-nft" <$> l)) as Hall
      by (apply Forall_fmap, Forall_true; done).
    rewrite Hpre in Hall. by apply Forall_app in Hall as [? _]. }
  destruct (iptables_no_taps t Hcl). split_and!; [unfold stack_slot; congruence|done..].
Qed.

(** What dropping a stack does, from its command lines. *)
Lemma drop_accounts (n : NetworkStack) (t : history HostI) :
  Forall (λ r, is_delete r = true) (stack_book n) →
  command_lines t = tap_del (name (nic n)) :: (pair "iptables-nft" <$> stack_book n) →
  taps_created t = [] ∧ taps_deleted t = [name (nic n)] ∧
  added_rules t = [] ∧ deleted_rules t = stack_book n.
Proof.
  intros Hbook Hcl.
  assert (Hall : Forall (λ c : string * list string * cmd_status,
    tap_created_by c = None ∧ (c.1.1 = "iptables-nft" → is_delete c.1.2 = true)) (commands t)).
  { assert (Forall (λ c : string * list string, (∀ s, tap_created_by (c, s) = None) ∧
      (c.1 = "iptables-nft" → is_delete c.2 = true)) (command_lines t)) as Hcls.
    { rewrite Hcl. constructor; [done|]. apply Forall_fmap. eapply Forall_impl; [exact Hbook|].
      intros r Hr. split; [|done]. intros s. by repeat (destruct r as [|? r]; try done). }
    unfold command_lines in Hcls. rewrite Forall_fmap in Hcls.
    eapply Forall_impl; [exact Hcls|]. intros [[p a] s] [H1 H2]. split; [apply H1|exact H2]. }
  split_and!.
  - apply omap_nil_Forall. eapply Forall_impl; [exact Hall|]. by intros ? [].
  - unfold taps_deleted. rewrite Hcl. simpl. f_equal. apply omap_nil_Forall, Forall_fmap.
    apply Forall_true. intros r. by repeat (destruct r as [|? r]; try done).
  - apply omap_nil_Forall. eapply Forall_impl; [exact Hall|].
    intros [[p a] s] [_ H2]. simpl in H2. case_bool_decide; [|done]. by rewrite H2.
  - unfold deleted_rules. rewrite Hcl. simpl. clear -Hbook.
    induction Hbook as [|r l Hr _ IH]; [done|]. simpl. rewrite Hr. simpl. f_equal. exact IH.
Qed.

Lemma delete_of_is_delete r : is_delete (delete_of r) = true.
Proof. done. Qed.

(** A call on the [i]-th stack keeps the accounts. *)
Lemma net_on_stack_wf i (m : eff HostI NetworkStack HostError ()) (w : net_state) :
  (∀ n h, ⟪ n , h ⟫ m ⟪ _ n' t ,
    stack_slot n' = stack_slot n ∧ stack_book n' = stack_book n ++ (delete_of <$> added_rules t) ∧
    deleted_rules t = [] ∧ taps_created t = [] ∧ taps_deleted t = [] ⟫) →
  net_wf w → net_wf (net_on_stack i m w) ∧ next_id (mgr (net_on_stack i m w)) = next_id (mgr w).
Proof.
  intros Hm [Hs Hb Ht Hr]. unfold net_on_stack. destruct (live w !! i) as [n|] eqn:Hi; [|done].
  split; [|done]. destruct (Hm n (past w)) as (Hslot & Hbook & Hd & Htc & Htd).
  set (n' := st (m n (past w))) in *. set (t := tr (m n (past w))) in *.
  apply list_elem_of_split_length in Hi as (l1 & l2 & Hl & Hlen).
  assert (Hl' : <[i:=n']> (live w) = l1 ++ n' :: l2).
  { rewrite Hl, Hlen. by rewrite insert_app_r_alt, Nat.sub_diag by lia. }
  assert (Hnic : name (nic n') = name (nic n)) by (by injection Hslot).
  constructor; simpl; rewrite ?Hl'; rewrite Hl in *.
  - rewrite fmap_app, fmap_cons in *. by rewrite Hslot.
  - apply Forall_app in Hb as [? [? ?]%Forall_cons]. apply Forall_app. split; [done|].
    constructor; [|done]. rewrite Hbook. apply Forall_app. split; [done|].
    apply Forall_fmap, Forall_true. intros; apply delete_of_is_delete.
  - rewrite taps_created_app, taps_deleted_app, Htc, Htd, !app_nil_r, Ht.
    by rewrite !fmap_app, !fmap_cons, Hnic.
  - rewrite added_rules_app, deleted_rules_app, Hd, app_nil_r, fmap_app, Hr.
    rewrite !bind_app, !bind_cons, Hbook, <-!app_assoc. do 3 apply Permutation_app_head.
    rewrite app_assoc. apply Permutation_app_comm.
Qed.

(** Taking a stack out of the live ones: its device and rules go. *)
Lemma net_take_wf i n m' t (w : net_state) :
  live w !! i = Some n →
  slots_wf m' (stack_slot <$> delete i (live w)) →
  global_rules m' = global_rules (mgr w) →
  (Forall (λ r, is_delete r = true) (stack_book n) →
    command_lines t = tap_del (name (nic n)) :: (pair "iptables-nft" <$> stack_book n)) →
  net_wf w →
  net_wf {| mgr := m'; live := delete i (live w); past := past w ++ t |}.
Proof.
  intros Hi Hslots Hg Hcl [Hs Hb Ht Hr].
  pose proof (delete_Permutation _ _ _ Hi) as Hp.
  assert (Hbn : Forall (λ r, is_delete r = true) (stack_book n))
    by (exact (Forall_lookup_1 _ _ _ _ Hb Hi)).
  destruct (drop_accounts n t Hbn (Hcl Hbn)) as (Htc & Htd & Ha & Hd).
  constructor; simpl; [done|by apply Forall_delete| |].
  - rewrite taps_created_app, taps_deleted_app, Htc, Htd, app_nil_r, Ht.
    rewrite Hp at 1. by rewrite fmap_cons, <-app_assoc.
  - rewrite added_rules_app, deleted_rules_app, Ha, Hd, app_nil_r, Hr, Hg.
    rewrite Hp at 1. by rewrite bind_cons, <-!app_assoc.
Qed.

Lemma slots_delete i n (w : net_state) :
  live w !! i = Some n →
  stack_slot <$> live w ≡ₚ stack_slot n :: (stack_slot <$> delete i (live w)).
Proof. intros Hi. by rewrite <-fmap_cons, <-(delete_Permutation _ _ _ Hi). Qed.

Lemma net_exec_wf (w : net_state) o :
  net_wf w →
  prof = Debug ∨ (next_id (mgr w) < max_slots)%Z ∨ o ≠ NetProvision →
  net_wf (net_exec w o) ∧
  (next_id (mgr (net_exec w o)) ≤
    next_id (mgr w) + if decide (o = NetProvision) then 1 else 0)%Z.
Proof.
  intros Hw Hroom. destruct o as [|i out_if|i in_if p q|i|i]; simpl.
  - destruct (provision_stack_spec prof (mgr w) (stack_slot <$> live w) (past w))
      as (Hn & Ha & Hd & Hout); [apply Hw|naive_solver|].
    split; [|exact Hn]. destruct Hw as [Hs Hb Ht Hr].
    destruct (out (provision_stack prof (mgr w) (past w))) as [n|e|];
      destruct Hout as [Hslots Hacc]; constructor; simpl; try done;
      rewrite ?added_rules_app, ?deleted_rules_app, ?taps_created_app, ?taps_deleted_app,
        ?Ha, ?Hd, ?app_nil_r, ?provision_stack_global; try done.
    + rewrite fmap_app. simpl. by rewrite <-Permutation_cons_append.
    + destruct Hacc as (Hbook & _ & _). apply Forall_app. split; [done|].
      constructor; [|done]. unfold stack_book. by rewrite Hbook.
    + destruct Hacc as (_ & -> & ->). rewrite app_nil_r, fmap_app, Ht. by rewrite app_assoc.
    + destruct Hacc as (Hbook & _ & _). rewrite bind_app. simpl. unfold stack_book at 2.
      by rewrite Hbook, !app_nil_r.
    + rewrite Hacc, Ht, <-!app_assoc. f_equiv. apply Permutation_app_comm.
    + rewrite Hacc, Ht, <-!app_assoc. f_equiv. apply Permutation_app_comm.
  - destruct (net_on_stack_wf i (setup_public_nat out_if) w) as [? ->]; [|done|split; [done|lia]].
    intros n h. unfold wp. rewrite setup_public_nat_rules. apply stack_op_spec. repeat constructor.
  - destruct (net_on_stack_wf i (setup_forwarding in_if p q) w) as [? ->]; [|done|split; [done|lia]].
    intros n h. unfold wp. rewrite setup_forwarding_rules. apply stack_op_spec. repeat constructor.
  - destruct (live w !! i) as [n|] eqn:Hi; [|split; [done|lia]].
    destruct (reclaim_spec (mgr w) n (stack_slot <$> delete i (live w)) (past w))
      as (_ & Hslots & Hn & Hcl); [rewrite <-(slots_delete _ _ _ Hi); apply Hw|].
    split; [by apply (net_take_wf i n); [..|by rewrite reclaim_state| |]|simpl; lia].
  - destruct (live w !! i) as [n|] eqn:Hi; [|split; [done|lia]].
    destruct (drop_network_stack_spec n () (past w)) as (_ & _ & Hcl).
    split; [|simpl; lia]. apply (net_take_wf i n); [done| |done..].
    eapply slots_wf_lose. rewrite <-(slots_delete _ _ _ Hi). apply Hw.
Qed.

(** What dropping a rule book does, from its command lines. *)
Lemma rule_book_accounts (b : list (list string)) (t : history HostI) :
  Forall (λ r, is_delete r = true) b → command_lines t = pair "iptables-nft" <$> b →
  taps_created t = [] ∧ taps_deleted t = [] ∧ added_rules t = [] ∧ deleted_rules t = b.
Proof.
  intros Hb Hcl. destruct (iptables_no_taps t) as [? ?].
  { rewrite Hcl. by apply Forall_fmap, Forall_true. }
  split_and!; [done|done| |].
  - apply omap_nil_Forall.
    assert (Forall (λ c : string * list string, is_delete c.2 = true) (command_lines t)) as Hcls
      by by rewrite Hcl; apply Forall_fmap.
    unfold command_lines in Hcls. rewrite Forall_fmap in Hcls. eapply Forall_impl; [exact Hcls|].
    intros [[p a] s] Ha. simpl in Ha. by rewrite Ha, andb_false_r.
  - unfold deleted_rules. rewrite Hcl. clear -Hb.
    induction Hb as [|r l Hr _ IH]; [done|]. simpl. rewrite Hr. simpl. by f_equal.
Qed.

(** The only rule a node adds for itself. *)
Definition own_rule : list string :=
  ["-I"; "FORWARD"; "-m"; "conntrack"; "--ctstate"; "RELATED,ESTABLISHED"; "-j"; "ACCEPT"].

(** [NetworkManager::new], in the accounts; it fails only on that rule. *)
Lemma network_manager_new_run {S} (s : S) h :
  ⟪ s , h ⟫ network_manager_new ⟪ o s' t , s' = s ∧ taps_created t = [] ∧ taps_deleted t = [] ∧
    match o with
    | Ok m => ∃ rules, m = {| recovered_slots := []; next_id := 0; global_rules := rules |} ∧
        Forall (λ r, is_delete r = true) (delete_args rules) ∧
        delete_of <$> added_rules t = delete_args rules ∧ deleted_rules t = []
    | Err _ => delete_of <$> added_rules t = deleted_rules t ∧
        ∃ a, t = [existT (RunCommand "iptables-nft" own_rule : op HostI) a] ∧ succeeded a = false
    | Panic => False
    end ⟫.
Proof.
  unfold network_manager_new. wp_step. wp_step.
  eapply wp_mono; [apply wp_conj; [by apply add_rule_records|by apply add_rule_fails]|].
  intros o b t (([Hrec Hd] & Hp & Ho & Hcl) & Hf). simpl in Hrec.
  assert (Forall (λ r, is_delete r = true) (delete_args b)) as Hdel
    by by rewrite Hrec; apply Forall_fmap, Forall_true.
  destruct (iptables_no_taps t) as [Htc Htd]; [rewrite Hcl; by repeat constructor|].
  destruct o as [[]|e|]; [| |done].
  - apply wp_ret. rewrite app_nil_r. split_and!; try done. by exists b.
  - wp_use (drop_ip_rule_book_spec (S := ())). intros o [] t2 (-> & _ & Hc2 & Hlen).
    destruct (rule_book_accounts (delete_args b) t2 Hdel Hc2) as (H1 & H2 & H3 & H4).
    rewrite taps_created_app, taps_deleted_app, added_rules_app, deleted_rules_app, Htc, Htd, Hd, H1, H2, H3, H4.
    split_and!; [done..|by simpl; rewrite app_nil_r, Hrec|].
    destruct (Hf e eq_refl) as (-> & a & -> & ?). exists a. split; [|done].
    destruct t2 as [|x t2]; [done|]. cbn in Hlen. lia.
Qed.

(** A node that has handed out nothing yet, whatever ran before. *)
Lemma net_start_wf rules h :
  taps_created h ≡ₚ taps_deleted h →
  delete_of <$> added_rules h ≡ₚ deleted_rules h ++ held rules →
  net_wf {| mgr := {| recovered_slots := []; next_id := 0; global_rules := rules |}; live := []; past := h |}.
Proof.
  intros Ht Hr. constructor; simpl; [|done|by rewrite app_nil_r|done].
  exists [], []. split_and!; try done; simpl; try lia. constructor.
Qed.

End net.

(** A prefix-closed induction over the operations. *)
Lemma net_run_wf `{Env : Environment HostI} prof rules (l : list net_op) :
  prof = Debug ∨ (Z.of_nat (provisions l) ≤ max_slots)%Z →
  net_wf (Acc := none_held) (net_run prof rules l) ∧
  (next_id (mgr (net_run prof rules l)) ≤ Z.of_nat (provisions l))%Z.
Proof.
  unfold net_run, provisions. induction l as [|o l IH] using rev_ind; intros Hl.
  { split; [by apply net_start_wf|done]. }
  rewrite foldl_snoc, filter_app, length_app in *.
  destruct IH as [Hw Hn]; [destruct Hl; [by left|right; lia]|].
  destruct (net_exec_wf prof (foldl (net_exec prof) (net_init rules) l) o Hw) as [Hw' Hn'].
  - destruct Hl as [|Hl]; [by left|right]. destruct (decide (o = NetProvision)) as [->|]; [left|by right].
    simpl in Hl. lia.
  - split; [done|]. destruct (decide (o = NetProvision)) as [->|Ho].
    + simpl in *. lia.
    + rewrite filter_cons_False by done. simpl. lia.
Qed.

(** Two stacks in use have different networks and devices. *)
Definition disjoint_stacks (a b : NetworkStack) : Prop :=
  network30 (ipv4_addr a) ≠ network30 (ipv4_addr b) ∧ name (nic a) ≠ name (nic b).

Lemma slots_wf_disjoint m (l : list NetworkStack) a b k :
  slots_wf m (stack_slot <$> l) → l ≡ₚ a :: b :: k → disjoint_stacks a b.
Proof.
  intros (ids & free & Hids & _ & Hnd & Hall & _) Hp. rewrite Hp in Hids.
  apply Permutation_map_inv in Hids as (ids' & Hids' & Hperm).
  rewrite Hperm in Hnd, Hall.
  destruct ids' as [|x [|y ids']]; try done.
  assert (Hx : Some (stack_slot a) = Some (slot_of x)) by exact (f_equal (lookup 0%nat) Hids').
  assert (Hy : Some (stack_slot b) = Some (slot_of y)) by exact (f_equal (lookup 1%nat) Hids').
  simpl in Hnd. apply NoDup_cons in Hnd as [Hnx _].
  apply Forall_cons in Hall as [? [? _]%Forall_cons].
  assert (x ≠ y) by (intros ->; apply Hnx; left).
  apply (inj Some) in Hx, Hy.
  pose proof (f_equal slot_ipv4_addr Hx : ipv4_addr a = _) as Ha'.
  pose proof (f_equal slot_ipv4_addr Hy : ipv4_addr b = _) as Hb'.
  pose proof (f_equal tap_dev_name Hx : name (nic a) = _) as Hna.
  pose proof (f_equal tap_dev_name Hy : name (nic b) = _) as Hnb.
  split.
  - rewrite Ha', Hb', !slot_network by lia. lia.
  - rewrite Hna, Hnb.
    intros Heq. apply (inj (String.append "tap")) in Heq. by apply (inj pretty) in Heq.
Qed.

(** ** Properties *)

Section properties.
Context `{Env : Environment HostI}.
Local Open Scope Z_scope.

(** C7: Whatever sequence of provisioning, rule changes, reclaims and
    losses the node goes through, two live stacks never share a /30
    network nor a tap device.  In a release build this is guaranteed for
    the first 16384 provisions only, see [next_slot_wraps_release]. *)
Theorem live_stacks_disjoint (prof : profile) rules (l : list net_op) (i j : nat) a b :
  prof = Debug ∨ Z.of_nat (provisions l) <= max_slots →
  live (net_run prof rules l) !! i = Some a →
  live (net_run prof rules l) !! j = Some b →
  i ≠ j →
  network30 (ipv4_addr a) ≠ network30 (ipv4_addr b) ∧ name (nic a) ≠ name (nic b).
Proof.
  intros Hl Ha Hb Hij. destruct (net_run_wf prof rules l Hl) as [[Hs _ _ _] _].
  destruct (two_lookups _ _ _ _ _ Ha Hb Hij) as [k Hp]. by eapply slots_wf_disjoint.
Qed.

(** In every reachable state of the network, the tap devices created
    and not yet deleted are exactly those of the live stacks, and the
    iptables rules added and not yet asked to be deleted are exactly the
    ones recorded in the live stacks' rule books, each with the deletion
    command that removes it. *)
Theorem network_accounts (prof : profile) rules (l : list net_op) :
  prof = Debug ∨ Z.of_nat (provisions l) <= max_slots →
  let w := net_run prof rules l in
  taps_created (past w) ≡ₚ taps_deleted (past w) ++ ((λ n, name (nic n)) <$> live w) ∧
  delete_of <$> added_rules (past w) ≡ₚ deleted_rules (past w) ++ (live w ≫= stack_book).
Proof. intros Hl w. destruct (net_run_wf prof rules l Hl) as [[_ _ Ht Hr] _]. by rewrite app_nil_r in Hr. Qed.

(** [next_slot] hands out the most recently recovered slot, and
    otherwise the /30 network and the tap name of the next identifier:
    gateway and guest are the two host addresses of one /30 network. *)
Theorem next_slot_spec (prof : profile) (m : NetworkManager) h :
  0 <= next_id m < max_slots →
  next_slot prof m h =
    match vec_pop (recovered_slots m) with
    | Some (slot, rest) => Run (Ok slot) (set_recovered rest m) []
    | None => Run (Ok (slot_of (next_id m))) (set_next_id (next_id m + 1) m) []
    end ∧
  network30 (slot_gateway (slot_of (next_id m))) = network30 (slot_ipv4_addr (slot_of (next_id m))) ∧
  ipv4_num (slot_gateway (slot_of (next_id m))) `mod` 4 = 1 ∧
  ipv4_num (slot_ipv4_addr (slot_of (next_id m))) `mod` 4 = 2.
Proof.
  intros Hid. split.
  - destruct (vec_pop (recovered_slots m)) as [[slot rest]|] eqn:Hpop.
    + by rewrite (next_slot_recovered _ _ _ rest slot) by (by apply vec_pop_Some).
    + by apply next_slot_fresh; [apply vec_pop_None|].
  - rewrite slot_network by lia. unfold network30, ipv4_num.
    cbn [slot_of slot_ipv4_addr slot_gateway oct_a oct_b oct_c oct_d].
    pose proof (Z.div_mod (next_id m) 64). split_and!.
    + symmetry. apply Z.div_unique with 1; lia.
    + symmetry. apply Z.mod_unique with (721682432 + next_id m); lia.
    + symmetry. apply Z.mod_unique with (721682432 + next_id m); lia.
Qed.

(** C31: A release build does not stop at 16384 identifiers: the 16-bit
    product wraps around and the slot gets the addresses that identifier
    [id mod 16384] has, under another tap name. *)
Theorem next_slot_wraps_release (m : NetworkManager) h :
  recovered_slots m = [] →
  max_slots <= next_id m < 65535 →
  ∃ slot,
    next_slot Release m h = Run (Ok slot) (set_next_id (next_id m + 1) m) [] ∧
    slot_ipv4_addr slot = slot_ipv4_addr (slot_of (next_id m `mod` max_slots)) ∧
    slot_gateway slot = slot_gateway (slot_of (next_id m `mod` max_slots)) ∧
    tap_dev_name slot = "tap" +:+ pretty (next_id m).
Proof.
  intros Hm Hid. unfold max_slots in *.
  set (k := next_id m mod 16384).
  assert (Hk : 0 <= k < max_slots) by (unfold max_slots; apply Z.mod_pos_bound; lia).
  pose proof (octets _ Hk) as [Ho1 Ho2]. unfold max_slots in Hk.
  pose proof (Z.mod_pos_bound k 64 ltac:(lia)).
  assert (Hmul : arith Release 16 (next_id m * 4) = Some (k * 4)).
  { unfold arith. destruct (is_uint 16 (next_id m * 4)) eqn:Hu.
    - apply is_uint_spec in Hu. lia.
    - f_equal. unfold wrap, k. pose proof (Z.div_mod (next_id m) 16384).
      symmetry. apply Z.mod_unique with (next_id m / 16384); lia. }
  eexists. split_and!.
  - unfold next_slot. rewrite get_bind, Hm. unfold vec_pop. simpl reverse. cbv iota.
    rewrite (arith_fits Release 16 (next_id m + 1)), Hmul by lia. eff_simpl.
    rewrite (arith_fits Release 16 (k * 4 + 1)) by lia. eff_simpl.
    rewrite Ho1, Ho2, arith_fits by lia. eff_simpl.
    reflexivity.
  - simpl. f_equal. lia.
  - done.
  - done.
Qed.

(** A debug build panics instead, from the identifier 16384 on, and
    the identifier is used up except at the very last one. *)
Theorem next_slot_panics_debug (m : NetworkManager) h :
  recovered_slots m = [] →
  max_slots <= next_id m < 65536 →
  out (next_slot Debug m h) = Panic ∧
  next_id (st (next_slot Debug m h)) = Z.min 65535 (next_id m + 1) ∧
  tr (next_slot Debug m h) = [].
Proof.
  intros Hm Hid. destruct (next_slot_overflow_debug m h Hm Hid) as (-> & Hst & ->).
  destruct (decide (next_id m = 65535)) as [He|].
  - split_and!; try done. destruct Hst as [->|[? ->]]; lia.
  - split_and!; try done. unfold next_slot. rewrite get_bind, Hm.
    unfold vec_pop. simpl reverse. cbv iota. unfold max_slots in Hid.
    rewrite (arith_fits Debug 16 (next_id m + 1)) by lia.
    rewrite (arith_overflow 16 (next_id m * 4)) by lia. eff_simpl. lia.
Qed.

(** Reclaiming a stack deletes its device and then every rule it
    recorded, in the order they were added, whatever these commands
    answer; and the very next provision gets the same slot back. *)
Theorem reclaim_then_provision (prof : profile) (m : NetworkManager) (n : NetworkStack) h h' :
  let r := reclaim n m h in
  out r = Ok () ∧
  command_lines (tr r) =
    ("ip", ["link"; "del"; name (nic n)])
      :: (pair "iptables-nft" <$> delete_args (ip_rule_book n)) ∧
  out (next_slot prof (st r) h') = Ok (stack_slot n) ∧
  st (next_slot prof (st r) h') = m.
Proof.
  intros r.
  assert (Hr : ⟪ m , h ⟫ reclaim n ⟪ o m' t ,
    o = Ok () ∧ m' = set_recovered (recovered_slots m ++ [stack_slot n]) m ∧
    command_lines t = tap_del (name (nic n)) :: (pair "iptables-nft" <$> delete_args (ip_rule_book n)) ⟫).
  { unfold reclaim, network_stack_reclaim. do 2 wp_step.
    wp_use (drop_network_stack_spec (S := NetworkManager)).
    intros o m' t (-> & -> & Ht). wp_steps. by rewrite !app_nil_r. }
  destruct Hr as (Ho & Hst & Hcl). subst r. rewrite Hst.
  rewrite (next_slot_recovered _ _ _ (recovered_slots m) (stack_slot n)) by done.
  simpl. split_and!; try done. by destruct m.
Qed.

(** Publishing a port asks iptables for the DNAT rule and the two
    FORWARD rules of the stack, stopping at the first one that fails; the
    stack records the deletion of exactly the rules that were added, and
    on success these are all three. *)
Theorem setup_forwarding_spec in_if in_port guest_port (n : NetworkStack) h :
  let r := setup_forwarding in_if in_port guest_port n h in
  let l := forwarding_rules n in_if in_port guest_port in
  command_lines (tr r) `prefix_of` (pair "iptables-nft" <$> l) ∧
  delete_args (ip_rule_book (st r)) =
    delete_args (ip_rule_book n) ++ (delete_of <$> added_rules (tr r)) ∧
  out r ≠ Panic ∧
  (out r = Ok () → added_rules (tr r) = l) ∧
  stack_slot (st r) = stack_slot n.
Proof.
  intros r l. subst r. rewrite setup_forwarding_rules. fold l.
  destruct (add_rules_spec l n h) as ([Hr _] & (? & ? & ?) & ? & ? & ?); [repeat constructor|].
  split_and!; try done. unfold stack_slot. congruence.
Qed.

Lemma provision_takes_slot (prof : profile) m h :
  recovered_slots m = [] → 0 <= next_id m < max_slots →
  st (provision_stack prof m h) = set_next_id (next_id m + 1) m.
Proof.
  intros Hrec Hid. unfold provision_stack. rewrite bind_run, next_slot_fresh by done. cbn [out st tr].
  apply (network_stack_new_spec (S := NetworkManager) (slot_of (next_id m))).
Qed.

(** C32: A provision that fails after a slot was taken, at whichever of its
    commands, loses the slot: when all of [k] provisions failed, no stack is live
    and every device created was deleted again, but their [k] slots are neither
    free nor used; after 16384 of them a debug build panics on the next one. *)
Theorem failed_provisions_exhaust_slots (prof : profile) rules (k : nat) :
  Z.of_nat k <= max_slots →
  let w := net_run prof rules (replicate k NetProvision) in
  live w = [] →
  taps_created (past w) ≡ₚ taps_deleted (past w) ∧
  recovered_slots (mgr w) = [] ∧ next_id (mgr w) = Z.of_nat k ∧
  (prof = Debug → Z.of_nat k = max_slots → ∀ h, out (provision_stack prof (mgr w) h) = Panic).
Proof.
  intros Hk w Hlive.
  assert (recovered_slots (mgr w) = [] ∧ next_id (mgr w) = Z.of_nat k) as [Hrec Hn].
  { subst w. clear Hlive. induction k as [|k IH]; [done|]. destruct IH as (Hrec & Hn); [lia|].
    unfold net_run in *. rewrite replicate_S_end, foldl_snoc. set (w := foldl _ _ _) in *.
    cbn [net_exec mgr]. rewrite provision_takes_slot by (done || lia). simpl. split; [done|lia]. }
  destruct (net_run_wf prof rules (replicate k NetProvision)) as [[_ _ Ht _] _].
  { right. unfold provisions. etrans; [|exact Hk]. apply inj_le.
    rewrite <-(length_replicate k NetProvision) at 2. apply length_filter. }
  fold w in Ht. rewrite Hlive in Ht. simpl in Ht. rewrite app_nil_r in Ht. split_and!; [done..|].
  intros -> Hmax h. unfold provision_stack.
  destruct (next_slot_panics_debug (mgr w) h Hrec) as (Hp & _); [unfold max_slots in *; lia|].
  by apply bind_panic.
Qed.
End properties.

(** ** Evaluation on concrete inputs *)

Definition demo_ops : list net_op :=
  [NetProvision; NetPublicNat 0 "eno1"; NetProvision; NetForward 1 "eno1" 8080 80; NetReclaim 0; NetProvision].

Lemma live_stacks_disjoint_witness :
  ∃ a b,
    live (net_run (Env := env_ok) Debug ip_rule_book_new demo_ops) !! 0 = Some a ∧
    live (net_run (Env := env_ok) Debug ip_rule_book_new demo_ops) !! 1 = Some b ∧
    network30 (ipv4_addr a) ≠ network30 (ipv4_addr b) ∧ name (nic a) ≠ name (nic b).
Proof.
  eexists _, _. split_and!; [vm_compute; reflexivity|vm_compute; reflexivity|..].
  - eapply (live_stacks_disjoint (Env := env_ok) Debug ip_rule_book_new demo_ops 0 1);
      [by left|vm_compute; reflexivity|vm_compute; reflexivity|done].
  - eapply (live_stacks_disjoint (Env := env_ok) Debug ip_rule_book_new demo_ops 0 1);
      [by left|vm_compute; reflexivity|vm_compute; reflexivity|done].
Defined.

Lemma network_accounts_witness :
  let w := net_run (Env := env_ok) Debug ip_rule_book_new demo_ops in
  taps_created (past w) ≡ₚ taps_deleted (past w) ++ ((λ n, name (nic n)) <$> live w) ∧
  delete_of <$> added_rules (past w) ≡ₚ deleted_rules (past w) ++ (live w ≫= stack_book).
Proof. apply (network_accounts (Env := env_ok)). by left. Defined.

Definition demo_manager (id : Z) : NetworkManager :=
  {| recovered_slots := []; next_id := id; global_rules := ip_rule_book_new |}.

Lemma next_slot_spec_witness :
  (0 ≤ 65 < max_slots)%Z ∧
  out (next_slot Debug (demo_manager 65) []) =
    Ok {| slot_ipv4_addr := Ipv4 172 16 1 6; slot_gateway := Ipv4 172 16 1 5; tap_dev_name := "tap65" |}.
Proof.
  assert (H : (0 ≤ 65 < max_slots)%Z) by (unfold max_slots; lia). split; [exact H|].
  rewrite (proj1 (next_slot_spec Debug (demo_manager 65) [] H)).
  vm_compute. reflexivity.
Defined.

Lemma next_slot_wraps_release_witness :
  ∃ slot,
    out (next_slot Release (demo_manager 16384) []) = Ok slot ∧
    slot_ipv4_addr slot = Ipv4 172 16 0 2.
Proof.
  destruct (next_slot_wraps_release (demo_manager 16384) [])
    as (slot & Hrun & Haddr & _); [done|unfold max_slots; simpl; lia|].
  exists slot. split; [by rewrite Hrun|]. rewrite Haddr. vm_compute. reflexivity.
Defined.

Lemma next_slot_panics_debug_witness :
  out (next_slot Debug (demo_manager 16384) []) = Panic.
Proof.
  apply (next_slot_panics_debug (demo_manager 16384) []);
    [done|unfold max_slots; simpl; lia].
Defined.

(** The devices can be created, but not given their addresses. *)
Lemma failed_provisions_exhaust_slots_witness :
  let w := net_run (Env := env_failing "ip" "addr") Debug ip_rule_book_new (replicate 3 NetProvision) in
  taps_created (past w) = ["tap0"; "tap1"; "tap2"] ∧ taps_created (past w) ≡ₚ taps_deleted (past w) ∧
  recovered_slots (mgr w) = [] ∧ next_id (mgr w) = 3%Z.
Proof.
  split; [vm_compute; reflexivity|].
  destruct (failed_provisions_exhaust_slots (Env := env_failing "ip" "addr") Debug ip_rule_book_new 3)
    as (? & ? & ? & _); [unfold max_slots; lia|vm_compute; reflexivity|done].
Defined.
