(* ===== verification/Communicator.v ===== *)
(** * The host's end of the guest channel (src/nodemanager/src/machine/vsock.rs)

    [MachineCommunicator]: the log buffer of a machine, the subscribers to
    its logs, the last state it reported; [packet_handler], the task that
    reads the packets the guest sends; and [locked], what another task does under
    the lock the two share.

    The circular-buffer crate is the interface [CircularBuffer]; tokio's
    channels and locks are operations of the environment. *)

From S2P Require Import Prelude Bytes Vmproto HostOps.

Definition MAX_LINES_IN_BUFFER : nat := 256.

(** ** CircularBuffer<N, T> *)

Class CircularBuffer (A : Type) : Type := {
  cbuf : Type;
  cb_new : nat → cbuf;
  cb_push_front : A → cbuf → cbuf;
  (** front to back *)
  cb_iter : cbuf → list A;
  cb_capacity : cbuf → nat;
}.

(** Pushing to a full buffer drops the element at the back. *)
Class CircularBufferLaws {A} (B : CircularBuffer A) : Prop := {
  cb_iter_new n : cb_iter (cb_new n) = [];
  cb_capacity_new n : cb_capacity (cb_new n) = n;
  cb_iter_push x b : cb_iter (cb_push_front x b) = take (cb_capacity b) (x :: cb_iter b);
  cb_capacity_push x b : cb_capacity (cb_push_front x b) = cb_capacity b;
}.

(** A list with its capacity. *)
Module ListBuffer.

#[export] Instance list_buffer A : CircularBuffer A := {
  cbuf := nat * list A;
  cb_new n := (n, []);
  cb_push_front x b := (b.1, take b.1 (x :: b.2));
  cb_iter b := b.2;
  cb_capacity b := b.1;
}.

#[global] Instance list_buffer_laws A : CircularBufferLaws (list_buffer A).
Proof. by split. Qed.

End ListBuffer.

(** ** Data *)

(** proto::node::LogMessage, generated from src/proto/pb/node.proto *)
Record ProtoLogMessage : Set := {
  pl_log_type : string;
  pl_timestamp_ms : Z;
  pl_message : option string;
  pl_state : option string;
}.

Definition as_proto_log_message (l : MachineLog) : ProtoLogMessage :=
  match l with
  | VmLog s =>
      {| pl_log_type := log_message_type_as_str (message_type s);
         pl_timestamp_ms := swrap 64 (timestamp_ms s);
         pl_message := Some (text s);
         pl_state := None |}
  | StateLog s ts =>
      {| pl_log_type := "state";
         pl_timestamp_ms := swrap 64 ts;
         pl_message := None;
         pl_state := Some (init_vm_state_as_str s) |}
  end.

Definition machine_exit_from (c : GuestExitCode) : MachineExit :=
  match c with
  | GracefulShutdown => ExitGraceful
  | FailedToPullContainerImage => ExitFailedToPull
  | ContainerExited code => ExitContainer code
  end.

Section communicator.
Context `{Env : Environment HostI} `{B : CircularBuffer MachineLog} `{C : Codec}.

Record MachineCommunicator : Type := {
  log_subscribers : list Z;
  log_buffer : cbuf;
  state : option (InitVmState * Z);
}.

Definition communicator_new : MachineCommunicator :=
  {| log_subscribers := []; log_buffer := cb_new MAX_LINES_IN_BUFFER; state := None |}.

Definition set_subscribers (l : list Z) (c : MachineCommunicator) : MachineCommunicator :=
  {| log_subscribers := l; log_buffer := log_buffer c; state := state c |}.

Definition set_buffer (b : cbuf) (c : MachineCommunicator) : MachineCommunicator :=
  {| log_subscribers := log_subscribers c; log_buffer := b; state := state c |}.

Definition set_state (s : option (InitVmState * Z)) (c : MachineCommunicator) : MachineCommunicator :=
  {| log_subscribers := log_subscribers c; log_buffer := log_buffer c; state := s |}.

(** ** push_log *)

(** The loop over the subscribers: the positions whose [try_send] failed. *)
Fixpoint try_send_all {S} (i : nat) (subs : list Z) (data : MachineLog)
    : eff HostI S HostError (list nat) :=
  match subs with
  | [] => mret []
  | tx :: subs =>
      ok ← perform (I := HostI) (TrySend tx data);
      to_drop ← try_send_all (Datatypes.S i) subs data;
      mret (if ok : bool then to_drop else i :: to_drop)
  end.

(** [retain] with the position counter [i]. *)
Fixpoint retain_not_in (i : nat) (to_drop : list nat) (subs : list Z) : list Z :=
  match subs with
  | [] => []
  | tx :: subs =>
      if decide (i ∈ to_drop) then retain_not_in (S i) to_drop subs
      else tx :: retain_not_in (S i) to_drop subs
  end.

Definition push_log (data : MachineLog) : eff HostI MachineCommunicator HostError () :=
  modify (λ c, set_buffer (cb_push_front data (log_buffer c)) c);;
  c ← get;
  match log_subscribers c with
  | [] => mret ()
  | _ =>
      to_drop ← try_send_all 0 (log_subscribers c) data;
      match to_drop with
      | [] => mret ()
      | _ => modify (λ c, set_subscribers (retain_not_in 0 to_drop (log_subscribers c)) c)
      end
  end.

(** ** Subscribers and the buffer *)

Definition subscribe_log : eff HostI MachineCommunicator HostError Z :=
  id ← perform (I := HostI) (NewChannel 128);
  modify (λ c, set_subscribers (log_subscribers c ++ [id]) c);;
  mret id.

Definition clone_buffer_with_state (c : MachineCommunicator) : list MachineLog :=
  let should_chain_last_state :=
    match state c with
    | Some (s, t) =>
        existsb (λ log,
          match log with
          | StateLog s' t' => bool_decide (s' = s) && (t' =? t)%Z
          | _ => false
          end) (cb_iter (log_buffer c))
    | None => false
    end in
  reverse (cb_iter (log_buffer c)) ++
  match state c with
  | Some (s, ts) => if should_chain_last_state then [] else [StateLog s ts]
  | None => []
  end.

Definition drop_subscribers (c : MachineCommunicator) : MachineCommunicator := set_subscribers [] c.

(** ** Writing to the guest *)

Definition write {S} (packet : HostPacket) : eff HostI S HostError () :=
  let data := serialize_host_packet packet in
  let len := u32_to_be_bytes (wrap 32 (Z.of_nat (length data))) in
  run_io (StreamWriteAll len);;
  run_io (StreamWriteAll data);;
  run_io StreamFlush.

Definition send_shutdown {S} : eff HostI S HostError () := write Shutdown.

(** ** Reading from the guest *)

(** [None] is [Err(())]. *)
Definition read_from_stream (s : list byte) : option (GuestPacket * list byte) :=
  match read_exact 4 s with
  | None => None
  | Some (len_buf, s1) =>
      let len := u32_from_be_bytes len_buf in
      if decide (len = 0 ∨ MAX_PACKET_SIZE < len)%Z then None
      else
        match read_exact (Z.to_nat len) s1 with
        | None => None
        | Some ([], _) => None
        | Some (buf, s2) =>
            match deserialize_guest_packet buf with
            | Some packet => Some (packet, s2)
            | None => None
            end
        end
  end.

(** One packet under the lock; [Some exit] leaves the loop. *)
Definition handle_packet (packet : GuestPacket)
    : eff HostI MachineCommunicator HostError (option MachineExit) :=
  match packet with
  | Log log => push_log (VmLog log);; mret None
  | Exited exit_code =>
      modify (set_state None);;
      mret (Some (machine_exit_from exit_code))
  | VmState st ts =>
      modify (set_state (Some (st, ts)));;
      push_log (StateLog st ts);;
      mret None
  end.

(** The loop of [packet_handler] on what the stream delivers before it
    closes: the exit it leaves with and the unread bytes.  Every iteration
    consumes at least five bytes, so the length of the stream is fuel
    enough; running out of it is [None]. *)
Fixpoint packet_loop (fuel : nat) (s : list byte)
    : eff HostI MachineCommunicator HostError (option (MachineExit * list byte)) :=
  match fuel with
  | 0 => mret None
  | S fuel =>
      match read_from_stream s with
      | None => mret (Some (ExitUnknown, s))
      | Some (packet, s') =>
          r ← handle_packet packet;
          match r with
          | Some exit => mret (Some (exit, s'))
          | None => packet_loop fuel s'
          end
      end
  end.

Definition packet_handler (s : list byte)
    : eff HostI MachineCommunicator HostError (option MachineExit) :=
  r ← packet_loop (S (length s)) s;
  locked ← perform (I := HostI) TryLockComm;
  (if locked : bool then modify drop_subscribers else mret ());;
  match r with
  | Some (exit, _) =>
      _ ← perform (I := HostI) (SendStop exit);
      mret (Some exit)
  | None => mret None
  end.
(** ** The lock

    The communicator is shared by the packet handler and the tasks that serve
    requests.  Before such a task gets the lock, the handler may have held it:
    it dealt with some packets, and if one of them was an exit, or no further
    packet could be read ([closed]), it also went on to its [try_lock]. *)
Definition handler_leaves : eff HostI MachineCommunicator HostError () :=
  locked ← perform (I := HostI) TryLockComm;
  if locked : bool then modify drop_subscribers else mret ().

Fixpoint handled_meanwhile (packets : list GuestPacket) (closed : bool)
    : eff HostI MachineCommunicator HostError () :=
  match packets with
  | [] => if closed then handler_leaves else mret ()
  | packet :: packets =>
      r ← handle_packet packet;
      match r with
      | Some _ => handler_leaves
      | None => handled_meanwhile packets closed
      end
  end.

(** [let handler = comm.lock().await; f(handler)] *)
Definition locked {A} (f : eff HostI MachineCommunicator HostError A)
    : eff HostI MachineCommunicator HostError A :=
  meanwhile ← perform (I := HostI) LockComm;
  handled_meanwhile meanwhile.1 meanwhile.2;;
  f.
End communicator.

(** ** Delivery to subscribers *)

Section delivery.
Context `{Env : Environment HostI}.

Definition try_send_entry (data : MachineLog) (tx : Z) (ok : bool) : entry HostI :=
  existT (TrySend tx data : op HostI) ok.

(** The subscribers that took the message, and those that did not. *)
Fixpoint mask {A} (oks : list bool) (l : list A) : list A :=
  match oks, l with
  | true :: oks, x :: l => x :: mask oks l
  | false :: oks, _ :: l => mask oks l
  | _, _ => []
  end.

Fixpoint failed_from (i : nat) (oks : list bool) : list nat :=
  match oks with
  | [] => []
  | ok :: oks => if ok then failed_from (S i) oks else i :: failed_from (S i) oks
  end.

Lemma failed_from_ge i oks k : k ∈ failed_from i oks → i ≤ k.
Proof.
  revert i. induction oks as [|[] oks IH]; intros i; simpl.
  - by intros ?%not_elem_of_nil.
  - intros ?%IH. lia.
  - rewrite elem_of_cons. intros [->|?%IH]; lia.
Qed.

Lemma mask_all_true {A} oks (l : list A) :
  length oks = length l → failed_from 0 oks = [] → mask oks l = l.
Proof.
  generalize 0. revert l. induction oks as [|[] oks IH]; intros [|x l] i Hlen Hf; try done.
  simpl in *. f_equal. apply (IH l (S i)); [lia|done].
Qed.

(** Dropping by position what could not be sent keeps the others. *)
Lemma retain_failed i oks (subs : list Z) (D : list nat) :
  length oks = length subs →
  Forall (λ k, k < i) D →
  retain_not_in i (D ++ failed_from i oks) subs = mask oks subs.
Proof.
  revert i subs D. induction oks as [|ok oks IH]; intros i [|x subs] D Hlen HD; try done.
  simpl in *. destruct ok.
  - rewrite decide_False; [f_equal; apply IH; [lia|]; eapply Forall_impl; [exact HD|]; simpl; lia|].
    rewrite elem_of_app. intros [Hin|Hin%failed_from_ge]; [|lia].
    rewrite Forall_forall in HD. specialize (HD _ Hin). lia.
  - rewrite decide_True by (rewrite elem_of_app, elem_of_cons; auto).
    rewrite cons_middle, app_assoc. apply IH; [lia|].
    apply Forall_app. split; [eapply Forall_impl; [exact HD|]; simpl; lia|]. repeat constructor.
Qed.

Lemma try_send_all_spec {S} i subs data (s : S) h :
  ⟪ s , h ⟫ try_send_all i subs data ⟪ o s' t ,
    s' = s ∧ ∃ oks, length oks = length subs ∧
      t = zip_with (try_send_entry data) subs oks ∧ o = Ok (failed_from i oks) ⟫.
Proof.
  revert i s h. induction subs as [|tx subs IH]; intros i s h; simpl.
  - wp_step. split; [done|]. by exists [].
  - wp_step. wp_step. wp_step. wp_use IH.
    intros o s' t (-> & oks & Hlen & -> & ->). wp_step. split; [done|].
    exists (a :: oks). simpl. rewrite Hlen, app_nil_r. by destruct a.
Qed.
End delivery.

Section push.
Context `{Env : Environment HostI} `{B : CircularBuffer MachineLog} `{C : Codec}.

(** [push_log] in closed form: the message is put in front of the buffer
    and offered once to every subscriber in order; who takes it stays. *)
Lemma push_log_run data (c : MachineCommunicator) h :
  ⟪ c , h ⟫ push_log data ⟪ o c' t ,
    o = Ok () ∧ ∃ oks, length oks = length (log_subscribers c) ∧
      t = zip_with (try_send_entry data) (log_subscribers c) oks ∧
      c' = {| log_subscribers := mask oks (log_subscribers c);
              log_buffer := cb_push_front data (log_buffer c);
              state := state c |} ⟫.
Proof.
  unfold push_log. wp_steps. destruct (log_subscribers c) as [|tx subs] eqn:Hs.
  - wp_steps. split; [done|]. exists []. by unfold set_buffer; rewrite Hs.
  - rewrite <-Hs. wp_step. wp_use try_send_all_spec.
    intros o s' t (-> & oks & Hlen & -> & ->).
    destruct (failed_from 0 oks) as [|k ks] eqn:Hf; wp_steps; rewrite app_nil_r;
      (split; [done|]); exists oks; split_and!; try done.
    + unfold set_buffer. by rewrite mask_all_true.
    + unfold set_subscribers. simpl. f_equal. rewrite <-Hf.
      apply (retain_failed 0 oks _ []); [done|constructor].
Qed.
End push.

Arguments read_from_stream : simpl never.

(** ** Reading frames *)

Section frames.
Context `{C : Codec}.

Definition size_ok (p : GuestPacket) : Prop :=
  (0 < Z.of_nat (length (serialize_guest_packet p)) ≤ MAX_PACKET_SIZE)%Z.

#[export] Instance size_ok_dec p : Decision (size_ok p).
Proof. unfold size_ok. apply _. Defined.

Definition packet_frame (p : GuestPacket) : list byte := frame (serialize_guest_packet p).

Definition stream_of (ps : list GuestPacket) : list byte := ps ≫= packet_frame.

Lemma stream_of_cons p ps rest :
  stream_of (p :: ps) ++ rest = packet_frame p ++ (stream_of ps ++ rest).
Proof. unfold stream_of. by rewrite bind_cons, <-app_assoc. Qed.

Lemma stream_of_snoc ps p rest :
  stream_of (ps ++ [p]) ++ rest = stream_of ps ++ (packet_frame p ++ rest).
Proof. unfold stream_of. rewrite bind_app. simpl. by rewrite app_nil_r, <-app_assoc. Qed.

Lemma stream_of_length ps : length ps ≤ length (stream_of ps).
Proof.
  induction ps as [|p ps IH]; [done|]. unfold stream_of in *. rewrite bind_cons, length_app.
  unfold packet_frame at 1. rewrite frame_length. simpl. lia.
Qed.

Lemma read_from_stream_data data rest :
  (0 < Z.of_nat (length data) ≤ MAX_PACKET_SIZE)%Z →
  read_from_stream (frame data ++ rest) =
    (p ← deserialize_guest_packet data; Some (p, rest)).
Proof.
  intros [Hpos Hmax]. unfold MAX_PACKET_SIZE in *. unfold read_from_stream.
  destruct (frame_read data rest ltac:(lia)) as [-> ->].
  rewrite decide_False by (unfold MAX_PACKET_SIZE; lia). rewrite Nat2Z.id, read_exact_app by done.
  destruct data as [|b data]; [simpl in *; lia|].
  by destruct (deserialize_guest_packet (b :: data)).
Qed.

Lemma read_from_stream_frame `{!CodecLaws C} p rest :
  size_ok p → read_from_stream (packet_frame p ++ rest) = Some (p, rest).
Proof.
  intros Hp. unfold packet_frame. rewrite read_from_stream_data by done.
  by rewrite guest_roundtrip.
Qed.

Lemma read_from_stream_bad_size data rest :
  (Z.of_nat (length data) = 0 ∨ MAX_PACKET_SIZE < Z.of_nat (length data))%Z →
  (Z.of_nat (length data) < 2 ^ 32)%Z →
  read_from_stream (frame data ++ rest) = None.
Proof.
  intros Hbad Hlen. unfold read_from_stream.
  destruct (frame_read data rest Hlen) as [-> ->].
  by rewrite decide_True.
Qed.

(** Every packet read consumes its header and at least one byte. *)
Lemma read_from_stream_shrinks s p s' :
  read_from_stream s = Some (p, s') → length s' + 5 ≤ length s.
Proof.
  unfold read_from_stream. destruct (read_exact 4 s) as [[hd s1]|] eqn:H1; [|done].
  apply read_exact_length in H1 as [-> H1]. case_decide as Hd; [done|].
  destruct (read_exact _ s1) as [[[|b buf] s2]|] eqn:H2; [done| |done].
  apply read_exact_length in H2 as [-> H2].
  destruct (deserialize_guest_packet (b :: buf)); [|done]. intros [= <- <-].
  rewrite !length_app, H1. simpl. lia.
Qed.
End frames.

(** ** What the packets do to a communicator *)

Section packets.
Context `{Env : Environment HostI} `{B : CircularBuffer MachineLog} `{C : Codec}.
Context `{!CircularBufferLaws B}.

Definition log_of (p : GuestPacket) : option MachineLog :=
  match p with
  | Log m => Some (VmLog m)
  | VmState s ts => Some (StateLog s ts)
  | Exited _ => None
  end.

Definition exit_of (p : GuestPacket) : option MachineExit :=
  match p with Exited c => Some (machine_exit_from c) | _ => None end.

Definition state_after (p : GuestPacket) (s : option (InitVmState * Z)) : option (InitVmState * Z) :=
  match p with Log _ => s | VmState st ts => Some (st, ts) | Exited _ => None end.

(** The last state reported by a sequence of packets. *)
Definition last_state (ps : list GuestPacket) : option (InitVmState * Z) :=
  foldl (λ s p, state_after p s) None ps.

(** The buffer and the state of [c] are those that [ps] leave. *)
Definition has_seen (ps : list GuestPacket) (c : MachineCommunicator) : Prop :=
  cb_capacity (log_buffer c) = MAX_LINES_IN_BUFFER ∧
  cb_iter (log_buffer c) = take MAX_LINES_IN_BUFFER (reverse (omap log_of ps)) ∧
  state c = last_state ps.

Lemma has_seen_new : has_seen [] communicator_new.
Proof. unfold has_seen. simpl. by rewrite cb_iter_new, cb_capacity_new. Qed.

Lemma push_seen (ps : list GuestPacket) p l b :
  log_of p = Some l →
  cb_capacity b = MAX_LINES_IN_BUFFER →
  cb_iter b = take MAX_LINES_IN_BUFFER (reverse (omap log_of ps)) →
  cb_capacity (cb_push_front l b) = MAX_LINES_IN_BUFFER ∧
  cb_iter (cb_push_front l b) = take MAX_LINES_IN_BUFFER (reverse (omap log_of (ps ++ [p]))).
Proof.
  intros Hl Hcap Hit. rewrite cb_capacity_push, cb_iter_push, Hcap, Hit. split; [done|].
  rewrite omap_app. simpl. rewrite Hl, reverse_snoc. simpl. f_equal. by rewrite take_take.
Qed.

Lemma handle_packet_seen ps p (c : MachineCommunicator) h :
  has_seen ps c →
  ⟪ c , h ⟫ handle_packet p ⟪ o c' t , o = Ok (exit_of p) ∧ has_seen (ps ++ [p]) c' ⟫.
Proof.
  intros (Hcap & Hit & Hst). unfold has_seen, last_state. rewrite foldl_snoc.
  destruct p as [m|s ts|code]; simpl; wp_steps.
  - wp_use push_log_run. intros o c' t (-> & oks & _ & _ & ->). wp_step. split; [done|].
    by destruct (push_seen ps (Log m) (VmLog m) (log_buffer c)) as [? ?].
  - wp_use push_log_run. intros o c' t (-> & oks & _ & _ & ->). wp_step. split; [done|].
    by destruct (push_seen ps (VmState s ts) (StateLog s ts) (log_buffer c)) as [? ?].
  - split; [done|]. rewrite omap_app. simpl. by rewrite app_nil_r.
Qed.

Lemma packet_loop_S fuel s :
  packet_loop (S fuel) s =
    match read_from_stream s with
    | None => mret (Some (ExitUnknown, s))
    | Some (packet, s') =>
        r ← handle_packet packet;
        match r with
        | Some exit => mret (Some (exit, s'))
        | None => packet_loop fuel s'
        end
    end.
Proof. reflexivity. Qed.

(** The loop on a stream of packets that are not [Exited], then [rest]. *)
Lemma packet_loop_packets `{!CodecLaws C} seen ps rest fuel (c : MachineCommunicator) h
    (Q : outcome HostError (option (MachineExit * list byte)) → MachineCommunicator → history HostI → Prop) :
  Forall (λ p, size_ok p ∧ exit_of p = None) ps →
  has_seen seen c →
  (∀ c' t, has_seen (seen ++ ps) c' →
    ⟪ c' , h ++ t ⟫ packet_loop fuel rest ⟪ o c2 t2 , Q o c2 (t ++ t2) ⟫) →
  wp (packet_loop (length ps + fuel) (stream_of ps ++ rest)) c h Q.
Proof.
  revert seen c h Q. induction ps as [|p ps IH]; intros seen c h Q Hps Hseen HQ.
  - specialize (HQ c []). rewrite (app_nil_r seen), (app_nil_r h) in HQ. exact (HQ Hseen).
  - apply Forall_cons in Hps as [[Hsz Hex] Hps].
    rewrite stream_of_cons. change (length (p :: ps) + fuel) with (S (length ps + fuel)).
    rewrite packet_loop_S, read_from_stream_frame by done. wp_step.
    wp_use handle_packet_seen; [exact Hseen|]. intros o c1 t1 [-> Hc1]. rewrite Hex.
    apply (IH (seen ++ [p])); [done|done|]. intros c' t Hc'.
    rewrite <-!app_assoc in *. simpl in Hc'. wp_use HQ; [done|].
    intros o c2 t2. by rewrite app_assoc.
Qed.

End packets.

(** ** Properties *)

Section properties.
Context `{Env : Environment HostI} `{B : CircularBuffer MachineLog} `{C : Codec}.

(** [push_log] offers the message exactly once to every subscriber, in
    subscription order, and keeps exactly those that took it: dropping by
    recorded position loses no one else.  The message enters the buffer
    whether or not anyone listens. *)
Theorem push_log_delivery data (c : MachineCommunicator) h :
  let r := push_log data c h in
  out r = Ok () ∧
  ∃ oks, length oks = length (log_subscribers c) ∧
    tr r = zip_with (try_send_entry data) (log_subscribers c) oks ∧
    log_subscribers (st r) = mask oks (log_subscribers c) ∧
    log_buffer (st r) = cb_push_front data (log_buffer c) ∧
    state (st r) = state c.
Proof.
  intros r. destruct (push_log_run data c h) as (Ho & oks & Hlen & Ht & Hc).
  split; [exact Ho|]. exists oks. subst r. by rewrite Hc.
Qed.

(** The communicators reached from a new one by handling packets, with
    subscriptions in between. *)
Inductive reached : list GuestPacket → MachineCommunicator → Prop :=
| reached_new : reached [] communicator_new
| reached_packet ps p c h :
    reached ps c → reached (ps ++ [p]) (st (handle_packet p c h))
| reached_subscribe ps c h :
    reached ps c → reached ps (st (subscribe_log c h)).

Context `{!CircularBufferLaws B}.

Lemma reached_seen ps c : reached ps c → has_seen ps c.
Proof.
  induction 1 as [|ps p c h _ IH|ps c h _ IH].
  - apply has_seen_new.
  - by apply (handle_packet_seen ps p c h IH).
  - exact IH.
Qed.

(** C18: What a client is given as the logs so far, after packets [ps]: the
    last 256 messages in the order they arrived, followed by the current
    state if its message has already left the buffer.  So at most 257
    entries, and the current state is always among them. *)
Theorem snapshot_of_reached ps c :
  reached ps c →
  let logs := reverse (take MAX_LINES_IN_BUFFER (reverse (omap log_of ps))) in
  clone_buffer_with_state c =
    logs ++ match last_state ps with
            | Some (s, t) => if decide (StateLog s t ∈ logs) then [] else [StateLog s t]
            | None => []
            end ∧
  (length (clone_buffer_with_state c) ≤ 257) ∧
  (∀ s t, last_state ps = Some (s, t) → StateLog s t ∈ clone_buffer_with_state c).
Proof.
  intros (_ & Hit & Hst)%reached_seen logs. unfold clone_buffer_with_state.
  rewrite Hst, Hit. fold logs.
  assert (Hlen : length logs ≤ 256).
  { unfold logs. rewrite length_reverse, length_take. unfold MAX_LINES_IN_BUFFER. lia. }
  destruct (last_state ps) as [[s t]|]; [|rewrite app_nil_r; split_and!; [done|lia|done]].
  match goal with |- context [existsb ?f ?l] =>
    assert (Hex : existsb f l = bool_decide (StateLog s t ∈ logs)) end.
  { apply eq_true_iff_eq. rewrite existsb_exists, bool_decide_eq_true. unfold logs.
    rewrite elem_of_reverse. split.
    - intros (x & Hx & Heq). destruct x as [|s' t']; [done|].
      apply andb_true_iff in Heq as [->%bool_decide_eq_true ->%Z.eqb_eq].
      by apply list_elem_of_In.
    - intros Hin. exists (StateLog s t). split; [by apply list_elem_of_In|].
      by rewrite bool_decide_true, Z.eqb_refl. }
  rewrite Hex. case_bool_decide as Hin.
  - rewrite decide_True by done. rewrite app_nil_r. split_and!; [done|lia|].
    by intros ? ? [= <- <-].
  - rewrite decide_False by done. rewrite length_app. simpl. split_and!; [done|lia|].
    intros ? ? [= <- <-]. apply elem_of_app. right. apply list_elem_of_singleton. done.
Qed.

Context `{!CodecLaws C}.

(** C21: The reader accepts a frame exactly when its payload is between one
    byte and 1 MB long and decodes; it then yields the packet and leaves
    the rest of the stream untouched. *)
Theorem read_from_stream_spec data rest :
  (Z.of_nat (length data) < 2 ^ 32)%Z →
  read_from_stream (frame data ++ rest) =
    (if decide (0 < Z.of_nat (length data) ≤ MAX_PACKET_SIZE)%Z
     then p ← deserialize_guest_packet data; Some (p, rest) else None) ∧
  (∀ n, n < length (frame data) → read_from_stream (take n (frame data)) = None).
Proof.
  intros Hlen. split.
  - case_decide as Hd; [by apply read_from_stream_data|].
    apply read_from_stream_bad_size; [lia|done].
  - intros n Hn. destruct (read_from_stream (take n (frame data))) as [[p s]|] eqn:Hr; [|done].
    exfalso. unfold read_from_stream in Hr.
    destruct (frame_read data [] Hlen) as [Hhd Hval]. rewrite app_nil_r in Hhd.
    destruct (read_exact 4 (take n (frame data))) as [[hd s1]|] eqn:H1; [|done].
    apply read_exact_length in H1 as [H1 Hl1].
    rewrite frame_length in Hn.
    assert (Hhd' : hd = u32_to_be_bytes (Z.of_nat (length data))).
    { rewrite <-(take_drop n (frame data)), H1, <-app_assoc, read_exact_app in Hhd by done.
      by injection Hhd. }
    subst hd. rewrite Hval in Hr. case_decide; [done|]. rewrite Nat2Z.id in Hr.
    rewrite read_exact_short in Hr; [done|].
    apply (f_equal length) in H1. rewrite length_take, length_app, frame_length in H1. simpl in H1. lia.
Qed.

(** The handler on packets, then an exit, then anything. *)
Lemma packet_handler_run ps code after h :
  Forall (λ p, size_ok p ∧ exit_of p = None) ps →
  size_ok (Exited code) →
  ⟪ communicator_new , h ⟫ packet_handler (stream_of (ps ++ [Exited code]) ++ after) ⟪ o c t ,
    o = Ok (Some (machine_exit_from code)) ∧ has_seen (ps ++ [Exited code]) c ∧
    last (ops t) = Some (SendStop (machine_exit_from code) : op HostI) ⟫.
Proof.
  intros Hps Hsz. set (s := stream_of (ps ++ [Exited code]) ++ after) in *.
  assert (Hs : s = stream_of ps ++ (packet_frame (Exited code) ++ after)) by apply stream_of_snoc.
  assert (Hfuel : S (length s) = length ps + S (length s - length ps)).
  { pose proof (stream_of_length ps). rewrite Hs, length_app. lia. }
  unfold packet_handler. rewrite Hfuel, Hs. wp_step.
  apply (packet_loop_packets [] ps); [done|apply has_seen_new|].
  intros c1 t1 Hc1. rewrite packet_loop_S, read_from_stream_frame by done. wp_step.
  wp_use (handle_packet_seen ps); [exact Hc1|]. intros o c2 t2 [-> Hc2]. simpl. wp_steps.
  simpl in a. destruct a; wp_steps;
    (split_and!; [done|exact Hc2|unfold ops; rewrite !map_app; simpl; by rewrite ?last_app]).
Qed.

(** C16: [packet_handler] reads packets until the first [Exited]: it logs
    the packets before it, clears the state, reports the exit code the
    guest sent, and never looks at what follows on the stream.  In
    particular the log line that the guest's [exit] sends after [Exited]
    never reaches the log. *)
Theorem packet_handler_exit ps code after h :
  Forall (λ p, size_ok p ∧ exit_of p = None) ps →
  size_ok (Exited code) →
  let r := packet_handler (stream_of (ps ++ [Exited code]) ++ after) communicator_new h in
  out r = Ok (Some (machine_exit_from code)) ∧
  cb_iter (log_buffer (st r)) = take MAX_LINES_IN_BUFFER (reverse (omap log_of ps)) ∧
  state (st r) = None ∧
  last (ops (tr r)) = Some (SendStop (machine_exit_from code) : op HostI).
Proof.
  intros Hps Hsz r.
  destruct (packet_handler_run ps code after h Hps Hsz) as (Ho & (_ & Hit & Hst) & Hlast).
  subst r. split_and!; try done.
  - rewrite Hit, omap_app. simpl. by rewrite app_nil_r.
  - rewrite Hst. unfold last_state. by rewrite foldl_snoc.
Qed.
End properties.

(** ** One subscriber's view *)

Section subscriber.
Context `{Env : Environment HostI} `{B : CircularBuffer MachineLog} `{C : Codec}.

(** The messages offered to subscriber [id] in a trace, with the answer. *)
Definition offer_of (id : Z) (e : entry HostI) : option (MachineLog * bool) :=
  let 'existT o a := e in
  match o return host_ans o → option (MachineLog * bool) with
  | TrySend tx l => λ ok, if decide (tx = id) then Some (l, ok) else None
  | _ => λ _, None
  end a.

Definition offered (id : Z) (t : history HostI) : list (MachineLog * bool) := omap (offer_of id) t.

Lemma offered_app id t u : offered id (t ++ u) = offered id t ++ offered id u.
Proof. apply omap_app. Qed.

Lemma offered_absent id data subs oks :
  id ∉ subs → offered id (zip_with (try_send_entry data) subs oks) = [].
Proof.
  revert oks. induction subs as [|tx subs IH]; intros [|ok oks] Hid; try done.
  apply not_elem_of_cons in Hid as [Hne Hid]. unfold offered. simpl.
  rewrite decide_False by done. by apply IH.
Qed.

Lemma mask_subseteq {A} oks (l : list A) x : x ∈ mask oks l → x ∈ l.
Proof.
  revert l. induction oks as [|[] oks IH]; intros [|y l]; simpl;
    try (intros H; by apply not_elem_of_nil in H); rewrite ?elem_of_cons.
  - intros [->|?%IH]; auto.
  - intros ?%IH. auto.
Qed.

(** [id] occurs once in the list of subscribers. *)
Definition once (id : Z) (subs : list Z) : Prop :=
  ∃ l1 l2, subs = l1 ++ id :: l2 ∧ id ∉ l1 ∧ id ∉ l2.

Lemma offered_once id data subs oks :
  once id subs → length oks = length subs →
  ∃ ok, offered id (zip_with (try_send_entry data) subs oks) = [(data, ok)] ∧
    if ok then once id (mask oks subs) else id ∉ mask oks subs.
Proof.
  intros (l1 & l2 & -> & H1 & H2). revert oks.
  induction l1 as [|x l1 IH]; intros [|ok oks] Hlen; try done.
  - exists ok. unfold offered. simpl. rewrite decide_True by done. split.
    + f_equal. by apply offered_absent.
    + destruct ok; simpl.
      * exists [], (mask oks l2). split_and!; [done|apply not_elem_of_nil|].
        intros ?%mask_subseteq. done.
      * intros ?%mask_subseteq. done.
  - apply not_elem_of_cons in H1 as [Hne H1].
    destruct (IH H1 oks) as (ok' & Hoff & Hm); [simpl in *; lia|].
    exists ok'. split.
    + unfold offered in *. simpl. by rewrite decide_False.
    + destruct ok; simpl; [|done]. destruct ok'.
      * destruct Hm as (m1 & m2 & -> & ? & ?). exists (x :: m1), m2.
        split_and!; [done|by apply not_elem_of_cons|done].
      * by apply not_elem_of_cons.
Qed.

(** Packets handled one after the other. *)
Definition handle_all (ps : list GuestPacket) : eff HostI MachineCommunicator HostError () :=
  for_each (λ p, handle_packet p;; mret ()) ps.

Lemma handle_packet_offers p (c : MachineCommunicator) h :
  exit_of p = None →
  ⟪ c , h ⟫ handle_packet p ⟪ o c' t ,
    o = Ok None ∧ ∃ l oks, log_of p = Some l ∧ length oks = length (log_subscribers c) ∧
      t = zip_with (try_send_entry l) (log_subscribers c) oks ∧
      log_subscribers c' = mask oks (log_subscribers c) ⟫.
Proof.
  intros Hp. destruct p as [m|s ts|]; [| |done]; simpl; wp_steps; wp_use push_log_run;
    intros o c' t (-> & oks & Hlen & -> & ->); wp_step; rewrite app_nil_r;
    (split; [done|]); by eexists _, oks.
Qed.

(** C17: There is no gap between the snapshot a client takes and the stream
    it subscribes to (both happen under one lock): of the packets handled
    after the subscription, the new subscriber is offered the messages in
    order and each once, until the first one it does not take; if it takes
    them all, it is offered all of them. *)
Theorem subscriber_sees_all_logs (c : MachineCommunicator) h h' id ps :
  out (subscribe_log c h) = Ok id →
  id ∉ log_subscribers c →
  Forall (λ p, exit_of p = None) ps →
  let t := tr (handle_all ps (st (subscribe_log c h)) h') in
  ((offered id t).*1) `prefix_of` omap log_of ps ∧
  (Forall (λ x, x.2 = true) (offered id t) → (offered id t).*1 = omap log_of ps).
Proof.
  intros Hid Hfresh Hps t.
  assert (Honce : once id (log_subscribers (st (subscribe_log c h)))).
  { injection Hid as <-. exists (log_subscribers c), []. split_and!; try done. apply not_elem_of_nil. }
  set (c1 := st (subscribe_log c h)) in *.
  pose proof (wp_for_each (λ p, handle_packet p;; mret ())
    (λ d s u,
      (once id (log_subscribers s) ∧ (offered id u).*1 = omap log_of d) ∨
      (id ∉ log_subscribers s ∧ ((offered id u).*1) `prefix_of` omap log_of d ∧
       ¬ Forall (λ x, x.2 = true) (offered id u)))
    (λ _ _ u, ((offered id u).*1) `prefix_of` omap log_of ps ∧
      (Forall (λ x, x.2 = true) (offered id u) → (offered id u).*1 = omap log_of ps))
    ps [] c1 h' []) as Hloop.
  rewrite app_nil_r in Hloop. apply Hloop; clear Hloop.
  - by left.
  - intros d p l' s u Heq Hinv. simpl in Heq. subst ps.
    apply Forall_app in Hps as [_ [Hp _]%Forall_cons].
    wp_step. wp_use handle_packet_offers; [done|].
    intros o s' v (-> & l & oks & Hl & Hlen & -> & Hs'). wp_step.
    rewrite app_nil_r, Hs', offered_app, fmap_app, omap_app. simpl. rewrite Hl.
    destruct Hinv as [[Ho Hu]|(Hn & Hpre & Hnot)].
    + destruct (offered_once id l _ oks Ho Hlen) as (ok & -> & Hm). simpl. rewrite Hu.
      destruct ok; [by left|right]. split_and!; [done|done|].
      rewrite Forall_app, Forall_cons. naive_solver.
    + right. rewrite offered_absent by done. simpl. rewrite !app_nil_r. split_and!; [| |done].
      * intros ?%mask_subseteq. done.
      * by apply prefix_app_r.
  - intros s u [[_ Hu]|(_ & Hpre & Hnot)]; simpl in *; [by rewrite Hu|done].
Qed.

(** The exits reported to the stop channel in a trace. *)
Definition stop_of (e : entry HostI) : option MachineExit :=
  match projT1 e with SendStop x => Some x | _ => None end.

Definition stops (t : history HostI) : list MachineExit := omap stop_of t.

Lemma stops_try_send data subs oks : stops (zip_with (try_send_entry data) subs oks) = [].
Proof. revert oks. induction subs as [|tx subs IH]; intros [|ok oks]; try done. apply IH. Qed.

Lemma handle_packet_stops p (c : MachineCommunicator) h :
  ⟪ c , h ⟫ handle_packet p ⟪ o _ t , o = Ok (exit_of p) ∧ stops t = [] ⟫.
Proof.
  destruct p as [m|st ts|code]; simpl; wp_steps; [wp_use push_log_run..|done];
    intros o c' t (-> & oks & _ & -> & _); wp_step; rewrite app_nil_r;
    (split; [done|apply stops_try_send]).
Qed.

Lemma handler_leaves_ok (c : MachineCommunicator) h :
  ⟪ c , h ⟫ handler_leaves ⟪ o _ t , o = Ok () ∧ stops t = [] ⟫.
Proof. unfold handler_leaves. wp_step. wp_step. by destruct a; wp_step. Qed.

Lemma handled_meanwhile_ok packets closed (c : MachineCommunicator) h :
  ⟪ c , h ⟫ handled_meanwhile packets closed ⟪ o _ t , o = Ok () ∧ stops t = [] ⟫.
Proof.
  revert c h. induction packets as [|p packets IH]; intros c h; cbn [handled_meanwhile].
  { destruct closed; [apply handler_leaves_ok|by wp_step]. }
  wp_step. wp_use handle_packet_stops. intros o c1 t1 [-> Ht1].
  destruct (exit_of p); [wp_use handler_leaves_ok|wp_use IH]; intros o c2 t2 [-> Ht2]; (split; [done|]);
    unfold stops in *; by rewrite omap_app, Ht1, Ht2.
Qed.

Lemma packet_loop_stops fuel s (c : MachineCommunicator) h :
  length s < fuel →
  ⟪ c , h ⟫ packet_loop fuel s ⟪ o _ t , (∃ r, o = Ok (Some r)) ∧ stops t = [] ⟫.
Proof.
  revert c h s. induction fuel as [|fuel IH]; intros c h s Hf; [lia|]. rewrite packet_loop_S.
  destruct (read_from_stream s) as [[p s']|] eqn:Hr; [|wp_step; split; [by eexists|done]].
  apply read_from_stream_shrinks in Hr. wp_step. wp_use handle_packet_stops.
  intros o c1 t1 [-> Ht1]. destruct (exit_of p).
  { wp_step. rewrite app_nil_r. split; [by eexists|done]. }
  wp_use IH; [lia|]. intros o c2 t2 [? Ht2]. split; [done|].
  unfold stops in *. by rewrite omap_app, Ht1, Ht2.
Qed.

(** C22: [packet_handler] always ends, whatever bytes arrive: it runs out of
    packets at the latest when the stream does, and then reports exactly
    one exit to the stop channel. *)
Theorem packet_handler_total (c : MachineCommunicator) s h :
  let r := packet_handler s c h in
  ∃ exit, out r = Ok (Some exit) ∧ stops (tr r) = [exit].
Proof.
  intros r. assert (Hw : ⟪ c , h ⟫ packet_handler s ⟪ o _ t ,
    ∃ exit, o = Ok (Some exit) ∧ stops t = [exit] ⟫).
  { unfold packet_handler. wp_step. wp_use packet_loop_stops; [lia|].
    intros o c1 t1 [[[exit rest] ->] Ht1]. wp_steps. simpl in a.
    destruct a; wp_steps; exists exit; (split; [done|]);
      unfold stops in *; rewrite !omap_app, Ht1; done. }
  exact Hw.
Qed.
End subscriber.

(** ** Evaluation on concrete inputs *)

Module Demo.
Import ListBuffer CountableCodec.

#[local] Existing Instance env_ok.

Definition line (s : string) : GuestPacket :=
  Log {| text := s; timestamp_ms := 7; message_type := Stdout |}.

Definition packets : list GuestPacket := [VmState Online 1; line "a"; line "b"].

Lemma snapshot_of_reached_witness :
  ∃ c : MachineCommunicator,
    reached [VmState Online 1] c ∧ StateLog Online 1 ∈ clone_buffer_with_state c.
Proof.
  exists (st (handle_packet (VmState Online 1) communicator_new [])).
  assert (H : reached [VmState Online 1] (st (handle_packet (VmState Online 1) communicator_new [])))
    by exact (reached_packet [] (VmState Online 1) communicator_new [] reached_new).
  split; [exact H|]. apply (snapshot_of_reached _ _ H). reflexivity.
Defined.

Lemma read_from_stream_spec_witness :
  read_from_stream (frame (serialize_guest_packet (line "a")) ++ [x00]) = Some (line "a", [x00]).
Proof.
  destruct (read_from_stream_spec (serialize_guest_packet (line "a")) [x00]) as [-> _];
    [vm_compute; reflexivity|vm_compute; reflexivity].
Defined.

Lemma packet_handler_exit_witness :
  out (packet_handler (stream_of (packets ++ [Exited (ContainerExited 3)]) ++ packet_frame (line "lost"))
         communicator_new []) = Ok (Some (ExitContainer 3)).
Proof.
  apply (packet_handler_exit packets (ContainerExited 3) (packet_frame (line "lost"))).
  - repeat constructor; vm_compute; try done; discriminate.
  - split; [vm_compute; reflexivity|vm_compute; discriminate].
Defined.

Lemma subscriber_sees_all_logs_witness :
  (offered 0 (tr (handle_all packets (st (subscribe_log communicator_new [])) []))).*1
    = [StateLog Online 1; VmLog {| text := "a"; timestamp_ms := 7; message_type := Stdout |};
       VmLog {| text := "b"; timestamp_ms := 7; message_type := Stdout |}].
Proof.
  apply (subscriber_sees_all_logs communicator_new [] [] 0 packets).
  - reflexivity.
  - apply not_elem_of_nil.
  - repeat constructor.
  - vm_compute. repeat constructor.
Defined.
End Demo.
