(* ===== verification/Firecracker.v ===== *)
(** * A jailed Firecracker process (src/nodemanager/src/machine/firecracker.rs)

    Starting the jailer, the requests that configure a microVM through
    Firecracker's HTTP API, and the removal of the jail.  serde_json is the
    interface [ToJson]; a request body is the structure the code serializes. *)

From S2P Require Import Prelude Bytes Vmproto HostOps Networking.

(** ** Firecracker types *)

Record Drive : Set := {
  drive_id : string;
  is_read_only : bool;
  is_root_device : bool;
  path_on_host : string;
}.

Record NetworkInterface : Set := {
  host_dev_name : string;
  iface_id : string;
}.

Inductive MmdsVersion : Set := V2.

Record MmdsConfig : Set := {
  ipv4_address : string;
  network_interfaces : list string;
  version : MmdsVersion;
}.

Record BootSource : Set := {
  kernel_image_path : string;
  boot_args : string;
}.

Record Vsock : Set := {
  guest_cid : Z;
  uds_path : string;
}.

Record FcMachineConfig : Set := {
  mem_size_mib : Z;
  fc_vcpu_count : Z;
}.

Inductive InstanceAction : Set := InstanceStart | SendCtrlAltDel.

(** The container configuration placed in the metadata store
    (src/nodemanager/src/machine/machine.rs). *)
Record MetadataConfig : Set := {
  md_image : string;
  md_cmd_args : option (list string);
  md_env : option (list (string * string));
  md_vsock_port : Z;
}.

(** Everything the code hands to [serde_json::to_string]. *)
Inductive Body : Set :=
| BDrive (d : Drive)
| BNetworkInterface (n : NetworkInterface)
| BMmdsConfig (c : MmdsConfig)
| BBootSource (b : BootSource)
| BVsock (v : Vsock)
| BMachineConfig (c : FcMachineConfig)
| BAction (a : InstanceAction)
| BLatest (c : MetadataConfig).

Class ToJson : Type := to_json : Body → option string.

Record JailedCracker : Set := {
  jc_uuid : string;
  root_path : Path;
  uid : Z;
}.

(** [StatusCode::is_success]: within 200-299. *)
Definition is_success (code : Z) : bool := (200 <=? code)%Z && (code <? 300)%Z.

Section firecracker.
Context `{Env : Environment HostI} `{J : ToJson}.
Variable prof : profile.

Definition serialize {S} (b : Body) : eff HostI S HostError string :=
  match to_json b with
  | Some j => mret j
  | None => throw SerializeFailed
  end.

Definition request_with_json {S} (jc : JailedCracker) (route : string) (method : Method) (data : Body)
    : eff HostI S HostError () :=
  json_data ← serialize data;
  a ← perform (I := HostI) (ApiRequest (jc_uuid jc) route method json_data);
  match a with
  | TransportError => throw (Message "Firecracker API request failed")
  | StatusCode status_code =>
      if negb (is_success status_code)
      then throw (Message ("Firecracker API request failed with status code: " +:+ pretty status_code))
      else mret ()
  end.

(** At most [n] looks at the socket, 50us apart. *)
Fixpoint wait_for_socket {S} (n : nat) (socket_path : Path) : eff HostI S HostError () :=
  match n with
  | 0 => mret ()
  | S n =>
      exists_ ← perform (I := HostI) (PathExists socket_path);
      if exists_ : bool then mret ()
      else
        _ ← perform (I := HostI) (SleepMicros 50);
        wait_for_socket n socket_path
  end.

Definition spawn {S} (jailer_bin firecracker_bin : Path) (uid_offset : Z) (mmds_json : option string)
    (null_pipe_stdio : bool) : eff HostI S HostError JailedCracker :=
  uuid ← perform (I := HostI) NewUuid;
  let uid := (10000 + uid_offset)%Z in
  let args :=
    ["--id"; uuid; "--exec-file"; show_path firecracker_bin;
     "--uid"; pretty uid; "--gid"; pretty uid; "--"; "--level"; "error"] in
  fc_bin ← match file_name firecracker_bin with
           | Some b => mret b
           | None => throw (Message "Unable to get firecracker binary name")
           end;
  let root_path := path_join (path_join (path_join ["/"; "srv"; "jailer"] [fc_bin]) [uuid]) ["root"] in
  run_io (CreateDirAll root_path);;
  args ← match mmds_json with
         | Some j =>
             run_io (WriteFile (path_join root_path ["metadata.json"]) j);;
             mret (args ++ ["--metadata"; "metadata.json"])
         | None => mret args
         end;
  let output := if null_pipe_stdio then StdioNull else StdioInherit in
  run_io (SpawnJailer jailer_bin args true StdioNull output output);;
  let socket_path := path_join (path_join root_path ["run"]) ["firecracker.socket"] in
  wait_for_socket 20 socket_path;;
  run_io (ApiConnect socket_path);;
  mret {| jc_uuid := uuid; root_path := root_path; uid := uid |}.

Definition request_stop {S} (jc : JailedCracker) : eff HostI S HostError () :=
  request_with_json jc "/actions" PUT (BAction SendCtrlAltDel).

Definition kill {S} (jc : JailedCracker) : eff HostI S HostError () :=
  run_io (KillChild (jc_uuid jc)).

Definition cleanup {S} (jc : JailedCracker) : eff HostI S HostError () :=
  ignore (kill (S := S) jc);;
  p ← or_panic (parent (root_path jc));
  run_io (RemoveDirAll p).

Definition set_rootfs {S} (jc : JailedCracker) (path : Path) : eff HostI S HostError () :=
  let dest := path_join (root_path jc) ["root.fs"] in
  run_io (CopyFile path dest);;
  run_io (Chown dest (uid jc) (uid jc));;
  request_with_json jc "/drives/rootfs" PUT
    (BDrive {| drive_id := "rootfs"; is_read_only := true; is_root_device := true;
               path_on_host := "/root.fs" |}).

Definition create_drive {S} (jc : JailedCracker) (size_gb : Z) (id : string)
    : eff HostI S HostError () :=
  let fp := path_join (root_path jc) [id +:+ ".fs"] in
  run_io (CreateFile fp);;
  n1 ← or_panic (arith prof 64 (size_gb * 1024));
  n2 ← or_panic (arith prof 64 (n1 * 1024));
  n3 ← or_panic (arith prof 64 (n2 * 1024));
  run_io (SetLen fp n3);;
  run_io (Chown fp (uid jc) (uid jc));;
  request_with_json jc ("/drives/" +:+ id) PUT
    (BDrive {| drive_id := id; is_read_only := false; is_root_device := false;
               path_on_host := "/" +:+ id +:+ ".fs" |}).

Definition add_network_interface {S} (jc : JailedCracker) (guest_name host_dev : string)
    : eff HostI S HostError () :=
  request_with_json jc ("/network-interfaces/" +:+ guest_name) PUT
    (BNetworkInterface {| host_dev_name := host_dev; iface_id := guest_name |}).

Definition config_mmds {S} (jc : JailedCracker) (guest_name : string) : eff HostI S HostError () :=
  request_with_json jc "/mmds/config" PUT
    (BMmdsConfig {| ipv4_address := "169.254.169.254"; network_interfaces := [guest_name];
                    version := V2 |}).

Definition set_eth_tap {S} (jc : JailedCracker) (tap : TunTap) : eff HostI S HostError () :=
  add_network_interface jc "eth0" (name tap);;
  config_mmds jc "eth0".

Definition add_host_vsock {S} (jc : JailedCracker) (cid : Z) : eff HostI S HostError Path :=
  request_with_json jc "/vsock" PUT (BVsock {| guest_cid := cid; uds_path := "/run/v.sock" |});;
  mret (path_join (root_path jc) ["run"; "v.sock"]).

Definition open_vsock_listener {S} (jc : JailedCracker) (port : Z) : eff HostI S HostError Path :=
  _ ← add_host_vsock jc (2 ^ 32 - 1);
  let vsock_path := path_join (root_path jc) ["run"; "v.sock_" +:+ pretty port] in
  run_io (BindUnix vsock_path);;
  run_io (Chown vsock_path (uid jc) (uid jc));;
  mret vsock_path.

Definition set_boot {S} (jc : JailedCracker) (kernel_img : Path) (args : string)
    : eff HostI S HostError () :=
  let dest := path_join (root_path jc) ["kernel.img"] in
  run_io (CopyFile kernel_img dest);;
  run_io (Chown dest (uid jc) (uid jc));;
  request_with_json jc "/boot-source" PUT
    (BBootSource {| kernel_image_path := "/kernel.img"; boot_args := args |}).

Definition set_machine_config {S} (jc : JailedCracker) (vcpu_count mem_size_mb : Z)
    : eff HostI S HostError () :=
  request_with_json jc "/machine-config" PUT
    (BMachineConfig {| fc_vcpu_count := vcpu_count; mem_size_mib := mem_size_mb |}).

Definition start_vm {S} (jc : JailedCracker) : eff HostI S HostError () :=
  request_with_json jc "/actions" PUT (BAction InstanceStart).
End firecracker.

(** ** What configuring a microVM does to the outside *)

(** The API requests of a trace, with their answers. *)
Definition request_of (e : entry HostI) : option (string * string * string * api_answer) :=
  let 'existT o a := e in
  match o return host_ans o → option (string * string * string * api_answer) with
  | ApiRequest uuid route _ body => λ a, Some (uuid, route, body, a)
  | _ => λ _, None
  end a.

Definition requests (t : history HostI) : list (string * string * string * api_answer) :=
  omap request_of t.

Definition accepted (a : api_answer) : bool :=
  match a with StatusCode c => is_success c | TransportError => false end.

(** The operations that undo a launch: configuring a machine performs none
    of them, and runs no network command. *)
Definition quiet (e : entry HostI) : Prop :=
  match projT1 e with
  | RunCommand _ _ | KillChild _ | RemoveDirAll _ => False
  | _ => True
  end.

Lemma requests_app t u : requests (t ++ u) = requests t ++ requests u.
Proof. apply omap_app. Qed.

Lemma quiet_commands t : Forall quiet t → commands t = [].
Proof.
  intros Ht. apply omap_nil_Forall. eapply Forall_impl; [exact Ht|].
  intros [[] a]; unfold quiet; simpl; done.
Qed.

Section boots.
Context `{Env : Environment HostI} `{J : ToJson}.

(** What the serialized form of a list of requests should be. *)
Definition expected (jc : JailedCracker) (l : list (string * Body)) : list (string * string * option string) :=
  (λ '(r, b), (jc_uuid jc, r, to_json b)) <$> l.

Definition sent (t : history HostI) : list (string * string * option string) :=
  (λ '(u, r, j, _), (u, r, Some j)) <$> requests t.

(** A computation that issues the requests [l], in order, stops at the first
    that fails, and touches neither the state nor the running machine. *)
Definition boots {S A} (jc : JailedCracker) (l : list (string * Body)) (m : eff HostI S HostError A)
    : Prop :=
  ∀ s h, ⟪ s , h ⟫ m ⟪ o s' t ,
    s' = s ∧ o ≠ Panic ∧ Forall quiet t ∧ sent t `prefix_of` expected jc l ∧
    (is_ok o = true →
      sent t = expected jc l ∧ Forall (λ x, accepted x.2 = true) (requests t)) ⟫.

Lemma sent_app t u : sent (t ++ u) = sent t ++ sent u.
Proof. unfold sent. by rewrite requests_app, fmap_app. Qed.

Lemma boots_ret {S A} jc (a : A) : boots (S := S) jc [] (mret a).
Proof. intros s h. apply wp_ret. split_and!; try done. Qed.

Lemma boots_throw {S A} jc l e : boots (S := S) (A := A) jc l (throw e).
Proof. intros s h. apply wp_throw. split_and!; try done. apply prefix_nil. Qed.

Lemma boots_bind {S A B} jc l1 l2 (m : eff HostI S HostError A) (k : A → eff HostI S HostError B) :
  boots jc l1 m → (∀ a, boots jc l2 (k a)) → boots jc (l1 ++ l2) (m ≫= k).
Proof.
  intros Hm Hk s h. apply wp_bind. wp_use Hm. intros [a|e|] s1 t1 (-> & Ho & Hq & Hp & Hok); [| |done].
  - destruct (Hok eq_refl) as [Hs Ha]. wp_use (Hk a).
    intros o s2 t2 (-> & Ho2 & Hq2 & Hp2 & Hok2).
    rewrite sent_app, requests_app. unfold expected in *. rewrite fmap_app, Hs.
    split_and!; try done; [by apply Forall_app|by apply prefix_app|].
    intros Hi. destruct (Hok2 Hi) as [-> ?]. split; [done|by apply Forall_app].
  - split_and!; try done. unfold expected in *. rewrite fmap_app. by apply prefix_app_r.
Qed.

Lemma boots_seq {S A} jc l (m : eff HostI S HostError A) {B} (k : A → eff HostI S HostError B) :
  boots jc [] m → (∀ a, boots jc l (k a)) → boots jc l (m ≫= k).
Proof. apply (boots_bind jc [] l). Qed.

(** Operations that are neither requests nor undo anything. *)
Definition calm (o : HostOp) : Prop :=
  match o with
  | RunCommand _ _ | KillChild _ | RemoveDirAll _ | ApiRequest _ _ _ _ => False
  | _ => True
  end.

Lemma boots_perform {S} jc (o : HostOp) : calm o →
  boots (S := S) jc [] (perform (I := HostI) o).
Proof.
  intros Ho s h. wp_step. unfold sent.
  assert (requests [existT (o : op HostI) a] = []) as -> by by destruct o.
  split_and!; try done.
  constructor; [|constructor]. unfold quiet. simpl. by destruct o.
Qed.

Lemma boots_io {S} jc o f : calm o → boots (S := S) jc [] (io o f).
Proof.
  intros Ho. unfold io. apply (boots_bind jc [] []); [by apply boots_perform|].
  intros a. destruct (f a); [apply boots_throw|apply boots_ret].
Qed.

Lemma boots_or_panic {S A B} jc l (x : option A) a (k : A → eff HostI S HostError B) :
  x = Some a → boots jc l (k a) → boots jc l (or_panic x ≫= k).
Proof.
  intros -> Hk s h. apply wp_bind, wp_ret. rewrite app_nil_r. wp_use Hk. done.
Qed.

Lemma boots_request {S} jc route b : boots (S := S) jc [(route, b)] (request_with_json jc route PUT b).
Proof.
  intros s h. unfold request_with_json, serialize. destruct (to_json b) as [j|] eqn:Hj.
  - wp_step. wp_step. wp_step. wp_step. unfold sent, expected. simpl. rewrite Hj.
    assert (Forall quiet [existT (ApiRequest (jc_uuid jc) route PUT j : op HostI) a]) as Hq
      by (constructor; [done|constructor]).
    destruct a as [|c]; [by apply wp_throw|].
    destruct (is_success c) eqn:Hc; simpl; [apply wp_ret|by apply wp_throw].
    split_and!; try done. intros _. split; [done|]. by repeat constructor.
  - do 2 wp_step. split_and!; try done. apply prefix_nil.
Qed.
End boots.

Create HintDb boots discriminated.
#[export] Hint Resolve boots_ret boots_throw : boots.
#[export] Hint Extern 1 (boots _ _ (request_with_json _ _ _ _)) => apply boots_request : boots.
#[export] Hint Extern 1 (boots _ _ (io ?o _)) => apply boots_io; exact Logic.I : boots.
#[export] Hint Extern 1 (@boots _ _ _ ?jc _ (@perform _ _ _ _ ?o)) =>
  exact (boots_perform jc o Logic.I) : boots.
#[export] Hint Extern 1 (boots _ _ (or_panic _ ≫= _)) =>
  eapply boots_or_panic; [apply arith_fits; lia|] : boots.
#[export] Hint Extern 2 (boots _ [] (_ ≫= _)) => apply boots_seq; [|intros] : boots.
#[export] Hint Extern 3 (boots _ _ (_ ≫= _)) => apply boots_seq; [solve [auto with boots]|intros] : boots.

Section configuration.
Context `{Env : Environment HostI} `{J : ToJson}.
Context {S : Type}.
Implicit Types jc : JailedCracker.

Definition rootfs_requests : list (string * Body) :=
  [("/drives/rootfs", BDrive {| drive_id := "rootfs"; is_read_only := true;
      is_root_device := true; path_on_host := "/root.fs" |})].

Lemma set_rootfs_boots jc p : boots (S := S) jc rootfs_requests (set_rootfs jc p).
Proof. unfold set_rootfs. auto with boots. Qed.

Definition drive_requests (id : string) : list (string * Body) :=
  [("/drives/" +:+ id, BDrive {| drive_id := id; is_read_only := false;
      is_root_device := false; path_on_host := "/" +:+ id +:+ ".fs" |})].

Definition tap_requests (tap : string) : list (string * Body) :=
  [("/network-interfaces/eth0", BNetworkInterface {| host_dev_name := tap; iface_id := "eth0" |});
   ("/mmds/config", BMmdsConfig {| ipv4_address := "169.254.169.254";
      network_interfaces := ["eth0"]; version := V2 |})].

Definition vsock_requests : list (string * Body) :=
  [("/vsock", BVsock {| guest_cid := 2 ^ 32 - 1; uds_path := "/run/v.sock" |})].

Definition boot_requests (args : string) : list (string * Body) :=
  [("/boot-source", BBootSource {| kernel_image_path := "/kernel.img"; boot_args := args |})].

Definition config_requests (vcpu mem : Z) : list (string * Body) :=
  [("/machine-config", BMachineConfig {| fc_vcpu_count := vcpu; mem_size_mib := mem |})].

Definition start_requests : list (string * Body) := [("/actions", BAction InstanceStart)].

(** A size whose number of bytes fits in 64 bits does not overflow. *)
Lemma create_drive_boots prof jc size id : (0 <= size < 2 ^ 34)%Z →
  boots (S := S) jc (drive_requests id) (create_drive prof jc size id).
Proof.
  intros Hs. unfold create_drive. auto 9 with boots.
Qed.

Lemma set_eth_tap_boots jc tap :
  boots (S := S) jc (tap_requests (name tap)) (set_eth_tap jc tap).
Proof.
  unfold set_eth_tap, add_network_interface, config_mmds.
  apply (boots_bind jc [_] [_]); auto with boots.
Qed.

Lemma open_vsock_listener_boots jc port :
  boots (S := S) jc vsock_requests (open_vsock_listener jc port).
Proof.
  unfold open_vsock_listener, add_host_vsock. apply (boots_bind jc [_] []); [|auto with boots].
  apply (boots_bind jc [_] []); auto with boots.
Qed.

Lemma set_boot_boots jc kernel args : boots (S := S) jc (boot_requests args) (set_boot jc kernel args).
Proof. unfold set_boot. auto with boots. Qed.

Lemma set_machine_config_boots jc vcpu mem :
  boots (S := S) jc (config_requests vcpu mem) (set_machine_config jc vcpu mem).
Proof. unfold set_machine_config. auto with boots. Qed.

Lemma start_vm_boots jc : boots (S := S) jc start_requests (start_vm jc).
Proof. unfold start_vm. auto with boots. Qed.

(** Launching the jailer: no request yet, and what it returns. *)
Lemma wait_for_socket_boots jc n p : boots (S := S) jc [] (wait_for_socket n p).
Proof.
  induction n as [|n IH]; simpl; [auto with boots|].
  apply boots_seq; [auto with boots|]. intros [|]; auto with boots.
Qed.

Lemma spawn_boots jc jailer fc off mmds np : boots (S := S) jc [] (spawn jailer fc off mmds np).
Proof.
  unfold spawn. apply boots_seq; [auto with boots|]. intros id.
  apply boots_seq; [destruct (file_name fc); auto with boots|]. intros bin.
  apply boots_seq; [auto with boots|]. intros [].
  apply boots_seq; [destruct mmds; auto with boots|]. intros args.
  apply boots_seq; [auto with boots|]. intros [].
  apply boots_seq; [apply wait_for_socket_boots|]. auto with boots.
Qed.
End configuration.

#[export] Hint Resolve set_rootfs_boots set_eth_tap_boots open_vsock_listener_boots set_boot_boots
  set_machine_config_boots start_vm_boots wait_for_socket_boots spawn_boots : boots.
#[export] Hint Extern 1 (boots _ _ (create_drive _ _ _ _)) => apply create_drive_boots; lia : boots.

(** ** The launch of the jailer *)

Section launch.
Context `{Env : Environment HostI}.
Context {S : Type}.

Lemma wp_io (o : HostOp) (f : host_ans o → bool) (s : S) h
    (Q : outcome HostError () → S → history HostI → Prop) :
  (∀ a : host_ans o, Q (if f a then Err (IoFailed o) else Ok ()) s [existT (o : op HostI) a]) →
  wp (io o f) s h Q.
Proof.
  intros HQ. unfold io. wp_step. apply (@wp_perform HostI S HostError Env o). intros a _. simpl.
  specialize (HQ a). by destruct (f a); [apply wp_throw|apply wp_ret].
Qed.

(** [k] fruitless looks at the socket, each followed by a pause, and at most
    20 of them. *)
Definition waits (p : Path) (k n : nat) : list HostOp :=
  concat (replicate k [PathExists p; SleepMicros 50]) ++ (if decide (k = n) then [] else [PathExists p]).

Lemma wait_for_socket_spec n p (s : S) h :
  ⟪ s , h ⟫ wait_for_socket n p ⟪ o s' t ,
    o = Ok () ∧ s' = s ∧ ∃ k, k ≤ n ∧ ops t = waits p k n ⟫.
Proof.
  revert h; induction n as [|n IH]; intros h; simpl.
  - apply wp_ret. split_and!; [done..|]. exists 0. by split; [lia|].
  - wp_step. apply (@wp_perform HostI _ _ _ (PathExists p)). intros [|] _.
    + apply wp_ret. split_and!; [done..|]. exists 0. split; [lia|done].
    + wp_step. apply (@wp_perform HostI _ _ _ (SleepMicros 50)). intros [] _.
      wp_use IH. intros o s' t (-> & -> & k & Hk & Ht). split_and!; [done..|].
      exists (Datatypes.S k). split; [lia|]. rewrite !ops_app, Ht. unfold waits. simpl.
      by repeat case_decide; try lia.
Qed.

Definition launch_ops (jailer fc : Path) (jc : JailedCracker) (metadata : option string)
    (null : bool) (k : nat) : list HostOp :=
  let socket := root_path jc ++ ["run"; "firecracker.socket"] in
  let output := if null then StdioNull else StdioInherit in
  [NewUuid; CreateDirAll (root_path jc)] ++
  match metadata with Some j => [WriteFile (root_path jc ++ ["metadata.json"]) j] | None => [] end ++
  [SpawnJailer jailer
     (["--id"; jc_uuid jc; "--exec-file"; show_path fc; "--uid"; pretty (uid jc);
       "--gid"; pretty (uid jc); "--"; "--level"; "error"] ++
      match metadata with Some _ => ["--metadata"; "metadata.json"] | None => [] end)
     true StdioNull output output] ++
  waits socket k 20 ++ [ApiConnect socket].

Definition jail_of (fc_bin uuid : string) : Path :=
  path_join (path_join ["/"; "srv"; "jailer"] [fc_bin]) [uuid].

Lemma spawn_spec jailer fc off metadata null (s : S) h :
  ⟪ s , h ⟫ spawn jailer fc off metadata null ⟪ o s' t ,
    ∀ jc, o = Ok jc →
      ∃ bin k, file_name fc = Some bin ∧ root_path jc = jail_of bin (jc_uuid jc) ++ ["root"] ∧
        uid jc = (10000 + off)%Z ∧ k ≤ 20 ∧
        ops t = launch_ops jailer fc jc metadata null k ⟫.
Proof.
  unfold spawn. wp_step. apply (@wp_perform HostI _ _ _ NewUuid). intros u _.
  destruct (file_name fc) as [bin|]; [|do 2 wp_step; by intros].
  wp_step. apply wp_ret. wp_step. apply wp_io. intros [|]; [|by intros]. cbn [negb].
  wp_step. set (args := match metadata with Some _ => _ | None => _ end).
  assert (∀ h, ⟪ s , h ⟫ args ⟪ o s' t , ∀ a, o = Ok a →
    s' = s ∧
    a = ["--id"; u; "--exec-file"; show_path fc; "--uid"; pretty (10000 + off)%Z;
         "--gid"; pretty (10000 + off)%Z; "--"; "--level"; "error"] ++
        match metadata with Some _ => ["--metadata"; "metadata.json"] | None => [] end ∧
    ops t = match metadata with
            | Some j => [WriteFile ((jail_of bin u ++ ["root"]) ++ ["metadata.json"]) j]
            | None => [] end ⟫) as Hargs.
  { intros h'. unfold args. destruct metadata as [j|].
    - wp_step. apply wp_io. intros [|]; [|done]. apply wp_ret. by intros a [= <-].
    - apply wp_ret. by intros a [= <-]. }
  wp_use Hargs. clear Hargs args. intros [a|e|] s1 t1 Ha; [|done..].
  destruct (Ha a eq_refl) as (-> & -> & Ht1). clear Ha.
  wp_step. apply wp_io. intros [|]; [|done]. cbn [negb]. wp_step. wp_use wait_for_socket_spec.
  intros o s1 t2 (-> & -> & k & Hk & Ht2). wp_step. apply wp_io. intros [|]; [|done]. apply wp_ret.
  intros jc [= <-]. exists bin, k. split_and!; [done..|].
  unfold launch_ops. cbn [root_path jc_uuid uid]. rewrite !ops_app, Ht1, Ht2. simpl.
  by rewrite <-!app_assoc.
Qed.
End launch.

(** ** Properties *)

Section properties.
Context `{Env : Environment HostI}.

(** C27: A successful launch performs exactly this sequence: a fresh uuid, the
    jail's root directory, the metadata file if there is one, the jailer with
    the uuid, the Firecracker binary and the uid/gid [10000 + offset] on its
    command line, in an empty environment and without input (or output, unless
    it is to be shown), at most 20 looks at the API socket 50us apart, and the
    connection to it.  The jail it returns is
    [/srv/jailer/<firecracker>/<uuid>/root].  A launch that fails kills nothing
    and removes nothing. *)
Theorem spawn_launches {S} jailer fc off metadata null (s : S) h :
  let r := spawn jailer fc off metadata null s h in
  st r = s ∧ out r ≠ Panic ∧ Forall quiet (tr r) ∧ requests (tr r) = [] ∧
  ∀ jc, out r = Ok jc →
    ∃ bin k, file_name fc = Some bin ∧
      root_path jc = jail_of bin (jc_uuid jc) ++ ["root"] ∧
      uid jc = (10000 + off)%Z ∧ k ≤ 20 ∧
      ops (tr r) = launch_ops jailer fc jc metadata null k.
Proof.
  simpl. pose proof (spawn_boots (J := λ _, None) {| jc_uuid := ""; root_path := []; uid := 0 |}
    jailer fc off metadata null s h) as (Hs & Ho & Hq & Hp & _).
  apply prefix_nil_inv, fmap_nil_inv in Hp.
  pose proof (spawn_spec jailer fc off metadata null s h). done.
Qed.
End properties.
