(* ===== verification/Machine.v ===== *)
(** * A machine (src/nodemanager/src/machine/machine.rs)

    Booting a microVM with a container configuration in its metadata store,
    its shutdown (graceful first, then forced), and access to its logs, under
    the lock it shares with its packet handler. *)

From S2P Require Import Prelude Bytes Vmproto HostOps Networking Communicator Firecracker.

Record MachineConfig : Set := {
  container_reference : string;
  vcpu_count : Z;
  mem_size_mb : Z;
}.

Record ContainerOverrides : Set := {
  cmd_args : option (list string);
  env : option (list (string * string));
}.

Record FirecrackerConfig : Set := {
  rootfs : Path;
  kernel_image : Path;
  jailer_binary : Path;
  firecracker_binary : Path;
}.

Section machine.
Context `{Env : Environment HostI} `{B : CircularBuffer MachineLog} `{C : Codec} `{J : ToJson}.
Variable prof : profile.

Record Machine : Type := {
  vm : JailedCracker;
  comm : option MachineCommunicator;
  network : NetworkStack;
}.

Definition set_comm (c : option MachineCommunicator) (m : Machine) : Machine :=
  {| vm := vm m; comm := c; network := network m |}.

Definition set_network (n : NetworkStack) (m : Machine) : Machine :=
  {| vm := vm m; comm := comm m; network := n |}.

Definition uuid (m : Machine) : string := jc_uuid (vm m).

(** [rand::random::<u32>() % (u32::MAX - 4) + 3] *)
Definition vsock_port_of (r : Z) : option Z :=
  arith prof 32 (wrap 32 r `mod` ((2 ^ 32 - 1) - 4) + 3).

Definition boot_args_of (debug_machine_out : bool) (s : NetworkStack) : string :=
  (if debug_machine_out then "console=ttyS0" else "8250.nr_uarts=0") +:+
  " quiet loglevel=1 reboot=k panic=-1 pci=off ip=" +:+ show_ipv4 (ipv4_addr s) +:+ "::" +:+
  show_ipv4 (gateway s) +:+ ":" +:+ subnet_mask s +:+ "::eth0:off".

(** The network stack is owned by the call until the machine is returned:
    every early return drops it. *)
Definition machine_new {S} (fc_config : FirecrackerConfig) (config : MachineConfig)
    (network_stack : NetworkStack) (overrides : ContainerOverrides) : eff HostI S HostError Machine :=
  r ← owned drop_network_stack network_stack (
    random ← perform (I := HostI) RandomU32;
    vsock_port ← or_panic (vsock_port_of random);
    metadata ← serialize (BLatest
      {| md_image := container_reference config; md_cmd_args := cmd_args overrides;
         md_env := env overrides; md_vsock_port := vsock_port |});
    debug_machine_out ← perform (I := HostI) (VarIsSet "DEBUG_MACHINE_OUT");
    vm ← spawn (jailer_binary fc_config) (firecracker_binary fc_config) 0 (Some metadata)
           (negb debug_machine_out);
    set_machine_config vm (vcpu_count config) (mem_size_mb config);;
    set_boot vm (kernel_image fc_config) (boot_args_of debug_machine_out network_stack);;
    set_rootfs vm (rootfs fc_config);;
    create_drive prof vm 8 "drive0";;
    set_eth_tap vm (nic network_stack);;
    listener ← open_vsock_listener vm vsock_port;
    start_vm vm;;
    connection ← perform (I := HostI) (AcceptTimeout listener 500);
    match connection with
    | Accepted => mret vm
    | AcceptError => throw (IoFailed (AcceptTimeout listener 500))
    | AcceptElapsed => throw (Message "Timeout accepting vsock connection")
    end);
  mret {| vm := r.1; network := r.2; comm := Some communicator_new |}.

Definition shutdown_gracefully (timeout : Z) : eff HostI Machine HostError () :=
  m ← get;
  match comm m with
  | None => throw (Message "Communication never initialized")
  | Some _ =>
      modify (set_comm None);;
      run_io (LockCommTimeout (Z.min 50 timeout));;
      send_shutdown;;
      run_io (JoinTimeout timeout)
  end.

Definition drop_machine (m : Machine) : eff HostI () HostError () :=
  drop_network_stack (network m).

(** [self] is consumed; its network stack is returned. *)
Definition shutdown {S} (m : Machine) (timeout : option Z) : eff HostI S HostError NetworkStack :=
  r ← owned drop_machine m (
    match timeout with
    | Some timeout => ignore (shutdown_gracefully timeout)
    | None => mret ()
    end;;
    m ← get;
    ignore (cleanup (vm m)));
  mret (network r.2).

Definition with_comm {A} (f : eff HostI MachineCommunicator HostError A)
    : eff HostI Machine HostError A :=
  m ← get;
  match comm m with
  | None => throw (Message "Communication never initialized")
  | Some c => zoom (λ _, c) (λ c', set_comm (Some c')) f
  end.

Definition get_and_subscribe_to_logs : eff HostI Machine HostError (list MachineLog * Z) :=
  with_comm (locked (
    logs ← (c ← get; mret (clone_buffer_with_state c));
    id ← subscribe_log;
    mret (logs, id))).

Definition get_logs : eff HostI Machine HostError (list MachineLog) :=
  with_comm (locked (c ← get; mret (clone_buffer_with_state c))).
End machine.
Arguments Machine {B}.

(** ** Facts *)

Section facts.
Context `{Env : Environment HostI} `{B : CircularBuffer MachineLog} `{C : Codec} `{J : ToJson}.
Variable prof : profile.

Lemma vsock_port_fits r :
  ∃ p, vsock_port_of prof r = Some p ∧ (3 <= p <= 2 ^ 32 - 3)%Z.
Proof.
  unfold vsock_port_of. assert (0 < 2 ^ 32 - 1 - 4)%Z as Hm by lia.
  pose proof (Z.mod_pos_bound (wrap 32 r) _ Hm).
  eexists. split; [apply arith_fits; lia|lia].
Qed.

(** The requests that boot a machine, in order. *)
Definition boot_sequence (config : MachineConfig) (n : NetworkStack) (debug : bool)
    : list (string * Body) :=
  config_requests (vcpu_count config) (mem_size_mb config) ++
  boot_requests (boot_args_of debug n) ++
  rootfs_requests ++ drive_requests "drive0" ++ tap_requests (name (nic n)) ++
  vsock_requests ++ start_requests.

(** Operations that remove a jail or kill its process. *)
Definition undoes (o : HostOp) : bool :=
  match o with KillChild _ | RemoveDirAll _ => true | _ => false end.

Lemma quiet_not_undoes t : Forall quiet t → Forall (λ o, undoes o = false) (ops t).
Proof.
  intros Ht. apply Forall_map. eapply Forall_impl; [exact Ht|].
  intros [[] a]; unfold quiet; simpl; done.
Qed.

(** The commands a network stack's destructor runs. *)
Definition drop_commands (n : NetworkStack) : list (string * list string) :=
  tap_del (name (nic n)) :: (pair "iptables-nft" <$> delete_args (ip_rule_book n)).

(** A destructor only runs commands. *)
Definition is_command (o : op HostI) : Prop :=
  match o : HostOp with RunCommand _ _ => True | _ => False end.

Lemma cmd_performs {S} prog args : performs is_command (cmd (S := S) prog args).
Proof.
  unfold cmd. apply performs_bind; [auto with performs|].
  intros [| |c]; auto with performs. case_match; auto with performs.
Qed.
#[local] Hint Resolve cmd_performs : performs.

Lemma drop_network_stack_performs {S} (n : NetworkStack) :
  performs is_command (drop_network_stack (S := S) n).
Proof. unfold drop_network_stack, drop_tuntap, drop_ip_rule_book. auto with performs. Qed.

Lemma setup_public_nat_performs out_if : performs is_command (setup_public_nat out_if).
Proof.
  unfold setup_public_nat, on_rules, add_ip_rule_replace_first_arg, add_ip_rule. auto 10 with performs.
Qed.

Lemma provision_stack_performs : performs is_command (provision_stack prof).
Proof.
  unfold provision_stack, network_stack_new, tuntap_new, add_address, up, next_slot, drop_tuntap.
  apply performs_bind; [|auto 10 with performs].
  apply performs_bind; [auto with performs|]. intros m.
  destruct (vec_pop _) as [[]|]; auto 12 with performs.
Qed.

Lemma commands_only t : Forall is_command (ops t) →
  sent t = [] ∧ Forall (λ o, undoes o = false) (ops t).
Proof.
  induction t as [|[o a] t IH]; simpl; [done|].
  intros [Ho Ht]%Forall_cons. destruct (IH Ht) as [IH1 IH2]. destruct o; try done.
  split; [exact IH1|by constructor].
Qed.

(** What the owner of a network stack sees of its destructor. *)
Lemma drop_network_stack_run {S} (n : NetworkStack) (s : S) h :
  ⟪ s , h ⟫ drop_network_stack n ⟪ o s' t ,
    o = Ok () ∧ s' = s ∧ command_lines t = drop_commands n ∧
    sent t = [] ∧ Forall (λ o, undoes o = false) (ops t) ⟫.
Proof.
  pose proof (commands_only _ (drop_network_stack_performs n s h)) as [Hs Hu].
  destruct (drop_network_stack_spec n s h) as (Ho & Hst & Hc). done.
Qed.

(** Configuring and starting the spawned Firecracker. *)
Lemma configure_boots {S} fc config ns debug port jc :
  boots (S := S) jc (boot_sequence config ns debug) (
    set_machine_config jc (vcpu_count config) (mem_size_mb config);;
    set_boot jc (kernel_image fc) (boot_args_of debug ns);;
    set_rootfs jc (rootfs fc);;
    create_drive prof jc 8 "drive0";;
    set_eth_tap jc (nic ns);;
    listener ← open_vsock_listener jc port;
    start_vm jc;;
    connection ← perform (I := HostI) (AcceptTimeout listener 500);
    match connection with
    | Accepted => mret jc
    | AcceptError => throw (IoFailed (AcceptTimeout listener 500))
    | AcceptElapsed => throw (Message "Timeout accepting vsock connection")
    end).
Proof.
  unfold boot_sequence.
  do 5 (apply boots_bind; [auto with boots|intros _]).
  apply boots_bind; [auto with boots|intros l].
  apply (boots_bind jc start_requests []); [auto with boots|intros _].
  apply boots_seq; [auto with boots|]. intros [| |]; auto with boots.
Qed.

(** The outcome of [machine_new] on every path. *)
Definition boot_outcome (fc : FirecrackerConfig) (config : MachineConfig) (ns : NetworkStack)
    (o : outcome HostError Machine) (t : history HostI) : Prop :=
  match o with
  | Ok m =>
      network m = ns ∧ comm m = Some communicator_new ∧ uid (vm m) = 10000%Z ∧
      (∃ bin, file_name (firecracker_binary fc) = Some bin ∧
              root_path (vm m) = jail_of bin (uuid m) ++ ["root"]) ∧
      (∃ debug, sent t = expected (vm m) (boot_sequence config ns debug)) ∧
      Forall (λ r, accepted r.2 = true) (requests t) ∧ commands t = []
  | Err _ =>
      (∃ jc debug, sent t `prefix_of` expected jc (boot_sequence config ns debug)) ∧
      command_lines t = drop_commands ns
  | Panic => False
  end.

(** The same before the network stack is given up on failure. *)
Definition body_outcome (fc : FirecrackerConfig) (config : MachineConfig) (ns : NetworkStack)
    (o : outcome HostError JailedCracker) (ns' : NetworkStack) (t : history HostI) : Prop :=
  ns' = ns ∧ Forall quiet t ∧
  match o with
  | Ok v => boot_outcome fc config ns (Ok {| vm := v; network := ns'; comm := Some communicator_new |}) t
  | Err _ => ∃ jc debug, sent t `prefix_of` expected jc (boot_sequence config ns debug)
  | Panic => False
  end.

Lemma drop_after_body {S} fc config ns e (s : S) h t1 :
  body_outcome fc config ns (Err e) ns t1 →
  ⟪ s , h ⟫ drop_network_stack ns ⟪ _ _ t2 ,
    Forall (λ x, undoes x = false) (ops (t1 ++ t2)) ∧
    boot_outcome fc config ns (Err e) (t1 ++ t2) ⟫.
Proof.
  intros (_ & Hq & jc & debug & Hp). wp_use drop_network_stack_run.
  intros o s' t2 (_ & _ & Hc & Hs & Hu). split.
  - rewrite ops_app. apply Forall_app. split; [by apply quiet_not_undoes|done].
  - split; [exists jc, debug; by rewrite sent_app, Hs, app_nil_r|].
    rewrite command_lines_app, Hc. unfold command_lines. by rewrite quiet_commands.
Qed.

Definition dead_jail : JailedCracker := {| jc_uuid := ""; root_path := []; uid := 0 |}.

(** Nothing was sent yet. *)
Lemma body_outcome_start fc config ns e t :
  Forall quiet t → sent t = [] → body_outcome fc config ns (Err e) ns t.
Proof.
  intros Hq Hs. split_and!; [done..|].
  exists dead_jail, false. rewrite Hs. apply prefix_nil.
Qed.

(** Once the jailer runs. *)
Lemma body_outcome_spawned fc config ns jc bin (m : eff HostI NetworkStack HostError JailedCracker)
    debug h t1 :
  Forall quiet t1 → sent t1 = [] → uid jc = 10000%Z → file_name (firecracker_binary fc) = Some bin →
  root_path jc = jail_of bin (jc_uuid jc) ++ ["root"] →
  boots jc (boot_sequence config ns debug) m → returns (eq jc) m →
  ⟪ ns , h ⟫ m ⟪ o ns' t , body_outcome fc config ns o ns' (t1 ++ t) ⟫.
Proof.
  intros Hq Hs Hu Hb Hp Hm Hret. assert (requests t1 = []) as Hr by by eapply fmap_nil_inv.
  generalize (Hm ns h), (Hret ns h).
  unfold wp. destruct (m ns h) as [o ns' t]; simpl.
  intros (-> & Ho & Hq2 & Hpre & Hok) Hjc.
  assert (Forall quiet (t1 ++ t)) by by apply Forall_app.
  split_and!; [done..|]. destruct o as [v|e|]; [| |done].
  - rewrite <-(Hjc v eq_refl). destruct (Hok eq_refl) as [Hsent Hacc].
    split_and!; try done; cbn [vm]; [by exists bin|exists debug; by rewrite sent_app, Hs| |].
    + by rewrite requests_app, Hr.
    + by apply quiet_commands.
  - exists jc, debug. by rewrite sent_app, Hs.
Qed.

Lemma machine_new_outcome {S} fc config ns overrides (s : S) h :
  ⟪ s , h ⟫ machine_new prof fc config ns overrides ⟪ o s' t ,
    s' = s ∧ Forall (λ x, undoes x = false) (ops t) ∧ boot_outcome fc config ns o t ⟫.
Proof.
  unfold machine_new. wp_step. wp_step.
  match goal with |- wp ?m _ _ _ =>
    assert (wp m ns h (body_outcome fc config ns)) as Hbody end; swap 1 2.
  { wp_use Hbody. intros [v|e|] ns' t Hb; [|destruct Hb as [-> Hb]|by destruct Hb as (_ & _ & [])].
    - apply wp_ret. destruct Hb as (-> & Hq & Hb). rewrite app_nil_r.
      split_and!; [done|by apply quiet_not_undoes|done].
    - wp_use (drop_after_body (S := ()) fc config ns e () (h ++ t) t (conj eq_refl Hb)). done. }
  wp_step. apply (@wp_perform HostI _ _ _ RandomU32). intros r _.
  destruct (vsock_port_fits r) as (port & Hport & _). rewrite Hport. wp_step. apply wp_ret.
  wp_step. unfold serialize at 1.
  case_match; [apply wp_ret|apply wp_throw; by apply body_outcome_start; [repeat constructor|]].
  wp_step. apply (@wp_perform HostI _ _ _ (VarIsSet "DEBUG_MACHINE_OUT")). intros debug _.
  wp_step. eapply wp_mono; [apply wp_conj; [apply (spawn_boots dead_jail)|apply spawn_spec]|].
  intros [jc|e|] s1 t1 [(-> & Ho & Hq & Hsent & _) Hjc]; [| |done];
    apply prefix_nil_inv in Hsent.
  - destruct (Hjc jc eq_refl) as (bin & k & Hbin & Hroot & Hu & _). clear Hjc.
    eapply wp_mono; [apply (body_outcome_spawned fc config ns jc bin _ debug _
      (existT (RandomU32 : op HostI) r :: existT (VarIsSet "DEBUG_MACHINE_OUT" : op HostI) debug :: t1));
      [by repeat constructor|done..| |]|].
    + apply configure_boots.
    + repeat (apply returns_bind; intros ?). case_match; auto with performs.
    + simpl. done.
  - apply body_outcome_start; [by repeat constructor|done].
Qed.

(** The file Firecracker serves the metadata of the machine from. *)
Definition metadata_written (config : MachineConfig) (overrides : ContainerOverrides) (jc : JailedCracker)
    (t : history HostI) : Prop :=
  ∃ port j, (3 <= port <= 2 ^ 32 - 3)%Z ∧
    to_json (BLatest {| md_image := container_reference config; md_cmd_args := cmd_args overrides;
                        md_env := env overrides; md_vsock_port := port |}) = Some j ∧
    WriteFile (root_path jc ++ ["metadata.json"]) j ∈ ops t.

(** A machine that booted has its metadata in the file Firecracker reads. *)
Lemma machine_metadata {S} fc config ns overrides (s : S) h :
  ⟪ s , h ⟫ machine_new prof fc config ns overrides ⟪ o _ t ,
    ∀ m, o = Ok m → metadata_written config overrides (vm m) t ⟫.
Proof.
  unfold machine_new. wp_step. wp_step.
  match goal with |- wp ?m _ _ _ =>
    assert (⟪ ns , h ⟫ m ⟪ o _ t , ∀ v, o = Ok v → metadata_written config overrides v t ⟫) as Hbody end; swap 1 2.
  { wp_use Hbody. intros [v|e|] ns' t Hb; [|by intros m..].
    apply wp_ret. rewrite app_nil_r. intros m [= <-]. by apply Hb. }
  wp_step. apply (@wp_perform HostI _ _ _ RandomU32). intros r _.
  destruct (vsock_port_fits r) as (port & Hport & Hrange). rewrite Hport. wp_step. apply wp_ret.
  wp_step. unfold serialize at 1. destruct (to_json _) as [j|] eqn:Hj; [apply wp_ret|apply wp_throw; by intros].
  wp_step. apply (@wp_perform HostI _ _ _ (VarIsSet "DEBUG_MACHINE_OUT")). intros debug _.
  wp_step. wp_use @spawn_spec. intros [jc|e|] s1 t1 Hjc; [|by intros..].
  destruct (Hjc jc eq_refl) as (bin & k & _ & _ & _ & _ & Hops).
  match goal with |- wp ?m s1 ?h1 _ =>
    assert (returns (eq jc) m) as Hret by (repeat (apply returns_bind; intros ?); case_match; auto with performs);
    specialize (Hret s1 h1); unfold wp end.
  intros v Hv. rewrite <-(Hret v Hv). exists port, j. split; [done|]. split; [done|].
  cbn [app]. simpl. rewrite !ops_app. do 2 right. rewrite Hops.
  apply elem_of_app. left. unfold launch_ops. do 2 right. left.
Qed.

(** ** Shutting down *)

Lemma cleanup_spec {S} jc p (s : S) h : root_path jc = p ++ ["root"] →
  ⟪ s , h ⟫ cleanup jc ⟪ o s' t ,
    o ≠ Panic ∧ s' = s ∧ ops t = [KillChild (jc_uuid jc); RemoveDirAll p] ⟫.
Proof.
  intros Hp. unfold cleanup, kill. wp_step. wp_step. apply wp_io. intros k.
  rewrite Hp, (parent_snoc p "root") by done.
  assert (∀ o : outcome HostError (), o = (if negb k then Err (IoFailed (KillChild (jc_uuid jc))) else Ok ()) →
    match o with Panic => False | _ => True end) as Hk by by intros ? ->; destruct k.
  destruct k; cbn [negb]; wp_step; apply wp_ret; apply wp_io; by intros [|].
Qed.

(** The operations of a graceful shutdown. *)
Definition graceful_ops (ms : Z) : list HostOp :=
  let data := serialize_host_packet Shutdown in
  [LockCommTimeout (Z.min 50 ms);
   StreamWriteAll (u32_to_be_bytes (wrap 32 (Z.of_nat (length data))));
   StreamWriteAll data; StreamFlush; JoinTimeout ms].

(** What they were answered: [false] is a lock not granted in time, a failed
    write, a handler that has not ended in time. *)
Definition granted (e : entry HostI) : bool :=
  let 'existT o a := e in
  match o return host_ans o → bool with
  | LockCommTimeout _ | StreamWriteAll _ | StreamFlush | JoinTimeout _ => λ a, a
  | _ => λ _, true
  end a.

Lemma issues_io {S} (o : HostOp) f :
  (∀ a : host_ans o, granted (existT (o : op HostI) a) = negb (f a)) →
  issues (I := HostI) (S := S) granted [o] (io o f).
Proof.
  intros Hf s h. apply wp_io. intros a. specialize (Hf a). destruct (f a); (split_and!; [done..|]).
  - by exists [], (existT (o : op HostI) a), [].
  - split; [done|]. by constructor.
Qed.

Lemma graceful_issues {S} ms : issues (I := HostI) (S := S) granted (graceful_ops ms)
  (run_io (LockCommTimeout (Z.min 50 ms));; send_shutdown;; run_io (JoinTimeout ms)).
Proof.
  assert (∀ a, a = negb (negb a)) by by intros [].
  unfold send_shutdown, write.
  apply (issues_seq (I := HostI) _ [_]); [by apply issues_io|].
  apply (issues_seq (I := HostI) _ [_; _; _] [_]); [|by apply issues_io].
  do 2 (apply (issues_seq (I := HostI) _ [_]); [by apply issues_io|]). by apply issues_io.
Qed.

(** The shutdown was asked for and waited for, or the attempt ended at the
    first operation that failed. *)
Definition asked_gracefully (ms : Z) (t : history HostI) : Prop :=
  all_performed granted (graceful_ops ms) t ∨ cut_short granted (graceful_ops ms) t.

Lemma asked_prefix ms t : asked_gracefully ms t → ops t `prefix_of` graceful_ops ms.
Proof. intros [[-> _]|(before & e & after & _ & -> & _)]; [done|by eexists]. Qed.

Lemma shutdown_gracefully_spec ms (m : Machine) h :
  ⟪ m , h ⟫ shutdown_gracefully ms ⟪ o m' t ,
    o ≠ Panic ∧ vm m' = vm m ∧ network m' = network m ∧
    match comm m with
    | None => t = []
    | Some _ => comm m' = None ∧ asked_gracefully ms t
    end ⟫.
Proof.
  unfold shutdown_gracefully. wp_step. wp_step.
  destruct (comm m) as [c|] eqn:Hc; [|by apply wp_throw].
  wp_step. wp_step. wp_use graceful_issues. intros o m' t (-> & ? & Ht). split_and!; [done..|].
  destruct (is_ok o); [by left|by right].
Qed.

Lemma shutdown_run {S} (m : Machine) timeout p (s : S) h : root_path (vm m) = p ++ ["root"] →
  ⟪ s , h ⟫ shutdown m timeout ⟪ o s' t ,
    o = Ok (network m) ∧ s' = s ∧
    ∃ g fin, t = g ++ fin ∧ ops fin = [KillChild (uuid m); RemoveDirAll p] ∧
      match timeout, comm m with
      | Some ms, Some _ => asked_gracefully ms g
      | _, _ => g = []
      end ⟫.
Proof.
  intros Hp. unfold shutdown. wp_step. wp_step. wp_step.
  match goal with |- wp ?body _ _ _ =>
    assert (⟪ m , h ⟫ body ⟪ o m' t , o = Ok () ∧ vm m' = vm m ∧ network m' = network m ∧
      match timeout, comm m with
      | Some ms, Some _ => asked_gracefully ms t
      | _, _ => t = []
      end ⟫) as Hg end.
  { destruct timeout as [ms|]; [|by apply wp_ret].
    wp_step. wp_use shutdown_gracefully_spec. intros o m' t (Ho & Hv & Hn & Ht).
    destruct (comm m); [|by destruct o]. destruct Ht as (_ & Ht). by destruct o. }
  wp_use Hg. clear Hg. intros o m' t (-> & Hv & Hn & Ht).
  wp_step. wp_step. wp_step. rewrite Hv. wp_use (cleanup_spec (S := Machine) (vm m) p m' _ Hp).
  intros o s' t2 (Ho & -> & Ht2).
  destruct o; [..|done]; apply wp_ret; rewrite app_nil_r; (split_and!; [by simpl; rewrite Hn|done|by exists t, t2]).
Qed.
End facts.

(** ** Properties *)

Section properties.
Context `{Env : Environment HostI} `{B : CircularBuffer MachineLog} `{C : Codec} `{J : ToJson}.
Variable prof : profile.

(** C11: Booting a machine never panics, and

    - when it succeeds, Firecracker received exactly the configuration
      requests of [boot_sequence] in that order, ending with
      [InstanceStart], and accepted each of them; the machine owns the network
      stack it was given, its log buffer is empty, and no network command ran;
    - when it fails, what was sent is a prefix of that sequence and the
      network stack was dropped: its tap device and its rules were deleted. *)
Theorem machine_boots {S} fc config ns overrides (s : S) h :
  let r := machine_new prof fc config ns overrides s h in
  match out r with
  | Ok m =>
      network m = ns ∧ comm m = Some communicator_new ∧ uid (vm m) = 10000%Z ∧
      (∃ bin, file_name (firecracker_binary fc) = Some bin ∧
              root_path (vm m) = jail_of bin (uuid m) ++ ["root"]) ∧
      (∃ debug, sent (tr r) = expected (vm m) (boot_sequence config ns debug)) ∧
      Forall (λ a, accepted a.2 = true) (requests (tr r)) ∧ commands (tr r) = []
  | Err _ =>
      (∃ jc debug, sent (tr r) `prefix_of` expected jc (boot_sequence config ns debug)) ∧
      command_lines (tr r) = drop_commands ns
  | Panic => False
  end.
Proof. apply (machine_new_outcome prof fc config ns overrides s h). Qed.

(** C26: [machine_new] never kills a process and never removes a directory,
    on any path.  So a boot that fails after the jailer was started (a
    refused request, a guest that does not connect within 500ms) leaves the
    Firecracker process running and its jail on disk, while the network stack
    it uses is taken down. *)
Theorem failed_boot_leaves_jail {S} fc config ns overrides (s : S) h :
  let r := machine_new prof fc config ns overrides s h in
  (∀ uuid, KillChild uuid ∉ ops (tr r)) ∧ (∀ p, RemoveDirAll p ∉ ops (tr r)) ∧
  (∀ e, out r = Err e → command_lines (tr r) = drop_commands ns).
Proof.
  intros r. destruct (machine_new_outcome prof fc config ns overrides s h) as (_ & Hu & Ho).
  fold r in Hu, Ho. rewrite Forall_forall in Hu.
  split_and!; [by intros u Hin; specialize (Hu _ Hin)..|].
  intros e He. rewrite He in Ho. apply Ho.
Qed.

(** The vsock port of a machine always lies in [3, 2^32 - 3], so it is
    neither a reserved port nor [VMADDR_PORT_ANY], the addition never
    overflows, and every port of that range can be drawn. *)
Theorem vsock_port_range :
  (∀ r, ∃ p, vsock_port_of prof r = Some p ∧ (3 <= p <= 2 ^ 32 - 3)%Z) ∧
  (∀ p, (3 <= p <= 2 ^ 32 - 3)%Z → ∃ r, (0 <= r < 2 ^ 32)%Z ∧ vsock_port_of prof r = Some p).
Proof.
  split; [apply vsock_port_fits|]. intros p Hp. exists (p - 3)%Z. split; [lia|].
  unfold vsock_port_of. rewrite wrap_small, Z.mod_small by lia.
  rewrite arith_fits by lia. f_equal. lia.
Qed.

(** C25: Shutting a booted machine down, with or without a graceful timeout
    and whatever fails on the way, returns the network stack it was created
    with, untouched, and always ends by killing its Firecracker process and
    removing its jail.  Before that it does nothing without a timeout; with one,
    it takes the communicator's lock (waiting at most 50ms), writes the shutdown
    packet, flushes it and waits for the handler to end, never longer than the
    timeout; it leaves out a step of these only when the one before it
    failed. *)
Theorem shutdown_returns_stack {S} fc config ns overrides m timeout h0 (s : S) h :
  out (machine_new prof fc config ns overrides () h0) = Ok m →
  let r := shutdown m timeout s h in
  out r = Ok ns ∧ st r = s ∧
  ∃ bin g fin, file_name (firecracker_binary fc) = Some bin ∧
    tr r = g ++ fin ∧ ops fin = [KillChild (uuid m); RemoveDirAll (jail_of bin (uuid m))] ∧
    match timeout with
    | None => g = []
    | Some ms => all_performed granted (graceful_ops ms) g ∨ cut_short granted (graceful_ops ms) g
    end.
Proof.
  intros Hm. pose proof (machine_new_outcome prof fc config ns overrides () h0) as (_ & _ & Ho).
  rewrite Hm in Ho. destruct Ho as (<- & Hc & _ & (bin & Hbin & Hp) & _).
  destruct (shutdown_run m timeout _ s h Hp) as (Ho & Hs & g & fin & Hg & Hfin & Hgr).
  rewrite Hc in Hgr. simpl. split_and!; [done..|]. exists bin, g, fin. split_and!; [done..|].
  by destruct timeout.
Qed.
End properties.

(** ** Evaluation *)

Module Demo.
Import ListBuffer CountableCodec.

#[export] Instance json : ToJson := λ b,
  match b with
  | BAction InstanceStart => Some "{action_type:InstanceStart}"
  | BLatest c => Some (md_image c)
  | BDrive d => Some (drive_id d)
  | _ => Some "{}"
  end.

Definition fc : FirecrackerConfig :=
  {| rootfs := ["rootfs.ext4"]; kernel_image := ["vmlinux"]; jailer_binary := ["/"; "bin"; "jailer"];
     firecracker_binary := ["/"; "bin"; "firecracker"] |}.
Definition config : MachineConfig :=
  {| container_reference := "nginx"; vcpu_count := 2; mem_size_mb := 256 |}.
Definition stack : NetworkStack := {|
  nic := {| name := "tap0" |}; ip_rule_book := ip_rule_book_new;
  ipv4_addr := Ipv4 172 16 0 2; gateway := Ipv4 172 16 0 1 |}.
Definition overrides : ContainerOverrides := {| cmd_args := None; env := None |}.

(** The guest never connects. *)
Definition env_no_guest : Environment HostI := λ h o,
  match o return host_ans o with
  | AcceptTimeout _ _ => AcceptElapsed
  | o => @respond HostI env_ok h o
  end.

(** The jailer was started, the boot failed, and only network commands were
    run to clean up. *)
Example boot_without_guest :
  let r := machine_new (Env := env_no_guest) Debug fc config stack overrides () [] in
  out r = Err (Message "Timeout accepting vsock connection") ∧
  commands (tr r) = [("ip", ["link"; "del"; "tap0"], ExitStatus (Some 0%Z))].
Proof. vm_compute. done. Qed.

Lemma shutdown_returns_stack_witness :
  ∃ m, out (machine_new (Env := env_ok) Debug fc config stack overrides () []) = Ok m ∧
    out (shutdown (Env := env_ok) (S := ()) m (Some 3000%Z) () []) = Ok stack.
Proof.
  eexists. split; [vm_compute; reflexivity|].
  eapply (shutdown_returns_stack (Env := env_ok) Debug fc config stack overrides _ (Some 3000%Z) [] () []).
  vm_compute. reflexivity.
Defined.
End Demo.
