(* ===== verification/Manager.v ===== *)
(** * The node manager (src/nodemanager/src/manager.rs)

    The machines of a node with the network they use, the gRPC handlers with
    their authentication, and the task that cleans up after a machine that
    exited.

    Every operation that changes the set of machines holds its write lock
    from its first access to its end, and every reading handler holds the
    read lock, so an execution is a sequence of whole operations
    ([manager_op]), in any order. *)

From S2P Require Import Prelude Bytes Vmproto Auth HostOps Networking Communicator Firecracker Machine.

Record ManagerConfig : Set := {
  firecracker_config : FirecrackerConfig;
  public_network_interface : string;
  service_network_interface : string;
}.

(** ** Messages (src/proto/proto/node.proto) *)

Record ProvisionRequest : Type := {
  pr_container_reference : string;
  pr_vcpus : Z;
  pr_memory_mb : Z;
  pr_cmd_args : list string;
  pr_env : gmap string string;
}.

Record DeprovisionRequest : Set := {
  dr_instance_id : string;
  dr_timeout_millis : Z;
}.

Record PublishServicePortRequest : Set := {
  ps_id : string;
  ps_guest_port : Z;
  ps_host_port : Z;
}.

(** tonic::Status, as far as the code builds it. *)
Inductive Code : Set := Unauthenticated | Internal | NotFound | InvalidArgument.
Record Status : Set := { status_code : Code; status_message : string }.

(** A request: the value of its [auth] metadata entry, its message, and what
    the clock shows when it is served. *)
Record Request (A : Type) : Type := {
  metadata_auth : option (list byte);
  clock : Z;
  get_ref : A;
}.
Arguments metadata_auth {A} r.
Arguments clock {A} r.
Arguments get_ref {A} r.

(** [HashMap] to [BTreeMap]: the entries sorted by key. *)
Definition key_le (a b : string * string) : Prop := String.leb a.1 b.1 = true.

#[export] Instance key_le_dec : RelDecision key_le.
Proof. intros a b. unfold key_le. apply _. Defined.

Definition collect_btree (entries : list (string * string)) : list (string * string) :=
  merge_sort key_le entries.

Section manager.
Context `{Env : Environment HostI} `{B : CircularBuffer MachineLog} `{C : Codec} `{J : ToJson} `{W : Jwt}.
Variable prof : profile.
Variable config : ManagerConfig.

(** [MetadataValue::to_str]: [None] is its error. *)
Variable to_str : list byte → option string.

(** The order in which a [HashMap] yields its entries; it may differ from
    one moment to the next. *)
Variable iter : ∀ V, history HostI → gmap string V → list (string * V).

(** Whether [Uuid::parse_str] accepts. *)
Variable uuid_valid : string → bool.

Record InnerNodeManager : Type := {
  machines : gmap string Machine;
  network_manager : NetworkManager;
}.

Variable machine_state_subscription : bool.
Variable authentication_secret : option Key.

Definition set_machines (ms : gmap string Machine) (s : InnerNodeManager) : InnerNodeManager :=
  {| machines := ms; network_manager := network_manager s |}.

Definition set_network_manager (n : NetworkManager) (s : InnerNodeManager) : InnerNodeManager :=
  {| machines := machines s; network_manager := n |}.

Definition on_network {E A} (m : eff HostI NetworkManager E A) : eff HostI InnerNodeManager E A :=
  zoom network_manager set_network_manager m.

Definition iterate {S E V} (m : gmap string V) : eff HostI S E (list (string * V)) :=
  λ s h, Run (Ok (iter _ h m)) s [].

(** ** InnerNodeManager *)

(** [machines.insert(uuid, machine);]: a machine it replaces is dropped. *)
Definition insert_machine (id : string) (m : Machine) : eff HostI InnerNodeManager HostError () :=
  s ← get;
  modify (λ s, set_machines (<[id := m]> (machines s)) s);;
  match machines s !! id with
  | Some old => stateless (drop_machine old)
  | None => mret ()
  end.

Definition provision_ (request : ProvisionRequest) : eff HostI InnerNodeManager HostError string :=
  let machine_config :=
    {| container_reference := pr_container_reference request;
       vcpu_count := wrap 8 (pr_vcpus request);
       mem_size_mb := wrap 32 (pr_memory_mb request) |} in
  network_stack ← on_network (provision_stack prof);
  r ← owned drop_network_stack network_stack
        (setup_public_nat (public_network_interface config));
  let network_stack := r.2 in
  env ← iterate (pr_env request);
  let overrides :=
    {| cmd_args := match pr_cmd_args request with [] => None | args => Some args end;
       Machine.env := match env with [] => None | env => Some (collect_btree env) end |} in
  machine ← machine_new prof (firecracker_config config) machine_config network_stack overrides;
  insert_machine (uuid machine) machine;;
  mret (uuid machine).

Definition deprovision_ (id : string) (graceful_timeout : option Z)
    : eff HostI InnerNodeManager HostError () :=
  s ← get;
  match machines s !! id with
  | Some machine =>
      modify (λ s, set_machines (delete id (machines s)) s);;
      network_stack ← shutdown machine graceful_timeout;
      on_network (reclaim network_stack)
  | None => mret ()
  end.

Definition handle_machine_exit (id : string) (exit_code : MachineExit)
    : eff HostI InnerNodeManager HostError () :=
  (if machine_state_subscription then
     (if uuid_valid id then mret () else panic);;
     _ ← perform (I := HostI) (NotifyExit id exit_code);
     mret ()
   else mret ());;
  deprovision_ id None.

Definition drain_ : eff HostI InnerNodeManager HostError () :=
  s ← get;
  drained ← iterate (machines s);
  modify (set_machines ∅);;
  for_each (λ '(_, machine),
    stack ← shutdown machine (Some 3000%Z);
    on_network (reclaim stack)) drained.

(** ** Handlers *)

Definition validate_auth {S A} (request : Request A) (expected_audience : option string)
    : eff HostI S Status () :=
  match authentication_secret with
  | None => mret ()
  | Some secret =>
      let token := default "" (v ← metadata_auth request; to_str v) in
      ok ← or_panic (validate_authentication (clock request) token secret expected_audience);
      if ok : bool then mret ()
      else throw {| status_code := Unauthenticated; status_message := "Invalid authentication token" |}
  end.

Definition internal (msg : string) (_ : HostError) : Status :=
  {| status_code := Internal; status_message := msg |}.

Definition provision (request : Request ProvisionRequest) : eff HostI InnerNodeManager Status string :=
  validate_auth request None;;
  map_err (internal "Failed to provision machine") (provision_ (get_ref request)).

Definition deprovision (request : Request DeprovisionRequest) : eff HostI InnerNodeManager Status () :=
  validate_auth request (Some (dr_instance_id (get_ref request)));;
  let timeout :=
    if (0 <? dr_timeout_millis (get_ref request))%Z
    then Some (dr_timeout_millis (get_ref request)) else None in
  map_err (internal "Failed to deprovision machine")
    (deprovision_ (dr_instance_id (get_ref request)) timeout).

(** A call on the machine [id], found under the read lock. *)
Definition on_machine {A} (id : string) (f : eff HostI Machine Status A)
    : eff HostI InnerNodeManager Status A :=
  s ← get;
  match machines s !! id with
  | Some m => zoom (λ _, m) (λ m' s, set_machines (<[id := m']> (machines s)) s) f
  | None => throw {| status_code := NotFound; status_message := "Machine not found" |}
  end.

(** The lines already buffered, and the channel the following ones arrive
    on; [log_stream] is what the spawned task forwards to the client. *)
Definition stream_logs (request : Request string)
    : eff HostI InnerNodeManager Status (list MachineLog * Z) :=
  validate_auth request (Some (get_ref request));;
  on_machine (get_ref request) (map_err (internal "Failed to get logs") get_and_subscribe_to_logs).

Definition log_stream (logs received : list MachineLog) : list ProtoLogMessage :=
  as_proto_log_message <$> (logs ++ received).

Definition list_instances (request : Request ()) : eff HostI InnerNodeManager Status (list string) :=
  validate_auth request None;;
  s ← get;
  instances ← iterate (machines s);
  mret (fst <$> instances).

Definition get_logs_handler (request : Request string)
    : eff HostI InnerNodeManager Status (list ProtoLogMessage) :=
  validate_auth request (Some (get_ref request));;
  logs ← on_machine (get_ref request) (map_err (internal "Failed to get logs") get_logs);
  mret (as_proto_log_message <$> logs).

Definition u16_try_from {S} (p : Z) (msg : string) : eff HostI S Status Z :=
  if is_uint 16 p then mret p
  else throw {| status_code := InvalidArgument; status_message := msg |}.

Definition publish_service_port (request : Request PublishServicePortRequest)
    : eff HostI InnerNodeManager Status () :=
  let r := get_ref request in
  validate_auth request (Some (ps_id r));;
  host_port ← u16_try_from (ps_host_port r) "Invalid host port";
  guest_port ← u16_try_from (ps_guest_port r) "Invalid guest port";
  on_machine (ps_id r)
    (map_err (internal "Failed to publish service port")
      (zoom network set_network
        (setup_forwarding (service_network_interface config) host_port guest_port))).

Definition drain (request : Request ()) : eff HostI InnerNodeManager Status () :=
  validate_auth request None;;
  map_err (internal "Failed to drain node") drain_.
End manager.
Arguments InnerNodeManager {B}.

(** [NodeManager::new]: the node and the key its handlers check with. *)
Definition node_manager_new `{Environment HostI} `{CircularBuffer MachineLog} `{Jwt} {S}
    (authentication_secret : option string) : eff HostI S HostError (InnerNodeManager * option Key) :=
  network ← network_manager_new;
  key ← match authentication_secret with
        | None => mret None
        | Some s => k ← or_panic (new_from_slice s); mret (Some k)
        end;
  mret ({| machines := ∅; network_manager := network |}, key).

(** ** The network invariant, one call at a time *)

Section network_invariant.
Context `{Env : Environment HostI} (prof : profile).
Context `{Acc : Held}.

(** The stacks [live] are those handed out by [nm], and the commands run so
    far ([past]) created exactly their devices and rules. *)
Definition net_inv (nm : NetworkManager) (live : list NetworkStack) (past : history HostI) : Prop :=
  net_wf {| mgr := nm; live := live; past := past |}.

Definition has_room (nm : NetworkManager) (k : Z) : Prop :=
  prof = Debug ∨ (next_id nm + k <= max_slots)%Z.

#[export] Instance net_inv_proper : Proper (eq ==> Permutation ==> eq ==> iff) net_inv.
Proof.
  assert (∀ nm l1 l2 h, l1 ≡ₚ l2 → net_inv nm l1 h → net_inv nm l2 h) as Himp.
  { intros nm l1 l2 h Hl [Hs Hb Ht Hr]. constructor; simpl in *; by rewrite <-Hl. }
  intros nm ? <- l1 l2 Hl h ? <-. by split; apply Himp.
Qed.

Lemma net_inv_quiet nm l h t : commands t = [] → net_inv nm l h → net_inv nm l (h ++ t).
Proof.
  intros Ht [Hs Hb Htap Hr]. constructor; simpl in *; [done..| |].
  - rewrite taps_created_app, taps_deleted_app. unfold taps_created at 2, taps_deleted at 2, command_lines.
    by rewrite Ht, !app_nil_r.
  - rewrite added_rules_app, deleted_rules_app. unfold added_rules at 2, deleted_rules at 2, command_lines.
    by rewrite Ht, !app_nil_r.
Qed.

Lemma net_inv_drop nm n l h t :
  command_lines t = drop_commands n → net_inv nm (n :: l) h → net_inv nm l (h ++ t).
Proof.
  intros Ht Hw. apply (net_take_wf 0 n nm t {| mgr := nm; live := n :: l; past := h |}); try done.
  eapply slots_wf_lose. apply Hw.
Qed.

Lemma net_inv_provision nm l h : net_inv nm l h → has_room nm 1 →
  ⟪ nm , h ⟫ provision_stack prof ⟪ o nm' t ,
    (next_id nm' <= next_id nm + 1)%Z ∧
    match o with
    | Ok n => net_inv nm' (n :: l) (h ++ t)
    | _ => net_inv nm' l (h ++ t)
    end ⟫.
Proof.
  intros Hw Hroom.
  destruct (net_exec_wf prof {| mgr := nm; live := l; past := h |} NetProvision Hw) as [Hw' Hn].
  { destruct Hroom; [by left|right; left; simpl; lia]. }
  unfold wp. simpl in *. split; [exact Hn|].
  destruct (out (provision_stack prof nm h)); [|done..].
  unfold net_inv. change (net_inv (st (provision_stack prof nm h)) (a :: l) (h ++ tr (provision_stack prof nm h))).
  by rewrite Permutation_cons_append.
Qed.

Lemma net_inv_stack_op nm n l h rules :
  Forall (λ args, is_delete args = false) rules → net_inv nm (n :: l) h →
  ⟪ n , h ⟫ add_rules rules ⟪ _ n' t , net_inv nm (n' :: l) (h ++ t) ⟫.
Proof.
  intros Hr Hw.
  apply (net_on_stack_wf 0 (add_rules rules) {| mgr := nm; live := n :: l; past := h |}); [|done].
  intros n' h'. by apply stack_op_spec.
Qed.

Lemma net_inv_nat nm n l h out_if : net_inv nm (n :: l) h →
  ⟪ n , h ⟫ setup_public_nat out_if ⟪ _ n' t , net_inv nm (n' :: l) (h ++ t) ⟫.
Proof.
  intros Hw. unfold wp. rewrite setup_public_nat_rules. apply net_inv_stack_op; [|done]. by repeat constructor.
Qed.

Lemma net_inv_forward nm n l h in_if p q : net_inv nm (n :: l) h →
  ⟪ n , h ⟫ setup_forwarding in_if p q ⟪ _ n' t , net_inv nm (n' :: l) (h ++ t) ⟫.
Proof.
  intros Hw. unfold wp. rewrite setup_forwarding_rules. apply net_inv_stack_op; [|done]. by repeat constructor.
Qed.

Lemma net_inv_reclaim nm n l h : net_inv nm (n :: l) h →
  ⟪ nm , h ⟫ reclaim n ⟪ o nm' t , o = Ok () ∧ next_id nm' = next_id nm ∧ net_inv nm' l (h ++ t) ∧
    recovered_slots nm' = recovered_slots nm ++ [stack_slot n] ∧ command_lines t = drop_commands n ⟫.
Proof.
  intros Hw. destruct (reclaim_spec nm n (stack_slot <$> l) h) as (Ho & Hs & Hn & Hc); [apply Hw|].
  pose proof (reclaim_state nm n h) as Hst. split_and!; [done..| |by rewrite Hst|done].
  by apply (net_take_wf 0 n _ _ {| mgr := nm; live := n :: l; past := h |}); [..|by rewrite Hst| |].
Qed.
End network_invariant.

(** The accounts of a history that starts once the node runs. *)
Lemma net_inv_rules `{Env : Environment HostI} nm l h : net_inv (Acc := none_held) nm l h →
  delete_of <$> added_rules h ≡ₚ deleted_rules h ++ (l ≫= stack_book).
Proof. intros Hn. rewrite (wf_rules _ Hn). simpl. by rewrite app_nil_r. Qed.

(** ** The invariant of the node *)

Section node_invariant.
Context `{Env : Environment HostI} `{B : CircularBuffer MachineLog} `{C : Codec} `{J : ToJson} `{W : Jwt}.
Context `{Acc : Held}.
Variable prof : profile.

(** The network stacks of the machines. *)
Definition networks (ms : gmap string Machine) : list NetworkStack :=
  (λ x, network x.2) <$> map_to_list ms.

Lemma networks_insert id m (ms : gmap string Machine) :
  networks (<[id := m]> ms) ≡ₚ network m :: networks (delete id ms).
Proof.
  unfold networks. rewrite <-insert_delete_eq, map_to_list_insert by apply lookup_delete_eq. done.
Qed.

Lemma networks_lookup id m (ms : gmap string Machine) : ms !! id = Some m →
  networks ms ≡ₚ network m :: networks (delete id ms).
Proof. intros Hm. by rewrite <-(insert_id ms id m Hm) at 1; rewrite networks_insert. Qed.

(** A machine is filed under its uuid and its jail is where [cleanup]
    looks for it. *)
Definition machine_wf (id : string) (m : Machine) : Prop :=
  uuid m = id ∧ ∃ bin, root_path (vm m) = jail_of bin id ++ ["root"].

Definition machines_wf (ms : gmap string Machine) : Prop := map_Forall machine_wf ms.

Record node_wf (h : history HostI) (s : InnerNodeManager) : Prop := {
  wf_network : net_inv (network_manager s) (networks (machines s)) h;
  wf_machines : machines_wf (machines s);
}.

Definition id_of (s : InnerNodeManager) : Z := next_id (network_manager s).

(** [m] keeps the invariant and hands out at most [k] fresh slots. *)
Definition keeps {E A} (k : Z) (m : eff HostI InnerNodeManager E A) : Prop :=
  ∀ s h, node_wf h s → has_room prof (network_manager s) k →
    ⟪ s , h ⟫ m ⟪ _ s' t , node_wf (h ++ t) s' ∧ (id_of s' <= id_of s + k)%Z ⟫.

Lemma keeps_bind {E A X} k (m : eff HostI InnerNodeManager E A) (f : A → eff HostI InnerNodeManager E X) :
  (0 <= k)%Z → keeps 0 m → (∀ a, keeps k (f a)) → keeps k (m ≫= f).
Proof.
  intros Hk Hm Hf s h Hs Hroom. wp_step. eapply wp_mono.
  { apply Hm; [done|]. destruct Hroom; [by left|right; lia]. }
  intros o s1 t1 [Hs1 Hn1]. destruct o as [a|e|]; [|by split; [|unfold id_of in *; lia]..].
  eapply wp_mono; [apply Hf; [done|]|].
  { destruct Hroom; [by left|right; unfold id_of in *; lia]. }
  intros o s2 t2 [Hs2 Hn2]. rewrite app_assoc. split; [done|unfold id_of in *; lia].
Qed.

Lemma keeps_pure {E A} k (m : eff HostI InnerNodeManager E A) :
  (0 <= k)%Z → (∀ s h, st (m s h) = s ∧ tr (m s h) = []) → keeps k m.
Proof.
  intros Hk Hm s h Hs _. destruct (Hm s h) as [Hst Ht]. unfold wp.
  rewrite Hst, Ht, app_nil_r. split; [done|lia].
Qed.

Lemma keeps_map_err {E E' A} k (f : E → E') (m : eff HostI InnerNodeManager E A) :
  keeps k m → keeps k (map_err f m).
Proof.
  intros Hm s h Hs Hr. apply wp_map_err. eapply wp_mono; [by apply Hm|]. by intros [].
Qed.

(** A call on one machine that runs no network command. *)
Lemma keeps_on_machine {A} id (f : eff HostI Machine Status A) :
  (∀ m h l nm, net_inv nm (network m :: l) h →
    ⟪ m , h ⟫ f ⟪ _ m' t , vm m' = vm m ∧ net_inv nm (network m' :: l) (h ++ t) ⟫) →
  keeps 0 (on_machine id f).
Proof.
  intros Hf s h [Hn Hw] _. unfold on_machine. wp_step. wp_step.
  destruct (machines s !! id) as [m|] eqn:Hm; [|apply wp_throw; rewrite app_nil_r; by split; [|lia]].
  wp_step. rewrite app_nil_r. eapply wp_mono; [apply Hf|].
  { rewrite <-(networks_lookup id m) by done. exact Hn. }
  intros o m' t [Hv Hinv]. split; [|unfold id_of; simpl; lia]. constructor; simpl.
  - by rewrite networks_insert.
  - apply map_Forall_insert_2; [|done]. specialize (Hw id m Hm). unfold machine_wf, uuid in *. by rewrite Hv.
Qed.
End node_invariant.

(** ** Retiring machines *)

Section retire.
Context `{Env : Environment HostI} `{B : CircularBuffer MachineLog} `{C : Codec} `{J : ToJson} `{W : Jwt}.
Context `{Acc : Held}.
Variable prof : profile.

Lemma commands_none t : Forall (λ o, ¬ is_command o) (ops t) → commands t = [].
Proof.
  induction t as [|[o a] t IH]; [done|]. intros [Ho Ht]%Forall_cons.
  destruct o; try exact (IH Ht). by destruct Ho.
Qed.

(** Shutting a machine down and giving its network back, the common end of
    [deprovision_] and of each round of [drain_]. *)
Lemma retire_run id m timeout (s : InnerNodeManager) l h :
  machine_wf id m → net_inv (network_manager s) (network m :: l) h →
  ⟪ s , h ⟫ stack ← shutdown m timeout; on_network (reclaim stack) ⟪ o s' t ,
    o = Ok () ∧ machines s' = machines s ∧ id_of s' = id_of s ∧
    net_inv (network_manager s') l (h ++ t) ∧ command_lines t = drop_commands (network m) ∧
    recovered_slots (network_manager s') = recovered_slots (network_manager s) ++ [stack_slot (network m)] ∧
    KillChild id ∈ ops t ∧ ∃ bin, RemoveDirAll (jail_of bin id) ∈ ops t ⟫.
Proof.
  intros [Hid [bin Hroot]] Hinv. wp_step.
  eapply wp_mono; [by apply (shutdown_run m timeout (jail_of bin id) s h)|].
  intros o s1 t1 (-> & -> & g & fin & -> & Hfin & Hg).
  assert (ops (g ++ fin) = ops g ++ [KillChild (uuid m); RemoveDirAll (jail_of bin id)]) as Hops
    by by rewrite ops_app, Hfin.
  set (t1 := g ++ fin) in *. clearbody t1.
  assert (commands t1 = []) as Hc.
  { apply commands_none. rewrite Hops. apply Forall_app. split; [|by repeat constructor; intros []].
    destruct timeout as [ms|], (comm m); try (subst; by constructor).
    apply asked_prefix in Hg as [k Hk]. assert (Forall (λ o, ¬ is_command o) (graceful_ops ms)) as Hall
      by by repeat constructor; intros [].
    rewrite Hk in Hall. by apply Forall_app in Hall as [? _]. }
  unfold on_network. wp_step. eapply wp_mono; [apply (net_inv_reclaim _ _ l); by apply net_inv_quiet|].
  intros o nm' t2 (-> & Hn & Hinv2 & Hrec & Hcl). split_and!; try done.
  - by rewrite app_assoc.
  - rewrite command_lines_app. unfold command_lines at 1. by rewrite Hc.
  - rewrite ops_app, Hops, Hid, !elem_of_app. left. right. left.
  - exists bin. rewrite ops_app, Hops, !elem_of_app. left. right. right. left.
Qed.

Lemma deprovision_run id timeout m (s : InnerNodeManager) h :
  node_wf h s → machines s !! id = Some m →
  ⟪ s , h ⟫ deprovision_ id timeout ⟪ o s' t ,
    o = Ok () ∧ node_wf (h ++ t) s' ∧ machines s' = delete id (machines s) ∧ id_of s' = id_of s ∧
    command_lines t = drop_commands (network m) ∧
    KillChild id ∈ ops t ∧ ∃ bin, RemoveDirAll (jail_of bin id) ∈ ops t ⟫.
Proof.
  intros [Hn Hw] Hm. unfold deprovision_. wp_step. wp_step. rewrite Hm. wp_step. wp_step.
  rewrite !app_nil_r. eapply wp_mono.
  { apply (retire_run id m timeout (set_machines (delete id (machines s)) s) (networks (delete id (machines s)))).
    - by apply (Hw id m).
    - simpl. rewrite <-(networks_lookup id m (machines s) Hm). exact Hn. }
  intros o s' t (-> & Hms & Hid & Hinv & Hcl & _ & Hk & Hr). split_and!; try done.
  constructor; rewrite Hms; [done|]. by apply map_Forall_delete.
Qed.

Lemma deprovision_absent id timeout (s : InnerNodeManager) h : machines s !! id = None →
  deprovision_ id timeout s h = Run (Ok ()) s [].
Proof. intros Hm. unfold deprovision_. rewrite get_bind. by rewrite Hm. Qed.

Lemma deprovision_keeps id timeout : keeps prof 0 (deprovision_ id timeout).
Proof.
  intros s h Hs _. destruct (machines s !! id) as [m|] eqn:Hm.
  - eapply wp_mono; [by apply (deprovision_run id timeout m)|].
    intros o s' t (_ & ? & _ & ? & _). split; [done|lia].
  - unfold wp. rewrite deprovision_absent by done. simpl. rewrite app_nil_r. split; [done|lia].
Qed.
End retire.

Section drain.
Context `{Env : Environment HostI} `{B : CircularBuffer MachineLog} `{C : Codec} `{J : ToJson} `{W : Jwt}.
Context `{Acc : Held}.
Variable prof : profile.
Variable iter : ∀ V, history HostI → gmap string V → list (string * V).
Hypothesis iter_spec : ∀ V h (m : gmap string V), iter V h m ≡ₚ map_to_list m.

Lemma wp_iterate {S E V} (m : gmap string V) (s : S) h
    (Q : outcome E (list (string * V)) → S → history HostI → Prop) :
  Q (Ok (iter _ h m)) s [] → wp (iterate iter m) s h Q.
Proof. done. Qed.

(** [drain_] empties the node: every machine is killed and its jail removed,
    every stack is reclaimed, and no device or rule of a machine is left. *)
Lemma drain_run (s : InnerNodeManager) h : node_wf h s →
  ⟪ s , h ⟫ drain_ iter ⟪ o s' t ,
    o = Ok () ∧ machines s' = ∅ ∧ id_of s' = id_of s ∧ net_inv (network_manager s') [] (h ++ t) ∧
    recovered_slots (network_manager s') ≡ₚ
      recovered_slots (network_manager s) ++ (stack_slot <$> networks (machines s)) ∧
    ∀ id m, machines s !! id = Some m →
      KillChild id ∈ ops t ∧ ∃ bin, RemoveDirAll (jail_of bin id) ∈ ops t ⟫.
Proof.
  intros [Hn Hw]. unfold drain_. wp_step. wp_step. wp_step. apply wp_iterate.
  wp_step. wp_step. rewrite !app_nil_r. set (l := iter _ h (machines s)).
  assert (l ≡ₚ map_to_list (machines s)) as Hl by apply iter_spec.
  assert (∀ id m, (id, m) ∈ l → machine_wf id m) as Hwf
    by by intros id m; rewrite Hl, elem_of_map_to_list; apply Hw.
  assert (net_inv (network_manager s) (networks (machines s)) h) as Hn' by done. clear Hn.
  unfold networks in Hn'. rewrite <-Hl in Hn'.
  assert (∀ id m, machines s !! id = Some m → (id, m) ∈ l) as Hin
    by by intros id m; rewrite Hl, elem_of_map_to_list.
  assert (∀ rs, rs ++ (stack_slot <$> networks (machines s)) ≡ₚ rs ++ ((λ x, stack_slot (network x.2)) <$> l))
    as Hslots by by intros rs; unfold networks; rewrite <-Hl, <-list_fmap_compose.
  set (s0 := set_machines ∅ s). change (network_manager s) with (network_manager s0) in *.
  change (id_of s) with (id_of s0).
  eapply wp_mono with (Q := λ o s' t, o = Ok () ∧ machines s' = ∅ ∧ id_of s' = id_of s0 ∧
    net_inv (network_manager s') [] (h ++ t) ∧
    recovered_slots (network_manager s') = recovered_slots (network_manager s0) ++ ((λ x, stack_slot (network x.2)) <$> l) ∧
    ∀ id m, (id, m) ∈ l →
      KillChild id ∈ ops t ∧ ∃ bin, RemoveDirAll (jail_of bin id) ∈ ops t).
  2: { intros o s' t (? & ? & ? & ? & Hrec & ?). split_and!; [done..|by rewrite Hslots, Hrec|naive_solver]. }
  assert (machines s0 = ∅) as Hs0 by done. clear Hslots. clearbody s0 l. clear -Hwf Hn' Hs0.
  revert s0 h Hn' Hs0. induction l as [|[id m] l IH]; intros s0 h Hn Hs0; simpl.
  - apply wp_ret. rewrite app_nil_r. split_and!; try done; [by rewrite app_nil_r|]. by intros ? ? ?%elem_of_nil.
  - wp_step. eapply wp_mono; [by apply (retire_run id m (Some 3000%Z) s0); [apply Hwf; left|]|].
    intros o s1 t1 (-> & Hms & Hid & Hinv & Hcl & Hrec & Hk & bin & Hr).
    eapply wp_mono; [apply (IH ltac:(intros; apply Hwf; by right) s1); [done|congruence]|].
    intros o s2 t2 (-> & ? & ? & ? & Hrec2 & Hall). rewrite app_assoc.
    split_and!; [done|done|congruence|done|by rewrite Hrec2, Hrec, <-app_assoc|].
    intros id' m' [[= -> ->]|Hin]%elem_of_cons; rewrite ops_app.
    + split; [|exists bin]; apply elem_of_app; by left.
    + destruct (Hall id' m' Hin) as [? [bin' ?]].
      split; [|exists bin']; apply elem_of_app; by right.
Qed.
End drain.

(** ** Order of the environment variables *)

Lemma ascii_compare_lt_trans a b c :
  Ascii.compare a b = Lt → Ascii.compare b c = Lt → Ascii.compare a c = Lt.
Proof. unfold Ascii.compare. rewrite !N.compare_lt_iff. apply N.lt_trans. Qed.

Lemma string_compare_lt_trans a b c :
  String.compare a b = Lt → String.compare b c = Lt → String.compare a c = Lt.
Proof.
  revert b c. induction a as [|x a IH]; intros [|y b] [|z c]; simpl; try done.
  destruct (Ascii.compare x y) eqn:Hxy; [|intros _|done].
  - apply Ascii.compare_eq_iff in Hxy as ->. intros Hab.
    destruct (Ascii.compare y z) eqn:Hyz; [by apply IH|done..].
  - destruct (Ascii.compare y z) eqn:Hyz; [|intros _|done].
    + apply Ascii.compare_eq_iff in Hyz as ->. by rewrite Hxy.
    + by rewrite (ascii_compare_lt_trans x y z).
Qed.

Lemma string_compare_refl a : String.compare a a = Eq.
Proof.
  induction a as [|x a IH]; [done|]. simpl. unfold Ascii.compare. by rewrite N.compare_refl.
Qed.

#[export] Instance key_le_trans : Transitive key_le.
Proof.
  intros [a ?] [b ?] [c ?]. unfold key_le, String.leb. simpl.
  destruct (String.compare a b) eqn:Hab; [|intros _|done].
  - by apply String.compare_eq_iff in Hab as ->.
  - destruct (String.compare b c) eqn:Hbc; [|intros _|done].
    + apply String.compare_eq_iff in Hbc as ->. by rewrite Hab.
    + by rewrite (string_compare_lt_trans a b c).
Qed.

#[export] Instance key_le_total : Total key_le.
Proof. intros a b. apply String.leb_total. Qed.

Lemma sorted_keys_unique (l1 l2 : list (string * string)) :
  StronglySorted key_le l1 → StronglySorted key_le l2 → NoDup l1.*1 → l1 ≡ₚ l2 → l1 = l2.
Proof.
  revert l2. induction l1 as [|x l1 IH]; intros l2 H1 H2 Hnd Hp.
  { by apply Permutation_nil_l in Hp. }
  destruct l2 as [|y l2]; [by apply Permutation_nil_r in Hp|].
  apply StronglySorted_inv in H1 as [H1 Hx], H2 as [H2 Hy]. rewrite Forall_forall in Hx, Hy.
  simpl in Hnd. apply NoDup_cons in Hnd as [Hnx Hnd].
  assert (x = y) as ->.
  { destruct (decide (x = y)) as [|Hne]; [done|].
    assert (y ∈ l1) as Hyl by (assert (y ∈ x :: l1) as Hin by (rewrite Hp; left); set_solver).
    assert (x ∈ l2) as Hxl by (assert (x ∈ y :: l2) as Hin by (rewrite <-Hp; left); set_solver).
    pose proof (Hx y Hyl) as Hle1. pose proof (Hy x Hxl) as Hle2.
    assert (x.1 = y.1) as Heq by by apply String.leb_antisym.
    destruct Hnx. rewrite Heq. by apply list_elem_of_fmap_2. }
  f_equal. apply IH; try done. by apply Permutation_cons_inv in Hp.
Qed.

(** The entries of a map, in whatever order, are collected in the order of
    their keys. *)
Lemma collect_btree_entries (l : list (string * string)) (env : gmap string string) : l ≡ₚ map_to_list env →
  collect_btree l ≡ₚ map_to_list env ∧ StronglySorted key_le (collect_btree l).
Proof.
  intros Hl. unfold collect_btree. split; [by rewrite (merge_sort_Permutation key_le)|].
  apply (StronglySorted_merge_sort key_le).
Qed.

Lemma collect_btree_unique (l1 l2 : list (string * string)) (env : gmap string string) :
  l1 ≡ₚ map_to_list env → l2 ≡ₚ map_to_list env → collect_btree l1 = collect_btree l2.
Proof.
  intros Hl1 Hl2. destruct (collect_btree_entries _ _ Hl1) as [Hp1 Hs1].
  destruct (collect_btree_entries _ _ Hl2) as [Hp2 Hs2].
  apply sorted_keys_unique; [done|done| |by rewrite Hp1, Hp2]. rewrite Hp1. apply NoDup_fst_map_to_list.
Qed.

(** An empty map is no map. *)
Definition nonempty {A} (l : list A) : option (list A) := match l with [] => None | _ => Some l end.

Lemma collect_btree_nonempty l :
  (match l with [] => None | l => Some (collect_btree l) end) = nonempty (collect_btree l).
Proof.
  pose proof (Permutation_length (merge_sort_Permutation key_le l)) as Hl. unfold collect_btree.
  by destruct l, (merge_sort key_le _).
Qed.

(** ** Provisioning *)

Section provisioning.
Context `{Env : Environment HostI} `{B : CircularBuffer MachineLog} `{C : Codec} `{J : ToJson} `{W : Jwt}.
Context `{Acc : Held}.
Variable prof : profile.
Variable config : ManagerConfig.
Variable iter : ∀ V, history HostI → gmap string V → list (string * V).

Lemma provision_stack_state (nm : NetworkManager) h :
  ⟪ nm , h ⟫ provision_stack prof ⟪ _ nm' _ , nm' = st (next_slot prof nm h) ⟫.
Proof.
  unfold provision_stack. apply wp_bind. unfold wp at 1.
  destruct (next_slot prof nm h) as [[slot|e|] nm1 t1]; simpl; [|done..].
  wp_use (network_stack_new_spec (S := NetworkManager)). by intros o s' t [-> _].
Qed.

Lemma provision_stack_run nm l h : net_inv nm l h → has_room prof nm 1 →
  ⟪ nm , h ⟫ provision_stack prof ⟪ o nm' t ,
    nm' = st (next_slot prof nm h) ∧ sent t = [] ∧ (next_id nm' <= next_id nm + 1)%Z ∧
    match o with
    | Ok n => net_inv nm' (n :: l) (h ++ t) ∧ delete_args (ip_rule_book n) = []
    | _ => net_inv nm' l (h ++ t)
    end ⟫.
Proof.
  intros Hn Hroom. eapply wp_mono; [apply wp_conj; [by apply net_inv_provision|apply wp_conj;
    [apply provision_stack_state|apply wp_conj; [apply performs_wp, provision_stack_performs|
     apply (provision_stack_spec prof nm (stack_slot <$> l)); [apply Hn|]]]]|].
  { destruct Hroom; [by left|right; lia]. }
  intros o nm' t ([Hid Hinv] & Hnm & [Hs _]%commands_only & _ & _ & _ & Hok).
  split_and!; try done. destruct o; [|done..]. split; [done|by apply Hok].
Qed.

Lemma setup_public_nat_spec n h out_if :
  ⟪ n , h ⟫ setup_public_nat out_if ⟪ o n' t ,
    records (ip_rule_book n) (ip_rule_book n') t ∧ same_stack n n' ∧ o ≠ Panic ∧
    (o = Ok () → added_rules t = nat_rules n out_if) ⟫.
Proof.
  unfold wp. rewrite setup_public_nat_rules.
  destruct (add_rules_spec (nat_rules n out_if) n h) as (? & ? & ? & ? & _); [by repeat constructor|done].
Qed.

(** The stack is dropped if a rule cannot be added. *)
Lemma nat_run {S} nm n l h (s : S) out_if :
  net_inv nm (n :: l) h → delete_args (ip_rule_book n) = [] →
  ⟪ s , h ⟫ owned drop_network_stack n (setup_public_nat out_if) ⟪ o s' t ,
    s' = s ∧ sent t = [] ∧
    match o with
    | Ok r => net_inv nm (r.2 :: l) (h ++ t) ∧ same_stack n r.2 ∧
        delete_args (ip_rule_book r.2) = delete_of <$> nat_rules n out_if
    | Err _ => net_inv nm l (h ++ t)
    | Panic => False
    end ⟫.
Proof.
  intros Hn Hb. apply wp_owned. eapply wp_mono; [apply wp_conj; [by apply (net_inv_nat nm)|
    apply wp_conj; [apply performs_wp, setup_public_nat_performs|apply setup_public_nat_spec]]|].
  intros o n' t (Hinv & [Hs _]%commands_only & [Hrec _] & Hsame & Hp & Hok).
  destruct o as [u|e|]; [|clear Hok|done].
  - split_and!; try done. simpl. destruct u. by rewrite Hrec, Hb, Hok.
  - wp_use (drop_network_stack_run (S := ())). intros o [] t2 (_ & _ & Hc & Hs2 & _).
    rewrite sent_app, Hs, Hs2, app_assoc. split_and!; [done..|].
    by eapply net_inv_drop.
Qed.

Lemma boot_run {S} nm n l h (s : S) fc cfg overrides : net_inv nm (n :: l) h →
  ⟪ s , h ⟫ machine_new prof fc cfg n overrides ⟪ o s' t ,
    s' = s ∧
    match o with
    | Ok m => net_inv nm (n :: l) (h ++ t) ∧ network m = n ∧ comm m = Some communicator_new ∧
        machine_wf (uuid m) m
    | Err _ => net_inv nm l (h ++ t)
    | Panic => False
    end ⟫.
Proof.
  intros Hn. wp_use machine_new_outcome. intros o s' t (-> & _ & Ho). split; [done|].
  destruct o as [m|e|]; [|by eapply net_inv_drop; [apply Ho|]|done].
  destruct Ho as (Hnet & Hc & _ & (bin & _ & Hroot) & _ & _ & Hcmd).
  split_and!; try done; [by apply net_inv_quiet|]. split; [done|by exists bin].
Qed.

Lemma insert_run id m (s : InnerNodeManager) h :
  net_inv (network_manager s) (network m :: networks (machines s)) h →
  machines_wf (machines s) → machine_wf id m →
  ⟪ s , h ⟫ insert_machine id m ⟪ o s' t ,
    o = Ok () ∧ node_wf (h ++ t) s' ∧ machines s' = <[id := m]> (machines s) ∧
    network_manager s' = network_manager s ⟫.
Proof.
  intros Hn Hw Hm. unfold insert_machine. wp_step. wp_step. wp_step. wp_step.
  assert (machines_wf (<[id := m]> (machines s))) as Hw' by by apply map_Forall_insert_2.
  destruct (machines s !! id) as [old|] eqn:Hold; simpl; rewrite !app_nil_r.
  - apply wp_stateless. unfold drop_machine. wp_use (drop_network_stack_run (S := ())).
    intros o _ t (-> & _ & Hc & _). split_and!; try done. constructor; [|done]. simpl.
    rewrite networks_insert. eapply net_inv_drop; [exact Hc|].
    rewrite (networks_lookup id old) in Hn by done. by rewrite Permutation_swap.
  - apply wp_ret. split_and!; try done. rewrite app_nil_r. constructor; [|done]. simpl.
    by rewrite networks_insert, delete_id.
Qed.

Lemma provision_run request (s : InnerNodeManager) h :
  node_wf h s → has_room prof (network_manager s) 1 →
  ⟪ s , h ⟫ provision_ prof config iter request ⟪ o s' t ,
    node_wf (h ++ t) s' ∧ (id_of s' <= id_of s + 1)%Z ∧
    network_manager s' = st (next_slot prof (network_manager s) h) ∧
    match o with
    | Ok id => ∃ m, machines s' = <[id := m]> (machines s) ∧ uuid m = id ∧
        comm m = Some communicator_new ∧
        delete_args (ip_rule_book (network m)) =
          delete_of <$> nat_rules (network m) (public_network_interface config)
    | _ => machines s' = machines s
    end ⟫.
Proof.
  intros [Hn Hw] Hroom. unfold provision_, on_network. wp_step. wp_step.
  eapply wp_mono; [by apply provision_stack_run|].
  intros o nm1 t1 (Hnm & Hs1 & Hid & Ho). set (s1 := set_network_manager nm1 s).
  assert (id_of s1 <= id_of s + 1)%Z as Hid1 by done.
  destruct o as [n|e|]; [|by split_and!; try done; constructor..].
  destruct Ho as [Hinv Hb]. wp_step. eapply wp_mono; [by apply (nat_run nm1 n (networks (machines s)))|].
  intros o s' t2 (-> & Hs2 & Ho). destruct o as [[[] n2]|e|]; [|split_and!; try done|done].
  2: { constructor; [|done]. by rewrite app_assoc. }
  destruct Ho as (Hinv2 & Hsame & Hb2). simpl in Hinv2, Hsame, Hb2.
  wp_step. apply wp_iterate. wp_step. rewrite app_nil_r.
  eapply wp_mono; [by apply (boot_run nm1 n2 (networks (machines s)))|].
  intros o s' t3 (-> & Ho). destruct o as [m|e|]; [|split_and!; try done|done].
  2: { constructor; [|done]. simpl. by rewrite !app_assoc. }
  destruct Ho as (Hinv3 & <- & Hcm & Hmw). wp_step.
  eapply wp_mono; [by apply (insert_run (uuid m) m s1)|].
  intros o s2 t4 (-> & Hwf & Hms & Hnm2). apply wp_ret. rewrite app_nil_r.
  split_and!.
  - simpl. by rewrite !app_assoc.
  - unfold id_of in *. by rewrite Hnm2.
  - by rewrite Hnm2.
  - exists m. split_and!; try done. rewrite Hb2. unfold nat_rules. by destruct Hsame as (-> & _ & ->).
Qed.

(** *** The machine that was asked for

    Firecracker got the processors and the memory of the request, truncated to
    the width of their types, and the guest's metadata has its image, its
    arguments and its environment, the latter sorted by key; neither is
    present when it is empty. *)
Definition configured (request : ProvisionRequest) (m : Machine) (t : history HostI) : Prop :=
  (∃ debug, sent t = expected (vm m) (boot_sequence
    {| container_reference := pr_container_reference request;
       vcpu_count := wrap 8 (pr_vcpus request);
       mem_size_mb := wrap 32 (pr_memory_mb request) |} (network m) debug)) ∧
  ∃ entries port metadata,
    entries ≡ₚ map_to_list (pr_env request) ∧ StronglySorted key_le entries ∧ (3 <= port <= 2 ^ 32 - 3)%Z ∧
    to_json (BLatest
      {| md_image := pr_container_reference request;
         md_cmd_args := nonempty (pr_cmd_args request);
         md_env := nonempty entries;
         md_vsock_port := port |}) = Some metadata ∧
    WriteFile (root_path (vm m) ++ ["metadata.json"]) metadata ∈ ops t.

Lemma insert_machine_state id m (s : InnerNodeManager) h :
  ⟪ s , h ⟫ insert_machine id m ⟪ o s' t ,
    o = Ok () ∧ machines s' = <[id := m]> (machines s) ∧ sent t = [] ⟫.
Proof.
  unfold insert_machine. apply wp_get_bind. wp_step. wp_step.
  destruct (machines s !! id); [|by apply wp_ret]. apply wp_stateless. unfold drop_machine.
  wp_use (drop_network_stack_run (S := ())). by intros o _ t (-> & _ & _ & Hs & _).
Qed.

Lemma performs_sent {S E A} (m : eff HostI S E A) s h : performs is_command m → sent (tr (m s h)) = [].
Proof. intros Hm. by destruct (commands_only _ (Hm s h)). Qed.

Hypothesis iter_spec : ∀ V h (m : gmap string V), iter V h m ≡ₚ map_to_list m.

Lemma provision_configured request (s : InnerNodeManager) h :
  ⟪ s , h ⟫ provision_ prof config iter request ⟪ o s' t , ∀ id, o = Ok id →
    ∃ m, machines s' !! id = Some m ∧ configured request m t ⟫.
Proof.
  unfold provision_, on_network. wp_step. wp_step.
  pose proof (performs_sent _ (network_manager s) h (provision_stack_performs prof)) as Hs1. unfold wp at 1.
  destruct (provision_stack prof (network_manager s) h) as [[ns|e|] nm1 t1]; [|by intros..].
  cbn [out st tr] in *. wp_step. wp_step.
  pose proof (performs_sent _ ns (h ++ t1) (setup_public_nat_performs (public_network_interface config))) as Hs2.
  unfold wp at 1. destruct (setup_public_nat _ ns _) as [[[]|e|] ns2 t2];
    [|unfold wp; by intros..]. cbn [out st tr fst snd] in *.
  wp_step. apply wp_iterate. wp_step. eapply wp_mono; [apply wp_conj; [apply machine_new_outcome|apply machine_metadata]|].
  intros [m|e|] s3 t3 [(-> & _ & Hb) Hmd]; [|by intros..].
  destruct Hb as (Hnet & _ & _ & _ & Hsent & _). destruct (Hmd m eq_refl) as (port & j & Hport & Hj & Hin).
  wp_step. wp_use insert_machine_state. intros [[]|e|] s4 t4 (Ho & Hms & Hs4); [|done..].
  apply wp_ret. intros id [= <-]. exists m. split; [rewrite Hms; apply lookup_insert_eq|]. rewrite app_nil_r. split.
  - destruct Hsent as [debug Hsent]. exists debug. rewrite !sent_app, Hs1, Hs2, Hs4, Hsent, app_nil_r. by subst.
  - pose proof (iter_spec _ ((h ++ t1) ++ t2) (pr_env request)) as Hl.
    destruct (collect_btree_entries _ _ Hl) as [Hp Hsorted].
    eexists _, port, j. split; [exact Hp|]. split; [exact Hsorted|]. split; [done|]. split.
    + rewrite <-Hj. do 2 f_equal. f_equal; [by destruct (pr_cmd_args request)|]. symmetry. apply collect_btree_nonempty.
    + rewrite !ops_app, !elem_of_app. tauto.
Qed.
End provisioning.

(** ** Executions of a node *)

Inductive manager_op : Type :=
| OpProvision (r : Request ProvisionRequest)
| OpDeprovision (r : Request DeprovisionRequest)
| OpStreamLogs (r : Request string)
| OpListInstances (r : Request ())
| OpGetLogs (r : Request string)
| OpPublishServicePort (r : Request PublishServicePortRequest)
| OpDrain (r : Request ())
| OpGuestPacket (id : string) (p : GuestPacket)
| OpMachineExit (id : string) (e : MachineExit)
| OpShutdownSignal.

Definition is_provision (o : manager_op) : bool :=
  match o with OpProvision _ => true | _ => false end.

Definition provision_count (l : list manager_op) : Z :=
  Z.of_nat (length (filter (λ o, is_provision o = true) l)).

Section executions.
Context `{Env : Environment HostI} `{B : CircularBuffer MachineLog} `{C : Codec} `{J : ToJson} `{W : Jwt}.
Context `{Acc : Held}.
Variable prof : profile.
Variable config : ManagerConfig.
Variable to_str : list byte → option string.
Variable iter : ∀ V, history HostI → gmap string V → list (string * V).
Variable uuid_valid : string → bool.
Variable subscription : bool.
Variable secret : option Key.

(** The client's answer is dropped: only the node is followed. *)
Definition silently {A} (m : eff HostI InnerNodeManager Status A) : eff HostI InnerNodeManager Status () :=
  _ ← m; mret ().

Definition manager_exec (o : manager_op) : eff HostI InnerNodeManager Status () :=
  match o with
  | OpProvision r => silently (provision prof config to_str iter secret r)
  | OpDeprovision r => deprovision to_str secret r
  | OpStreamLogs r => silently (stream_logs to_str secret r)
  | OpListInstances r => silently (list_instances to_str iter secret r)
  | OpGetLogs r => silently (get_logs_handler to_str secret r)
  | OpPublishServicePort r => publish_service_port config to_str secret r
  | OpDrain r => drain to_str iter secret r
  | OpGuestPacket id p =>
      silently (on_machine id (map_err (internal "") (with_comm (handle_packet p))))
  | OpMachineExit id e => map_err (internal "") (handle_machine_exit uuid_valid subscription id e)
  | OpShutdownSignal => map_err (internal "") (drain_ iter)
  end.

(** The node after the operations, and everything the host was asked. *)
Definition manager_step (w : InnerNodeManager * history HostI) (o : manager_op)
    : InnerNodeManager * history HostI :=
  let r := manager_exec o w.1 w.2 in (st r, w.2 ++ tr r).

Definition manager_init (rules : IpRuleBook) : InnerNodeManager :=
  {| machines := ∅;
     network_manager := {| recovered_slots := []; next_id := 0; global_rules := rules |} |}.

Definition manager_run (rules : IpRuleBook) (l : list manager_op) : InnerNodeManager * history HostI :=
  foldl manager_step (manager_init rules, []) l.

(** *** Every operation keeps the invariant *)

Lemma validate_auth_pure {S A} (r : Request A) aud (s : S) h :
  st (validate_auth to_str secret r aud s h) = s ∧ tr (validate_auth to_str secret r aud s h) = [].
Proof.
  unfold validate_auth. destruct secret as [k|]; [|done].
  unfold mbind, eff_mbind, eff_bind. destruct (validate_authentication _ _ _ _) as [[|]|]; done.
Qed.

Lemma validate_auth_keeps {A} (r : Request A) aud : keeps prof 0 (validate_auth to_str secret r aud).
Proof. apply keeps_pure; [lia|]. intros. apply validate_auth_pure. Qed.

Lemma keeps_after_auth {A X} k (r : Request A) aud (m : eff HostI InnerNodeManager Status X) :
  (0 <= k)%Z → keeps prof k m → keeps prof k (validate_auth to_str secret r aud;; m).
Proof. intros Hk Hm. apply keeps_bind; [done|apply validate_auth_keeps|by intros]. Qed.

Lemma keeps_silently {A} k (m : eff HostI InnerNodeManager Status A) : keeps prof k m → keeps prof k (silently m).
Proof.
  intros Hm s h Hs Hr. unfold silently. wp_step. eapply wp_mono; [by apply Hm|].
  intros [a|e|] s' t Ht; [|done..]. apply wp_ret. by rewrite app_nil_r.
Qed.

(** Reading or feeding a machine's communicator. *)
Lemma keeps_with_comm {A} id msg (f : eff HostI MachineCommunicator HostError A) :
  performs (λ o, ¬ is_command o) f →
  keeps prof 0 (on_machine id (map_err (internal msg) (with_comm f))).
Proof.
  intros Hf. apply keeps_on_machine. intros m h l nm Hn. apply wp_map_err.
  unfold with_comm. wp_step. wp_step. destruct (comm m) as [c|].
  - wp_step. eapply wp_mono; [apply (performs_wp _ f c _ Hf)|].
    intros o c' t Ht%commands_none. destruct o; (split; [done|]); by apply net_inv_quiet.
  - apply wp_throw. split; [done|]. by rewrite app_nil_r.
Qed.

#[local] Hint Extern 1 (@performs _ _ _ _ ?P (@perform _ _ _ _ ?o)) =>
  apply (performs_perform P o); intros [] : performs.

Lemma push_log_performs data : performs (λ o, ¬ is_command o) (push_log data).
Proof.
  unfold push_log. apply performs_bind; [auto with performs|intros _].
  apply performs_bind; [auto with performs|intros c].
  assert (∀ i l, performs (λ o, ¬ is_command o)
    (try_send_all (S := MachineCommunicator) i l data)) as Ht.
  { intros i l. revert i. induction l as [|tx l IH]; intros i; cbn [try_send_all]; [auto with performs|].
    apply performs_bind; [auto with performs|]. intros ok. apply performs_bind; [apply IH|auto with performs]. }
  destruct (log_subscribers c); auto with performs. apply performs_bind; [apply Ht|].
  intros []; auto with performs.
Qed.

Lemma handle_packet_performs p : performs (λ o, ¬ is_command o) (handle_packet p).
Proof. destruct p; simpl; auto 8 using push_log_performs with performs. Qed.

Lemma locked_performs {A} (f : eff HostI MachineCommunicator HostError A) :
  performs (λ o, ¬ is_command o) f → performs (λ o, ¬ is_command o) (locked f).
Proof.
  intros Hf. unfold locked. apply performs_bind; [auto with performs|]. intros [packets closed]. cbn [fst snd].
  assert (performs (λ o, ¬ is_command o) handler_leaves) as Hleaves.
  { apply performs_bind; [auto with performs|]. intros []; auto with performs. }
  apply performs_bind; [|done]. induction packets as [|p packets IH]; cbn [handled_meanwhile].
  { destruct closed; auto with performs. }
  apply performs_bind; [apply handle_packet_performs|]. by intros [|].
Qed.

Lemma publish_keeps id in_if p q :
  keeps prof 0 (on_machine id (map_err (internal "Failed to publish service port")
    (zoom network set_network (setup_forwarding in_if p q)))).
Proof.
  apply keeps_on_machine. intros m h l nm Hn. wp_step. wp_step.
  eapply wp_mono; [by apply (net_inv_forward nm)|]. by intros [].
Qed.

Hypothesis iter_spec : ∀ V h (m : gmap string V), iter V h m ≡ₚ map_to_list m.

Lemma drain_keeps : keeps prof 0 (drain_ iter).
Proof.
  intros s h Hs _. eapply wp_mono; [by apply (drain_run iter iter_spec s h)|].
  intros o s' t (_ & Hms & Hid & Hinv & _). split; [|lia].
  constructor; rewrite Hms; [|done]. unfold networks. by rewrite map_to_list_empty.
Qed.

Lemma provision_keeps r : keeps prof 1 (provision_ prof config iter r).
Proof.
  intros s h Hs Hr. eapply wp_mono; [by apply provision_run|]. by intros o s' t (? & ? & _).
Qed.

Lemma exit_keeps id e : keeps prof 0 (handle_machine_exit uuid_valid subscription id e).
Proof.
  unfold handle_machine_exit. apply keeps_bind; [done| |by intros; apply deprovision_keeps].
  destruct subscription; [|by apply keeps_pure].
  apply keeps_bind; [done|destruct (uuid_valid id); by apply keeps_pure|intros _].
  intros s h Hs _. wp_step. apply (@wp_perform HostI _ _ _ (NotifyExit id e)). intros a _.
  apply wp_ret. split; [|lia]. destruct Hs as [Hn Hm]. constructor; [|done]. by apply net_inv_quiet.
Qed.

Lemma manager_exec_keeps o :
  keeps prof (if is_provision o then 1 else 0) (manager_exec o).
Proof.
  destruct o as [r|r|r|r|r|r|r|id p|id e|]; simpl.
  - apply keeps_silently, keeps_after_auth; [done|apply keeps_map_err, provision_keeps].
  - apply keeps_after_auth; [done|apply keeps_map_err, deprovision_keeps].
  - apply keeps_silently, keeps_after_auth; [done|]. apply keeps_with_comm, locked_performs.
    unfold subscribe_log. auto 8 with performs.
  - apply keeps_silently, keeps_after_auth; [done|]. by apply keeps_pure.
  - apply keeps_silently, keeps_after_auth; [done|]. apply keeps_bind; [done| |intros; by apply keeps_pure].
    apply keeps_with_comm, locked_performs. auto 8 with performs.
  - apply keeps_after_auth; [done|]. unfold u16_try_from.
    apply keeps_bind; [done|by case_match; apply keeps_pure|intros p].
    apply keeps_bind; [done|by case_match; apply keeps_pure|intros q]. apply publish_keeps.
  - apply keeps_after_auth; [done|apply keeps_map_err, drain_keeps].
  - apply keeps_silently, keeps_with_comm, handle_packet_performs.
  - apply keeps_map_err, exit_keeps.
  - apply keeps_map_err, drain_keeps.
Qed.

(** A node that just started, after any accounted history. *)
Lemma manager_init_wf rules h :
  taps_created h ≡ₚ taps_deleted h →
  delete_of <$> added_rules h ≡ₚ deleted_rules h ++ held rules →
  node_wf h (manager_init rules).
Proof.
  intros Ht Hr. constructor; [|done]. unfold networks. simpl. rewrite map_to_list_empty. by apply net_start_wf.
Qed.

Lemma provision_count_cons o l :
  provision_count (o :: l) = ((if is_provision o then 1 else 0) + provision_count l)%Z.
Proof.
  unfold provision_count. rewrite filter_cons. destruct (is_provision o).
  - rewrite decide_True by done. cbn [length]. lia.
  - by rewrite decide_False.
Qed.

(** Enough identifiers for every provisioning request still to come. *)
Lemma has_room_cons nm o l : has_room prof nm (provision_count (o :: l)) →
  has_room prof nm (if is_provision o then 1 else 0).
Proof.
  assert (0 <= provision_count l)%Z by apply Nat2Z.is_nonneg.
  rewrite provision_count_cons. intros [|Hr]; [by left|right; lia].
Qed.

Lemma manager_step_wf o l s h :
  node_wf h s → has_room prof (network_manager s) (provision_count (o :: l)) →
  let w := manager_step (s, h) o in
  node_wf w.2 w.1 ∧ has_room prof (network_manager w.1) (provision_count l) ∧
  (id_of w.1 <= id_of s + if is_provision o then 1 else 0)%Z.
Proof.
  intros Hw Hr. destruct (manager_exec_keeps o s h Hw) as [Hw' Hid]; [by eapply has_room_cons|].
  rewrite provision_count_cons in Hr. split_and!; [exact Hw'| |exact Hid].
  unfold id_of in Hid. destruct Hr as [|Hr]; [by left|right]. cbn -[Z.add] in *. lia.
Qed.

Lemma manager_steps_wf l s h :
  node_wf h s → has_room prof (network_manager s) (provision_count l) →
  let w := foldl manager_step (s, h) l in
  node_wf w.2 w.1 ∧ (id_of w.1 <= id_of s + provision_count l)%Z.
Proof.
  revert s h. induction l as [|o l IH]; intros s h Hw Hr; [split; [done|unfold provision_count; simpl; lia]|].
  destruct (manager_step_wf o l s h Hw Hr) as (Hw' & Hr' & Hid). rewrite provision_count_cons.
  cbn [foldl]. destruct (manager_step (s, h) o) as [s' h']. cbn [fst snd] in *.
  destruct (IH s' h' Hw' Hr') as [? ?]. split; [done|lia].
Qed.
End executions.

Lemma manager_run_wf `{Env : Environment HostI} `{B : CircularBuffer MachineLog} `{C : Codec} `{J : ToJson}
    `{W : Jwt} prof config to_str iter uuid_valid subscription secret
    (iter_spec : ∀ V h (m : gmap string V), iter V h m ≡ₚ map_to_list m) rules (l : list manager_op) :
  prof = Debug ∨ (provision_count l <= max_slots)%Z →
  let w := manager_run prof config to_str iter uuid_valid subscription secret rules l in
  node_wf (Acc := none_held) w.2 w.1 ∧ (id_of w.1 <= provision_count l)%Z.
Proof.
  intros Hl. apply manager_steps_wf; [done|by apply (manager_init_wf (Acc := none_held))|].
  destruct Hl; [by left|by right].
Qed.

(** ** Properties *)

Section properties.
Context `{Env : Environment HostI} `{B : CircularBuffer MachineLog} `{C : Codec} `{J : ToJson} `{W : Jwt}.
Variable prof : profile.
Variable config : ManagerConfig.
Variable to_str : list byte → option string.
Variable iter : ∀ V, history HostI → gmap string V → list (string * V).
Variable uuid_valid : string → bool.
Variable subscription : bool.
Variable secret : option Key.

Local Abbreviation exec := (manager_exec prof config to_str iter uuid_valid subscription secret).
Local Abbreviation node_after rules l :=
  (manager_run prof config to_str iter uuid_valid subscription secret rules l).

(** The token a handler reads from a request. *)
Definition token_of {A} (r : Request A) : string := default "" (v ← metadata_auth r; to_str v).

(** What authenticates a call: the token presented, the time, and the
    audience the call asks for; [None] for the events that are no calls. *)
Definition credentials (o : manager_op) : option (string * Z * option string) :=
  match o with
  | OpProvision r => Some (token_of r, clock r, None)
  | OpDeprovision r => Some (token_of r, clock r, Some (dr_instance_id (get_ref r)))
  | OpStreamLogs r => Some (token_of r, clock r, Some (get_ref r))
  | OpListInstances r => Some (token_of r, clock r, None)
  | OpGetLogs r => Some (token_of r, clock r, Some (get_ref r))
  | OpPublishServicePort r => Some (token_of r, clock r, Some (ps_id (get_ref r)))
  | OpDrain r => Some (token_of r, clock r, None)
  | OpGuestPacket _ _ | OpMachineExit _ _ | OpShutdownSignal => None
  end.

Definition unauthenticated : Status :=
  {| status_code := Unauthenticated; status_message := "Invalid authentication token" |}.

Lemma validate_auth_refused {S A X} k (r : Request A) aud (f : eff HostI S Status X) (s : S) h :
  secret = Some k →
  validate_authentication (clock r) (token_of r) k aud = Some false →
  (validate_auth to_str secret r aud;; f) s h = Run (Err unauthenticated) s [].
Proof.
  intros Hk Hv. unfold validate_auth. rewrite Hk. unfold token_of in Hv. rewrite Hv. done.
Qed.

Lemma silently_refused {A} (m : eff HostI InnerNodeManager Status A) s h :
  m s h = Run (Err unauthenticated) s [] → silently m s h = Run (Err unauthenticated) s [].
Proof. intros Hm. unfold silently, mbind, eff_mbind, eff_bind. by rewrite Hm. Qed.

Lemma refused_run k o token t aud (s : InnerNodeManager) h :
  secret = Some k →
  credentials o = Some (token, t, aud) →
  validate_authentication t token k aud = Some false →
  exec o s h = Run (Err unauthenticated) s [].
Proof.
  intros Hk Ho Hv. destruct o; simpl in *; try done; injection Ho as <- <- <-;
    try apply silently_refused; by apply (validate_auth_refused k).
Qed.

(** C3: When the node has a secret, a call whose token does not validate
    for the audience of that call (none for the node-wide calls, the instance
    for the others) is answered [Unauthenticated], changes nothing and asks
    nothing of the host. *)
Theorem refused_call_does_nothing k o token t aud (s : InnerNodeManager) h :
  secret = Some k →
  credentials o = Some (token, t, aud) →
  validate_authentication t token k aud = Some false →
  exec o s h = Run (Err unauthenticated) s [].
Proof. apply refused_run. Qed.

(** C9: A token that once opened a call on one instance opens no call on
    another instance and no node-wide call. *)
Theorem instance_token_confined k token t t' id aud o (s : InnerNodeManager) h :
  secret = Some k →
  validate_authentication t token k (Some id) = Some true →
  credentials o = Some (token, t', aud) → aud ≠ Some id →
  exec o s h = Run (Err unauthenticated) s [].
Proof.
  intros Hk Hv Ho Haud. apply (refused_run k o token t' aud); [done..|].
  unfold validate_authentication in *. destruct (verify_with_key token k) as [claims|]; [|done].
  destruct (decide (Some id ≠ audience claims)) as [|Ha%dec_stable]; [done|].
  by rewrite decide_True by congruence.
Qed.

Hypothesis iter_spec : ∀ V h (m : gmap string V), iter V h m ≡ₚ map_to_list m.

(** C1: Whatever sequence of calls, guest packets, machine exits and
    shutdown signals a node goes through: every machine is filed under its own
    uuid; two different machines never share a /30 network nor a tap device;
    and the devices and rules created by all commands run so far, minus those
    deleted, are exactly those of the machines it holds (nothing leaks on any
    error path).  In a release build this needs at most 16384 provisioning
    requests since the start. *)
Theorem node_accounts rules (l : list manager_op) :
  prof = Debug ∨ (provision_count l <= max_slots)%Z →
  let '(s, h) := node_after rules l in
  (∀ id m, machines s !! id = Some m → uuid m = id) ∧
  (∀ id id' m m', machines s !! id = Some m → machines s !! id' = Some m' → id ≠ id' →
     disjoint_stacks (network m) (network m')) ∧
  taps_created h ≡ₚ taps_deleted h ++ ((λ n, name (nic n)) <$> networks (machines s)) ∧
  delete_of <$> added_rules h ≡ₚ deleted_rules h ++ (networks (machines s) ≫= stack_book).
Proof.
  intros Hl. destruct (manager_run_wf prof config to_str iter uuid_valid subscription secret
    iter_spec rules l Hl) as [[Hn Hw] _].
  destruct (node_after rules l) as [s h]. simpl in *. split_and!.
  - intros id m Hm. by destruct (Hw id m Hm).
  - intros id id' m m' Hm Hm' Hne.
    apply (slots_wf_disjoint (network_manager s) (networks (machines s)) _ _
      (networks (delete id' (delete id (machines s))))); [apply Hn|].
    rewrite (networks_lookup id m) by done. f_equiv. apply networks_lookup. by rewrite lookup_delete_ne.
  - apply Hn.
  - by apply (net_inv_rules (network_manager s)).
Qed.

(** C14: Deprovisioning a machine of a reachable node always succeeds: the
    machine disappears and no other is touched, its process is killed and its
    jail removed, and the only network commands are the deletions of its
    own tap device and rules.  Asking again does nothing. *)
Theorem deprovision_removes rules (l : list manager_op) id m timeout timeout' h' :
  prof = Debug ∨ (provision_count l <= max_slots)%Z →
  let '(s, h) := node_after rules l in
  machines s !! id = Some m →
  let r := deprovision_ id timeout s h in
  out r = Ok () ∧ machines (st r) = delete id (machines s) ∧
  command_lines (tr r) = drop_commands (network m) ∧
  KillChild id ∈ ops (tr r) ∧ (∃ bin, RemoveDirAll (jail_of bin id) ∈ ops (tr r)) ∧
  deprovision_ id timeout' (st r) h' = Run (Ok ()) (st r) [].
Proof.
  intros Hl. destruct (manager_run_wf prof config to_str iter uuid_valid subscription secret
    iter_spec rules l Hl) as [Hw _].
  destruct (node_after rules l) as [s h]. cbn [fst snd] in *. intros Hm.
  destruct (deprovision_run id timeout m s h Hw Hm) as (Ho & _ & Hms & _ & Hc & Hk & Hr).
  split_and!; try done. apply deprovision_absent. by rewrite Hms, lookup_delete_eq.
Qed.

(** C13: Draining a reachable node always succeeds and empties it: every
    machine is killed and its jail removed, no tap device or rule is left of
    all that were ever created, and the slot of every machine is free again:
    the free slots are those there were and those of the machines, all of
    distinct networks. *)
Theorem drain_empties rules (l : list manager_op) :
  prof = Debug ∨ (provision_count l <= max_slots)%Z →
  let '(s, h) := node_after rules l in
  let r := drain_ iter s h in
  out r = Ok () ∧ machines (st r) = ∅ ∧
  taps_created (h ++ tr r) ≡ₚ taps_deleted (h ++ tr r) ∧
  delete_of <$> added_rules (h ++ tr r) ≡ₚ deleted_rules (h ++ tr r) ∧
  recovered_slots (network_manager (st r)) ≡ₚ
    recovered_slots (network_manager s) ++ (stack_slot <$> networks (machines s)) ∧
  NoDup (recovered_slots (network_manager (st r))) ∧
  ∀ id m, machines s !! id = Some m →
    KillChild id ∈ ops (tr r) ∧ ∃ bin, RemoveDirAll (jail_of bin id) ∈ ops (tr r).
Proof.
  intros Hl. destruct (manager_run_wf prof config to_str iter uuid_valid subscription secret
    iter_spec rules l Hl) as [Hw _].
  destruct (node_after rules l) as [s h]. cbn [fst snd] in *.
  destruct (drain_run iter iter_spec s h Hw) as (Ho & Hms & _ & [Hs _ Ht Hr] & Hrec & Hall).
  cbn [live past mgr] in *.
  split_and!; [done..|etrans; [exact Ht|by rewrite app_nil_r]|etrans; [exact Hr|by rewrite app_nil_r]|exact Hrec| |done].
  destruct Hs as (ids & free & _ & -> & Hnd & Hfree & _).
  apply NoDup_app in Hnd as (_ & _ & Hnd). apply Forall_app in Hfree as [_ Hfree].
  rewrite Forall_forall in Hfree. apply NoDup_fmap_2_strong; [|done].
  intros i j Hi Hj Heq. pose proof (Hfree i Hi). pose proof (Hfree j Hj).
  apply (f_equal (λ x, network30 (slot_ipv4_addr x))) in Heq. rewrite !slot_network in Heq by lia. lia.
Qed.

(** C10: Provisioning on a reachable node, once authorised.  It takes one slot
    on every path, and

    - when it succeeds, exactly one machine is added (or replaced, should the
      environment repeat a uuid): Firecracker was sent the boot requests with
      the processors and the memory of the request, truncated to 8 and 32 bits,
      and the metadata the guest reads holds the image, the arguments and the
      environment of the request ([configured]); its stack has the NAT rules
      recorded, and its log buffer is empty;
    - when it fails, the client sees [Internal], the machines are unchanged and
      every device and rule it created is gone, but the slot it took is neither
      held by a machine nor returned to the free slots. *)
Theorem provision_spec rules (l : list manager_op) request :
  prof = Debug ∨ (provision_count l + 1 <= max_slots)%Z →
  let '(s, h) := node_after rules l in
  let r := provision_ prof config iter request s h in
  network_manager (st r) = st (next_slot prof (network_manager s) h) ∧
  match out r with
  | Ok id => ∃ m, machines (st r) = <[id := m]> (machines s) ∧ uuid m = id ∧
      comm m = Some communicator_new ∧
      configured request m (tr r) ∧
      delete_args (ip_rule_book (network m)) =
        delete_of <$> nat_rules (network m) (public_network_interface config)
  | _ => machines (st r) = machines s ∧
      taps_created (h ++ tr r) ≡ₚ
        taps_deleted (h ++ tr r) ++ ((λ n, name (nic n)) <$> networks (machines s)) ∧
      delete_of <$> added_rules (h ++ tr r) ≡ₚ
        deleted_rules (h ++ tr r) ++ (networks (machines s) ≫= stack_book)
  end.
Proof.
  intros Hl. destruct (manager_run_wf prof config to_str iter uuid_valid subscription secret
    iter_spec rules l) as [Hw Hid]; [destruct Hl; [by left|right; lia]|].
  destruct (node_after rules l) as [s h]. cbn [fst snd] in *.
  destruct (provision_run prof config iter request s h Hw) as ([Hinv _] & _ & Hnm & Ho).
  { destruct Hl; [by left|right; unfold id_of in Hid; lia]. }
  pose proof (net_inv_rules _ _ _ Hinv) as Hr. destruct Hinv as [_ _ Ht _].
  pose proof (provision_configured prof config iter iter_spec request s h) as Hconf. unfold wp in Hconf.
  split; [done|]. destruct (out (provision_ prof config iter request s h)) as [id|e|];
    cbn [live past mgr] in *; [|by rewrite Ho in *..].
  destruct Ho as (m & Hms & Hu & Hc & Hrules). destruct (Hconf id eq_refl) as (m' & Hm' & Hcm).
  rewrite Hms, lookup_insert_eq in Hm'. injection Hm' as <-. by exists m.
Qed.

(** C29: What [publish_service_port] does once authorised: a port that is not
    a u16 is refused before anything else, even for a machine that does not
    exist; a missing machine is [NotFound]; in both cases nothing happens.
    Otherwise only the rules of that machine's stack change, by the forwarding
    rules that were added, in order; if one fails the client sees [Internal] and
    the rules before it stay. *)
Theorem publish_service_port_spec (r : Request PublishServicePortRequest) (s : InnerNodeManager) h :
  out (validate_auth to_str secret r (Some (ps_id (get_ref r))) s h) = Ok () →
  let q := get_ref r in
  let x := publish_service_port config to_str secret r s h in
  if negb (is_uint 16 (ps_host_port q)) then
    x = Run (Err {| status_code := InvalidArgument; status_message := "Invalid host port" |}) s []
  else if negb (is_uint 16 (ps_guest_port q)) then
    x = Run (Err {| status_code := InvalidArgument; status_message := "Invalid guest port" |}) s []
  else match machines s !! ps_id q with
  | None => x = Run (Err {| status_code := NotFound; status_message := "Machine not found" |}) s []
  | Some m =>
      let rs := forwarding_rules (network m) (service_network_interface config)
                  (ps_host_port q) (ps_guest_port q) in
      ∃ n, st x = set_machines (<[ps_id q := set_network n m]> (machines s)) s ∧
        same_stack (network m) n ∧
        delete_args (ip_rule_book n) =
          delete_args (ip_rule_book (network m)) ++ (delete_of <$> added_rules (tr x)) ∧
        match out x with
        | Ok _ => added_rules (tr x) = rs
        | Err e => e = {| status_code := Internal; status_message := "Failed to publish service port" |}
        | Panic => False
        end
  end.
Proof.
  intros Hv q x. subst x. unfold publish_service_port. fold q. fold q in Hv.
  pose proof (validate_auth_pure to_str secret r (Some (ps_id q)) s h) as [Hst Htr].
  rewrite (pure_bind _ _ ()).
  2: { destruct (validate_auth to_str secret r (Some (ps_id q)) s h) as [o s1 t1].
       simpl in Hv, Hst, Htr. by subst. }
  unfold u16_try_from. destruct (is_uint 16 (ps_host_port q)); cbn [negb]; [|done]. rewrite ret_bind.
  destruct (is_uint 16 (ps_guest_port q)); cbn [negb]; [|done]. rewrite ret_bind.
  unfold on_machine. rewrite get_bind. destruct (machines s !! ps_id q) as [m|]; [|done].
  set (z := zoom _ _ _). pattern (z s h).
  match goal with |- ?G (z s h) => change (⟪ s , h ⟫ z ⟪ o s' t , G (Run o s' t) ⟫) end.
  subst z. wp_step. wp_step. wp_step. unfold wp. rewrite setup_forwarding_rules.
  destruct (add_rules_spec (forwarding_rules (network m) (service_network_interface config)
    (ps_host_port q) (ps_guest_port q)) (network m) h) as ([Hrec _] & Hsame & Hp & Hok & _);
    [by repeat constructor|].
  destruct (add_rules _ _ _) as [[[]|e|] n t]; cbn [out st tr] in *; [| |done];
    exists n; split_and!; try done; by apply Hok.
Qed.

(** C28: The exit of a machine's guest, on a reachable node: the subscriber (if
    there is one) is told first, with the machine's uuid and the exit it
    reported; then the machine is taken down without waiting for the guest,
    and nothing but that machine changes.  An exit of a machine that was
    already deprovisioned only notifies. *)
Theorem machine_exit_spec rules (l : list manager_op) id e :
  prof = Debug ∨ (provision_count l <= max_slots)%Z →
  uuid_valid id = true →
  let '(s, h) := node_after rules l in
  let r := handle_machine_exit uuid_valid subscription id e s h in
  let notified := if subscription then [NotifyExit id e] else [] in
  out r = Ok () ∧ machines (st r) = delete id (machines s) ∧
  ∃ rest, ops (tr r) = notified ++ rest ∧
    match machines s !! id with
    | None => rest = [] ∧ st r = s
    | Some m => KillChild id ∈ rest ∧ command_lines (tr r) = drop_commands (network m)
    end.
Proof.
  intros Hl Hv. destruct (manager_run_wf prof config to_str iter uuid_valid subscription secret
    iter_spec rules l Hl) as [Hw _].
  destruct (node_after rules l) as [s h]. cbn [fst snd] in *.
  set (notified := if subscription then [NotifyExit id e] else []).
  enough (⟪ s , h ⟫ handle_machine_exit uuid_valid subscription id e ⟪ o s' t ,
    o = Ok () ∧ machines s' = delete id (machines s) ∧ ∃ rest, ops t = notified ++ rest ∧
    match machines s !! id with
    | None => rest = [] ∧ s' = s
    | Some m => KillChild id ∈ rest ∧ command_lines t = drop_commands (network m)
    end ⟫) as H by exact H.
  unfold handle_machine_exit. wp_step.
  match goal with |- wp ?m _ _ _ => assert (⟪ s , h ⟫ m ⟪ o s' t ,
    o = Ok () ∧ s' = s ∧ ops t = notified ∧ commands t = [] ⟫) as Hn end.
  { unfold notified. destruct subscription; [|by apply wp_ret]. rewrite Hv. wp_step. apply wp_ret.
    wp_step. apply (@wp_perform HostI _ _ _ (NotifyExit id e)). intros a _. by apply wp_ret. }
  eapply wp_mono; [exact Hn|]. clear Hn. intros o s' t (-> & -> & Ht & Hc).
  destruct (machines s !! id) as [m|] eqn:Hm.
  - assert (node_wf (Acc := none_held) (h ++ t) s) as Hw'.
    { destruct Hw as [Hn Hms]. constructor; [|done]. by apply net_inv_quiet. }
    eapply wp_mono; [by apply (deprovision_run (Acc := none_held) id None m)|].
    intros o s1 t1 (-> & _ & Hms & _ & Hcl & Hk & _). split_and!; [done..|].
    exists (ops t1). rewrite ops_app, Ht, command_lines_app. split_and!; [done..|].
    unfold command_lines at 1. by rewrite Hc.
  - unfold wp. rewrite deprovision_absent by done. simpl. rewrite app_nil_r.
    split_and!; [done|by rewrite delete_id|]. exists []. by rewrite app_nil_r.
Qed.

(** Listing the instances answers each machine's uuid exactly once, in
    whatever order the map yields them, and changes nothing. *)
Theorem list_instances_spec (r : Request ()) (s : InnerNodeManager) h :
  out (validate_auth to_str secret r None s h) = Ok () →
  let x := list_instances to_str iter secret r s h in
  st x = s ∧ tr x = [] ∧
  ∃ ids, out x = Ok ids ∧ NoDup ids ∧ ∀ id, id ∈ ids ↔ is_Some (machines s !! id).
Proof.
  intros Hv. unfold list_instances.
  pose proof (validate_auth_pure to_str secret r None s h) as [Hst Htr].
  rewrite (pure_bind _ _ ()).
  2: { destruct (validate_auth to_str secret r None s h) as [o s1 t1]. simpl in Hv, Hst, Htr. by subst. }
  rewrite get_bind. simpl. split_and!; [done..|]. eexists. split_and!; [done|..].
  - rewrite iter_spec. apply NoDup_fst_map_to_list.
  - intros id. rewrite iter_spec, list_elem_of_fmap. split.
    + intros ([id' m] & -> & Hin%elem_of_map_to_list). by eexists.
    + intros [m Hm]. exists (id, m). by rewrite elem_of_map_to_list.
Qed.

(** C40: What provisioning does is independent of the order in which the
    request's map of environment variables is iterated: with any other order,
    the same operations are performed, with the same outcome and the same node
    after them. *)
Theorem env_order_irrelevant iter' request (s : InnerNodeManager) h :
  (∀ V h (m : gmap string V), iter' V h m ≡ₚ map_to_list m) →
  provision_ prof config iter request s h = provision_ prof config iter' request s h.
Proof.
  intros Hiter'. unfold provision_. rewrite !bind_run.
  destruct (on_network (provision_stack prof) s h) as [[ns|e|] s1 t1]; [|done..]. rewrite !bind_run.
  destruct (owned _ _ _ s1 _) as [[[u ns2]|e|] s2 t2]; [|done..]. rewrite !bind_run. cbn [iterate fst snd].
  assert (∀ h',
    match iter string h' (pr_env request) with [] => None | _ :: _ => Some (collect_btree (iter string h' (pr_env request))) end =
    match iter' string h' (pr_env request) with [] => None | _ :: _ => Some (collect_btree (iter' string h' (pr_env request))) end) as Henv.
  { intros h'. pose proof (iter_spec _ h' (pr_env request)) as H1. pose proof (Hiter' _ h' (pr_env request)) as H2.
    pose proof (collect_btree_unique _ _ _ H1 H2) as Hu. rewrite <-H2 in H1.
    destruct (iter _ _ _), (iter' _ _ _); [done|by apply Permutation_nil_cons in H1| |by rewrite Hu].
    by symmetry in H1; apply Permutation_nil_cons in H1. }
  cbn [out st tr snd]. cbv beta zeta. cbn [out st tr snd]. by rewrite Henv.
Qed.

(** C30: What [stream_logs] does once authorised.  A missing machine is
    [NotFound].  Otherwise the communicator's lock is taken once; whatever
    packets the machine's handler dealt with before it was granted, the client
    gets the buffered lines and the state as these packets left them, and a
    channel created by this call is subscribed to that same communicator: no
    packet is handled between the snapshot and the subscription. *)
Theorem stream_logs_spec (r : Request string) (s : InnerNodeManager) h :
  out (validate_auth to_str secret r (Some (get_ref r)) s h) = Ok () →
  let id := get_ref r in
  let x := stream_logs to_str secret r s h in
  match machines s !! id with
  | None => x = Run (Err {| status_code := NotFound; status_message := "Machine not found" |}) s []
  | Some m =>
      match comm m with
      | None => x = Run (Err {| status_code := Internal; status_message := "Failed to get logs" |})
                        (set_machines (<[id := m]> (machines s)) s) []
      | Some c =>
          ∃ packets closed tx,
            let lock := existT (LockComm : op HostI) (packets, closed) in
            let w := handled_meanwhile packets closed c (h ++ [lock]) in
            let c' := set_subscribers (log_subscribers (st w) ++ [tx]) (st w) in
            x = Run (Ok (clone_buffer_with_state (st w), tx))
                    (set_machines (<[id := set_comm (Some c') m]> (machines s)) s)
                    ([lock] ++ tr w ++ [existT (NewChannel 128 : op HostI) tx])
      end
  end.
Proof.
  intros Hv id x. subst x. unfold stream_logs. fold id. fold id in Hv.
  pose proof (validate_auth_pure to_str secret r (Some id) s h) as [Hst Htr].
  rewrite (pure_bind _ _ ()).
  2: { destruct (validate_auth to_str secret r (Some id) s h) as [o s1 t1]. simpl in Hv, Hst, Htr. by subst. }
  unfold on_machine. rewrite get_bind. destruct (machines s !! id) as [m|]; [|done].
  unfold zoom, map_err, get_and_subscribe_to_logs, with_comm. rewrite get_bind.
  destruct (comm m) as [c|]; [|done].
  destruct (respond h (LockComm : op HostI)) as [packets closed] eqn:Hlock.
  exists packets, closed, (respond ((h ++ [existT (LockComm : op HostI) (packets, closed)]) ++
    tr (handled_meanwhile packets closed c (h ++ [existT (LockComm : op HostI) (packets, closed)]))) (NewChannel 128 : op HostI)).
  unfold zoom, locked. rewrite bind_run. cbn [perform out st tr]. rewrite Hlock, bind_run. cbn [fst snd].
  destruct (handled_meanwhile_ok packets closed c (h ++ [existT (LockComm : op HostI) (packets, closed)])) as [Ho _].
  destruct (handled_meanwhile packets closed c _) as [o c1 t1]. simpl in Ho |- *. subst o.
  unfold subscribe_log. eff_simpl. by rewrite !app_nil_r.
Qed.
End properties.

(** ** Evaluation *)

Module Demo.
Import ListBuffer CountableCodec.
Import Machine.Demo.

(** Everything succeeds and every uuid is new. *)
Definition env_fresh : Environment HostI := λ h o,
  match o return host_ans o with
  | NewUuid => "vm-" +:+ pretty (length h)
  | o => @respond HostI env_ok h o
  end.

Definition node_config : ManagerConfig :=
  {| firecracker_config := fc; public_network_interface := "eth0"; service_network_interface := "svc0" |}.

Definition by_map (V : Type) (h : history HostI) (m : gmap string V) : list (string * V) := map_to_list m.

Lemma by_map_spec (V : Type) (h : history HostI) (m : gmap string V) : by_map V h m ≡ₚ map_to_list m.
Proof. done. Qed.

Definition ascii (v : list byte) : option string := Some (String.string_of_list_byte v).

Definition call {A} (token : string) (x : A) : Request A :=
  {| metadata_auth := Some (bytes token); clock := 2000; get_ref := x |}.

Definition nginx : ProvisionRequest :=
  {| pr_container_reference := "nginx"; pr_vcpus := 2; pr_memory_mb := 256;
     pr_cmd_args := []; pr_env := ∅ |}.

Definition two_machines : list manager_op := [OpProvision (call "" nginx); OpProvision (call "" nginx)].

Definition node (l : list manager_op) : InnerNodeManager * history HostI :=
  manager_run (Env := env_fresh) (W := PlainJwt.jwt) Debug node_config ascii by_map (λ _, true) true None
    ip_rule_book_new l.

Definition ids (l : list manager_op) : list string := (map_to_list (machines (node l).1)).*1.

Example two_machines_run : length (ids two_machines) = 2.
Proof. vm_compute. reflexivity. Qed.

Definition first_id : string := default "" (head (ids two_machines)).

Lemma node_accounts_witness :
  let h := (node two_machines).2 in
  taps_created h ≡ₚ taps_deleted h ++ ((λ n, name (nic n)) <$> networks (machines (node two_machines).1)).
Proof.
  pose proof (node_accounts (Env := env_fresh) (W := PlainJwt.jwt) Debug node_config ascii by_map (λ _, true)
    true None by_map_spec ip_rule_book_new two_machines (or_introl eq_refl)) as H.
  unfold node. destruct (manager_run _ _ _ _ _ _ _ _ _) as [s h]. exact (proj1 (proj2 (proj2 H))).
Defined.

Lemma deprovision_removes_witness :
  let s := (node two_machines).1 in
  ∃ m, machines s !! first_id = Some m ∧
    machines (st (deprovision_ (Env := env_fresh) first_id None s (node two_machines).2))
      = delete first_id (machines s).
Proof.
  assert (∃ m, machines (node two_machines).1 !! first_id = Some m) as [m Hm]
    by (eexists; vm_compute; reflexivity).
  exists m. split; [exact Hm|].
  pose proof (deprovision_removes (Env := env_fresh) (W := PlainJwt.jwt) Debug node_config ascii by_map
    (λ _, true) true None by_map_spec ip_rule_book_new two_machines first_id m None None []
    (or_introl eq_refl)) as H.
  unfold node in *. destruct (manager_run _ _ _ _ _ _ _ _ _) as [s h]. exact (proj1 (proj2 (H Hm))).
Defined.

Lemma drain_empties_witness :
  let '(s, h) := node two_machines in
  machines (st (drain_ (Env := env_fresh) by_map s h)) = ∅.
Proof.
  pose proof (drain_empties (Env := env_fresh) (W := PlainJwt.jwt) Debug node_config ascii by_map
    (λ _, true) true None by_map_spec ip_rule_book_new two_machines (or_introl eq_refl)) as H.
  unfold node. destruct (manager_run _ _ _ _ _ _ _ _ _) as [s h]. exact (proj1 (proj2 H)).
Defined.

(** *** Calls on a node with a secret *)

Definition guarded (o : manager_op) (w : InnerNodeManager * history HostI)
    : run HostI InnerNodeManager Status () :=
  manager_exec (Env := env_fresh) (W := PlainJwt.jwt) Debug node_config ascii by_map (λ _, true) true
    (Some "secret") o w.1 w.2.

Definition delete_first (token : string) : manager_op :=
  OpDeprovision (call token {| dr_instance_id := first_id; dr_timeout_millis := 0 |}).

Lemma refused_call_does_nothing_witness :
  guarded (delete_first "forged") (node two_machines)
    = Run (Err unauthenticated) (node two_machines).1 [].
Proof.
  apply (refused_call_does_nothing (Env := env_fresh) (W := PlainJwt.jwt) Debug node_config ascii by_map
    (λ _, true) true (Some "secret") "secret" _ "forged" 2000 (Some first_id));
    [reflexivity|vm_compute; reflexivity|vm_compute; reflexivity].
Defined.

(** A token for another machine does not delete this one. *)
Lemma instance_token_confined_witness :
  let token := demo_token Debug 1000 (Some "vm-other") in
  guarded (delete_first token) (node two_machines) = Run (Err unauthenticated) (node two_machines).1 [].
Proof.
  apply (instance_token_confined (Env := env_fresh) (W := PlainJwt.jwt) Debug node_config ascii by_map
    (λ _, true) true (Some "secret") "secret" (demo_token Debug 1000 (Some "vm-other"))
    2000 2000 "vm-other" (Some first_id));
    [reflexivity|vm_compute; reflexivity|vm_compute; reflexivity|vm_compute; discriminate].
Defined.

Lemma provision_spec_witness :
  let w := node two_machines in
  network_manager (st (provision_ (Env := env_fresh) Debug node_config by_map nginx w.1 w.2))
    = st (next_slot Debug (network_manager w.1) w.2).
Proof.
  pose proof (provision_spec (Env := env_fresh) (W := PlainJwt.jwt) Debug node_config ascii by_map
    (λ _, true) true None by_map_spec ip_rule_book_new two_machines nginx (or_introl eq_refl)) as H.
  unfold node. destruct (manager_run _ _ _ _ _ _ _ _ _) as [s h]. exact (proj1 H).
Defined.

Lemma machine_exit_spec_witness :
  let '(s, h) := node two_machines in
  machines (st (handle_machine_exit (Env := env_fresh) (λ _, true) true first_id (ExitContainer 0) s h))
    = delete first_id (machines s).
Proof.
  pose proof (machine_exit_spec (Env := env_fresh) (W := PlainJwt.jwt) Debug node_config ascii by_map
    (λ _, true) true None by_map_spec ip_rule_book_new two_machines first_id (ExitContainer 0)
    (or_introl eq_refl) eq_refl) as H.
  unfold node. destruct (manager_run _ _ _ _ _ _ _ _ _) as [s h]. exact (proj1 (proj2 H)).
Defined.

(** Port 70000 is refused although the machine does not exist. *)
Lemma publish_service_port_spec_witness :
  let w := node [] in
  publish_service_port (Env := env_fresh) (W := PlainJwt.jwt) node_config ascii None
    (call "" {| ps_id := "none"; ps_guest_port := 80; ps_host_port := 70000 |}) w.1 w.2
    = Run (Err {| status_code := InvalidArgument; status_message := "Invalid host port" |}) w.1 [].
Proof.
  apply (publish_service_port_spec (Env := env_fresh) (W := PlainJwt.jwt) node_config ascii None
    (call "" {| ps_id := "none"; ps_guest_port := 80; ps_host_port := 70000 |})).
  reflexivity.
Defined.

Lemma list_instances_spec_witness :
  let w := node two_machines in
  ∃ l, out (list_instances (W := PlainJwt.jwt) ascii by_map None (call "" ()) w.1 w.2) = Ok l ∧ NoDup l.
Proof.
  destruct (list_instances_spec (W := PlainJwt.jwt) ascii by_map None by_map_spec (call "" ())
    (node two_machines).1 (node two_machines).2 eq_refl) as (_ & _ & l & Hl & Hnd & _).
  exists l. split; [exact Hl|exact Hnd].
Defined.

(** The same map iterated from its other end. *)
Definition by_map_reversed (V : Type) (h : history HostI) (m : gmap string V) : list (string * V) :=
  reverse (map_to_list m).

Lemma by_map_reversed_spec (V : Type) (h : history HostI) (m : gmap string V) :
  by_map_reversed V h m ≡ₚ map_to_list m.
Proof. apply reverse_Permutation. Qed.

Definition two_variables : ProvisionRequest :=
  {| pr_container_reference := "nginx"; pr_vcpus := 2; pr_memory_mb := 256;
     pr_cmd_args := []; pr_env := <["B" := "2"]> (<["A" := "1"]> ∅) |}.

Lemma env_order_irrelevant_witness :
  by_map string [] (pr_env two_variables) ≠ by_map_reversed string [] (pr_env two_variables) ∧
  provision_ (Env := env_fresh) Debug node_config by_map two_variables (node []).1 [] =
  provision_ (Env := env_fresh) Debug node_config by_map_reversed two_variables (node []).1 [].
Proof.
  split; [vm_compute; discriminate|].
  apply (env_order_irrelevant (Env := env_fresh) Debug node_config by_map by_map_spec by_map_reversed
    two_variables (node []).1 []).
  exact by_map_reversed_spec.
Defined.

Definition late : LogMessage := {| text := "late"; timestamp_ms := 7; message_type := Stdout |}.

(** One more line is handled while the request waits for the lock. *)
Definition env_busy : Environment HostI := λ h o,
  match o return host_ans o with
  | LockComm => ([Log late], false)
  | o => @respond HostI env_fresh h o
  end.

Definition busy_stream : run HostI InnerNodeManager Status (list MachineLog * Z) :=
  stream_logs (Env := env_busy) (W := PlainJwt.jwt) ascii None (call "" first_id)
    (node two_machines).1 (node two_machines).2.

Example busy_stream_run : out busy_stream = Ok ([VmLog late], 0%Z).
Proof. vm_compute. reflexivity. Qed.

Lemma stream_logs_spec_witness :
  ∃ packets closed tx h', let w := handled_meanwhile (Env := env_busy) packets closed communicator_new h' in
    out busy_stream = Ok (clone_buffer_with_state (st w), tx) ∧ clone_buffer_with_state (st w) = [VmLog late].
Proof.
  assert (∃ m, machines (node two_machines).1 !! first_id = Some m ∧ comm m = Some communicator_new) as (m & Hm & Hc)
    by (eexists; split; [vm_compute; reflexivity|reflexivity]).
  pose proof (stream_logs_spec (Env := env_busy) (W := PlainJwt.jwt) ascii None (call "" first_id)
    (node two_machines).1 (node two_machines).2 eq_refl) as H.
  cbv zeta in H. change (get_ref (call "" first_id)) with first_id in H.
  rewrite Hm, Hc in H. destruct H as (packets & closed & tx & Hx). exists packets, closed, tx. eexists.
  apply (f_equal out) in Hx. cbn [out] in Hx. split; [exact Hx|].
  pose proof busy_stream_run as Hr. unfold busy_stream in Hr. rewrite Hx in Hr. congruence.
Defined.
End Demo.
