(* ===== verification/Fleet.v ===== *)
(** * A node as a fleet (abstract specification of src/nodemanager/src/manager.rs)

    What the node manager promises its clients, without machines, networks
    or processes: the node is the set of the instances it answers for, and
    every operation is one transition of that set, labelled with the
    operation and what it answered.  [node_refines_fleet] shows that
    the node manager of Manager.v implements it, for every sequence of calls,
    guest packets, machine exits and shutdown signals. *)

From S2P Require Import Prelude Bytes Vmproto Auth HostOps Networking Communicator Firecracker Machine Manager.

(** ** The specification *)

(** What a client learns from a call that succeeded. *)
Inductive answer : Set :=
| Done
| Created (id : string)
| Listed (ids : list string).

(** The instance an operation needs to find. *)
Definition subject (o : manager_op) : option string :=
  match o with
  | OpStreamLogs r | OpGetLogs r => Some (get_ref r)
  | OpPublishServicePort r => Some (ps_id (get_ref r))
  | OpGuestPacket id _ => Some id
  | _ => None
  end.

Definition is_call (o : manager_op) : bool :=
  match o with OpGuestPacket _ _ | OpMachineExit _ _ | OpShutdownSignal => false | _ => true end.

(** The errors an operation may answer.  Removing instances is never one of
    them: a deprovisioning or a drain fails only when it is not allowed. *)
Definition may_fail (F : gset string) (o : manager_op) (e : Status) : Prop :=
  (is_call o = true ∧ e = unauthenticated) ∨
  match o with
  | OpProvision _ => status_code e = Internal
  | OpPublishServicePort _ => status_code e = InvalidArgument
  | _ => False
  end ∨
  ∃ id, subject o = Some id ∧ status_code e = (if decide (id ∈ F) then Internal else NotFound).

Inductive fleet_step (F : gset string) : manager_op → outcome Status answer → gset string → Prop :=
| fleet_created r id : fleet_step F (OpProvision r) (Ok (Created id)) ({[id]} ∪ F)
| fleet_removed r : fleet_step F (OpDeprovision r) (Ok Done) (F ∖ {[dr_instance_id (get_ref r)]})
| fleet_exited id e : fleet_step F (OpMachineExit id e) (Ok Done) (F ∖ {[id]})
| fleet_drained r : fleet_step F (OpDrain r) (Ok Done) ∅
| fleet_stopped : fleet_step F OpShutdownSignal (Ok Done) ∅
| fleet_listed r ids : NoDup ids → list_to_set ids = F →
    fleet_step F (OpListInstances r) (Ok (Listed ids)) F
| fleet_reached o id : subject o = Some id → id ∈ F → fleet_step F o (Ok Done) F
| fleet_failed o e : may_fail F o e → fleet_step F o (Err e) F
| fleet_panicked o : o ≠ OpShutdownSignal → fleet_step F o Panic F.

Inductive fleet_run : gset string → list (manager_op * outcome Status answer) → gset string → Prop :=
| fleet_nil F : fleet_run F [] F
| fleet_cons F F' F'' o a l :
    fleet_step F o a F' → fleet_run F' l F'' → fleet_run F ((o, a) :: l) F''.

(** What follows from the specification alone: an instance of the fleet was
    created by a provisioning call that answered its id. *)
Lemma fleet_run_created F l F' id :
  fleet_run F l F' → id ∈ F' → id ∈ F ∨ ∃ r, (OpProvision r, Ok (Created id)) ∈ l.
Proof.
  induction 1 as [|F F1 F2 o a l Hs _ IH]; [by left|]. intros [Hin|[r Hr]]%IH.
  - inversion Hs; subst; set_solver.
  - right. exists r. by right.
Qed.

(** ** The node, with its answers *)

Section refinement.
Context `{Env : Environment HostI} `{B : CircularBuffer MachineLog} `{C : Codec} `{J : ToJson} `{W : Jwt}.
Context `{Acc : Held}.
Variable prof : profile.
Variable config : ManagerConfig.
Variable to_str : list byte → option string.
Variable iter : ∀ V, history HostI → gmap string V → list (string * V).
Variable uuid_valid : string → bool.
Variable subscription : bool.
Variable secret : option Key.

Local Abbreviation exec := (manager_exec prof config to_str iter uuid_valid subscription secret).
Local Abbreviation step := (manager_step prof config to_str iter uuid_valid subscription secret).

Definition answering {A} (f : A → answer) (m : eff HostI InnerNodeManager Status A)
    : eff HostI InnerNodeManager Status answer :=
  a ← m; mret (f a).

(** [manager_exec] with the part of the answer the specification speaks of. *)
Definition node_call (o : manager_op) : eff HostI InnerNodeManager Status answer :=
  match o with
  | OpProvision r => answering Created (provision prof config to_str iter secret r)
  | OpListInstances r => answering Listed (list_instances to_str iter secret r)
  | o => answering (λ _, Done) (exec o)
  end.

(** The operations [l] from [w] on, each with its answer. *)
Fixpoint served (w : InnerNodeManager * history HostI) (l : list manager_op)
    : list (manager_op * outcome Status answer) :=
  match l with
  | [] => []
  | o :: l => (o, out (node_call o w.1 w.2)) :: served (step w o) l
  end.

Definition instances (s : InnerNodeManager) : gset string := dom (machines s).

Lemma answering_run {A X} (f : A → answer) (g : A → X) (m : eff HostI InnerNodeManager Status A) s h :
  st (answering f m s h) = st ((a ← m; mret (g a)) s h) ∧
  tr (answering f m s h) = tr ((a ← m; mret (g a)) s h).
Proof. unfold answering, mbind, eff_mbind, eff_bind. by destruct (m s h) as [[] ? ?]. Qed.

Lemma answering_exec (f : () → answer) (m : eff HostI InnerNodeManager Status ()) s h :
  st (answering f m s h) = st (m s h) ∧ tr (answering f m s h) = tr (m s h).
Proof.
  unfold answering, mbind, eff_mbind, eff_bind. destruct (m s h) as [[] ? ?]; simpl; by rewrite ?app_nil_r.
Qed.

(** Keeping the answer does not change what the operation does. *)
Lemma node_call_exec o s h :
  st (node_call o s h) = st (exec o s h) ∧ tr (node_call o s h) = tr (exec o s h).
Proof. destruct o; cbn [node_call]; try apply answering_exec; apply answering_run. Qed.

(** *** Simulation *)

(** From [s], [m] is a transition of the fleet for the operation [o]. *)
Definition simulates (o : manager_op) {A} (f : A → answer)
    (m : eff HostI InnerNodeManager Status A) (s : InnerNodeManager) (h : history HostI) : Prop :=
  ⟪ s , h ⟫ m ⟪ x s' _ , fleet_step (instances s) o
    (match x with Ok a => Ok (f a) | Err e => Err e | Panic => Panic end) (instances s') ⟫.

Lemma simulates_ret o {A X} (g : A → X) (f : X → answer) m s h :
  simulates o (λ a, f (g a)) m s h → simulates o f (a ← m; mret (g a)) s h.
Proof.
  unfold simulates. intros Hm. wp_step. eapply wp_mono; [exact Hm|].
  intros [a|e|] s' t Hs; [by apply wp_ret|done..].
Qed.

(** A refused token is an allowed answer of every call. *)
Lemma simulates_authed o {A X} (f : X → answer) (r : Request A) aud
    (m : eff HostI InnerNodeManager Status X) s h :
  is_call o = true → simulates o f m s h →
  simulates o f (validate_auth to_str secret r aud;; m) s h.
Proof.
  unfold simulates. intros Ho Hm.
  assert (fleet_step (instances s) o (Err unauthenticated) (instances s)) as He
    by (apply fleet_failed; by left).
  assert (fleet_step (instances s) o Panic (instances s)) as Hp by by apply fleet_panicked; intros ->.
  unfold validate_auth. wp_step. destruct secret as [k|]; [wp_step; wp_step|];
    last by apply wp_ret; rewrite app_nil_r.
  destruct (validate_authentication _ _ _ _) as [ok|]; [|done].
  destruct ok; [apply wp_ret|by apply wp_throw]. rewrite !app_nil_r. exact Hm.
Qed.

(** Calls on one instance, whatever they do with its machine. *)
Lemma simulates_on_machine o id msg {A} (f : eff HostI Machine HostError A) s h :
  subject o = Some id →
  simulates o (λ _, Done) (on_machine id (map_err (internal msg) f)) s h.
Proof.
  intros Ho. unfold simulates, on_machine, instances. apply wp_get_bind.
  destruct (machines s !! id) as [m|] eqn:Hm.
  - assert (id ∈ dom (machines s)) as Hin by (apply elem_of_dom; by eexists).
    assert (o ≠ OpShutdownSignal) as Hne by by intros ->.
    assert (∀ m', dom (<[id := m']> (machines s)) = dom (machines s)) as Hdom
      by by intros m'; rewrite dom_insert_L; apply subseteq_union_1_L, singleton_subseteq_l.
    wp_step. wp_step. unfold wp. simpl. rewrite Hdom.
    destruct (out (f m h)) as [a|e|]; [by apply (fleet_reached _ _ id)| |by apply fleet_panicked].
    apply fleet_failed. right. right. exists id. by rewrite decide_True.
  - assert (id ∉ dom (machines s)) as Hin by by apply not_elem_of_dom.
    apply wp_throw, fleet_failed. right. right. exists id. by rewrite decide_False.
Qed.

Lemma port_simulates r s h :
  simulates (OpPublishServicePort r) (λ _, Done) (publish_service_port config to_str secret r) s h.
Proof.
  apply simulates_authed; [done|]. unfold simulates, u16_try_from.
  assert (∀ msg F, fleet_step F (OpPublishServicePort r)
    (Err {| status_code := InvalidArgument; status_message := msg |}) F) as Hbad
    by by intros msg F; apply fleet_failed; right; left.
  wp_step. destruct (is_uint 16 (ps_host_port _)); [apply wp_ret|apply wp_throw, Hbad].
  wp_step. destruct (is_uint 16 (ps_guest_port _)); [apply wp_ret|apply wp_throw, Hbad].
  by apply simulates_on_machine.
Qed.

Hypothesis iter_spec : ∀ V h (m : gmap string V), iter V h m ≡ₚ map_to_list m.

Lemma provision_simulates r s h : node_wf h s → has_room prof (network_manager s) 1 →
  simulates (OpProvision r) Created (provision prof config to_str iter secret r) s h.
Proof.
  intros Hw Hr. apply simulates_authed; [done|]. apply wp_map_err.
  eapply wp_mono; [by apply provision_run|]. unfold instances.
  intros [id|e|] s' t (_ & _ & _ & Ho).
  - destruct Ho as (m & -> & _). rewrite dom_insert_L. apply fleet_created.
  - rewrite Ho. apply fleet_failed. right. by left.
  - rewrite Ho. by apply fleet_panicked.
Qed.

Lemma deprovision_instances id timeout s h : node_wf h s →
  ⟪ s , h ⟫ deprovision_ id timeout ⟪ o s' _ , o = Ok () ∧ instances s' = instances s ∖ {[id]} ⟫.
Proof.
  intros Hw. unfold instances. destruct (machines s !! id) as [m|] eqn:Hm.
  - eapply wp_mono; [by apply (deprovision_run id timeout m)|].
    intros o s' t (-> & _ & -> & _). by rewrite dom_delete_L.
  - unfold wp. rewrite deprovision_absent by done. split; [done|]. simpl.
    by rewrite difference_disjoint_L by by apply disjoint_singleton_r, not_elem_of_dom.
Qed.

Lemma exit_simulates id e s h : node_wf h s →
  simulates (OpMachineExit id e) (λ _, Done)
    (map_err (internal "") (handle_machine_exit uuid_valid subscription id e)) s h.
Proof.
  intros Hw. apply wp_map_err. unfold handle_machine_exit. wp_step.
  match goal with |- wp ?m _ _ _ => assert (⟪ s , h ⟫ m ⟪ o s' t ,
    (∀ e, o ≠ Err e) ∧ s' = s ∧ commands t = [] ⟫) as Hn end.
  { destruct subscription; [|by apply wp_ret]. wp_step.
    destruct (uuid_valid id); [apply wp_ret|by apply wp_panic].
    wp_step. apply (@wp_perform HostI _ _ _ (NotifyExit id e)). intros a _. by apply wp_ret. }
  eapply wp_mono; [exact Hn|]. clear Hn. intros o s' t (Ho & -> & Hc).
  destruct o as [[]|e'|]; [|by destruct (Ho e')|by apply fleet_panicked].
  eapply wp_mono; [apply (deprovision_instances id None)|].
  { destruct Hw as [Hn Hms]. constructor; [|done]. by apply net_inv_quiet. }
  intros o s1 t1 [-> ->]. apply fleet_exited.
Qed.

Lemma drain_instances s h : node_wf h s →
  ⟪ s , h ⟫ drain_ iter ⟪ o s' _ , o = Ok () ∧ instances s' = ∅ ⟫.
Proof.
  intros Hw. eapply wp_mono; [by apply (drain_run iter iter_spec)|].
  intros o s' t (-> & Hms & _). unfold instances. by rewrite Hms, dom_empty_L.
Qed.

Lemma list_simulates r s h :
  simulates (OpListInstances r) Listed (list_instances to_str iter secret r) s h.
Proof.
  apply simulates_authed; [done|]. unfold simulates. apply wp_get_bind. wp_step. apply wp_iterate. apply wp_ret.
  pose proof (iter_spec _ h (machines s)) as Hl. apply (Permutation_map fst) in Hl. apply fleet_listed.
  - rewrite Hl. apply NoDup_fst_map_to_list.
  - unfold instances. apply set_eq. intros id. rewrite elem_of_list_to_set, elem_of_dom, Hl.
    split; [intros ([? m] & -> & Hin%elem_of_map_to_list)%list_elem_of_fmap; by eexists|].
    intros [m Hm]. apply list_elem_of_fmap. exists (id, m). split; [done|]. by apply elem_of_map_to_list.
Qed.

(** Every operation of a well-formed node is a transition of the fleet. *)
Lemma call_simulates o s h : node_wf h s → has_room prof (network_manager s) (if is_provision o then 1 else 0) →
  simulates o id (node_call o) s h.
Proof.
  intros Hw Hr. destruct o as [r|r|r|r|r|r|r|i p|i e|]; apply simulates_ret; cbn [manager_exec is_provision] in *.
  - by apply provision_simulates.
  - apply simulates_authed; [done|]. apply wp_map_err. eapply wp_mono; [by apply deprovision_instances|].
    intros o s' t [-> ->]. apply fleet_removed.
  - apply simulates_ret, simulates_authed; [done|]. by apply simulates_on_machine.
  - apply list_simulates.
  - apply simulates_ret, simulates_authed; [done|]. by apply simulates_ret, simulates_on_machine.
  - apply port_simulates.
  - apply simulates_authed; [done|]. apply wp_map_err. eapply wp_mono; [by apply drain_instances|].
    intros o s' t [-> ->]. apply fleet_drained.
  - by apply simulates_ret, simulates_on_machine.
  - by apply exit_simulates.
  - apply wp_map_err. eapply wp_mono; [by apply drain_instances|].
    intros o s' t [-> ->]. apply fleet_stopped.
Qed.

Lemma served_simulates l s h : node_wf h s → has_room prof (network_manager s) (provision_count l) →
  fleet_run (instances s) (served (s, h) l) (instances (foldl step (s, h) l).1).
Proof.
  revert s h. induction l as [|o l IH]; intros s h Hw Hr; [apply fleet_nil|]. cbn [served foldl].
  pose proof (call_simulates o s h Hw (has_room_cons _ _ _ _ Hr)) as Hsim. unfold simulates, wp in Hsim.
  destruct (node_call_exec o s h) as [Hst _]. rewrite Hst in Hsim.
  destruct (manager_step_wf prof config to_str iter uuid_valid subscription secret iter_spec o l s h Hw Hr)
    as (Hw' & Hr' & _).
  eapply fleet_cons; [|apply IH; [exact Hw'|exact Hr']].
  cbn [fst snd]. by destruct (out (node_call o s h)).
Qed.
End refinement.

Section properties.
Context `{Env : Environment HostI} `{B : CircularBuffer MachineLog} `{C : Codec} `{J : ToJson} `{W : Jwt}.
Variable prof : profile.
Variable config : ManagerConfig.
Variable to_str : list byte → option string.
Variable iter : ∀ V, history HostI → gmap string V → list (string * V).
Variable uuid_valid : string → bool.
Variable subscription : bool.
Variable secret : option Key.
Hypothesis iter_spec : ∀ V h (m : gmap string V), iter V h m ≡ₚ map_to_list m.

(** C2: A node is a fleet.  For every sequence of operations from a node that
    just started, the answers it gave are those of a run of the specification
    from the empty set, and the set reached is that of the machines it holds:
    provisioning adds the id it answers, deprovisioning, a guest's exit and a
    drain remove what they name and never fail once allowed, a refused or failed
    call leaves the instances alone, a listing answers exactly the instances,
    and calls on one instance find it exactly when it is one of them. *)
Theorem node_refines_fleet rules (l : list manager_op) :
  prof = Debug ∨ (provision_count l <= max_slots)%Z →
  fleet_run ∅
    (served prof config to_str iter uuid_valid subscription secret (manager_init rules, []) l)
    (instances (manager_run prof config to_str iter uuid_valid subscription secret rules l).1).
Proof.
  intros Hl. rewrite <-(dom_empty_L (M := gmap string) (A := Machine)).
  apply (served_simulates (Acc := none_held) prof config to_str iter uuid_valid subscription secret iter_spec
    l (manager_init rules) []); [by apply (manager_init_wf (Acc := none_held))|].
  destruct Hl; [by left|by right].
Qed.
End properties.

(** ** Evaluation *)

Module Demo.
Import ListBuffer CountableCodec.
Import Machine.Demo Manager.Demo.

(** Two machines, of which the first is deprovisioned, a listing, and a call
    for the logs of the one that is gone. *)
Definition session : list manager_op :=
  two_machines ++
  [OpDeprovision (call "" {| dr_instance_id := first_id; dr_timeout_millis := 0 |});
   OpListInstances (call "" ()); OpGetLogs (call "" first_id); OpShutdownSignal].

Definition answers (l : list manager_op) : list (outcome Status answer) :=
  (served (Env := env_fresh) (W := PlainJwt.jwt) Debug node_config ascii by_map (λ _, true) true None
    (manager_init ip_rule_book_new, []) l).*2.

Example session_answers : answers session =
  [Ok (Created "vm-7"); Ok (Created "vm-38"); Ok Done; Ok (Listed ["vm-38"]);
   Err {| status_code := NotFound; status_message := "Machine not found" |}; Ok Done].
Proof. vm_compute. reflexivity. Qed.

Lemma node_refines_fleet_witness :
  ∃ F, fleet_run ∅ (served (Env := env_fresh) (W := PlainJwt.jwt) Debug node_config ascii by_map
    (λ _, true) true None (manager_init ip_rule_book_new, []) session) F.
Proof.
  eexists. apply (node_refines_fleet (Env := env_fresh) (W := PlainJwt.jwt) Debug node_config ascii by_map
    (λ _, true) true None by_map_spec ip_rule_book_new session (or_introl eq_refl)).
Defined.
End Demo.
