(* ===== verification/NodeMain.v ===== *)
(** * The node manager's process (src/nodemanager/src/main.rs, [serve] of src/nodemanager/src/manager.rs)

    From the configuration file to the end of the process: [main] creates the
    node, serves its clients until Ctrl-C, drains the node and returns; what
    is left of the node is dropped with the runtime.  The clients' calls and
    the guests' events are an arbitrary sequence, with those that still run
    between the drain and the end of the process given apart. *)

From S2P Require Import Prelude Bytes Vmproto Auth HostOps Networking Communicator Firecracker Machine Manager.

Section node_main.
Context `{Env : Environment HostI} `{B : CircularBuffer MachineLog} `{C : Codec} `{J : ToJson} `{W : Jwt}.
Variable prof : profile.
Variable to_str : list byte → option string.
Variable iter : ∀ V, history HostI → gmap string V → list (string * V).
Variable uuid_valid : string → bool.

(** [serde_json::from_str] at [ManagerConfig]. *)
Variable parse_config : string → option ManagerConfig.

(** [main] passes neither a subscription nor a secret. *)
Local Abbreviation exec config := (manager_exec prof config to_str iter uuid_valid false None).
Local Abbreviation step config := (manager_step prof config to_str iter uuid_valid false None).

(** An operation runs in a task of its own: neither its error nor its panic
    reaches the others. *)
Definition in_task {A} (m : eff HostI InnerNodeManager Status A) : eff HostI InnerNodeManager HostError () :=
  λ s h, let r := m s h in Run (Ok ()) (st r) (tr r).

Definition handle (config : ManagerConfig) (l : list manager_op) : eff HostI InnerNodeManager HostError () :=
  for_each (λ o, in_task (exec config o)) l.

(** The node going out of scope: its machines, then its own rules. *)
Definition drop_node (node : InnerNodeManager) : eff HostI () HostError () :=
  ms ← iterate iter (machines node);
  for_each (λ '(_, machine), drop_machine machine) ms;;
  drop_ip_rule_book (global_rules (network_manager node)).

(** [ctrl_c().await.expect(_)] *)
Definition await_ctrl_c : eff HostI InnerNodeManager HostError () :=
  signalled ← perform (I := HostI) CtrlC;
  if signalled : bool then mret () else panic.

(** The block of [rt.block_on] once the node exists: [before] is what the
    server handles until Ctrl-C, [after] what it still handles between the
    end of the drain and the end of the process.  A server that cannot start
    handles nothing. *)
Definition serve_until_signal (config : ManagerConfig) (before after : list manager_op)
    : eff HostI InnerNodeManager HostError () :=
  serving ← perform (I := HostI) (ServeGrpc "[::1]:50051");
  (if serving : bool then handle config before else mret ());;
  await_ctrl_c;;
  ignore (drain_ iter);;
  (if serving : bool then handle config after else mret ()).

(** The runtime and the configuration. *)
Definition load_config {S} : eff HostI S HostError ManagerConfig :=
  built ← perform (I := HostI) (BuildRuntime 4);
  (if built : bool then mret () else panic);;
  config ← perform (I := HostI) (ReadToString ["config.json"]);
  config ← or_panic config;
  or_panic (parse_config config).

Definition node_main (before after : list manager_op) : eff HostI () HostError () :=
  config ← load_config;
  node ← unwrap (node_manager_new None);
  r ← owned drop_node node.1 (serve_until_signal config before after);
  drop_node r.2.

(** ** What a process leaves behind *)

#[local] Existing Instance all_held.

Lemma handle_steps config l s h :
  let r := handle config l s h in
  out r = Ok () ∧ st r = (foldl (step config) (s, h) l).1 ∧ h ++ tr r = (foldl (step config) (s, h) l).2.
Proof.
  revert s h. induction l as [|o l IH]; intros s h; [split_and!; [done|done|apply app_nil_r]|].
  unfold handle in *. cbn [for_each foldl]. rewrite !bind_run. unfold in_task. cbn [out st tr].
  rewrite app_assoc. apply IH.
Qed.

Hypothesis iter_spec : ∀ V h (m : gmap string V), iter V h m ≡ₚ map_to_list m.

(** Every device and rule made has been removed. *)
Definition balanced (h : history HostI) : Prop :=
  taps_created h ≡ₚ taps_deleted h ∧ delete_of <$> added_rules h ≡ₚ deleted_rules h.

Lemma node_wf_quiet h t s : commands t = [] → node_wf h s → node_wf (h ++ t) s.
Proof. intros Ht [Hn Hm]. constructor; [by apply net_inv_quiet|done]. Qed.

Lemma handle_wf config l s h : node_wf h s → has_room prof (network_manager s) (provision_count l) →
  ⟪ s , h ⟫ handle config l ⟪ o s' t , o = Ok () ∧ node_wf (h ++ t) s' ∧
    (id_of s' <= id_of s + provision_count l)%Z ∧ s' = (foldl (step config) (s, h) l).1 ⟫.
Proof.
  intros Hw Hr. destruct (handle_steps config l s h) as (Ho & Hs & Ht).
  destruct (manager_steps_wf prof config to_str iter uuid_valid false None iter_spec l s h Hw Hr) as [Hw' Hid].
  unfold wp. rewrite Ht, Hs. done.
Qed.

(** The rules of the node itself are recorded by the commands removing them. *)
Lemma global_rules_delete nm l h : net_inv nm l h →
  Forall (λ r, is_delete r = true) (delete_args (global_rules nm)).
Proof.
  intros Hn. pose proof (wf_rules _ Hn) as Hr. cbn [past mgr live] in Hr.
  assert (Forall (λ r, is_delete r = true) (delete_of <$> added_rules h)) as Hall
    by by apply Forall_fmap, Forall_true.
  rewrite Hr in Hall. by apply Forall_app in Hall as [_ [_ ?]%Forall_app].
Qed.

Lemma drop_machines_run nm (l : list (string * Machine)) h :
  net_inv nm ((λ x, network x.2) <$> l) h →
  ⟪ () , h ⟫ for_each (λ '(_, machine), drop_machine machine) l ⟪ o _ t ,
    o = Ok () ∧ net_inv nm [] (h ++ t) ⟫.
Proof.
  revert h. induction l as [|[id m] l IH]; intros h Hn; simpl.
  - apply wp_ret. by rewrite app_nil_r.
  - wp_step. unfold drop_machine at 1. wp_use (drop_network_stack_run (S := ())).
    intros o [] t (-> & _ & Hc & _). eapply wp_mono; [apply IH; by eapply net_inv_drop|].
    intros o [] t2 [-> Hn2]. by rewrite app_assoc.
Qed.

Lemma drop_node_run node h : node_wf h node →
  ⟪ () , h ⟫ drop_node node ⟪ o _ t , o = Ok () ∧ balanced (h ++ t) ⟫.
Proof.
  intros [Hn _]. unfold drop_node. wp_step. apply wp_iterate. rewrite app_nil_r. wp_step.
  eapply wp_mono; [apply (drop_machines_run (network_manager node))|].
  { unfold networks in Hn. by rewrite iter_spec. }
  intros o [] t [-> Hn2]. wp_use (drop_ip_rule_book_spec (S := ())).
  intros o [] t2 (-> & _ & Hc & _). split; [done|].
  destruct (rule_book_accounts _ t2 (global_rules_delete _ _ _ Hn2) Hc) as (H1 & H2 & H3 & H4).
  destruct Hn2 as [_ _ Ht Hr]. cbn [past live mgr] in *. unfold balanced. simpl. rewrite app_assoc.
  rewrite taps_created_app, taps_deleted_app, added_rules_app, deleted_rules_app, H1, H2, H3, H4, !app_nil_r.
  rewrite Ht, Hr. simpl. by rewrite app_nil_r.
Qed.

Lemma provision_count_app l1 l2 :
  provision_count (l1 ++ l2) = (provision_count l1 + provision_count l2)%Z.
Proof. unfold provision_count. rewrite filter_app, length_app. lia. Qed.

(** Why [main] may panic, and where: the first three of its [unwrap]s and
    [expect]s fail before it did anything else, the fourth when iptables
    refuses the first command of all, the node's own rule.  Once the node
    exists only the handler of Ctrl-C is left. *)
Inductive blamed (t : history HostI) : Prop :=
| no_runtime : t = [existT (BuildRuntime 4 : op HostI) false] → blamed t
| no_config :
    t = [existT (BuildRuntime 4 : op HostI) true;
         existT (ReadToString ["config.json"] : op HostI) None] → blamed t
| bad_config text :
    t = [existT (BuildRuntime 4 : op HostI) true;
         existT (ReadToString ["config.json"] : op HostI) (Some text)] →
    parse_config text = None → blamed t
| no_firewall text status :
    t = [existT (BuildRuntime 4 : op HostI) true;
         existT (ReadToString ["config.json"] : op HostI) (Some text);
         existT (RunCommand "iptables-nft" own_rule : op HostI) status] →
    succeeded status = false → blamed t
| no_signal : (existT (CtrlC : op HostI) false : entry HostI) ∈ t → blamed t.

(** A phase of [main] with the node: it keeps the node accounted, hands out
    at most [k] fresh slots, and panics only when Ctrl-C cannot be awaited. *)
Definition phase {A} (k : Z) (m : eff HostI InnerNodeManager HostError A) : Prop :=
  ∀ s h, node_wf h s → has_room prof (network_manager s) k →
    ⟪ s , h ⟫ m ⟪ o s' t , node_wf (h ++ t) s' ∧ (id_of s' <= id_of s + k)%Z ∧
      match o with Ok _ => True | Err _ => False | Panic => (existT (CtrlC : op HostI) false : entry HostI) ∈ t end ⟫.

Lemma phase_bind {A X} k1 k2 (m : eff HostI InnerNodeManager HostError A)
    (f : A → eff HostI InnerNodeManager HostError X) :
  (0 <= k1)%Z → (0 <= k2)%Z → phase k1 m → (∀ a, phase k2 (f a)) → phase (k1 + k2) (m ≫= f).
Proof.
  intros Hk1 Hk2 Hm Hf s h Hs Hroom. wp_step. eapply wp_mono.
  { apply Hm; [done|]. destruct Hroom; [by left|right; lia]. }
  intros o s1 t1 (Hs1 & Hn1 & Ho). destruct o as [a|e|]; [|done|by split_and!; [|lia|]].
  eapply wp_mono; [apply Hf; [done|]|].
  { destruct Hroom; [by left|right; unfold id_of in *; lia]. }
  intros o s2 t2 (Hs2 & Hn2 & Ho2). rewrite app_assoc. split_and!; [done|unfold id_of in *; lia|].
  destruct o; [done..|]. apply elem_of_app. by right.
Qed.

Lemma phase_seq {A X} k (m : eff HostI InnerNodeManager HostError A)
    (f : A → eff HostI InnerNodeManager HostError X) :
  (0 <= k)%Z → phase 0 m → (∀ a, phase k (f a)) → phase k (m ≫= f).
Proof. apply (phase_bind 0). done. Qed.

Lemma phase_ret {A} (a : A) : phase 0 (mret a).
Proof. intros s h Hs _. apply wp_ret. rewrite app_nil_r. split_and!; [done|lia|done]. Qed.

Lemma phase_ask o : commands [existT o (respond [] o) : entry HostI] = [] → phase 0 (perform (I := HostI) o).
Proof.
  intros Hc s h Hs _. apply (@wp_perform HostI). intros a _. split_and!; [|lia|done].
  apply node_wf_quiet; [|done]. by destruct o.
Qed.

Lemma phase_handle config (serving : bool) l :
  phase (provision_count l) (if serving then handle config l else mret ()).
Proof.
  intros s h Hw Hr. destruct serving.
  - eapply wp_mono; [by apply handle_wf|]. by intros o s' t (-> & ? & ? & _).
  - apply wp_ret. rewrite app_nil_r. split_and!; [done| |done].
    assert (0 <= provision_count l)%Z by apply Nat2Z.is_nonneg. lia.
Qed.

Lemma phase_signal : phase 0 await_ctrl_c.
Proof.
  intros s h Hs _. unfold await_ctrl_c. wp_step. wp_step.
  assert (node_wf (h ++ [existT (CtrlC : op HostI) a]) s) by by apply node_wf_quiet.
  destruct a; [apply wp_ret|apply wp_panic]; (split_and!; [done|lia|]); [done|]. left.
Qed.

Lemma phase_drain : phase 0 (ignore (drain_ iter)).
Proof.
  intros s h Hs Hr. wp_step.
  eapply wp_mono; [apply wp_conj; [by apply (drain_run iter iter_spec s h)|
    by apply (drain_keeps prof iter iter_spec)]|].
  intros o s' t ((-> & _) & Hw & Hid). done.
Qed.

Lemma phase_serve config before after :
  phase (provision_count (before ++ after)) (serve_until_signal config before after).
Proof.
  assert (0 <= provision_count before ∧ 0 <= provision_count after)%Z as [? ?]
    by by split; apply Nat2Z.is_nonneg.
  rewrite provision_count_app. unfold serve_until_signal.
  apply phase_seq; [lia|by apply phase_ask|intros serving].
  apply phase_bind; [done..|apply phase_handle|intros []].
  apply phase_seq; [done|apply phase_signal|intros []].
  apply phase_seq; [done|apply phase_drain|intros []]. apply phase_handle.
Qed.

Lemma load_config_run {S} (s : S) h :
  ⟪ s , h ⟫ load_config ⟪ o s' t , s' = s ∧ commands t = [] ∧
    match o with
    | Ok _ => ∃ text, t = [existT (BuildRuntime 4 : op HostI) true;
                           existT (ReadToString ["config.json"] : op HostI) (Some text)]
    | Err _ => False
    | Panic => blamed t
    end ⟫.
Proof.
  unfold load_config. wp_step. wp_step. wp_step.
  destruct a; [apply wp_ret|apply wp_panic; split_and!; [done..|by apply no_runtime]].
  wp_step. wp_step. wp_step. wp_step. destruct a as [text|]; simpl.
  - apply wp_or_panic. destruct (parse_config text) eqn:Hp; split_and!; [done..|by exists text|done|done|].
    by apply (bad_config _ text).
  - split_and!; [done..|]. by apply no_config.
Qed.

Lemma balanced_quiet t : commands t = [] → balanced t.
Proof.
  intros Ht. unfold balanced, taps_created, taps_deleted, added_rules, deleted_rules, command_lines.
  by rewrite Ht.
Qed.

Lemma node_manager_new_run {S} (s : S) h : commands h = [] →
  ⟪ s , h ⟫ node_manager_new None ⟪ o s' t ,
    match o with
    | Ok (node, key) => key = None ∧ node_wf (h ++ t) node ∧ id_of node = 0%Z
    | Err _ => balanced (h ++ t) ∧
        ∃ a, t = [existT (RunCommand "iptables-nft" own_rule : op HostI) a] ∧ succeeded a = false
    | Panic => False
    end ⟫.
Proof.
  intros Hh. pose proof (balanced_quiet h Hh) as [Hht Hhr].
  unfold node_manager_new. wp_step. wp_use network_manager_new_run.
  intros o s' t (_ & Htc & Htd & Ho). destruct o as [nm|e|]; [| |done].
  - destruct Ho as (rules & -> & _ & Ha & Hd). wp_step. apply wp_ret. apply wp_ret. rewrite !app_nil_r.
    split_and!; [done| |done]. apply (manager_init_wf rules).
    + rewrite taps_created_app, taps_deleted_app, Htc, Htd. by rewrite Hht.
    + rewrite added_rules_app, deleted_rules_app, fmap_app, Ha, Hd, Hhr. by rewrite app_nil_r.
  - destruct Ho as (Ha & Hs). split; [|done].
    split; [rewrite taps_created_app, taps_deleted_app, Htc, Htd; by rewrite Hht|].
    rewrite added_rules_app, deleted_rules_app, fmap_app, Ha. by rewrite Hhr.
Qed.

(** The node serves and goes out of scope, however that ends. *)
Lemma serve_and_drop_run config before after node h :
  node_wf h node → id_of node = 0%Z →
  prof = Debug ∨ (provision_count (before ++ after) <= max_slots)%Z →
  ⟪ () , h ⟫ r ← owned drop_node node (serve_until_signal config before after); drop_node r.2 ⟪ o _ t , balanced (h ++ t) ∧
    (o = Ok () ∨ o = Panic ∧ (existT (CtrlC : op HostI) false : entry HostI) ∈ t) ⟫.
Proof.
  intros Hw Hid Hl. wp_step. apply wp_owned. eapply wp_mono; [apply phase_serve; [done|]|].
  { unfold has_room. unfold id_of in Hid. rewrite Hid. destruct Hl; [by left|right; lia]. }
  intros o s1 t1 (Hw1 & _ & Ho). destruct o as [[]|e|]; [|done|].
  - eapply wp_mono; [by apply drop_node_run|]. intros o _ t2 [-> Hb]. rewrite app_assoc. split; [done|by left].
  - eapply wp_mono; [by apply drop_node_run|]. intros o _ t2 [-> Hb]. rewrite app_assoc.
    split; [done|right]. split; [done|]. apply elem_of_app. by left.
Qed.

(** C5: Whatever its clients, its guests and its host do, the node manager's
    process leaves nothing on the network of the host: when it ends, the tap
    devices it created and the iptables rules it added, its own included, are
    exactly those it asked to remove.  It ends with success, unless the
    runtime or the configuration failed, iptables refused the node's own first
    rule (in each case nothing else was done), or Ctrl-C could not be awaited
    ([blamed]); no client, no guest and no other command can make it panic.  In a release
    build this needs at most 16384 provisioning requests. *)
Theorem node_leaves_no_network before after :
  prof = Debug ∨ (provision_count (before ++ after) <= max_slots)%Z →
  let r := node_main before after () [] in
  taps_created (tr r) ≡ₚ taps_deleted (tr r) ∧
  delete_of <$> added_rules (tr r) ≡ₚ deleted_rules (tr r) ∧
  (out r = Ok () ∨ out r = Panic ∧ blamed (tr r)).
Proof.
  intros Hl.
  enough (⟪ () , [] ⟫ node_main before after ⟪ o _ t , balanced t ∧ (o = Ok () ∨ o = Panic ∧ blamed t) ⟫)
    as [[? ?] ?] by done.
  unfold node_main. wp_step. wp_use load_config_run.
  intros o [] t (_ & Ht & Ho). destruct o as [config|e|]; [|done|split; [by apply balanced_quiet|by right]].
  wp_step. wp_step. eapply wp_mono; [by apply node_manager_new_run|]. destruct Ho as [text Htext].
  intros o [] t2 Ho. destruct o as [[node key]|e|]; [| |done].
  - destruct Ho as (_ & Hw & Hid). eapply wp_mono; [by apply serve_and_drop_run|].
    intros o [] t3 [Hb Ho]. rewrite <-!app_assoc in Hb. split; [done|]. destruct Ho as [->|[-> Ho]]; [by left|right].
    split; [done|]. apply no_signal. rewrite !elem_of_app. by right; right.
  - destruct Ho as (Hb & a & -> & Ha). split; [done|right]. split; [done|].
    apply (no_firewall _ text a); [by rewrite Htext|done].
Qed.
End node_main.

(** ** Evaluation *)

Module Demo.
Import ListBuffer CountableCodec.
Import Machine.Demo Manager.Demo.

(** Two machines until Ctrl-C, and one more while the process ends. *)
Definition process : run HostI () HostError () :=
  node_main (Env := env_fresh) (W := PlainJwt.jwt) Debug ascii by_map (λ _, true) (λ _, Some node_config)
    two_machines [OpProvision (call "" nginx)] () [].

Definition killed (t : history HostI) : list string :=
  omap (λ o, match o with KillChild id => Some id | _ => None end) (ops t).

Definition spawned (t : history HostI) : list (list string) :=
  omap (λ o, match o with SpawnJailer _ args _ _ _ _ => Some args | _ => None end) (ops t).

(** The drain kills the first two; the process of the third one is left. *)
Example late_machine_survives :
  out process = Ok () ∧ length (spawned (tr process)) = 3 ∧ length (killed (tr process)) = 2 ∧
  taps_created (tr process) = ["tap0"; "tap1"; "tap1"].
Proof. vm_compute. repeat split. Qed.

Lemma node_leaves_no_network_witness :
  taps_created (tr process) ≡ₚ taps_deleted (tr process).
Proof.
  exact (proj1 (node_leaves_no_network (Env := env_fresh) (W := PlainJwt.jwt) Debug ascii by_map (λ _, true)
    (λ _, Some node_config) by_map_spec two_machines [OpProvision (call "" nginx)] (or_introl eq_refl))).
Defined.
End Demo.
