(* ===== verification/GuestOps.v ===== *)
(** * What the instance crate asks of the guest

    The interface [GuestI] lists the operations through which the init
    program inside the microVM acts on its surroundings: the vsock stream to
    the host, the pipes of the container, HTTP, the file system, external
    programs and the exit channel. *)

From S2P Require Import Prelude Bytes Vmproto HostOps.

(** The outcome of [pipe.read(buf)] with [room] bytes of buffer: the bytes
    read (at most [room]), end of file, or an error. *)
Inductive pipe_answer : Set := PipeData (data : list byte) | PipeEof | PipeError.

(** The outcome of sending an HTTP request; the text of a response's body is
    [None] when reading it fails. *)
Record http_response : Set := {
  status : Z;
  content_length : option Z;
  text_ : option string;
}.

Inductive http_answer : Set := HttpFailed | HttpResponse (r : http_response).

(** src/instance/src/containers/registry.rs: the decoders of a layer.  The
    body of a response being unpacked is named by the URL it was got from. *)
Inductive decoder : Set := GzDecoder | ZlibDecoder | NoDecoder.

Inductive GuestOp : Set :=
(* host.rs *)
| ConnectVsock (port : Z)
| SetReadTimeoutNone
| SetWriteTimeoutNone
| WriteAll (data : list byte)
| Flush
| CloneStream
| ReadClockMs
| PipeRead (room : nat)
(* mmds.rs, registry.rs *)
| HttpPut (url : string) (headers : list (string * string))
| HttpGet (url : string) (headers : list (string * string))
| BackoffSleep
| TarUnpack (d : decoder) (blob : string) (folder : Path)
(* file system *)
| GuestCreateDirAll (p : Path)
| GuestWriteFile (p : Path) (contents : string)
| GuestPathExists (p : Path)
| SaveDocument (p : Path)
(* programs and main.rs *)
| InitLogger
| Busybox (args : list string)
| Mke2fs (args : list string)
| Setsid
| ProcessId
| SpawnCrun (args : list string)
| WaitCrun
| WaitContainer
| RecvExit
| JoinLogThread
| SyncAndReboot.

Definition guest_ans (o : GuestOp) : Set :=
  match o with
  | ReadClockMs | Setsid | ProcessId => Z
  | PipeRead _ => pipe_answer
  | HttpPut _ _ | HttpGet _ _ => http_answer
  | Busybox _ | Mke2fs _ => cmd_status
  | RecvExit => option GuestExitCode
  | WaitContainer => option (option Z)
  | _ => bool
  end.

Definition GuestI : Iface := {| op := GuestOp; ans := guest_ans |}.

#[export] Instance decoder_eq_dec : EqDecision decoder.
Proof. solve_decision. Defined.
#[export] Instance guest_op_eq_dec : EqDecision GuestOp.
Proof. solve_decision. Defined.

(** ** Concrete environments, for evaluation *)

(** Everything succeeds; HTTP answers are given by [web] and the pipe
    delivers what [pipe] says at each moment. *)
Definition guest_env (web : string → http_answer) (pipe : history GuestI → pipe_answer)
    : Environment GuestI := λ h o,
  match o return guest_ans o with
  | ReadClockMs => 7
  | Setsid | ProcessId => 1
  | PipeRead _ => pipe h
  | HttpPut url _ | HttpGet url _ => web url
  | Busybox _ | Mke2fs _ => ExitStatus (Some 0)
  | RecvExit => Some (ContainerExited 0)
  | WaitContainer => Some (Some 0)
  | _ => true
  end%Z.

Definition guest_env_ok : Environment GuestI := guest_env (λ _, HttpFailed) (λ _, PipeEof).
