(* ===== verification/GuestComm.v ===== *)
(** * The guest's side of the vsock stream (src/instance/src/host.rs)

    Sending packets to the host and reading the host's packets.  The stream
    itself is the environment; what the host makes of the bytes is the
    subject of Communicator.v, and the two sides meet here. *)

From S2P Require Import Prelude Bytes Vmproto HostOps Communicator GuestOps.

Definition BUFFER_SIZE : nat := 2 * 1024.

Inductive CommErrors : Set := UnableToConnect | IoError | HostDeserializationError.

Section guest_comm.
Context `{Env : Environment GuestI} `{C : Codec}.

(** A fallible operation with [.map_err(CommErrors::IoError)?]. *)
Definition gio {S} (o : GuestOp) (ok : guest_ans o → bool) : eff GuestI S CommErrors () :=
  a ← perform (I := GuestI) o;
  if ok a then mret () else throw IoError.

Definition host_communication_new {S} (port : Z) : eff GuestI S CommErrors () :=
  connected ← perform (I := GuestI) (ConnectVsock port);
  (if connected : bool then mret () else throw UnableToConnect);;
  gio SetReadTimeoutNone id;;
  gio SetWriteTimeoutNone id.

Definition write_without_flush {S} (packet : GuestPacket) : eff GuestI S CommErrors () :=
  let data := serialize_guest_packet packet in
  gio (WriteAll (u32_to_be_bytes (wrap 32 (Z.of_nat (length data))))) id;;
  gio (WriteAll data) id.

Definition flush {S} : eff GuestI S CommErrors () := gio Flush id.

Definition write_packet {S} (packet : GuestPacket) : eff GuestI S CommErrors () :=
  write_without_flush packet;;
  flush.

Definition log_system_message {S} (message : string) : eff GuestI S CommErrors () :=
  clock ← perform (I := GuestI) ReadClockMs;
  unwrap (write_packet (S := S) (Log (log_message_system clock message))).

Definition system_message {S} (message : option string) : eff GuestI S CommErrors () :=
  match message with
  | Some message =>
      clock ← perform (I := GuestI) ReadClockMs;
      unwrap (write_without_flush (S := S) (Log (log_message_system clock message)))
  | None => mret ()
  end.

Definition state_change {S} (state : InitVmState) (message : option string) : eff GuestI S CommErrors () :=
  clock ← perform (I := GuestI) ReadClockMs;
  unwrap (write_without_flush (S := S) (VmState state (get_timestamp_ms clock)));;
  system_message message;;
  unwrap (flush (S := S)).

Definition exit {S} (exit_code : GuestExitCode) (message : option string) : eff GuestI S CommErrors () :=
  unwrap (write_without_flush (S := S) (Exited exit_code));;
  system_message message;;
  unwrap (flush (S := S)).

Definition clone_stream {S} : eff GuestI S CommErrors () := gio CloneStream id.

(** The next packet of the host, and what is left of the stream. *)
Definition read_packet (s : list byte) : CommErrors + (HostPacket * list byte) :=
  match read_exact 4 s with
  | None => inl IoError
  | Some (len_buf, s1) =>
      let len := u32_from_be_bytes len_buf in
      if (Z.of_nat BUFFER_SIZE <? len)%Z then inl HostDeserializationError
      else
        match read_exact (Z.to_nat len) s1 with
        | None => inl IoError
        | Some (data, s2) =>
            match deserialize_host_packet data with
            | Some packet => inr (packet, s2)
            | None => inl HostDeserializationError
            end
        end
  end.
End guest_comm.

(** ** What the guest puts on the stream *)

(** The bytes the stream took, in order. *)
Definition taken (e : entry GuestI) : list byte :=
  let 'existT o a := e in
  match o return guest_ans o → list byte with
  | WriteAll data => λ ok, if ok : bool then data else []
  | _ => λ _, []
  end a.

Definition wire (t : history GuestI) : list byte := t ≫= taken.

Lemma wire_app t u : wire (t ++ u) = wire t ++ wire u.
Proof. apply bind_app. Qed.

Section facts.
Context `{Env : Environment GuestI} `{C : Codec}.

(** [sends ps m]: whenever [m] returns, it has put exactly the frames of
    the packets [ps] on the stream, where [ps] may depend on what the clock
    showed. *)
Definition sends {S A} (P : list GuestPacket → Prop) (m : eff GuestI S CommErrors A) : Prop :=
  ∀ s h, ⟪ s , h ⟫ m ⟪ o s' t , s' = s ∧ (is_ok o = true → ∃ ps, P ps ∧ wire t = stream_of ps) ⟫.

Lemma sends_bind {S A B} (P Q : list GuestPacket → Prop) (m : eff GuestI S CommErrors A)
    (k : A → eff GuestI S CommErrors B) :
  sends P m → (∀ a, sends Q (k a)) → sends (λ ps, ∃ l r, ps = l ++ r ∧ P l ∧ Q r) (m ≫= k).
Proof.
  intros Hm Hk s h. wp_step. wp_use Hm. intros [a|e|] s1 t1 [-> Hp]; [|done..].
  wp_use Hk. intros o s2 t2 [-> Hq]. split; [done|]. intros Ho.
  destruct (Hp eq_refl) as (l & Hl & Ht1), (Hq Ho) as (r & Hr & Ht2).
  exists (l ++ r). split; [by exists l, r|]. unfold stream_of in *. by rewrite wire_app, bind_app, Ht1, Ht2.
Qed.

Lemma sends_mono {S A} (P Q : list GuestPacket → Prop) (m : eff GuestI S CommErrors A) :
  (∀ ps, P ps → Q ps) → sends P m → sends Q m.
Proof.
  intros HPQ Hm s h. wp_use Hm. intros o s' t [-> Hok]. split; [done|]. intros Ho.
  destruct (Hok Ho) as (ps & ? & ?). eauto.
Qed.

(** Operations that put nothing on the stream. *)
Lemma sends_nothing {S A} (m : eff GuestI S CommErrors A) :
  (∀ s h, st (m s h) = s) → performs (I := GuestI) (λ o : GuestOp, ∀ d, o ≠ WriteAll d) m → sends (eq []) m.
Proof.
  intros Hst Hm s h. split; [apply Hst|]. intros _. exists []. split; [done|].
  specialize (Hm s h). generalize dependent (tr (m s h)). intros t Ht.
  induction t as [|[o a] t IH]; [done|]. apply Forall_cons in Ht as [Ho Ht].
  unfold wire. rewrite bind_cons. unfold wire in IH. rewrite (IH Ht), app_nil_r.
  destruct o; try done. by destruct (Ho data).
Qed.

Lemma gio_performs {S} (o : GuestOp) ok (P : op GuestI → Prop) : P o →
  performs (S := S) P (gio o ok).
Proof.
  intros Ho. unfold gio. apply performs_bind; [by apply (performs_perform P o)|].
  intros a. destruct (ok a); auto with performs.
Qed.

Lemma wp_gio {S} (o : GuestOp) (ok : guest_ans o → bool) (s : S) h (Q : outcome CommErrors () → S → history GuestI → Prop) :
  (∀ a : guest_ans o, Q (if ok a then Ok () else Err IoError) s [existT (o : op GuestI) a]) →
  wp (gio o ok) s h Q.
Proof.
  intros HQ. unfold gio. wp_step. apply (@wp_perform GuestI S CommErrors Env o). intros a _.
  specialize (HQ a). by destruct (ok a); [apply wp_ret|apply wp_throw].
Qed.

Lemma gio_state {S} (o : GuestOp) ok (s : S) h : st (gio o ok s h) = s.
Proof. unfold gio, mbind, eff_mbind, eff_bind. simpl. by destruct (ok _). Qed.

Lemma write_without_flush_sends {S} p : sends (S := S) (eq [p]) (write_without_flush p).
Proof.
  intros s h. unfold write_without_flush, gio. set (data := serialize_guest_packet p).
  set (len := u32_to_be_bytes _).
  do 2 wp_step. apply (@wp_perform GuestI _ _ _ (WriteAll len)). intros [|] _; [|by apply wp_throw].
  apply wp_ret. wp_step. apply (@wp_perform GuestI _ _ _ (WriteAll data)). intros [|] _; [|by apply wp_throw].
  apply wp_ret. split; [done|]. intros _. exists [p]. split; [done|].
  unfold wire, stream_of, packet_frame, frame. simpl. by rewrite !app_nil_r.
Qed.

Lemma sends_unwrap {S A} P (m : eff GuestI S CommErrors A) : sends P m → sends P (unwrap (E' := CommErrors) m).
Proof.
  intros Hm s h. specialize (Hm s h). unfold wp, unwrap in *. by destruct (m s h) as [[] ??].
Qed.

Lemma sends_clock {S A} P (k : Z → eff GuestI S CommErrors A) :
  (∀ clock, sends P (k clock)) → sends P (a ← perform (I := GuestI) ReadClockMs; k a).
Proof.
  intros Hk s h. wp_step. apply (@wp_perform GuestI _ _ _ ReadClockMs). intros a _.
  wp_use Hk. intros o s' t [-> Hok]. split; [done|]. intros Ho. destruct (Hok Ho) as (ps & ? & Ht). by exists ps.
Qed.

Lemma flush_sends {S} : sends (S := S) (eq []) flush.
Proof. apply sends_nothing; [intros; apply gio_state|by apply gio_performs]. Qed.

Definition is_system_log (text_ : string) (p : GuestPacket) : Prop :=
  ∃ clock, p = Log (log_message_system clock text_).

Definition system_logs (message : option string) (ps : list GuestPacket) : Prop :=
  match message with
  | Some m => ∃ p, ps = [p] ∧ is_system_log m p
  | None => ps = []
  end.

Lemma system_message_sends {S} message : sends (S := S) (system_logs message) (system_message message).
Proof.
  destruct message as [m|]; simpl.
  - apply sends_clock. intros clock. apply sends_unwrap.
    eapply sends_mono; [|apply write_without_flush_sends]. intros ps <-. eexists. split; [done|by eexists].
  - intros s h. apply wp_ret. split; [done|]. intros _. by exists [].
Qed.

Lemma write_packet_sends {S} p : sends (S := S) (eq [p]) (write_packet p).
Proof.
  eapply sends_mono; [|apply sends_bind; [apply write_without_flush_sends|intros; apply flush_sends]].
  by intros ps (l & r & -> & <- & <-).
Qed.

Lemma log_system_message_sends {S} m : sends (S := S) (system_logs (Some m)) (log_system_message m).
Proof.
  apply sends_clock. intros clock. apply sends_unwrap.
  eapply sends_mono; [|apply write_packet_sends]. intros ps <-. eexists. split; [done|by eexists].
Qed.

Lemma state_change_sends {S} state message :
  sends (S := S) (λ ps, ∃ clock l, ps = VmState state (get_timestamp_ms clock) :: l ∧ system_logs message l)
    (state_change state message).
Proof.
  apply sends_clock. intros clock.
  eapply sends_mono; [|apply sends_bind; [apply sends_unwrap, write_without_flush_sends|intros [];
    apply sends_bind; [apply system_message_sends|intros []; apply sends_unwrap, flush_sends]]].
  intros ps (? & ? & -> & <- & l & ? & -> & Hl & <-). exists clock, l. by rewrite app_nil_r.
Qed.

Lemma exit_sends {S} code message :
  sends (S := S) (λ ps, ∃ l, ps = Exited code :: l ∧ system_logs message l) (exit code message).
Proof.
  eapply sends_mono; [|apply sends_bind; [apply sends_unwrap, write_without_flush_sends|intros [];
    apply sends_bind; [apply system_message_sends|intros []; apply sends_unwrap, flush_sends]]].
  intros ps (? & ? & -> & <- & l & ? & -> & Hl & <-). exists l. by rewrite app_nil_r.
Qed.
End facts.

(** ** Talking to the host and nothing else *)

(** The stream refused bytes or a flush. *)
Definition refused (e : entry GuestI) : bool :=
  let 'existT o a := e in
  match o return guest_ans o → bool with
  | WriteAll _ | Flush => negb
  | _ => λ _, false
  end a.

Definition is_stream (o : op GuestI) : bool :=
  match o with ReadClockMs | WriteAll _ | Flush => true | _ => false end.

(** [talks m]: [m] only reads the clock and writes to the stream, and does
    not return only when the stream refused what it wrote last. *)
Definition talks {S E A} (m : eff GuestI S E A) : Prop :=
  ∀ s h, ⟪ s , h ⟫ m ⟪ o s' t , s' = s ∧ Forall (λ o, is_stream o = true) (ops t) ∧
    (is_ok o = false → ∃ e, last t = Some e ∧ refused e = true) ⟫.

Section talks.
Context `{Env : Environment GuestI} `{C : Codec} {S : Type}.

Lemma talks_ret {E A} (a : A) : talks (S := S) (E := E) (mret a).
Proof. intros s h. apply wp_ret. by split_and!. Qed.

Lemma talks_bind {E A B} (m : eff GuestI S E A) (k : A → eff GuestI S E B) :
  talks m → (∀ a, talks (k a)) → talks (m ≫= k).
Proof.
  intros Hm Hk s h. wp_step. wp_use Hm. intros [a|e|] s1 t1 (-> & Hf & Hl); [|by split_and!..].
  wp_use Hk. intros o s2 t2 (-> & Hf2 & Hl2). rewrite ops_app. split_and!; [done|by apply Forall_app|].
  intros (e & He & Hr)%Hl2. exists e. by rewrite last_app, He.
Qed.

Lemma talks_unwrap {E E' A} (m : eff GuestI S E' A) : talks m → talks (E := E) (unwrap m).
Proof.
  intros Hm s h. wp_step. wp_use Hm. intros [a|e|] s1 t1 (-> & Hf & Hl); by split_and!.
Qed.

Lemma talks_clock {E A} (k : Z → eff GuestI S E A) :
  (∀ z, talks (k z)) → talks (z ← perform (I := GuestI) ReadClockMs; k z).
Proof.
  intros Hk. apply talks_bind; [|done]. intros s h. apply (@wp_perform GuestI _ _ _ ReadClockMs).
  intros a _. split_and!; [done|by repeat constructor|done].
Qed.

Lemma talks_gio (o : GuestOp) (ok : guest_ans o → bool) :
  is_stream o = true → (∀ a, ok a = false → refused (existT (o : op GuestI) a) = true) → talks (S := S) (gio o ok).
Proof.
  intros Ho Hr s h. apply wp_gio. intros a. specialize (Hr a). split_and!; [|by repeat constructor|].
  - by destruct (ok a).
  - destruct (ok a); [done|]. intros _. eexists. split; [done|auto].
Qed.

Lemma talks_write data : talks (S := S) (gio (WriteAll data) id).
Proof. apply talks_gio; [done|]. by intros []. Qed.
Lemma talks_flush : talks (S := S) flush.
Proof. apply talks_gio; [done|]. by intros []. Qed.
End talks.

Create HintDb talks discriminated.
#[export] Hint Resolve talks_ret talks_bind talks_unwrap talks_clock talks_write talks_flush : talks.

Section talking.
Context `{Env : Environment GuestI} `{C : Codec} {S : Type}.

Lemma log_system_message_talks m : talks (S := S) (log_system_message m).
Proof. unfold log_system_message, write_packet, write_without_flush. auto 9 with talks. Qed.

Lemma system_message_talks m : talks (S := S) (system_message m).
Proof. destruct m; unfold system_message, write_without_flush; auto 9 with talks. Qed.

Lemma state_change_talks state m : talks (S := S) (state_change state m).
Proof.
  unfold state_change, write_without_flush. pose proof (system_message_talks m). auto 9 with talks.
Qed.

Lemma exit_talks code m : talks (S := S) (exit code m).
Proof. unfold exit, write_without_flush. pose proof (system_message_talks m). auto 9 with talks. Qed.
End talking.
#[export] Hint Resolve log_system_message_talks state_change_talks exit_talks : talks.

(** A method of the stream as its callers use it: it panics rather than
    fail. *)
Definition report {S E} (m : eff GuestI S CommErrors ()) : eff GuestI S E () := unwrap (E' := CommErrors) m.

(** ** Everything a computation tells the host

    [tells P m]: [m] does not touch the container, the exit channel or the
    machine's power and, unless it panics, leaves whole packets on the stream,
    all of which satisfy [P]. *)

Definition background (o : op GuestI) : bool :=
  match o with RecvExit | SpawnCrun _ | SyncAndReboot => false | _ => true end.

Definition silent (o : op GuestI) : bool :=
  background o && match o with WriteAll _ => false | _ => true end.

Definition tells `{C : Codec} {S E A} (P : GuestPacket → Prop) (m : eff GuestI S E A) : Prop :=
  ∀ s h, ⟪ s , h ⟫ m ⟪ o _ t , Forall (λ o, background o = true) (ops t) ∧
    (is_panic o = false → ∃ ps, wire t = stream_of ps ∧ Forall P ps) ⟫.

Lemma silent_trace t : Forall (λ o, silent o = true) (ops t) →
  wire t = [] ∧ Forall (λ o, background o = true) (ops t).
Proof.
  induction t as [|[o a] t IH]; [done|]. intros [Ho Ht]%Forall_cons.
  apply andb_true_iff in Ho as [Hb Hw]. destruct (IH Ht) as [IHw IHb]. split; [|by constructor].
  unfold wire in *. rewrite bind_cons, IHw. by destruct o.
Qed.

Section tells.
Context `{Env : Environment GuestI} `{C : Codec} {S : Type} (P : GuestPacket → Prop).

(** What writes nothing. *)
Lemma tells_silent {E A} (m : eff GuestI S E A) :
  performs (λ o, silent o = true) m → tells P m.
Proof.
  intros Hm s h. wp_use (performs_wp _ _ s h Hm). intros o s' t [Hw Hb]%silent_trace.
  split; [done|]. intros _. exists []. by rewrite Hw.
Qed.

Lemma tells_ret {E A} (a : A) : tells (S := S) (E := E) P (mret a).
Proof. apply tells_silent, performs_ret. Qed.
Lemma tells_throw {E A} (e : E) : tells (S := S) (A := A) P (throw e).
Proof. apply tells_silent, performs_throw. Qed.
Lemma tells_panic {E A} : tells (S := S) (E := E) (A := A) P panic.
Proof. apply tells_silent, performs_panic. Qed.
Lemma tells_get {E} : tells (S := S) (E := E) P get.
Proof. apply tells_silent, performs_get. Qed.
Lemma tells_modify {E} f : tells (S := S) (E := E) P (modify f).
Proof. apply tells_silent, performs_modify. Qed.
Lemma tells_put {E} s : tells (S := S) (E := E) P (put s).
Proof. by apply tells_silent, performs_pure. Qed.
Lemma tells_or_panic {E A} (x : option A) : tells (S := S) (E := E) P (or_panic x).
Proof. apply tells_silent, performs_or_panic. Qed.

Lemma tells_bind {E A B} (m : eff GuestI S E A) (k : A → eff GuestI S E B) :
  tells P m → (∀ a, tells P (k a)) → tells P (m ≫= k).
Proof.
  intros Hm Hk s h. wp_step. wp_use Hm. intros [a|e|] s1 t1 [Hb H1]; [|by split..].
  destruct (H1 eq_refl) as (ps & Hw & Hps). wp_use Hk. intros o s2 t2 [Hb2 H2].
  rewrite ops_app. split; [by apply Forall_app|]. intros (qs & Hw2 & Hqs)%H2. exists (ps ++ qs).
  unfold stream_of in *. rewrite wire_app, bind_app, Hw, Hw2. split; [done|by apply Forall_app].
Qed.

Lemma tells_perform {E} (o : GuestOp) : silent o = true → tells (S := S) (E := E) P (perform (I := GuestI) o).
Proof. intros Ho. apply tells_silent. by apply (performs_perform (λ o, silent o = true) o). Qed.

Lemma tells_try {E A} (m : eff GuestI S E A) : tells P m → tells (E := E) P (try m).
Proof. intros Hm s h. wp_step. wp_use Hm. intros [] s' t [Hb Ht]; auto. Qed.
Lemma tells_map_err {E E' A} (f : E → E') (m : eff GuestI S E A) : tells P m → tells P (map_err f m).
Proof. intros Hm s h. wp_step. wp_use Hm. intros [] s' t [Hb Ht]; auto. Qed.
Lemma tells_unwrap {E E' A} (m : eff GuestI S E' A) : tells P m → tells (E := E) P (unwrap m).
Proof. intros Hm s h. apply wp_unwrap. wp_use Hm. by intros [] s' t [Hb Ht]; auto. Qed.
Lemma tells_attempt {E E' A} (m : eff GuestI S E' A) : tells P m → tells (E := E) P (attempt m).
Proof. intros Hm s h. wp_step. wp_use Hm. intros [] s' t [Hb Ht]; auto. Qed.
Lemma tells_for_each {E A} (f : A → eff GuestI S E ()) l : (∀ x, tells P (f x)) → tells P (for_each f l).
Proof. intros Hf. induction l; simpl; [apply tells_ret|by apply tells_bind]. Qed.

(** A computation on a local object. *)
Lemma tells_owned {E A T} (x : T) (m : eff GuestI T E A) :
  tells P m → tells (S := S) P (owned (λ _, mret ()) x m).
Proof.
  intros Hm s h. wp_step. wp_use Hm. intros [a|e|] x1 t1 H1; [done|apply wp_ret; rewrite app_nil_r..]; done.
Qed.

Lemma tells_report {E} Q (m : eff GuestI S CommErrors ()) :
  sends Q m → talks m → (∀ ps, Q ps → Forall P ps) → tells (E := E) P (report m).
Proof.
  intros Hm Hk HQ s h. apply wp_unwrap. eapply wp_mono; [apply wp_conj; [apply Hm|apply Hk]|].
  intros o s' t [[-> Ht] (_ & Hf & _)].
  assert (Forall (λ o, background o = true) (ops t)).
  { eapply Forall_impl; [exact Hf|]. by intros [] ?. }
  destruct o as [a|e|]; split; try done. intros _. destruct (Ht eq_refl) as (ps & Hps & Hw). eauto.
Qed.
End tells.

Create HintDb tells discriminated.
#[export] Hint Resolve tells_ret tells_throw tells_panic tells_get tells_modify tells_put tells_or_panic
  tells_bind tells_try tells_map_err tells_unwrap tells_for_each tells_owned tells_attempt : tells.
#[export] Hint Extern 1 (tells ?P (@perform _ _ _ _ ?o)) => exact (tells_perform P o eq_refl) : tells.

(** A packet that does not end the machine. *)
Definition not_exit (p : GuestPacket) : Prop := ∀ code, p ≠ Exited code.

Lemma system_logs_not_exit m ps : system_logs m ps → Forall not_exit ps.
Proof. destruct m; simpl; [intros (p & -> & clock & ->); by repeat constructor|by intros ->]. Qed.

Section not_exit.
Context `{Env : Environment GuestI} `{C : Codec} {S E : Type}.

Lemma tells_state_change state m : tells (S := S) (E := E) not_exit (report (state_change state m)).
Proof.
  eapply tells_report; [apply state_change_sends|apply state_change_talks|].
  intros ps (clock & l & -> & Hl). constructor; [done|by eapply system_logs_not_exit].
Qed.

Lemma tells_log m : tells (S := S) (E := E) not_exit (report (log_system_message m)).
Proof.
  eapply tells_report; [apply log_system_message_sends|apply log_system_message_talks|].
  apply system_logs_not_exit.
Qed.
End not_exit.
#[export] Hint Resolve tells_state_change tells_log : tells.

(** ** The two ends meet *)

Section meeting.
Context `{EnvG : Environment GuestI} `{EnvH : Environment HostI} `{B : CircularBuffer MachineLog} `{C : Codec}.
Context `{!CodecLaws C}.

(** Reading the packets [ps] one after the other from [s] leaves [rest]. *)
Fixpoint host_reads (ps : list GuestPacket) (s rest : list byte) : Prop :=
  match ps with
  | [] => s = rest
  | p :: ps => ∃ s', read_from_stream s = Some (p, s') ∧ host_reads ps s' rest
  end.

Lemma host_reads_stream ps rest : Forall size_ok ps → host_reads ps (stream_of ps ++ rest) rest.
Proof.
  induction 1 as [|p ps Hp _ IH]; [done|]. exists (stream_of ps ++ rest). split; [|done].
  rewrite stream_of_cons. by apply read_from_stream_frame.
Qed.

(** C33: A state change (or, below it, any packet) that the guest reports
    without panicking arrives: what it put on the stream is read by the host
    as the state with its timestamp, then the message if there is one, and
    nothing of what follows is touched. *)
Theorem state_change_arrives {S} state message (s : S) h rest :
  let r := state_change state message s h in
  out r = Ok () →
  ∃ clock l, system_logs message l ∧
    let ps := VmState state (get_timestamp_ms clock) :: l in
    wire (tr r) = stream_of ps ∧ (Forall size_ok ps → host_reads ps (wire (tr r) ++ rest) rest).
Proof.
  intros r Ho. destruct (state_change_sends state message s h) as [_ Hok].
  fold r in Hok. rewrite Ho in Hok. destruct (Hok eq_refl) as (ps & (clock & l & -> & Hl) & Hw).
  exists clock, l. split; [done|]. split; [done|]. rewrite Hw. apply host_reads_stream.
Qed.

(** C34: The exit code the guest reports is the one the host's packet handler
    announces, whatever follows on the stream; but the message that [exit] sends
    after it is never read: the handler stops at the exit, so no subscriber is
    offered it and it does not enter the log buffer. *)
Theorem exit_arrives_without_message {S} code message (s : S) h rest (c : MachineCommunicator) h' :
  let r := exit code message s h in
  out r = Ok () → size_ok (Exited code) →
  let x := packet_handler (wire (tr r) ++ rest) c h' in
  out x = Ok (Some (machine_exit_from code)) ∧
  ops (tr x) = [TryLockComm; SendStop (machine_exit_from code)] ∧
  log_buffer (st x) = log_buffer c ∧ state (st x) = None.
Proof.
  intros r Ho Hsz. destruct (exit_sends code message s h) as [_ Hok].
  fold r in Hok. rewrite Ho in Hok. destruct (Hok eq_refl) as (ps & (l & -> & _) & Hw).
  rewrite Hw, stream_of_cons. unfold packet_handler. rewrite packet_loop_S, read_from_stream_frame by done.
  eff_simpl. by destruct (respond _ _).
Qed.

Lemma read_packet_frame data rest : length data ≤ BUFFER_SIZE →
  read_packet (frame data ++ rest) =
    match deserialize_host_packet data with
    | Some p => inr (p, rest)
    | None => inl HostDeserializationError
    end.
Proof.
  intros Hlen. unfold read_packet. destruct (frame_read data rest) as [-> ->]; [unfold BUFFER_SIZE in *; lia|].
  rewrite (proj2 (Z.ltb_ge _ _)) by lia. by rewrite Nat2Z.id, read_exact_app.
Qed.

(** C35: Reading a host packet, on every input.  A stream that ends within
    the four bytes of the length is an I/O error.  A length above 2048 is
    refused whatever follows, if anything does: the payload is not read.
    Otherwise a payload that is cut off is an I/O error, one that does not decode
    is refused, and one that does yields its packet and leaves the rest. *)
Theorem read_packet_spec s :
  (length s < 4 ∧ read_packet s = inl IoError) ∨
  (∃ n rest, (0 <= n < 2 ^ 32)%Z ∧ s = u32_to_be_bytes n ++ rest ∧
    ((Z.of_nat BUFFER_SIZE < n)%Z ∧ read_packet s = inl HostDeserializationError ∨
     (Z.of_nat (length rest) < n <= Z.of_nat BUFFER_SIZE)%Z ∧ read_packet s = inl IoError ∨
     ∃ data rest', n = Z.of_nat (length data) ∧ length data ≤ BUFFER_SIZE ∧ rest = data ++ rest' ∧
       read_packet s = match deserialize_host_packet data with
                       | Some p => inr (p, rest')
                       | None => inl HostDeserializationError
                       end)).
Proof.
  destruct (decide (length s < 4)) as [Hs|Hs]; [left|right].
  { split; [done|]. unfold read_packet. by rewrite read_exact_short. }
  set (n := u32_from_be_bytes (take 4 s)). assert (length (take 4 s) = 4) as H4 by (rewrite length_take; lia).
  assert (s = u32_to_be_bytes n ++ drop 4 s) as Hsplit
    by (unfold n; by rewrite u32_to_from_be, take_drop by done).
  assert (0 <= n < 2 ^ 32)%Z as Hn by by apply u32_from_be_range.
  exists n, (drop 4 s). split_and!; [lia..|done|]. set (rest := drop 4 s) in *. clearbody n rest. subst s.
  unfold read_packet. rewrite read_exact_app by done. rewrite u32_from_to_be.
  unfold wrap. rewrite Z.mod_small by done. destruct (Z.ltb_spec (Z.of_nat BUFFER_SIZE) n) as [|Hbuf]; [by left|].
  right. destruct (decide (Z.of_nat (length rest) < n)%Z) as [Hshort|Hlong].
  - left. rewrite read_exact_short by lia. done.
  - right. exists (take (Z.to_nat n) rest), (drop (Z.to_nat n) rest). rewrite take_drop.
    assert (length (take (Z.to_nat n) rest) = Z.to_nat n) as -> by (rewrite length_take; lia).
    split_and!; [lia|lia|done|]. unfold read_exact. by rewrite decide_True by lia.
Qed.

(** The bytes the host's side put on the stream. *)
Definition host_taken (e : entry HostI) : list byte :=
  let 'existT o a := e in
  match o return host_ans o → list byte with
  | StreamWriteAll data => λ ok, if ok : bool then data else []
  | _ => λ _, []
  end a.

(** C36: A shutdown request the host sent successfully is what the guest
    reads (given that the one-variant packet is encoded in at most 2048
    bytes). *)
Theorem shutdown_request_arrives {S} (s : S) h rest :
  length (serialize_host_packet Shutdown) ≤ BUFFER_SIZE →
  let r := send_shutdown s h in
  out r = Ok () → read_packet ((tr r ≫= host_taken) ++ rest) = inr (Shutdown, rest).
Proof.
  intros Hlen. unfold send_shutdown, write. set (data := serialize_host_packet Shutdown) in *.
  assert (read_packet (frame data ++ rest) = inr (Shutdown, rest)) as Hr.
  { rewrite read_packet_frame by done. unfold data. by rewrite host_roundtrip. }
  unfold frame in Hr. unfold io. eff_simpl. revert Hr. generalize (u32_to_be_bytes (wrap 32 (Z.of_nat (length data)))).
  intros len Hr. destruct (respond h (StreamWriteAll len : op HostI)); simpl; [|done].
  destruct (respond _ (StreamWriteAll data : op HostI)); simpl; [|done].
  destruct (respond _ (StreamFlush : op HostI)); simpl; [|done]. intros _. by rewrite !app_nil_r.
Qed.
End meeting.

(** ** Evaluation *)

Module Demo.
Import ListBuffer CountableCodec.
#[local] Existing Instance guest_env_ok.
#[local] Existing Instance env_ok.

Lemma state_change_arrives_witness :
  ∃ clock l, system_logs (Some "a") l ∧
    wire (tr (state_change Online (Some "a") () [])) = stream_of (VmState Online (get_timestamp_ms clock) :: l).
Proof.
  destruct (state_change_arrives Online (Some "a") () [] [x00])
    as (clock & l & Hl & Hw & _); [vm_compute; reflexivity|].
  exists clock, l. split; [exact Hl|exact Hw].
Defined.

Lemma exit_arrives_without_message_witness :
  ops (tr (packet_handler (wire (tr (exit (ContainerExited 3) (Some "b") () []))) communicator_new []))
    = [TryLockComm; SendStop (ExitContainer 3)].
Proof.
  destruct (exit_arrives_without_message (ContainerExited 3) (Some "b") () [] [] communicator_new [])
    as (_ & H & _); [reflexivity|split; [vm_compute; reflexivity|vm_compute; discriminate]|].
  rewrite app_nil_r in H. exact H.
Defined.

(** Instances: a packet, a header that says 4096 with nothing after it, and one
    that says 10 with a byte after it. *)
Example read_packet_runs :
  read_packet (frame (serialize_host_packet Shutdown) ++ [x00]) = inr (Shutdown, [x00]) ∧
  read_packet (u32_to_be_bytes 4096) = inl HostDeserializationError ∧
  read_packet (u32_to_be_bytes 10 ++ [x00]) = inl IoError.
Proof. vm_compute. done. Qed.

Lemma shutdown_request_arrives_witness :
  read_packet ((tr (send_shutdown () []) ≫= host_taken) ++ [x01]) = inr (Shutdown, [x01]).
Proof.
  apply (shutdown_request_arrives () [] [x01]); [apply Nat.leb_le; vm_compute; reflexivity|reflexivity].
Defined.
End Demo.
