(* ===== verification/PipeLog.v ===== *)
(** * The container's output (src/instance/src/host.rs, [spawn_pipe_to_log])

    A thread reads a pipe of the container into a fixed buffer and sends each
    line to the host as a log packet.  [absorb] is what one successful read
    does to the buffer and which line it completes; [pipe_loop] is the thread.
    [lines_of] is the reference it refines: the lines of a sequence of reads, on
    lists, without the buffer and its indices.  It makes the same mistake as the
    code: of what follows a newline in the same read, the last byte is replaced.
    [feed] folds [absorb] over a sequence of reads. *)

From S2P Require Import Prelude Bytes Vmproto HostOps Communicator GuestOps GuestComm.

(** [BUFFER_SIZE + 1024] *)
Definition BUF_LEN : nat := BUFFER_SIZE + 1024.

Definition OVERFLOW : list byte := bytes "???...???".

Arguments OVERFLOW : simpl never.
Arguments BUFFER_SIZE : simpl never.
Arguments BUF_LEN : simpl never.

Definition newline : byte := x0a.

Record PipeState : Set := { buf : list byte; pos : nat }.

Definition pipe_init : PipeState := {| buf := replicate BUF_LEN x00; pos := 0 |}.

(** [iter().position(|&b| b == b'\n')] *)
Definition newline_position (l : list byte) : option nat := fst <$> list_find (λ b, b = newline) l.

(** [buf.copy_within(a..b, 0)]: [None] is the panic on a bad range. *)
Definition copy_within (a b : nat) (l : list byte) : option (list byte) :=
  if decide (a ≤ b ≤ length l) then Some (copy_within_front a b l) else None.

(** [buf[pos..pos + data.len()].copy_from_slice(data)], and the filling of
    [buf[pos..]] by a read. *)
Definition copy_at (at_ : nat) (data l : list byte) : option (list byte) :=
  if decide (at_ + length data ≤ length l) then Some (splice at_ data l) else None.

(** The arm [Ok(n)] of the loop: the new state and the line it completed.
    [None] is an index panic. *)
Definition absorb (s : PipeState) (data : list byte) : option (PipeState * option (list byte)) :=
  let n := length data in
  buf ← copy_at (pos s) data (buf s);
  match newline_position data with
  | Some newline_index =>
      let index := pos s + newline_index in
      let line := take index buf in
      let next_line_buffered := n - newline_index - 1 in
      if decide (0 < next_line_buffered) then
        buf ← copy_within (index + 1) (index + next_line_buffered) buf;
        Some ({| buf := buf; pos := next_line_buffered |}, Some line)
      else Some ({| buf := buf; pos := 0 |}, Some line)
  | None =>
      let pos := pos s + n in
      if decide (BUFFER_SIZE - 1024 ≤ pos) then
        let pos := BUFFER_SIZE - 1024 in
        buf ← copy_at pos OVERFLOW buf;
        Some ({| buf := buf; pos := pos + length OVERFLOW |}, None)
      else Some ({| buf := buf; pos := pos |}, None)
  end.

(** [pos = pos.min(BUFFER_SIZE)] at the head of the loop. *)
Definition clamp (s : PipeState) : PipeState := {| buf := buf s; pos := min (pos s) BUFFER_SIZE |}.
Arguments clamp : simpl never.

Section pipe.
Context `{Env : Environment GuestI} `{C : Codec}.

Definition send_line {S} (log_type : LogMessageType) (line : list byte) : eff GuestI S CommErrors () :=
  clock ← perform (I := GuestI) ReadClockMs;
  unwrap (write_packet (S := S) (Log (log_message_new clock (from_utf8_lossy line) log_type))).

(** One iteration; [true] leaves the thread. *)
Definition pipe_iteration (log_type : LogMessageType) : eff GuestI PipeState CommErrors bool :=
  modify clamp;;
  s ← get;
  answer ← perform (I := GuestI) (PipeRead (length (buf s) - pos s));
  match answer with
  | PipeEof | PipeData [] =>
      (if decide (0 < pos s) then send_line log_type (take (pos s) (buf s)) else mret ());;
      mret true
  | PipeData data =>
      r ← or_panic (absorb s data);
      match r.2 with Some line => send_line log_type line | None => mret () end;;
      put r.1;;
      mret false
  | PipeError => mret true
  end.

(** The thread, for at most [fuel] reads; [false] means there are more. *)
Fixpoint pipe_loop (fuel : nat) (log_type : LogMessageType) : eff GuestI PipeState CommErrors bool :=
  match fuel with
  | 0 => mret false
  | S fuel =>
      finished ← pipe_iteration log_type;
      if finished : bool then mret true else pipe_loop fuel log_type
  end.

Definition spawn_pipe_to_log (fuel : nat) (log_type : LogMessageType) : run GuestI PipeState CommErrors bool :=
  pipe_loop fuel log_type pipe_init [].
End pipe.

(** ** A sequence of reads *)

Fixpoint feed (s : PipeState) (reads : list (list byte)) : option (PipeState * list (list byte)) :=
  match reads with
  | [] => Some (s, [])
  | data :: reads =>
      r ← absorb (clamp s) data;
      q ← feed r.1 reads;
      Some (q.1, match r.2 with Some line => line :: q.2 | None => q.2 end)
  end.

(** Reads of at least one byte that respect the room they are given. *)
Fixpoint fitting (s : PipeState) (reads : list (list byte)) : Prop :=
  match reads with
  | [] => True
  | data :: reads =>
      0 < length data ≤ BUF_LEN - pos (clamp s) ∧
      match absorb (clamp s) data with Some r => fitting r.1 reads | None => True end
  end.

Definition pipe_wf (s : PipeState) : Prop := length (buf s) = BUF_LEN.

Lemma newline_position_Some data k :
  newline_position data = Some k → data !! k = Some newline ∧ newline ∉ take k data.
Proof.
  unfold newline_position. intros Hf. apply fmap_Some in Hf as ([i x] & Hf & ->).
  apply list_find_Some in Hf as (Hi & -> & Hno). split; [done|]. simpl.
  intros Hin. apply list_elem_of_lookup in Hin as [j Hj]. apply lookup_take_Some in Hj as [Hj Hlt].
  by apply (Hno j newline).
Qed.

Lemma newline_position_None data : newline ∉ data → newline_position data = None.
Proof.
  intros Hno. unfold newline_position. rewrite (proj2 (list_find_None _ _)); [done|].
  apply Forall_forall. by intros x Hx ->.
Qed.

Lemma newline_position_app l rest : newline ∉ l → newline_position (l ++ newline :: rest) = Some (length l).
Proof.
  intros Hno. unfold newline_position.
  rewrite list_find_app_r; [|apply list_find_None, Forall_forall; by intros x Hx ->].
  simpl. f_equal.
Qed.

Ltac obind := cbn [mbind option_bind].

(** No index is ever out of range. *)
Lemma absorb_total s data : pipe_wf s → pos s ≤ BUFFER_SIZE → 0 < length data ≤ BUF_LEN - pos s →
  ∃ s' line, absorb s data = Some (s', line) ∧ pipe_wf s'.
Proof.
  unfold pipe_wf. intros Hwf Hpos Hlen. unfold absorb, copy_at.
  rewrite decide_True by (unfold BUF_LEN in *; lia). obind.
  assert (length (splice (pos s) data (buf s)) = BUF_LEN) as Hbuf
    by (rewrite splice_length; unfold BUF_LEN in *; lia).
  destruct (newline_position data) as [k|] eqn:Hk.
  - apply newline_position_Some in Hk as [Hk _]. apply lookup_lt_Some in Hk.
    case_decide as Hnext; [|by eauto]. unfold copy_within.
    rewrite decide_True by (rewrite Hbuf; lia). obind. eexists _, _. split; [done|]. simpl.
    rewrite copy_within_front_length; [done|]. rewrite Hbuf. lia.
  - case_decide; [|by eauto].
    assert (length OVERFLOW = 9) as Ho by done.
    rewrite decide_True by (rewrite Hbuf, Ho; unfold BUF_LEN, BUFFER_SIZE; lia). obind.
    eexists _, _. split; [done|]. simpl. rewrite splice_length; [done|].
    rewrite Hbuf, Ho. unfold BUF_LEN, BUFFER_SIZE. lia.
Qed.

(** ** What a read does *)

(** The buffer holds the bytes [acc] of an unfinished line. *)
Definition holds (s : PipeState) (acc : list byte) : Prop :=
  pipe_wf s ∧ pos s = length acc ∧ take (pos s) (buf s) = acc.

Lemma holds_init : holds pipe_init [].
Proof. split_and!; [|done|done]. apply length_replicate. Qed.

Lemma holds_clamp s acc : holds s acc → length acc ≤ BUFFER_SIZE → clamp s = s.
Proof. intros (_ & Hp & _) Hl. unfold clamp. destruct s as [b p]. simpl in *. by rewrite Nat.min_l by lia. Qed.

Lemma absorb_copy s acc data : holds s acc → length acc + length data ≤ BUF_LEN →
  ∃ b, copy_at (pos s) data (buf s) = Some b ∧ length b = BUF_LEN ∧
    take (length acc + length data) b = acc ++ data ∧
    drop (length acc + length data) b = drop (length acc + length data) (buf s).
Proof.
  intros (Hwf & Hp & Ht) Hlen. unfold pipe_wf in Hwf. unfold copy_at.
  rewrite decide_True by lia. eexists. split; [done|]. rewrite Hp in *. split_and!.
  - rewrite splice_length; lia.
  - rewrite splice_take by lia. by rewrite Ht.
  - unfold splice. rewrite app_assoc, drop_app_length'; [done|].
    rewrite length_app, length_take. lia.
Qed.

(** A read without a newline, while the line is short. *)
Lemma absorb_fragment s acc data :
  holds s acc → newline ∉ data → length acc + length data < BUFFER_SIZE - 1024 →
  ∃ s', absorb s data = Some (s', None) ∧ holds s' (acc ++ data).
Proof.
  intros Hs Hno Hlen. pose proof Hs as (_ & Hp & _). unfold absorb.
  destruct (absorb_copy s acc data Hs) as (b & -> & Hb & Htake & _); [unfold BUF_LEN; lia|]. obind.
  rewrite newline_position_None by done. rewrite decide_False by lia.
  eexists. split; [done|]. split_and!; simpl; [done|by rewrite length_app, Hp|by rewrite Hp].
Qed.

(** A read that makes the line too long: its first 1024 bytes and a mark are
    kept. *)
Lemma absorb_overflow s acc data :
  holds s acc → newline ∉ data → BUFFER_SIZE - 1024 ≤ length acc + length data ≤ BUF_LEN →
  ∃ s', absorb s data = Some (s', None) ∧ holds s' (take (BUFFER_SIZE - 1024) (acc ++ data) ++ OVERFLOW).
Proof.
  intros Hs Hno Hlen. pose proof Hs as (_ & Hp & _). unfold absorb.
  destruct (absorb_copy s acc data Hs) as (b & -> & Hb & Htake & _); [lia|]. obind.
  rewrite newline_position_None by done. rewrite decide_True by lia.
  assert (length OVERFLOW = 9) as Ho by done. unfold copy_at.
  rewrite decide_True by (rewrite Hb, Ho; unfold BUF_LEN, BUFFER_SIZE; lia). obind.
  eexists. split; [done|]. split_and!; unfold pipe_wf; cbn [pos buf].
  - rewrite splice_length; [done|]. rewrite Hb, Ho. unfold BUF_LEN, BUFFER_SIZE. lia.
  - rewrite length_app, length_take, length_app, Ho. unfold BUFFER_SIZE in *. lia.
  - rewrite (splice_take (BUFFER_SIZE - 1024) OVERFLOW) by (rewrite Hb, Ho; unfold BUF_LEN, BUFFER_SIZE; lia).
    f_equal. rewrite <-Htake, take_take. f_equal. lia.
Qed.

(** A read that ends the line and nothing more. *)
Lemma absorb_newline s acc data :
  holds s acc → newline ∉ data → length acc + length data < BUF_LEN →
  ∃ s', absorb s (data ++ [newline]) = Some (s', Some (acc ++ data)) ∧ holds s' [].
Proof.
  intros Hs Hno Hlen. pose proof Hs as (_ & Hp & _). unfold absorb.
  destruct (absorb_copy s acc (data ++ [newline]) Hs) as (b & -> & Hb & Htake & _);
    [rewrite length_app; simpl; lia|]. obind.
  rewrite newline_position_app by done. rewrite decide_False by (rewrite length_app; simpl; lia).
  exists {| buf := b; pos := 0 |}. split; [|by split_and!]. do 3 f_equal.
  rewrite length_app in Htake. simpl in Htake. rewrite Hp.
  replace (length acc + length data) with (min (length acc + length data) (length acc + (length data + 1))) by lia.
  rewrite <-take_take, Htake, app_assoc. rewrite take_app_length'; [done|]. by rewrite length_app.
Qed.

(** A read that goes on after the newline: all but the last of the bytes
    after it are kept, and the last one is whatever the buffer held there. *)
Lemma absorb_second_line s acc data rest :
  holds s acc → newline ∉ data → rest ≠ [] → length acc + length data + 1 + length rest ≤ BUF_LEN →
  ∃ s' stale, absorb s (data ++ newline :: rest) = Some (s', Some (acc ++ data)) ∧
    holds s' (removelast rest ++ [stale]) ∧
    (acc ++ data ++ newline :: rest) !! (length rest - 1) = Some stale.
Proof.
  intros Hs Hno Hrest Hlen. pose proof Hs as (_ & Hp & _). unfold absorb.
  assert (0 < length rest) as Hr by (destruct rest; [done|simpl; lia]).
  assert (length (data ++ newline :: rest) = length data + 1 + length rest) as Hd
    by (rewrite length_app; simpl; lia).
  destruct (absorb_copy s acc (data ++ newline :: rest) Hs) as (b & -> & Hb & Htake & _); [lia|]. obind.
  rewrite newline_position_app by done. rewrite decide_True by lia.
  unfold copy_within. rewrite decide_True by lia. obind.
  replace (length (data ++ newline :: rest) - length data - 1) with (length rest) by lia.
  set (all := acc ++ data ++ newline :: rest) in *.
  assert (length all = length acc + length data + 1 + length rest) as Hall
    by (unfold all; rewrite !length_app; simpl; lia).
  rewrite Hd in Htake. rewrite Hp.
  assert (take (length all) b = all) as Hpre by (rewrite <-Htake at 2; f_equal; lia). clear Htake.
  set (a := length acc + length data + 1). set (kept := take (length rest - 1) (drop a b)).
  assert (kept = removelast rest) as Hkept.
  { unfold kept. rewrite <-(take_drop (length all) b), Hpre, drop_app_le by lia.
    replace (drop a all) with rest.
    - rewrite take_app_le by lia. by rewrite removelast_firstn_len, Nat.sub_1_r.
    - unfold all, a. rewrite app_assoc, drop_app_ge by (rewrite length_app; lia).
      rewrite length_app. by replace (_ - _) with 1 by lia. }
  assert (length kept = length rest - 1) as Hlk by (rewrite Hkept, removelast_firstn_len, length_take; lia).
  destruct (b !! (length rest - 1)) as [stale|] eqn:Hst; [|apply lookup_ge_None in Hst; lia].
  assert (copy_within_front a (length acc + length data + length rest) b = kept ++ drop (length rest - 1) b) as Hnew.
  { unfold copy_within_front, splice. simpl.
    replace (length acc + length data + length rest - a) with (length rest - 1) by lia.
    fold kept. by rewrite Hlk. }
  assert (take (length acc + length data) b = acc ++ data) as ->.
  { replace (length acc + length data) with (min (length acc + length data) (length all)) by lia.
    rewrite <-take_take, Hpre. unfold all. rewrite app_assoc, take_app_length'; [done|by rewrite length_app]. }
  replace (length (data ++ newline :: rest) - length data - 1) with (length rest) by lia.
  eexists _, stale. split; [done|]. fold a. rewrite Hnew. split.
  - split_and!; unfold pipe_wf; cbn [pos buf].
    + rewrite length_app, length_drop, Hlk. lia.
    + rewrite length_app, <-Hkept, Hlk. simpl. lia.
    + rewrite Hkept. replace (length rest) with (length (removelast rest) + 1) at 1 by (rewrite <-Hkept; lia).
      rewrite take_app_add. f_equal. by rewrite (drop_S _ stale).
  - rewrite <-Hpre. rewrite lookup_take_lt by lia. done.
Qed.

(** ** Sequences of reads *)

(** What is kept of an unfinished line. *)
Definition squash (l : list byte) : list byte :=
  if decide (length l < BUFFER_SIZE - 1024) then l else take (BUFFER_SIZE - 1024) l ++ OVERFLOW.

(** A line as it reaches the pipe: reads without a newline, then one that
    ends with the newline. *)
Record line_reads : Set := { fragments : list (list byte); ending : list byte }.

Definition reads_of (l : line_reads) : list (list byte) := fragments l ++ [ending l ++ [newline]].

Definition line_ok (l : line_reads) : Prop :=
  Forall (λ f, newline ∉ f) (fragments l) ∧ newline ∉ ending l.

(** The line the host gets. *)
Definition line_sent (l : line_reads) : list byte := squash (concat (fragments l)) ++ ending l.

Lemma squash_length l : length (squash l) ≤ BUFFER_SIZE.
Proof.
  unfold squash. case_decide; [lia|]. rewrite length_app, length_take.
  assert (length OVERFLOW = 9) as -> by done. unfold BUFFER_SIZE. lia.
Qed.

Lemma squash_app l f : BUFFER_SIZE - 1024 ≤ length (squash l) + length f →
  take (BUFFER_SIZE - 1024) (squash l ++ f) ++ OVERFLOW = squash (l ++ f).
Proof.
  unfold squash at 1 2. intros Hlen. unfold squash. case_decide as Hl.
  - by rewrite decide_False by (rewrite length_app; lia).
  - rewrite decide_False by (rewrite length_app; lia). f_equal.
    rewrite <-app_assoc, !take_app_le by (try rewrite length_take; lia). by rewrite take_take, Nat.min_id.
Qed.

Lemma squash_app_short l f : length (squash l) + length f < BUFFER_SIZE - 1024 → squash l ++ f = squash (l ++ f).
Proof.
  unfold squash at 1 2. intros Hlen. unfold squash. case_decide as Hl.
  - by rewrite decide_True by (rewrite length_app; lia).
  - exfalso. rewrite length_app, length_take in Hlen. lia.
Qed.

Lemma absorb_squash s l f : holds s (squash l) → newline ∉ f → length f ≤ BUF_LEN - pos (clamp s) →
  ∃ s', absorb (clamp s) f = Some (s', None) ∧ holds s' (squash (l ++ f)).
Proof.
  intros Hs Hno Hf. rewrite (holds_clamp _ _ Hs) in * by apply squash_length.
  pose proof Hs as (_ & Hp & _). pose proof (squash_length l).
  destruct (decide (length (squash l) + length f < BUFFER_SIZE - 1024)) as [Hlt|Hge].
  - rewrite <-squash_app_short by done. by apply absorb_fragment.
  - rewrite <-squash_app by lia. apply absorb_overflow; [done..|]. unfold BUF_LEN in *. lia.
Qed.

Lemma feed_app s l1 l2 :
  feed s (l1 ++ l2) =
    (r ← feed s l1; q ← feed r.1 l2; Some (q.1, r.2 ++ q.2)).
Proof.
  revert s. induction l1 as [|d l1 IH]; intros s; simpl.
  - by destruct (feed s l2) as [[]|].
  - destruct (absorb (clamp s) d) as [[s1 line]|]; simpl; [|done]. rewrite IH.
    destruct (feed s1 l1) as [[s2 out1]|]; simpl; [|done].
    destruct (feed s2 l2) as [[s3 out2]|]; simpl; [|done]. by destruct line.
Qed.

Lemma fitting_app s l1 l2 : fitting s (l1 ++ l2) → fitting s l1 ∧
  (∀ r, feed s l1 = Some r → fitting r.1 l2).
Proof.
  revert s. induction l1 as [|d l1 IH]; intros s; simpl.
  - intros Hf. split; [done|]. by intros r [= <-].
  - intros [Hd Hf]. destruct (absorb (clamp s) d) as [[s1 line]|]; simpl in *; [|done].
    destruct (IH s1 Hf) as [H1 H2]. split; [done|].
    destruct (feed s1 l1) as [[s2 out1]|]; simpl; [|done]. intros r [= <-]. simpl. apply (H2 (s2, out1) eq_refl).
Qed.

Lemma feed_fragments s l fs : holds s (squash l) → Forall (λ f, newline ∉ f) fs → fitting s fs →
  ∃ s', feed s fs = Some (s', []) ∧ holds s' (squash (l ++ concat fs)).
Proof.
  revert s l. induction fs as [|f fs IH]; intros s l Hs Hno Hfit; simpl.
  - exists s. by rewrite app_nil_r.
  - apply Forall_cons in Hno as [Hnf Hno]. destruct Hfit as [[_ Hf] Hfit].
    destruct (absorb_squash s l f Hs Hnf Hf) as (s1 & Habs & Hs1). rewrite Habs in *. simpl in *.
    destruct (IH s1 (l ++ f) Hs1 Hno Hfit) as (s2 & -> & Hs2). exists s2. simpl. by rewrite app_assoc.
Qed.

Lemma feed_line s l : holds s [] → line_ok l → fitting s (reads_of l) →
  ∃ s', feed s (reads_of l) = Some (s', [line_sent l]) ∧ holds s' [].
Proof.
  intros Hs [Hfr Hend] [Hf1 Hf2]%fitting_app. unfold reads_of. rewrite feed_app.
  destruct (feed_fragments s [] (fragments l)) as (s1 & Hfeed & Hs1); [done..|].
  rewrite Hfeed. simpl in *. specialize (Hf2 _ Hfeed) as [[_ Hlen] _]. simpl in Hlen.
  rewrite (holds_clamp s1 _ Hs1) in * by apply squash_length. pose proof Hs1 as (_ & Hp & _).
  rewrite length_app in Hlen. simpl in Hlen. pose proof (squash_length (concat (fragments l))).
  destruct (absorb_newline s1 (squash (concat (fragments l))) (ending l)) as (s2 & -> & Hs2);
    [done..|unfold BUF_LEN in *; lia|]. by exists s2.
Qed.

(** ** The reference

    An unfinished line is a list of bytes, [pending]; nothing here mentions
    the buffer, a position in it, or the operations on it. *)

(** The bytes before the first newline, and those after it. *)
Fixpoint cut_line (l : list byte) : option (list byte * list byte) :=
  match l with
  | [] => None
  | b :: l =>
      if decide (b = newline) then Some ([], l)
      else '(before, after) ← cut_line l; Some (b :: before, after)
  end.

(** What a read of [data] leaves pending, and the line it completes.  At most
    [BUFFER_SIZE] bytes stay pending from one read to the next.  Of what comes
    after the newline all but the last byte is kept; in place of the last one
    stands the byte with its number, counted from the beginning of the line just
    sent. *)
Definition read_on (pending data : list byte) : list byte * option (list byte) :=
  let pending := take BUFFER_SIZE pending in
  match cut_line data with
  | Some (before, []) => ([], Some (pending ++ before))
  | Some (before, after) =>
      (removelast after ++ option_list ((pending ++ data) !! (length after - 1)), Some (pending ++ before))
  | None => (squash (pending ++ data), None)
  end.

Fixpoint lines_of (pending : list byte) (reads : list (list byte)) : list byte * list (list byte) :=
  match reads with
  | [] => (take BUFFER_SIZE pending, [])
  | data :: reads =>
      let '(pending, line) := read_on pending data in
      let '(rest, lines) := lines_of pending reads in
      (rest, option_list line ++ lines)
  end.

Lemma cut_line_spec l :
  match cut_line l with
  | Some (before, after) => l = before ++ newline :: after ∧ newline ∉ before
  | None => newline ∉ l
  end.
Proof.
  induction l as [|b l IH]; simpl; [apply not_elem_of_nil|]. case_decide as Hb.
  - subst b. split; [done|apply not_elem_of_nil].
  - destruct (cut_line l) as [[before after]|]; simpl.
    + destruct IH as [-> IH]. split; [done|]. by apply not_elem_of_cons.
    + by apply not_elem_of_cons.
Qed.

Lemma holds_clamped s acc : holds s acc → holds (clamp s) (take BUFFER_SIZE acc).
Proof.
  intros (Hwf & Hp & Ht). split_and!; [done|..]; unfold clamp; cbn [buf pos].
  - rewrite length_take. lia.
  - rewrite <-Ht, take_take. f_equal. lia.
Qed.

(** What a read does to the buffer is what it does to the pending line. *)
Lemma absorb_read_on s acc data : holds s acc → 0 < length data ≤ BUF_LEN - pos (clamp s) →
  ∃ s', absorb (clamp s) data = Some (s', (read_on acc data).2) ∧ holds s' (read_on acc data).1.
Proof.
  intros Hs Hlen. apply holds_clamped in Hs. pose proof Hs as (_ & Hp & _). rewrite Hp in Hlen.
  unfold read_on. set (pending := take BUFFER_SIZE acc) in *. pose proof (cut_line_spec data) as Hcut.
  assert (length pending ≤ BUFFER_SIZE) by (unfold pending; rewrite length_take; lia).
  destruct (cut_line data) as [[before [|b after]]|].
  - destruct Hcut as [-> Hno]. rewrite length_app in Hlen. simpl in Hlen. by apply absorb_newline; [..|lia].
  - destruct Hcut as [Hdata Hno].
    destruct (absorb_second_line (clamp s) pending before (b :: after)) as (s' & stale & Habs & Hs' & Hst); [done..| |].
    { rewrite Hdata, length_app in Hlen. cbn [length] in *. lia. }
    exists s'. rewrite Hdata, Hst. by split.
  - destruct (decide (length pending + length data < BUFFER_SIZE - 1024)).
    + unfold squash. rewrite decide_True by (rewrite length_app; lia). by apply absorb_fragment.
    + unfold squash. rewrite decide_False by (rewrite length_app; lia). apply absorb_overflow; [done..|lia].
Qed.

(** ** The thread refines [lines_of] *)

Definition read_of (e : entry GuestI) : option (list byte) :=
  let 'existT o a := e in
  match o return guest_ans o → option (list byte) with
  | PipeRead _ => λ a, match a with PipeData (b :: d) => Some (b :: d) | _ => None end
  | _ => λ _, None
  end a.

(** What the pipe delivered, and whether it failed. *)
Definition reads_in (t : history GuestI) : list (list byte) := omap read_of t.

Definition pipe_failed (t : history GuestI) : bool :=
  existsb (λ e : entry GuestI, let 'existT o a := e in
    match o return guest_ans o → bool with
    | PipeRead _ => λ a, match a with PipeError => true | _ => false end
    | _ => λ _, false
    end a) t.

(** An operation on the stream to the host that failed. *)
Definition write_failed (t : history GuestI) : Prop :=
  (∃ d, (existT (WriteAll d : op GuestI) false : entry GuestI) ∈ t) ∨
  (existT (Flush : op GuestI) false : entry GuestI) ∈ t.

Definition is_line_packet (ty : LogMessageType) (line : list byte) (p : GuestPacket) : Prop :=
  ∃ clock, p = Log (log_message_new clock (from_utf8_lossy line) ty).

(** The stream carries one log packet per line, in order. *)
Definition carries `{Codec} (ty : LogMessageType) (lines : list (list byte)) (t : history GuestI) : Prop :=
  ∃ ps, wire t = stream_of ps ∧ Forall2 (is_line_packet ty) lines ps.

Section refinement.
Context `{Env : Environment GuestI} `{C : Codec}.

(** [Read::read] returns at most the length of the buffer it is given. *)
Hypothesis reads_fit : ∀ (h : history GuestI) (room : nat) data,
  respond h (PipeRead room : op GuestI) = PipeData data → length data ≤ room.

Lemma carries_nil ty : carries ty [] [].
Proof. by exists []. Qed.

Lemma carries_app ty l1 l2 t1 t2 : carries ty l1 t1 → carries ty l2 t2 → carries ty (l1 ++ l2) (t1 ++ t2).
Proof.
  intros (p1 & H1 & F1) (p2 & H2 & F2). exists (p1 ++ p2). split; [|by apply Forall2_app].
  unfold stream_of in *. by rewrite wire_app, bind_app, H1, H2.
Qed.

Lemma write_failed_app t u : write_failed t ∨ write_failed u → write_failed (t ++ u).
Proof. unfold write_failed. setoid_rewrite elem_of_app. naive_solver. Qed.

Lemma send_line_spec {S} ty line (s : S) h :
  ⟪ s , h ⟫ send_line ty line ⟪ o s' t ,
    s' = s ∧ reads_in t = [] ∧ pipe_failed t = false ∧
    match o with
    | Ok _ => carries ty [line] t
    | Err _ => False
    | Panic => write_failed t
    end ⟫.
Proof.
  unfold send_line, write_packet, write_without_flush, flush. wp_step.
  apply (@wp_perform GuestI _ _ _ ReadClockMs). intros clock _. set (p := Log _).
  wp_step. wp_step. wp_step. apply wp_gio. intros [|]; simpl.
  2: { split_and!; try done. left. eexists. right. left. }
  apply wp_gio. intros [|]; simpl.
  2: { split_and!; try done. left. eexists. right. right. left. }
  apply wp_gio. intros [|]; simpl.
  2: { split_and!; try done. right. right. right. right. left. }
  split_and!; try done. exists [p]. split; [|constructor; [by exists clock|done]].
  unfold wire, stream_of, packet_frame, frame. simpl. by rewrite !app_nil_r.
Qed.

Lemma reads_in_app t u : reads_in (t ++ u) = reads_in t ++ reads_in u.
Proof. apply omap_app. Qed.

Lemma pipe_failed_app t u : pipe_failed (t ++ u) = pipe_failed t || pipe_failed u.
Proof. apply existsb_app. Qed.

(** The unfinished line in the buffer. *)
Definition unfinished (s : PipeState) : list byte := take (pos (clamp s)) (buf s).

Lemma unfinished_nil s : pipe_wf s → unfinished s = [] ↔ ¬ 0 < pos (clamp s).
Proof.
  unfold pipe_wf, unfinished. intros Hwf. split.
  - intros He%(f_equal length). rewrite length_take in He. simpl in *. unfold BUF_LEN, BUFFER_SIZE in *. lia.
  - intros Hp. by replace (pos (clamp s)) with 0 by lia.
Qed.

(** The outcome of one iteration. *)
Definition iterated (ty : LogMessageType) (s : PipeState) (o : outcome CommErrors bool) (s' : PipeState)
    (t : history GuestI) : Prop :=
  match o with
  | Ok false => pipe_wf s' ∧ pipe_failed t = false ∧ ∃ d line, reads_in t = [d] ∧
      0 < length d ≤ BUF_LEN - pos (clamp s) ∧ absorb (clamp s) d = Some (s', line) ∧ carries ty (option_list line) t
  | Ok true => reads_in t = [] ∧
      carries ty (if decide (pipe_failed t = true ∨ unfinished s = []) then [] else [unfinished s]) t
  | Err _ => False
  | Panic => write_failed t ∧
      (reads_in t = [] ∨ ∃ d s1 line, reads_in t = [d] ∧ absorb (clamp s) d = Some (s1, line))
  end.

Lemma wp_read {S} (room : nat) (s : S) h (Q : outcome CommErrors pipe_answer → S → history GuestI → Prop) :
  (∀ a : pipe_answer, (∀ d, a = PipeData d → length d ≤ room) →
    Q (Ok a) s [existT (PipeRead room : op GuestI) a]) →
  wp (perform (I := GuestI) (PipeRead room)) s h Q.
Proof.
  intros HQ. apply (@wp_perform GuestI _ _ _ (PipeRead room)). intros a Ha. apply HQ.
  intros d ->. by apply (reads_fit h room).
Qed.

Lemma pipe_iteration_spec ty s h : pipe_wf s → wp (pipe_iteration ty) s h (iterated ty s).
Proof.
  intros Hwf. unfold pipe_iteration. wp_step. wp_step. wp_step. wp_step. wp_step. apply wp_read.
  assert (pipe_wf (clamp s)) as Hwfc by done. pose proof (unfinished_nil s Hwf) as Hun.
  fold (unfinished s). intros a Hfit. unfold iterated.
  assert (Heof : ∀ a : pipe_answer, (a = PipeEof ∨ a = PipeData []) →
    ⟪ (clamp s) , ((h ++ []) ++ []) ++ [existT (PipeRead (length (buf (clamp s)) - pos (clamp s)) : op GuestI) a] ⟫ (if decide (0 < pos (clamp s)) then send_line ty (unfinished s) else mret ());; mret true ⟪ o s' t , iterated ty s o s' ([existT (PipeRead (length (buf (clamp s)) - pos (clamp s)) : op GuestI) a] ++ t) ⟫).
  { intros a' Ha'.
    assert (reads_in [existT (PipeRead (length (buf (clamp s)) - pos (clamp s)) : op GuestI) a'] = []) as Hr
      by by destruct Ha' as [-> | ->].
    assert (pipe_failed [existT (PipeRead (length (buf (clamp s)) - pos (clamp s)) : op GuestI) a'] = false) as Hf
      by by destruct Ha' as [-> | ->].
    assert (carries ty [] [existT (PipeRead (length (buf (clamp s)) - pos (clamp s)) : op GuestI) a']) as Hc
      by by exists [].
    set (t0 := [existT (PipeRead _ : op GuestI) a']) in *. clearbody t0.
    destruct (decide (0 < pos (clamp s))) as [Hp|Hp].
    - wp_step. wp_use send_line_spec. intros o s' t (-> & Hr2 & Hf2 & Ho). unfold iterated.
      destruct o as [[]|e|]; [|done|].
      + apply wp_ret. rewrite app_nil_r, reads_in_app, pipe_failed_app, Hr, Hr2, Hf, Hf2. split; [done|].
        rewrite decide_False by (intros [|]; [done|tauto]). by apply (carries_app ty [] [_]).
      + split; [apply write_failed_app; by right|]. left. by rewrite reads_in_app, Hr, Hr2.
    - wp_step. do 2 apply wp_ret. unfold iterated. rewrite !app_nil_r, Hr, Hf. split; [done|].
      rewrite decide_True by (right; tauto). done. }
  destruct a as [[|b d]| |]; [apply Heof; by right| |apply Heof; by left|].
  - clear Heof. specialize (Hfit _ eq_refl). unfold pipe_wf in Hwfc. rewrite Hwfc in Hfit.
    assert (0 < length (b :: d) ∧ length (b :: d) ≤ BUF_LEN - pos (clamp s)) as [Hr0 Hr1] by (simpl in *; lia).
    destruct (absorb_total (clamp s) (b :: d)) as (s1 & line & Habs & Hwf1); [done|simpl; lia|done|].
    wp_step. wp_step. rewrite Habs. wp_step. simpl.
    destruct line as [line|].
    + wp_use send_line_spec. intros o s' t (-> & Hr2 & Hf2 & Ho). destruct o as [[]|e|]; [|done|].
      * wp_step. wp_step. apply wp_ret. simpl. rewrite app_nil_r. split_and!; [done|by rewrite Hf2|].
        exists (b :: d), (Some line). unfold reads_in in *. simpl. rewrite Hr2. split_and!; [done..|].
        apply (carries_app ty [] [line] [_]); [by exists []|done].
      * split; [by apply (write_failed_app [_]); right|]. right. exists (b :: d), s1, (Some line).
        unfold reads_in in *. simpl. by rewrite Hr2.
    + wp_step. wp_step. simpl. wp_step. wp_step. split_and!; [done..|]. exists (b :: d), None. by split_and!; [..|exists []].
  - apply wp_ret. simpl. split; [done|]. by exists [].
Qed.

Lemma unfinished_pending s acc : holds s acc → unfinished s = take BUFFER_SIZE acc.
Proof. intros Hs%holds_clamped. apply Hs. Qed.

Lemma pipe_loop_spec fuel ty s pending h : holds s pending → ⟪ s , h ⟫ pipe_loop fuel ty ⟪ o s' t ,
  let '(rest, lines) := lines_of pending (reads_in t) in
  match o with
  | Ok false => unfinished s' = rest ∧ carries ty lines t
  | Ok true => carries ty (lines ++ if decide (pipe_failed t = true ∨ rest = []) then [] else [rest]) t
  | Err _ => False
  | Panic => write_failed t
  end ⟫.
Proof.
  revert s pending h. induction fuel as [|fuel IH]; intros s pending h Hs; cbn [pipe_loop].
  { apply wp_ret. cbn. split; [by apply unfinished_pending|apply carries_nil]. }
  wp_step. wp_use pipe_iteration_spec; [apply Hs|]. intros o s1 t1 Hit.
  destruct o as [[|]|e|]; simpl in Hit; [| |done|].
  - apply wp_ret. rewrite app_nil_r. destruct Hit as [-> Hc]. cbn [lines_of].
    by rewrite (unfinished_pending s pending Hs) in Hc.
  - destruct Hit as (_ & Hf1 & d & line & Hr & Hlen & Habs & Hc).
    destruct (absorb_read_on s pending d Hs Hlen) as (s1' & Habs' & Hs1).
    rewrite Habs in Habs'. injection Habs' as <- ->.
    wp_use IH; [exact Hs1|]. intros o s2 t2 Ho. rewrite reads_in_app, Hr. cbn [app lines_of].
    destruct (read_on pending d) as [p l]. cbn [fst snd] in *.
    destruct (lines_of p (reads_in t2)) as [rest lines].
    rewrite pipe_failed_app, Hf1. simpl. destruct o as [[|]|e|]; [| |done|].
    + rewrite <-app_assoc. by apply carries_app.
    + destruct Ho as [? ?]. split; [done|]. by apply carries_app.
    + apply write_failed_app. by right.
  - destruct Hit as [Hw _]. by destruct (lines_of pending (reads_in t1)).
Qed.

(** C19: The thread is correct with respect to [lines_of], whatever the pipe
    and the host do: no index goes out of range, and the host is sent exactly
    the lines that the reference makes of the reads (the damage a read past a
    newline does included), in order and one packet each, followed (at end of
    file, not after a read error) by the unfinished line if there is one.  It
    panics only if the stream to the host failed.  [false] is a thread that has
    not finished after [fuel] reads; its buffer holds what is pending. *)
Theorem pipe_refines_lines_of fuel ty h :
  let r := pipe_loop fuel ty pipe_init h in
  let '(rest, lines) := lines_of [] (reads_in (tr r)) in
  match out r with
  | Ok false => unfinished (st r) = rest ∧ carries ty lines (tr r)
  | Ok true => carries ty (lines ++ if decide (pipe_failed (tr r) = true ∨ rest = []) then [] else [rest]) (tr r)
  | Err _ => False
  | Panic => write_failed (tr r)
  end.
Proof. apply pipe_loop_spec, holds_init. Qed.
End refinement.

(** ** Properties of the lines *)

(** C37: When no read goes past the end of a line (the usual case of a program
    that flushes after each line), every line arrives as one log line, in
    order: unchanged when the part of it that came without the newline is
    shorter than 1024 bytes, and otherwise as its first 1024 bytes, the mark
    [???...???] and the bytes of its last read. *)
Theorem line_reads_arrive (l : list line_reads) :
  Forall line_ok l → fitting pipe_init (l ≫= reads_of) →
  ∃ s, feed pipe_init (l ≫= reads_of) = Some (s, line_sent <$> l) ∧ unfinished s = [].
Proof.
  intros Hl Hfit.
  assert (∀ s, holds s [] → fitting s (l ≫= reads_of) →
    ∃ s', feed s (l ≫= reads_of) = Some (s', line_sent <$> l) ∧ holds s' []) as Hind.
  { clear Hfit. induction Hl as [|x l Hx _ IH]; intros s Hs Hfit; [by exists s|].
    rewrite bind_cons in *. apply fitting_app in Hfit as [Hf1 Hf2]. rewrite feed_app.
    destruct (feed_line s x Hs Hx Hf1) as (s1 & Hfeed & Hs1). rewrite Hfeed. simpl.
    destruct (IH s1 Hs1 (Hf2 _ Hfeed)) as (s2 & -> & Hs2). by exists s2. }
  destruct (Hind pipe_init holds_init Hfit) as (s & -> & Hs). exists s. split; [done|].
  unfold unfinished. rewrite (holds_clamp s [] Hs) by (unfold BUFFER_SIZE; simpl; lia). apply Hs.
Qed.

(** C38: A read that goes past the end of a line loses the last byte it
    delivered: the line it completes is sent, but of the bytes after the newline
    all except the last are kept, and in the place of the last one stands the
    byte the buffer had there before. *)
Theorem read_past_newline_corrupts s acc data rest :
  holds s acc → newline ∉ data → rest ≠ [] → length acc + length data + 1 + length rest ≤ BUF_LEN →
  ∃ s' stale, absorb s (data ++ newline :: rest) = Some (s', Some (acc ++ data)) ∧
    pos s' = length rest ∧ take (pos s') (buf s') = removelast rest ++ [stale] ∧
    (acc ++ data ++ newline :: rest) !! (length rest - 1) = Some stale.
Proof.
  intros Hs Hno Hrest Hlen.
  destruct (absorb_second_line s acc data rest Hs Hno Hrest Hlen) as (s' & stale & Habs & (_ & Hp & Ht) & Hst).
  exists s', stale. split_and!; [done| |done..]. rewrite Hp, length_app. simpl.
  rewrite removelast_firstn_len, length_take. destruct rest; [done|]. simpl. lia.
Qed.

(** ** Evaluation *)

Module Demo.
Import CountableCodec.

(** The container writes "hello" and a newline in two pieces, then ends. *)
Definition reads_demo : list line_reads :=
  [{| fragments := [bytes "hel"]; ending := bytes "lo" |}; {| fragments := []; ending := bytes "x" |}].

Lemma line_reads_arrive_witness :
  ∃ s, feed pipe_init [bytes "hel"; bytes "lo" ++ [newline]; bytes "x" ++ [newline]]
    = Some (s, [bytes "hello"; bytes "x"]) ∧ unfinished s = [].
Proof.
  apply (line_reads_arrive reads_demo).
  - repeat constructor; vm_compute; intros H; repeat (apply elem_of_cons in H as [H|H]; [discriminate|]);
      by apply elem_of_nil in H.
  - vm_compute. repeat split; lia.
Defined.

(** Two lines in one read: the second one arrives as "cb" instead of "cd". *)
Lemma read_past_newline_corrupts_witness :
  ∃ s', absorb pipe_init (bytes "ab" ++ newline :: bytes "cd") = Some (s', Some (bytes "ab")) ∧
    take (pos s') (buf s') = bytes "cb".
Proof.
  destruct (read_past_newline_corrupts pipe_init [] (bytes "ab") (bytes "cd"))
    as (s' & stale & Habs & _ & Ht & Hst).
  - apply holds_init.
  - vm_compute. intros H. repeat (apply elem_of_cons in H as [H|H]; [discriminate|]). by apply elem_of_nil in H.
  - discriminate.
  - apply Nat.leb_le. vm_compute. reflexivity.
  - exists s'. split; [exact Habs|]. rewrite Ht. vm_compute in Hst. injection Hst as <-. reflexivity.
Defined.

(** A pipe that delivers "ab", a newline and "cd" at once, then ends. *)
Definition env_two_lines : Environment GuestI := λ h o,
  match o return guest_ans o with
  | PipeRead room =>
      match h with [] => PipeData (take room (bytes "ab" ++ newline :: bytes "cd")) | _ => PipeEof end
  | o => @respond GuestI guest_env_ok h o
  end.

Lemma env_two_lines_fits (h : history GuestI) (room : nat) data :
  @respond GuestI env_two_lines h (PipeRead room : op GuestI) = PipeData data → length data ≤ room.
Proof. destruct h; [intros [= <-]; rewrite length_take; lia|done]. Qed.

(** The reference on these reads: "ab", and "cb" pending instead of "cd". *)
Example lines_of_two : lines_of [] [bytes "ab" ++ newline :: bytes "cd"] = (bytes "cb", [bytes "ab"]).
Proof. vm_compute. reflexivity. Qed.

Lemma pipe_refines_lines_of_witness :
  let r := pipe_loop (Env := env_two_lines) 5 Stdout pipe_init [] in
  out r = Ok true ∧ carries Stdout [bytes "ab"; bytes "cb"] (tr r).
Proof.
  split; [vm_compute; reflexivity|].
  pose proof (pipe_refines_lines_of (Env := env_two_lines) env_two_lines_fits 5 Stdout []) as H.
  set (r := pipe_loop 5 Stdout pipe_init []) in *. cbv zeta in H.
  assert (reads_in (tr r) = [bytes "ab" ++ newline :: bytes "cd"]) as Hr by (vm_compute; reflexivity).
  assert (out r = Ok true ∧ pipe_failed (tr r) = false) as [Ho Hf] by (split; vm_compute; reflexivity).
  rewrite Hr, lines_of_two, Ho, Hf, decide_False in H by (intros [|]; discriminate). exact H.
Defined.
End Demo.
