(* ===== verification/Mmds.v ===== *)
(** * The metadata client (src/instance/src/mmds.rs)

    The guest reads its configuration from Firecracker's metadata service,
    with a token that is rotated shortly before it expires.  Times are in
    milliseconds; the service and its JSON are the environment.  [obeys] is what
    an observer of the requests and the clock may expect of the client. *)

From S2P Require Import Prelude Bytes Vmproto HostOps GuestOps.

Definition MMDS_IP_ADDR : string := "169.254.169.254".

Record MMDSClient : Set := { token : string; token_expiry : Z }.

Inductive MMDSClientError : Set := RequestError | ResponseSchemaParseError.

#[export] Instance mmds_client_eq_dec : EqDecision MMDSClient.
Proof. solve_decision. Defined.

(** ** str::trim *)

(** The UTF-8 encodings of the characters with the White_Space property. *)
Definition white_space : list (list byte) :=
  [[x20]; [x09]; [x0a]; [x0b]; [x0c]; [x0d]; [xc2; x85]; [xc2; xa0]; [xe1; x9a; x80];
   [xe2; x80; x80]; [xe2; x80; x81]; [xe2; x80; x82]; [xe2; x80; x83]; [xe2; x80; x84];
   [xe2; x80; x85]; [xe2; x80; x86]; [xe2; x80; x87]; [xe2; x80; x88]; [xe2; x80; x89];
   [xe2; x80; x8a]; [xe2; x80; xa8]; [xe2; x80; xa9]; [xe2; x80; xaf]; [xe2; x81; x9f];
   [xe3; x80; x80]].

(** [l] without the first of the prefixes [ps] it starts with. *)
Fixpoint strip_one (ps : list (list byte)) (l : list byte) : option (list byte) :=
  match ps with
  | [] => None
  | p :: ps => if decide (take (length p) l = p) then Some (drop (length p) l) else strip_one ps l
  end.

Fixpoint strip (fuel : nat) (ps : list (list byte)) (l : list byte) : list byte :=
  match fuel with
  | 0 => l
  | S fuel => match strip_one ps l with Some l => strip fuel ps l | None => l end
  end.

Definition trim_bytes (l : list byte) : list byte :=
  let front := strip (length l) white_space l in
  reverse (strip (length front) (reverse <$> white_space) (reverse front)).

Definition trim (s : string) : string := String.string_of_list_byte (trim_bytes (bytes s)).

Section mmds.
Context `{Env : Environment GuestI}.

Definition rotate_token : eff GuestI MMDSClient MMDSClientError () :=
  self ← get;
  now ← perform (I := GuestI) ReadClockMs;
  if (token_expiry self - 60 * 1000 <=? now)%Z then
    now ← perform (I := GuestI) ReadClockMs;
    let token_expiry := (now + 14400 * 1000)%Z in
    resp ← perform (I := GuestI)
      (HttpPut ("http://" +:+ MMDS_IP_ADDR +:+ "/latest/api/token")
               [("X-metadata-token-ttl-seconds", "14400")]);
    match resp with
    | HttpFailed => throw RequestError
    | HttpResponse resp =>
        if negb (status resp =? 200)%Z then throw RequestError
        else match text_ resp with
        | None => throw RequestError
        | Some token =>
            if decide (token = "") then throw ResponseSchemaParseError
            else put {| token := trim token; token_expiry := token_expiry |}
        end
    end
  else mret ().

Definition connect {S} : eff GuestI S MMDSClientError MMDSClient :=
  now ← perform (I := GuestI) ReadClockMs;
  r ← owned (λ _, mret ()) {| token := ""; token_expiry := now - 60 * 60 * 1000 |} rotate_token;
  mret r.2.

Definition mmds_get {T} (from_json : string → option T) (resource_path : string)
    : eff GuestI MMDSClient MMDSClientError T :=
  rotate_token;;
  self ← get;
  resp ← perform (I := GuestI)
    (HttpGet ("http://" +:+ MMDS_IP_ADDR +:+ resource_path)
             [("X-metadata-token", token self); ("Accept", "application/json")]);
  match resp with
  | HttpFailed => throw RequestError
  | HttpResponse resp =>
      if negb (status resp =? 200)%Z then throw RequestError
      else match (t ← text_ resp; from_json t) with
      | Some out => mret out
      | None => throw ResponseSchemaParseError
      end
  end.

(** ** Properties *)

(** The token an answer to a token request brings, if it brings one. *)
Definition issued (a : http_answer) : option string :=
  match a with
  | HttpResponse r =>
      if (status r =? 200)%Z then t ← text_ r; if decide (t = "") then None else Some (trim t) else None
  | HttpFailed => None
  end.

Definition put_token : op GuestI :=
  HttpPut ("http://" +:+ MMDS_IP_ADDR +:+ "/latest/api/token") [("X-metadata-token-ttl-seconds", "14400")].

Definition clock_at (h : history GuestI) : Z := respond h (ReadClockMs : op GuestI).

Definition clock_entry (h : history GuestI) : entry GuestI := existT (ReadClockMs : op GuestI) (clock_at h).

Lemma rotate_token_run (s : MMDSClient) h :
  let now := clock_at h in
  let h1 := h ++ [clock_entry h] in
  let h2 := h1 ++ [clock_entry h1] in
  if (now <? token_expiry s - 60 * 1000)%Z then rotate_token s h = Run (Ok ()) s [clock_entry h]
    else
      let a := respond h2 put_token in
      let t := [clock_entry h; clock_entry h1; existT put_token a] in
      match issued a with
      | None => ∃ e, rotate_token s h = Run (Err e) s t
      | Some tok => rotate_token s h =
          Run (Ok ()) {| token := tok; token_expiry := clock_at h1 + 14400 * 1000 |} t
      end.
Proof.
  unfold rotate_token. rewrite get_bind. unfold clock_entry, clock_at. eff_simpl.
  rewrite Z.leb_antisym. destruct (_ <? _)%Z; simpl; [done|]. unfold put_token.
  destruct (respond _ _) as [|r]; simpl; [by eexists|]. destruct (status r =? 200)%Z; simpl; [|by eexists].
  destruct (text_ r) as [t|]; simpl; [|by eexists]. case_decide as Ht; [by eexists|done].
Qed.

(** *** Tokens, as an observer of the trace sees them

    [grant] is the token the service last issued, with the clock's last
    reading before it was asked for; [clock] and [previous] are the last two
    readings.  None of this looks at the client's state. *)
Record Watch : Set := { clock : option Z; previous : option Z; grant : option (string * Z) }.

Definition watch (w : Watch) (e : entry GuestI) : Watch :=
  let 'existT o a := e in
  match o return guest_ans o → Watch with
  | ReadClockMs => λ now, {| clock := Some now; previous := clock w; grant := grant w |}
  | HttpPut _ _ => λ answer,
      match issued answer, clock w with
      | Some tok, Some asked => {| clock := clock w; previous := previous w; grant := Some (tok, asked) |}
      | _, _ => w
      end
  | _ => λ _, w
  end a.

Definition unwatched : Watch := {| clock := None; previous := None; grant := None |}.

(** Four hours, less one minute. *)
Definition USABLE_MS : Z := 14340000.

(** What the client may do: ask for a token of four hours, if it has none or
    the last one had at most a minute to live when it last looked, one reading
    before the last; and read the metadata, with the token last issued, while
    that has more than a minute to live. *)
Definition permitted (w : Watch) (e : entry GuestI) : Prop :=
  match projT1 e with
  | HttpPut url headers =>
      url = "http://169.254.169.254/latest/api/token" ∧ headers = [("X-metadata-token-ttl-seconds", "14400")] ∧
      match grant w with
      | None => True
      | Some (_, asked) => ∃ looked, previous w = Some looked ∧ (asked + USABLE_MS <= looked)%Z
      end
  | HttpGet _ headers =>
      ∃ tok asked now, grant w = Some (tok, asked) ∧ clock w = Some now ∧ (now < asked + USABLE_MS)%Z ∧
        headers = [("X-metadata-token", tok); ("Accept", "application/json")]
  | _ => True
  end.

Fixpoint obeys (w : Watch) (t : history GuestI) : Prop :=
  match t with
  | [] => True
  | e :: t => permitted w e ∧ obeys (watch w e) t
  end.

Lemma obeys_app w t u : obeys w t → obeys (foldl watch w t) u → obeys w (t ++ u).
Proof. revert w. induction t as [|e t IH]; [done|]. intros w [He Ht] Hu. split; [done|]. by apply IH. Qed.

(** The client knows the token last issued, and when it ends. *)
Definition knows (w : Watch) (s : MMDSClient) : Prop :=
  ∃ asked, grant w = Some (token s, asked) ∧ token_expiry s = (asked + 14400 * 1000)%Z.

Definition fresh (w : Watch) : Prop :=
  ∃ tok asked now, grant w = Some (tok, asked) ∧ clock w = Some now ∧ (now < asked + USABLE_MS)%Z.

Lemma rotate_obeys s h w :
  knows w s ∨ grant w = None ∧ (token_expiry s - 60 * 1000 <= clock_at h)%Z →
  ⟪ s , h ⟫ rotate_token ⟪ o s' t , obeys w t ∧
    match o with
    | Ok _ => knows (foldl watch w t) s' ∧ fresh (foldl watch w t)
    | Err _ => s' = s ∧ grant (foldl watch w t) = grant w
    | Panic => False
    end ⟫.
Proof.
  intros Hw. unfold wp. pose proof (rotate_token_run s h) as Hrun. cbv zeta in Hrun.
  set (h1 := h ++ [clock_entry h]) in *. set (a := respond _ _) in *. clearbody a.
  destruct (Z.ltb_spec (clock_at h) (token_expiry s - 60 * 1000)) as [Hnow|Hnow].
  - rewrite Hrun. destruct Hw as [(asked & Hg & He)|[_ ?]]; [|lia]. split; [done|]. split; [by exists asked|].
    eexists _, _, _. split_and!; [exact Hg|done|]. unfold USABLE_MS. lia.
  - assert (∀ tail, obeys {| clock := Some (clock_at h1); previous := Some (clock_at h); grant := grant w |} tail →
      obeys w (clock_entry h :: clock_entry h1 :: tail)) as Hobeys by done.
    assert (permitted {| clock := Some (clock_at h1); previous := Some (clock_at h); grant := grant w |}
      (existT put_token a)) as Hput.
    { split_and!; [done..|]. destruct Hw as [(asked & Hg & He)|[Hg _]]; cbn [grant previous]; rewrite Hg; [|done].
      eexists. split; [done|]. unfold USABLE_MS. lia. }
    destruct (issued a) as [tok|] eqn:Ha.
    + rewrite Hrun. split; [by apply Hobeys|]. cbn. rewrite Ha. split; [by eexists|].
      eexists _, _, _. split_and!; [done..|]. unfold USABLE_MS. lia.
    + destruct Hrun as [e ->]. split; [by apply Hobeys|]. split; [done|]. cbn. by rewrite Ha.
Qed.

Lemma get_obeys {T} (from_json : string → option T) path s h w : knows w s →
  ⟪ s , h ⟫ mmds_get from_json path ⟪ o s' t , obeys w t ∧ knows (foldl watch w t) s' ∧ o ≠ Panic ⟫.
Proof.
  intros Hw. unfold mmds_get. wp_step. eapply wp_mono; [apply (rotate_obeys s h w); by left|].
  intros [[]|e|] s1 t1 [Ht1 Ho]; [| |done].
  - destruct Ho as [Hk Hf]. wp_step. wp_step. wp_step.
    match goal with |- wp (perform ?get_) _ _ _ => apply (@wp_perform GuestI _ _ _ get_);
      assert (∀ a, obeys w (t1 ++ [existT get_ a]) ∧ knows (foldl watch w (t1 ++ [existT get_ a])) s1) as Hget end.
    { intros a. rewrite foldl_snoc. split; [|done]. apply obeys_app; [done|]. split; [|done].
      destruct Hf as (tok & asked & now & Hg & Hc & Hn). destruct Hk as (asked' & Hg' & _).
      exists tok, asked, now. split_and!; [done..|]. rewrite Hg in Hg'. by injection Hg' as ->. }
    intros a _. cbn [app]. destruct (Hget a) as [He Hk'].
    repeat case_match; (apply wp_throw || apply wp_ret); rewrite ?app_nil_r; by subst.
  - destruct Ho as [-> Hg]. split_and!; [done| |done]. destruct Hw as (asked & Hw & ?). exists asked.
    by rewrite Hg.
Qed.

Lemma gets_obey {T} (from_json : string → option T) paths s h w : knows w s →
  ⟪ s , h ⟫ for_each (λ path, ignore (mmds_get from_json path)) paths ⟪ o _ t , obeys w t ∧ o ≠ Panic ⟫.
Proof.
  revert s h w. induction paths as [|path paths IH]; intros s h w Hw; cbn [for_each]; [by apply wp_ret|].
  wp_step. wp_step. wp_use (get_obeys from_json path s h w Hw). intros o s1 t1 (Ht & Hk & Ho).
  destruct o; [..|done]; (wp_use (IH s1 _ _ Hk); intros o s2 t2 [Ht2 ?]; split; [by apply obeys_app|done]).
Qed.

(** A client that connects and reads [paths] in turn, whether or not a read
    succeeds. *)
Definition session {T} (from_json : string → option T) (paths : list string)
    : eff GuestI () MMDSClientError MMDSClient :=
  client ← connect;
  r ← owned (λ _, mret ()) client (for_each (λ path, ignore (mmds_get from_json path)) paths);
  mret r.2.

(** C39: Over its whole life, however often it reads and whatever the service
    answers, the client reads the metadata only with the token the service last
    issued, and only while this has more than a minute to live; and it asks for
    a new one only when it has none or the last one has at most a minute to
    live.  Needed of the clock: between the two readings of [connect] it does not go
    back by more than an hour and a minute. *)
Theorem tokens_stay_valid {T} (from_json : string → option T) paths :
  (clock_at [] - 3660000 <= clock_at [clock_entry []])%Z →
  obeys unwatched (tr (session from_json paths () [])).
Proof.
  intros Hclock.
  enough (⟪ () , [] ⟫ session from_json paths ⟪ _ _ t , obeys unwatched t ⟫) as H by exact H.
  unfold session. wp_step. unfold connect. wp_step.
  apply (@wp_perform GuestI _ _ _ ReadClockMs). intros now Hnow. cbn [app].
  assert (existT (ReadClockMs : op GuestI) now = clock_entry []) as -> by by unfold clock_entry, clock_at; rewrite Hnow.
  set (w := watch unwatched (clock_entry [])).
  assert (∀ t, obeys w t → obeys unwatched (clock_entry [] :: t)) as Hfirst by done.
  wp_step. apply wp_owned.
  eapply wp_mono; [apply (rotate_obeys _ _ w); right; split; [done|]|].
  { cbn [token_expiry]. unfold clock_at in *. cbn [app] in *. rewrite <-Hnow in Hclock. etrans; [|exact Hclock]. simpl in now. lia. }
  intros o s1 t1 [Ht1 Ho]. destruct o as [[]|e|]; [|apply wp_ret; rewrite app_nil_r; by apply Hfirst|done].
  destruct Ho as [Hk _]. wp_step. wp_step. apply wp_owned. wp_use (gets_obey from_json paths s1 _ _ Hk).
  intros o s2 t2 [Ht2 Ho]. rewrite app_nil_r.
  destruct o; [| |done]; apply wp_ret; rewrite app_nil_r; by apply Hfirst, obeys_app.
Qed.

(** The answer to a token request is rejected when it is empty, but
    not when it is only white space: the client then works with the empty
    token. *)
Theorem blank_token_accepted (s : MMDSClient) h blank :
  let h1 := h ++ [clock_entry h] in
  let h2 := h1 ++ [clock_entry h1] in
  (token_expiry s - 60 * 1000 <= clock_at h)%Z →
  blank ≠ "" → trim blank = "" →
  respond h2 put_token = HttpResponse {| status := 200; content_length := None; text_ := Some blank |} →
  out (rotate_token s h) = Ok () ∧ token (st (rotate_token s h)) = "".
Proof.
  intros h1 h2 Hexp Hne Hblank Ha. pose proof (rotate_token_run s h) as Hrun. cbv zeta in Hrun.
  rewrite (proj2 (Z.ltb_ge _ _)) in Hrun by exact Hexp. fold h1 h2 in Hrun. rewrite Ha in Hrun. simpl in Hrun.
  rewrite decide_False in Hrun by done. rewrite Hrun. split; [done|exact Hblank].
Qed.

(** The requests of a trace that carry a token. *)
Definition tokens_used (t : history GuestI) : list string :=
  omap (λ o : GuestOp, match o with HttpGet _ (("X-metadata-token", tok) :: _) => Some tok | _ => None end) (ops t).

Arguments tokens_used : simpl never.

Lemma tokens_used_app t u : tokens_used (t ++ u) = tokens_used t ++ tokens_used u.
Proof. unfold tokens_used. by rewrite ops_app, omap_app. Qed.

(** A read of the metadata uses the token the client holds after the
    rotation check, exactly once; if the check fails there is no read and the
    client is unchanged. *)
Theorem mmds_get_spec {T} (from_json : string → option T) path (s : MMDSClient) h :
  let r := mmds_get from_json path s h in
  let c := rotate_token s h in
  st r = st c ∧
  match out c with
  | Ok _ => tokens_used (tr r) = [token (st c)] ∧
      match out r with
      | Ok v => ∃ t, from_json t = Some v
      | Err _ => True
      | Panic => False
      end
  | Err e => r = Run (Err e) s (tr c)
  | Panic => False
  end.
Proof.
  assert (tokens_used (tr (rotate_token s h)) = [] ∧ out (rotate_token s h) ≠ Panic ∧
    (is_ok (out (rotate_token s h)) = false → st (rotate_token s h) = s)) as (Ht & Hp & Hs).
  { pose proof (rotate_token_run s h) as Hrun. cbv zeta in Hrun. destruct (_ <? _)%Z; [by rewrite Hrun|].
    destruct (issued _); [by rewrite Hrun|]. destruct Hrun as [e ->]. done. }
  unfold mmds_get. rewrite bind_run. cbv zeta.
  destruct (rotate_token s h) as [[[]|e|] s1 t1]; simpl in Ht, Hs; [| |done]; cbn [out st tr].
  - rewrite get_bind, bind_run. cbn [perform]. set (a := respond _ _). clearbody a.
    destruct a as [|r]; simpl; [by rewrite tokens_used_app, Ht|].
    destruct (status r =? 200)%Z; simpl; [|by rewrite tokens_used_app, Ht].
    destruct (text_ r) as [x|]; simpl; [|by rewrite tokens_used_app, Ht].
    destruct (from_json x) as [v|] eqn:Hx; simpl; rewrite tokens_used_app, Ht; [|done].
    split_and!; [done..|]. by exists x.
  - split; [done|]. by rewrite Hs.
Qed.
End mmds.

(** ** Evaluation *)

Module Demo.
Definition answer (t : string) : Environment GuestI :=
  guest_env (λ _, HttpResponse {| status := 200; content_length := None; text_ := Some t |}) (λ _, PipeEof).

Definition stale : MMDSClient := {| token := "old"; token_expiry := 0 |}.

(** A clock that stands still, and a service that gives the token [t]. *)
Lemma tokens_stay_valid_witness :
  let r := session (Env := answer "t") Some ["/a"; "/b"] () [] in
  tokens_used (tr r) = ["t"; "t"] ∧ obeys unwatched (tr r).
Proof.
  split; [vm_compute; reflexivity|]. apply (tokens_stay_valid (Env := answer "t") Some ["/a"; "/b"]).
  vm_compute. discriminate.
Defined.

Lemma blank_token_accepted_witness :
  out (rotate_token (Env := answer "  ") stale []) = Ok () ∧ token (st (rotate_token (Env := answer "  ") stale [])) = "".
Proof.
  apply (blank_token_accepted (Env := answer "  ") stale [] "  ");
    [vm_compute; discriminate|discriminate|vm_compute; reflexivity|reflexivity].
Defined.

Example trims : trim " abc
" = "abc".
Proof. vm_compute. reflexivity. Qed.
End Demo.
