(* ===== verification/RuntimeSpec.v ===== *)
(** * The container's runtime configuration (src/instance/src/containers/rt.rs)

    How the process of the container is put together from the image's
    configuration and the overrides of the request.  The oci_spec builders are
    an external crate: whether they accept the parts is the parameter
    [builder_accepts]. *)

From Stdlib Require Import Ascii.
From S2P Require Import Prelude.

Definition DEFAULT_CAPS : list string :=
  ["AUDIT_WRITE"; "CHOWN"; "DAC_OVERRIDE"; "FOWNER"; "FSETID"; "KILL"; "MKNOD"; "NET_BIND_SERVICE";
   "NET_RAW"; "SETFCAP"; "SETGID"; "SETFCAP"; "SETUID"; "SYS_CHROOT"].

Inductive LinuxNamespaceType : Set := NsUser | NsMount | NsPid | NsIpc | NsUts | NsCgroup.

Definition DEFAULT_NAMESPACES : list LinuxNamespaceType :=
  [NsUser; NsMount; NsPid; NsIpc; NsUts; NsCgroup].

Record RuntimeOverrides : Set := {
  additional_args : option (list string);
  additional_env : option (list (string * string));
  terminal : bool;
}.

(** oci_spec::image::Config, as far as it is read; an image may have none. *)
Record ImageConfig : Set := {
  entrypoint : option (list string);
  cmd : option (list string);
  image_env : option (list string);
}.

Record IdMapping : Set := { container_id : Z; host_id : Z; size : Z }.

(** The parts the builders are given. *)
Record ContainerSpec : Type := {
  args : list string;
  env : list string;
  tty : bool;
  capabilities : gset string;
  no_new_privileges : bool;
  root_path : string;
  root_readonly : bool;
  hostname : string;
  namespaces : list LinuxNamespaceType;
  mappings : list IdMapping;
}.

Inductive RuntimeSpec : Type := DefaultSpec | BuiltSpec (s : ContainerSpec).

Inductive OciSpecError : Set := BuilderError.

Section rt.
Variable builder_accepts : ContainerSpec → bool.

Definition container_args (config : ImageConfig) (overrides : RuntimeOverrides) : list string :=
  match additional_args overrides with
  | Some override_args =>
      match entrypoint config with
      | Some entry_args => entry_args ++ override_args
      | None => override_args
      end
  | None =>
      match cmd config with
      | Some cmd_args =>
          match entrypoint config with
          | Some entry_args => entry_args ++ cmd_args
          | None => cmd_args
          end
      | None =>
          match entrypoint config with
          | Some entry_args => entry_args
          | None => ["/bin/sh"]
          end
      end
  end.

Definition container_env (config : ImageConfig) (overrides : RuntimeOverrides) : list string :=
  default ["PATH=/usr/local/sbin:/usr/local/bin:/usr/sbin:/usr/bin:/sbin:/bin"] (image_env config) ++
  match additional_env overrides with
  | Some additional_env => (λ '(key, value), key +:+ "=" +:+ value) <$> additional_env
  | None => []
  end ++
  (if terminal overrides then ["TERM=xterm"] else []).

Definition create_runtime_spec (config : option ImageConfig) (overrides : RuntimeOverrides)
    : OciSpecError + RuntimeSpec :=
  match config with
  | None => inr DefaultSpec
  | Some config =>
      let mapping := {| container_id := 0; host_id := 0; size := 65536 |} in
      let spec := {|
        args := container_args config overrides;
        env := container_env config overrides;
        tty := terminal overrides;
        capabilities := list_to_set DEFAULT_CAPS;
        no_new_privileges := false;
        root_path := "rootfs";
        root_readonly := false;
        hostname := "node";
        namespaces := DEFAULT_NAMESPACES;
        mappings := [mapping] |} in
      if builder_accepts spec then inr (BuiltSpec spec) else inl BuilderError
  end.
End rt.

(** ** Reading an environment back *)

Fixpoint strip_prefix (p s : string) : option string :=
  match p, s with
  | EmptyString, _ => Some s
  | String a p, String b s => if decide (a = b) then strip_prefix p s else None
  | String _ _, EmptyString => None
  end.

(** The value an environment list gives to a variable: that of its last
    entry. *)
Definition value_in (key entry : string) : option string := strip_prefix (key +:+ "=") entry.

Definition lookup_env (key : string) (l : list string) : option string := last (omap (value_in key) l).

Lemma value_in_same k v : value_in k (k +:+ "=" +:+ v) = Some v.
Proof.
  unfold value_in. induction k as [|c k IH]; simpl; [done|]. by rewrite decide_True.
Qed.

Lemma value_in_other k k' v : no_equals k = true → no_equals k' = true → k ≠ k' →
  value_in k (k' +:+ "=" +:+ v) = None.
Proof.
  unfold value_in. revert k'. induction k as [|c k IH]; intros [|c' k'] Hk Hk' Hne; [done|..];
    cbn [no_equals] in Hk, Hk'.
  - change ((if decide ("="%char = c') then strip_prefix "" (k' +:+ "=" +:+ v) else None) = None).
    destruct (decide ("="%char = c')) as [<-|]; [|done]. by rewrite bool_decide_true in Hk'.
  - change ((if decide (c = "="%char) then strip_prefix (k +:+ "=") v else None) = None).
    destruct (decide (c = "="%char)) as [->|]; [|done]. by rewrite bool_decide_true in Hk.
  - change ((if decide (c = c') then strip_prefix (k +:+ "=") (k' +:+ "=" +:+ v) else None) = None).
    destruct (decide (c = c')) as [->|]; [|done].
    apply andb_true_iff in Hk as [_ Hk], Hk' as [_ Hk']. apply IH; [done..|]. by intros ->.
Qed.

Definition entry_of (x : string * string) : string := x.1 +:+ "=" +:+ x.2.

Lemma values_absent k (l : list (string * string)) : no_equals k = true →
  Forall (λ x, no_equals x.1 = true) l → k ∉ l.*1 → omap (value_in k) (entry_of <$> l) = [].
Proof.
  intros Hk Hl Hn. apply omap_nil_Forall, Forall_fmap, Forall_forall. intros [k' v] Hin.
  rewrite Forall_forall in Hl. apply value_in_other; [done|by apply (Hl _ Hin)|].
  intros ->. apply Hn. by apply (list_elem_of_fmap_2 fst) in Hin.
Qed.

Lemma values_unique k v (l : list (string * string)) : no_equals k = true →
  Forall (λ x, no_equals x.1 = true) l → NoDup l.*1 → (k, v) ∈ l →
  omap (value_in k) (entry_of <$> l) = [v].
Proof.
  intros Hk. induction l as [|[k' v'] l IH]; intros Hl Hnd Hin; [by apply elem_of_nil in Hin|].
  apply Forall_cons in Hl as [Hk' Hl]. simpl in Hnd. apply NoDup_cons in Hnd as [Hn Hnd].
  rewrite fmap_cons. change (omap (value_in k) (entry_of (k', v') :: (entry_of <$> l))) with
    (match value_in k (k' +:+ "=" +:+ v') with
     | Some x => x :: omap (value_in k) (entry_of <$> l) | None => omap (value_in k) (entry_of <$> l) end).
  apply elem_of_cons in Hin as [[= <- <-]|Hin].
  - by rewrite value_in_same, values_absent.
  - rewrite value_in_other; [by apply IH|done|done|]. intros ->. apply Hn.
    by apply (list_elem_of_fmap_2 fst) in Hin.
Qed.

(** ** Properties *)

(** The process a container runs. Arguments given with the request
    replace the image's command but never its entrypoint; with neither
    arguments nor command nor entrypoint it is [/bin/sh].  Every variable given
    with the request has, in the environment list, its value as last entry,
    whatever the image says about it; variables the request does not mention
    keep the image's value. *)
Lemma container_process (builder_accepts : ContainerSpec → bool) config overrides spec :
  create_runtime_spec builder_accepts (Some config) overrides = inr (BuiltSpec spec) →
  args spec = match additional_args overrides, cmd config, entrypoint config with
              | None, None, None => ["/bin/sh"]
              | None, c, e => default [] e ++ default [] c
              | Some a, _, e => default [] e ++ a
              end ∧
  (additional_env overrides = None → terminal overrides = false → ∀ l, image_env config = Some l → env spec = l) ∧
  (∀ vars, additional_env overrides = Some vars → terminal overrides = false →
    Forall (λ x, no_equals x.1 = true) vars → NoDup vars.*1 →
    (∀ k v, (k, v) ∈ vars → lookup_env k (env spec) = Some v) ∧
    (∀ k l, no_equals k = true → k ∉ vars.*1 → image_env config = Some l →
      lookup_env k (env spec) = lookup_env k l)).
Proof.
  unfold create_runtime_spec. destruct (builder_accepts _); [|done]. intros [= <-]. simpl. split.
  - unfold container_args. destruct (additional_args overrides), (cmd config), (entrypoint config);
      simpl; by rewrite ?app_nil_r.
  - split.
    { intros Hv Ht l Hl. unfold container_env. by rewrite Hv, Ht, Hl, app_nil_r. }
    intros vars Hv Ht Hk Hnd. unfold lookup_env, container_env. rewrite Hv, Ht.
    assert ((λ '(key, value), key +:+ "=" +:+ value) <$> vars = entry_of <$> vars) as ->
      by by apply list_fmap_ext; intros ? [].
    rewrite app_nil_r. split.
    + intros k v Hin. rewrite omap_app, (values_unique k v); [by rewrite last_snoc| |done..].
      rewrite Forall_forall in Hk. by apply (Hk _ Hin).
    + intros k l Hnk Hn Hl. rewrite Hl, omap_app, values_absent by done. by rewrite app_nil_r.
Qed.

(** The capabilities asked for are 13: one of the fourteen names is there
    twice. *)
Example default_caps_repeat : length DEFAULT_CAPS = 14 ∧ base.size (list_to_set DEFAULT_CAPS : gset string) = 13.
Proof. vm_compute. done. Qed.

Lemma container_process_witness :
  let config := {| entrypoint := Some ["/entry"]; cmd := Some ["image-cmd"]; image_env := Some ["A=1"; "B=2"] |} in
  let overrides := {| additional_args := Some ["x"]; additional_env := Some [("A", "9")]; terminal := false |} in
  ∃ spec, create_runtime_spec (λ _, true) (Some config) overrides = inr (BuiltSpec spec) ∧
    args spec = ["/entry"; "x"] ∧ lookup_env "A" (env spec) = Some "9" ∧ lookup_env "B" (env spec) = Some "2".
Proof.
  intros config overrides. eexists. split; [reflexivity|].
  destruct (container_process (λ _, true) config overrides _ eq_refl) as (Ha & _ & He).
  split; [exact Ha|].
  destruct (He [("A", "9")] eq_refl eq_refl) as [Hin Hout]; [by repeat constructor|..].
  { apply NoDup_cons. split; [apply not_elem_of_nil|constructor]. }
  split; [apply Hin; left|].
  rewrite (Hout "B" ["A=1"; "B=2"]); [reflexivity|reflexivity| |reflexivity].
  simpl. intros [H|H]%elem_of_cons; [discriminate|by apply elem_of_nil in H].
Defined.
