(* ===== verification/Registry.v ===== *)
(** * The container registry client (src/instance/src/containers/registry.rs)

    Fetching an image's manifest, configuration and layers.  HTTP and the
    unpacking of archives are operations of the environment; the JSON formats
    (oci_spec, serde) are parsers given as parameters; how often the backoff
    crate grants another attempt is the parameter [granted]. *)

From S2P Require Import Prelude Bytes Vmproto HostOps GuestOps RuntimeSpec.

Inductive RegistryErrors : Set :=
| NetworkError
| RegistryResponseError
| NoCompatibleImageAvailable
| UnsupportedRegistryImageFormat
| UnableToParseImageIndex
| UnableToParseImageManifest
| UnableToParseImageConfiguration
| UnableToConstructRuntimeConfig
| AuthenticationError
| IOErr
| ExtractIOError.

Inductive Arch : Set := Amd64 | OtherArch (name : string).
Inductive Os : Set := Linux | OtherOs (name : string).
Inductive MediaType : Set := ImageLayer | ImageLayerGzip | ImageLayerZstd | OtherMedia (name : string).

#[export] Instance registry_errors_eq_dec : EqDecision RegistryErrors.
Proof. solve_decision. Defined.
#[export] Instance arch_eq_dec : EqDecision Arch.
Proof. solve_decision. Defined.
#[export] Instance os_eq_dec : EqDecision Os.
Proof. solve_decision. Defined.
#[export] Instance media_type_eq_dec : EqDecision MediaType.
Proof. solve_decision. Defined.

Definition SUPPORTED_ARCH : Arch := Amd64.

(** oci_spec types, as far as they are read. *)
Record Reference : Set := {
  registry : string;
  resolve_registry : string;
  repository : string;
  tag : option string;
}.

Record Descriptor : Set := {
  digest : string;
  media_type : MediaType;
  platform : option (Arch * Os);
}.

#[export] Instance descriptor_eq_dec : EqDecision Descriptor.
Proof. solve_decision. Defined.

Record ImageManifest : Set := { manifest_config : Descriptor; layers : list Descriptor }.

Record ImageConfiguration : Set := { image_config : option ImageConfig }.

Section registry.
Context `{Env : Environment GuestI}.

Variable Json : Type.
Variable to_json_value : string → option Json.
Variable schema_version_u64 : Json → option Z.
Variable image_index : Json → option (list Descriptor).
Variable image_manifest : string → option ImageManifest.
Variable image_configuration : string → option ImageConfiguration.
Variable oauth_token : string → option string.
Variable granted : history GuestI → nat.

Definition SCHEMA_VERSION : Z := 2.

Definition get_ {S} (url : string) (auth_token : option string)
    : eff GuestI S RegistryErrors http_response :=
  let headers := match auth_token with
                 | Some token => [("Authorization", "Bearer " +:+ token)]
                 | None => [] end in
  resp ← perform (I := GuestI) (HttpGet url headers);
  match resp with
  | HttpFailed => throw NetworkError
  | HttpResponse resp =>
      if (200 <=? status resp)%Z && (status resp <? 300)%Z then mret resp
      else throw RegistryResponseError
  end.

(** [backoff::retry]: an attempt, and after a transient error at most [n]
    more, each after a pause. *)
Fixpoint retry {S A} (n : nat) (op : eff GuestI S RegistryErrors A) : eff GuestI S RegistryErrors A :=
  r ← try op;
  match r with
  | inr a => mret a
  | inl NetworkError =>
      match n with
      | 0 => throw NetworkError
      | S n =>
          _ ← perform (I := GuestI) BackoffSleep;
          retry n op
      end
  | inl e => throw e
  end.

Definition get_with_backoff {S} (url : string) (auth_token : option string)
    : eff GuestI S RegistryErrors http_response :=
  λ s h, retry (granted h) (get_ url auth_token) s h.

Definition manifest_url (reference : Reference) (name : string) : string :=
  "https://" +:+ resolve_registry reference +:+ "/v2/" +:+ repository reference +:+ "/manifests/" +:+ name.

Definition blob_url (reference : Reference) (name : string) : string :=
  "https://" +:+ resolve_registry reference +:+ "/v2/" +:+ repository reference +:+ "/blobs/" +:+ name.

Definition compatible (d : Descriptor) : bool :=
  match platform d with
  | Some (arch, os) => bool_decide (arch = SUPPORTED_ARCH) && bool_decide (os = Linux)
  | None => false
  end.

Definition or_error {S A} (x : option A) (e : RegistryErrors) : eff GuestI S RegistryErrors A :=
  match x with Some a => mret a | None => throw e end.

Definition get_manifest {S} (reference : Reference) (auth_token : option string) (index_data : Json)
    : eff GuestI S RegistryErrors ImageManifest :=
  match (v ← schema_version_u64 index_data; Some (wrap 32 v)) with
  | Some v =>
      if decide (v = SCHEMA_VERSION) then
        index ← or_error (image_index index_data) UnableToParseImageIndex;
        compatible_manifest ← or_error (find compatible index) NoCompatibleImageAvailable;
        resp ← get_ (manifest_url reference (digest compatible_manifest)) auth_token;
        or_error (t ← text_ resp; image_manifest t) UnableToParseImageManifest
      else throw UnsupportedRegistryImageFormat
  | None => throw UnableToParseImageIndex
  end.

Definition get_manifest_and_config {S} (reference : Reference) (auth_token : option string)
    : eff GuestI S RegistryErrors (ImageManifest * ImageConfiguration) :=
  resp ← get_with_backoff (manifest_url reference (default "latest" (tag reference))) auth_token;
  index_data ← or_error (t ← text_ resp; to_json_value t) UnableToParseImageIndex;
  manifest ← get_manifest reference auth_token index_data;
  resp ← get_ (blob_url reference (digest (manifest_config manifest))) auth_token;
  config ← or_error (t ← text_ resp; image_configuration t) UnableToParseImageConfiguration;
  mret (manifest, config).

Definition decoder_of (m : MediaType) : option decoder :=
  match m with
  | ImageLayerGzip => Some GzDecoder
  | ImageLayerZstd => Some ZlibDecoder
  | ImageLayer => Some NoDecoder
  | OtherMedia _ => None
  end.

Definition extract_layer {S} (blob : string) (output_folder : Path) (m : MediaType) : eff GuestI S RegistryErrors () :=
  match decoder_of m with
  | None => throw IOErr
  | Some d =>
      unpacked ← perform (I := GuestI) (TarUnpack d blob output_folder);
      if unpacked : bool then mret () else throw ExtractIOError
  end.

Definition pull_and_extract_layer {S} (reference : Reference) (layer : Descriptor)
    (output_folder : Path) (auth_token : option string) : eff GuestI S RegistryErrors Z :=
  let url := blob_url reference (digest layer) in
  blob_resp ← get_with_backoff url auth_token;
  extract_layer url output_folder (media_type layer);;
  mret (default 0 (content_length blob_resp))%Z.

(** The error is a [String] in the code and dropped by its only caller. *)
Definition docker_io_oauth {S} (scope_type resource_name : string) (actions : list string)
    : eff GuestI S () string :=
  resp ← perform (I := GuestI)
    (HttpGet ("https://auth.docker.io/token?service=registry.docker.io&scope=" +:+ scope_type +:+ ":" +:+
              resource_name +:+ ":" +:+ join "," actions) []);
  match resp with
  | HttpFailed => throw ()
  | HttpResponse resp =>
      match (t ← text_ resp; oauth_token t) with Some token => mret token | None => throw () end
  end.

(** ** What the requests do *)

Definition get_op (url : string) (auth_token : option string) : op GuestI :=
  HttpGet url (match auth_token with Some token => [("Authorization", "Bearer " +:+ token)] | None => [] end).

Definition get_answer (a : http_answer) : RegistryErrors + http_response :=
  match a with
  | HttpFailed => inl NetworkError
  | HttpResponse r =>
      if (200 <=? status r)%Z && (status r <? 300)%Z then inr r else inl RegistryResponseError
  end.

Definition outcome_of {E A} (r : E + A) : outcome E A :=
  match r with inl e => Err e | inr a => Ok a end.

Definition got (url : string) (auth_token : option string) (a : http_answer) : entry GuestI :=
  existT (get_op url auth_token) a.

Definition slept (b : bool) : entry GuestI := existT (BackoffSleep : op GuestI) b.

(** The trace of a request that failed in transport once per element of [bs]
    before the answer [a]. *)
Definition attempts url auth_token (bs : list bool) (a : http_answer) : history GuestI :=
  (bs ≫= λ b, [got url auth_token HttpFailed; slept b]) ++ [got url auth_token a].

Lemma get_run {S} url tok (s : S) h :
  let a := respond h (get_op url tok) in
  get_ url tok s h = Run (outcome_of (get_answer a)) s [got url tok a].
Proof.
  cbv zeta. unfold get_, got, get_op. eff_simpl. destruct (respond _ _) as [|r]; simpl; [done|].
  by destruct (_ && _).
Qed.

Lemma retry_spec {S} url tok n (s : S) h :
  ⟪ s , h ⟫ retry n (get_ url tok) ⟪ o s' t , s' = s ∧ ∃ bs a,
    t = attempts url tok bs a ∧ length bs ≤ n ∧ o = outcome_of (get_answer a) ∧
    (a = HttpFailed → length bs = n) ⟫.
Proof.
  revert h. induction n as [|n IH]; intros h; simpl; wp_step; wp_step; unfold wp at 1;
    rewrite get_run; set (a := respond h _); clearbody a; cbn [out st tr];
    destruct (get_answer a) as [e|r] eqn:Ha; simpl.
  2, 4: wp_step; (split; [done|]); exists [], a; rewrite Ha;
        (split; [done|split; [simpl; lia|split; [done|by intros ->]]]).
  all: destruct (decide (e = NetworkError)) as [->|He].
  2, 4: assert (a ≠ HttpFailed) by (intros ->; injection Ha as <-; done);
    destruct e; try done; wp_step; (split; [done|]);
    exists [], a; rewrite Ha; (split; [done|split; [simpl; lia|done]]).
  - wp_step. split; [done|]. exists [], a. by rewrite Ha.
  - wp_step. apply (@wp_perform GuestI _ _ _ BackoffSleep). intros b _. wp_use IH.
    assert (a = HttpFailed) as ->.
    { destruct a as [|r]; [done|]. simpl in Ha. by destruct (_ && _). }
    intros o s' t [-> (bs & a & -> & Hl & -> & Hn)]. split; [done|]. exists (b :: bs), a.
    split_and!; [done|simpl; lia|done|]. intros Hf. simpl. by rewrite Hn.
Qed.

Lemma get_with_backoff_spec {S} url tok (s : S) h :
  ⟪ s , h ⟫ get_with_backoff url tok ⟪ o s' t , s' = s ∧ ∃ bs a,
    t = attempts url tok bs a ∧ length bs ≤ granted h ∧ o = outcome_of (get_answer a) ∧
    (a = HttpFailed → length bs = granted h) ⟫.
Proof. apply retry_spec. Qed.

Lemma or_error_run {S A} (x : option A) e (s : S) (h : history GuestI) :
  or_error x e s h = Run (match x with Some a => Ok a | None => Err e end) s [].
Proof. by destruct x. Qed.

(** Everything a request of this module may do: wait, or GET a manifest or
    blob of the image from its registry, presenting [tok]. *)
Definition registry_request (reference : Reference) (tok : option string) (o : op GuestI) : Prop :=
  o = (BackoffSleep : op GuestI) ∨
  ∃ name, o = get_op (manifest_url reference name) tok ∨ o = get_op (blob_url reference name) tok.

Lemma attempts_requests reference tok url bs a :
  (∃ name, url = manifest_url reference name ∨ url = blob_url reference name) →
  Forall (registry_request reference tok) (ops (attempts url tok bs a)).
Proof.
  intros (name & Hurl). unfold attempts. rewrite ops_app. apply Forall_app.
  assert (registry_request reference tok (get_op url tok)).
  { right. exists name. destruct Hurl as [->| ->]; auto. }
  split; [|exact (Forall_cons_2 _ _ _ H (Forall_nil_2 _))].
  induction bs as [|b bs IH]; [exact (Forall_nil_2 _)|].
  exact (Forall_cons_2 _ _ _ H (Forall_cons_2 _ _ _ (or_introl eq_refl) IH)).
Qed.

(** The chain of documents behind a result: which answer each was parsed
    from. *)
Definition parsed {A} (parse : string → option A) (r : http_response) (v : A) : Prop :=
  ∃ t, text_ r = Some t ∧ parse t = Some v.

Lemma parsed_intro {A} (parse : string → option A) r v :
  (t ← text_ r; parse t) = Some v → parsed parse r v.
Proof. unfold parsed. destruct (text_ r) as [t|]; simpl; [|done]. eauto. Qed.

(** The descriptor chosen from an index. *)
Definition chosen (index : list Descriptor) (d : Descriptor) : Prop :=
  ∃ before after, index = before ++ d :: after ∧ compatible d = true ∧
    Forall (λ x, compatible x = false) before.

Lemma find_chosen index d : find compatible index = Some d → chosen index d.
Proof.
  induction index as [|x index IH]; simpl; [done|]. destruct (compatible x) eqn:Hx.
  - intros [= ->]. exists [], index. by split_and!.
  - intros (before & after & -> & Hd & Hb)%IH. exists (x :: before), after. split_and!; [done..|by constructor].
Qed.

Lemma last_attempts url tok bs a : last (attempts url tok bs a) = Some (got url tok a).
Proof. apply last_snoc. Qed.

Lemma attempts_length url tok bs a : length (attempts url tok bs a) = 2 * length bs + 1.
Proof.
  unfold attempts. rewrite length_app. induction bs as [|b bs IH]; [done|]. rewrite bind_cons, length_app. simpl in *. lia.
Qed.

Lemma request_entry reference tok name a :
  Forall (registry_request reference tok) (ops [got (manifest_url reference name) tok a]) ∧
  Forall (registry_request reference tok) (ops [got (blob_url reference name) tok a]).
Proof.
  split; refine (Forall_cons_2 _ _ _ _ (Forall_nil_2 _)); right; exists name; [by left|by right].
Qed.

Definition schema_ok (index_data : Json) : Prop :=
  ∃ v, schema_version_u64 index_data = Some v ∧ wrap 32 v = SCHEMA_VERSION.

(** What an error says about the requests made: which answer, the last one,
    is at fault. *)
Definition blames (tok : option string) (e : RegistryErrors) (t : history GuestI) : Prop :=
  match e with
  | NetworkError => ∃ url, last t = Some (got url tok HttpFailed)
  | RegistryResponseError => ∃ url r, last t = Some (got url tok (HttpResponse r)) ∧
      ¬ (200 <= status r < 300)%Z
  | NoCompatibleImageAvailable => ∃ url r json index, last t = Some (got url tok (HttpResponse r)) ∧
      parsed to_json_value r json ∧ image_index json = Some index ∧ Forall (λ d, compatible d = false) index
  | UnsupportedRegistryImageFormat => ∃ url r json, last t = Some (got url tok (HttpResponse r)) ∧
      parsed to_json_value r json ∧ ¬ schema_ok json
  | UnableToParseImageIndex | UnableToParseImageManifest | UnableToParseImageConfiguration => True
  | _ => False
  end.

Lemma get_answer_Ok a r : get_answer a = inr r → a = HttpResponse r.
Proof. destruct a as [|x]; [done|]. unfold get_answer. destruct (_ && _); [by intros [= ->]|done]. Qed.

Lemma get_answer_blames url tok a e t :
  get_answer a = inl e → last t = Some (got url tok a) → blames tok e t.
Proof.
  destruct a as [|x]; [intros [= <-]; simpl; eauto|]. unfold get_answer.
  destruct (_ && _) eqn:Hb; [done|]. intros [= <-] Ht. exists url, x. split; [done|].
  intros [H1%Z.leb_le H2%Z.ltb_lt]. by rewrite H1, H2 in Hb.
Qed.

Lemma find_none index : find compatible index = None → Forall (λ d, compatible d = false) index.
Proof.
  induction index as [|x index IH]; simpl; [done|]. destruct (compatible x) eqn:Hx; [done|]. by constructor; [|apply IH].
Qed.

Lemma get_manifest_spec {S} reference tok index_data (s : S) h :
  ⟪ s , h ⟫ get_manifest reference tok index_data ⟪ o s' t , s' = s ∧
    match o with
    | Ok m => ∃ index d r, t = [got (manifest_url reference (digest d)) tok (HttpResponse r)] ∧
        schema_ok index_data ∧ image_index index_data = Some index ∧ chosen index d ∧
        parsed image_manifest r m
    | Err e => (t = [] ∧ (match e with
                          | UnableToParseImageIndex => True
                          | UnsupportedRegistryImageFormat => ¬ schema_ok index_data
                          | NoCompatibleImageAvailable => ∃ index,
                              image_index index_data = Some index ∧ Forall (λ d, compatible d = false) index
                          | _ => False end)) ∨
               (∃ name a, t = [got (manifest_url reference name) tok a] ∧
                 (get_answer a = inl e ∨ e = UnableToParseImageManifest))
    | Panic => False
    end ⟫.
Proof.
  unfold get_manifest. unfold schema_ok.
  destruct (schema_version_u64 index_data) as [v|]; simpl; [|wp_step; eauto].
  case_decide as Hv; [|wp_step; split; [done|]; left; split; [done|]; by intros (? & [= <-] & ?)].
  wp_step. unfold wp at 1. rewrite or_error_run. simpl.
  destruct (image_index index_data) as [index|] eqn:Hi; [|eauto].
  wp_step. unfold wp at 1. rewrite or_error_run. simpl.
  destruct (find compatible index) as [d|] eqn:Hd; [|apply find_none in Hd; eauto 6].
  wp_step. unfold wp at 1. rewrite get_run. simpl. set (a := respond _ _). clearbody a.
  destruct (get_answer a) as [e|r] eqn:Ha; simpl; [split; [done|]; right; eauto 6|].
  unfold wp. rewrite or_error_run. simpl. destruct (_ ≫= _) as [m|] eqn:Hm; simpl; (split; [done|]).
  - apply get_answer_Ok in Ha as ->. exists index, d, r.
    split_and!; [done|eauto|done|by apply find_chosen|by apply parsed_intro].
  - right. eauto 6.
Qed.

(** The documents an image is taken from, and the requests that got them. *)
Definition image_chain (reference : Reference) tok (m : ImageManifest) (c : ImageConfiguration)
    (n : nat) (t : history GuestI) : Prop :=
  ∃ bs r1 index_data index d r2 r3,
    t = attempts (manifest_url reference (default "latest" (tag reference))) tok bs (HttpResponse r1) ++
        [got (manifest_url reference (digest d)) tok (HttpResponse r2);
         got (blob_url reference (digest (manifest_config m))) tok (HttpResponse r3)] ∧
    length bs ≤ n ∧
    parsed to_json_value r1 index_data ∧ schema_ok index_data ∧
    image_index index_data = Some index ∧ chosen index d ∧
    parsed image_manifest r2 m ∧ parsed image_configuration r3 c.

Lemma get_manifest_and_config_spec {S} reference tok (s : S) h :
  ⟪ s , h ⟫ get_manifest_and_config reference tok ⟪ o s' t , s' = s ∧
    Forall (registry_request reference tok) (ops t) ∧ length t ≤ 2 * granted h + 3 ∧
    match o with
    | Ok (m, c) => image_chain reference tok m c (granted h) t
    | Err e => blames tok e t
    | Panic => False
    end ⟫.
Proof.
  unfold get_manifest_and_config. set (url := manifest_url reference (default _ _)).
  assert (∀ bs a, Forall (registry_request reference tok) (ops (attempts url tok bs a))) as Hreq.
  { intros. apply attempts_requests. unfold url. eauto. }
  wp_step. wp_use get_with_backoff_spec. intros o ? t [-> (bs & a & -> & Hbs & -> & Hn)].
  assert (length (attempts url tok bs a) ≤ 2 * granted h + 1) as Hlen by (rewrite attempts_length; lia).
  destruct (get_answer a) as [e|r1] eqn:Ha; simpl.
  { split_and!; [done|apply Hreq|lia|]. eapply get_answer_blames; [exact Ha|apply last_attempts]. }
  apply get_answer_Ok in Ha as ->. wp_step. unfold wp at 1. rewrite or_error_run. simpl.
  destruct (text_ r1 ≫= _) as [json|] eqn:Hj; simpl; [|split_and!; [done|rewrite app_nil_r; apply Hreq|rewrite app_nil_r; lia|done]].
  apply parsed_intro in Hj. wp_step. wp_use get_manifest_spec. intros [m|e|] ? t2 [-> Hm]; [| |done].
  - destruct Hm as (index & d & r2 & -> & Hs & Hi & Hc & Hp2). wp_step. unfold wp at 1. rewrite get_run. simpl.
    set (a3 := respond _ _). clearbody a3.
    assert (∀ t3, t3 = [got (manifest_url reference (digest d)) tok (HttpResponse r2);
        got (blob_url reference (digest (manifest_config m))) tok a3] →
      Forall (registry_request reference tok) (ops (attempts url tok bs (HttpResponse r1) ++ t3)) ∧
      length (attempts url tok bs (HttpResponse r1) ++ t3) ≤ 2 * granted h + 3) as Ht3.
    { intros ? ->. rewrite ops_app, length_app. split; [|simpl; lia]. apply Forall_app. split; [apply Hreq|].
      apply (Forall_app_2 _ (ops [_]) (ops [_])); apply request_entry. }
    destruct (get_answer a3) as [e|r3] eqn:Ha3; simpl.
    { destruct (Ht3 _ eq_refl). split_and!; [done..|]. eapply get_answer_blames; [exact Ha3|by rewrite last_app]. }
    apply get_answer_Ok in Ha3 as ->. wp_step. unfold wp at 1. rewrite or_error_run. simpl.
    destruct (text_ r3 ≫= _) as [c|] eqn:Hc3; simpl; destruct (Ht3 _ eq_refl) as [Hf Hl]; [wp_step|]; split_and!; try done.
    exists bs, r1, json, index, d, r2, r3. split_and!; try done. by apply parsed_intro.
  - destruct Hm as [[-> He]|(name & a2 & -> & He)].
    + rewrite !app_nil_r. split_and!; [done|apply Hreq|lia|].
      pose proof (last_attempts url tok bs (HttpResponse r1)) as Hlast.
      destruct e; try done; simpl.
      * destruct He as (index & ? & ?). exists url, r1, json, index. by split_and!.
      * exists url, r1, json. by split_and!.
    + rewrite ops_app, length_app. split_and!; [done| |simpl; lia|].
      * apply Forall_app. split; [apply Hreq|apply request_entry].
      * destruct He as [He| ->]; [|done]. eapply get_answer_blames; [exact He|by rewrite last_app].
Qed.

(** C20: Fetching an image's manifest and configuration, for every behaviour
    of the registry.  It never panics; every request goes to the registry of
    the reference, with the caller's token, and there are at most as many
    repetitions as the backoff grants, each after a pause and only of the
    request for the index.  A result was read along a chain of documents: the
    index under the tag (or "latest"), with schema version 2, the manifest of
    the first amd64 Linux entry of it, and the configuration blob that manifest
    names.  A network error, an error status, a missing platform or an unknown
    schema is reported only when the last answer is at fault. *)
Theorem image_documents {S} reference tok (s : S) h :
  let r := get_manifest_and_config reference tok s h in
  st r = s ∧
  Forall (registry_request reference tok) (ops (tr r)) ∧ length (tr r) ≤ 2 * granted h + 3 ∧
  match out r with
  | Ok (m, c) => image_chain reference tok m c (granted h) (tr r)
  | Err e => blames tok e (tr r)
  | Panic => False
  end.
Proof. apply get_manifest_and_config_spec. Qed.

(** Unpacking a layer: the archive is the blob named by the layer's digest,
    through the decoder of its media type. *)
Lemma pull_and_extract_layer_spec {S} reference layer folder tok (s : S) h :
  ⟪ s , h ⟫ pull_and_extract_layer reference layer folder tok ⟪ o s' t , s' = s ∧
    let url := blob_url reference (digest layer) in
    ∃ bs a, length bs ≤ granted h ∧
    match o with
    | Ok size => ∃ d r, a = HttpResponse r ∧ decoder_of (media_type layer) = Some d ∧
        size = default 0%Z (content_length r) ∧
        t = attempts url tok bs a ++ [existT (TarUnpack d url folder : op GuestI) true]
    | Err e => ∃ t2, t = attempts url tok bs a ++ t2 ∧
        (t2 = [] ∨ ∃ d, t2 = [existT (TarUnpack d url folder : op GuestI) false])
    | Panic => False
    end ⟫.
Proof.
  unfold pull_and_extract_layer. set (url := blob_url _ _). wp_step. wp_use get_with_backoff_spec.
  intros o ? t [-> (bs & a & -> & Hbs & -> & _)]. destruct (get_answer a) as [e|r] eqn:Ha; simpl.
  { split; [done|]. exists bs, a. split; [done|]. exists []. rewrite app_nil_r. auto. }
  apply get_answer_Ok in Ha as ->. unfold extract_layer. wp_step.
  destruct (decoder_of _) as [d|].
  - wp_step. apply (@wp_perform GuestI _ _ _ (TarUnpack d url folder)). intros b _.
    destruct b; [do 2 wp_step|wp_step]; (split; [done|]); exists bs, (HttpResponse r); (split; [done|]).
    + exists d, r. by split_and!.
    + eexists. split; [done|]. right. by exists d.
  - wp_step. split; [done|]. exists bs, (HttpResponse r). split; [done|]. exists []. auto.
Qed.
End registry.

(** ** Evaluation *)

Module Demo.
(** A registry that serves an index of three platforms; documents are
    named by their own text. *)
Definition desc (name : string) (a : Arch) (o : Os) : Descriptor :=
  {| digest := name; media_type := ImageLayerGzip; platform := Some (a, o) |}.

Definition image : ImageManifest :=
  {| manifest_config := desc "config" Amd64 Linux; layers := [desc "layer1" Amd64 Linux; desc "layer2" Amd64 Linux] |}.

Definition ref_ : Reference :=
  {| registry := "r"; resolve_registry := "r"; repository := "app"; tag := None |}.

Definition web (url : string) : http_answer := HttpResponse {| status := 200; content_length := Some 5%Z; text_ := Some url |}.

#[local] Instance registry_env : Environment GuestI := guest_env web (λ _, PipeEof).

Definition fetch :=
  get_manifest_and_config string Some (λ _, Some 2%Z)
    (λ _, Some [desc "arm" (OtherArch "arm64") Linux; desc "win" Amd64 (OtherOs "windows"); desc "mine" Amd64 Linux])
    (λ _, Some image) (λ _, Some {| image_config := None |}) (λ _, 2) ref_ (Some "tok") () [].

Example fetches : out fetch = Ok (image, {| image_config := None |}) ∧
  ops (tr fetch) = [get_op "https://r/v2/app/manifests/latest" (Some "tok");
                    get_op "https://r/v2/app/manifests/mine" (Some "tok");
                    get_op "https://r/v2/app/blobs/config" (Some "tok")].
Proof. vm_compute. done. Qed.

(** A registry that is down: two repetitions, three requests. *)
Example gives_up :
  let r := get_with_backoff (Env := guest_env (λ _, HttpFailed) (λ _, PipeEof)) (λ _, 2) "u" None () [] in
  out r = Err NetworkError ∧ length (tr r) = 5.
Proof. vm_compute. done. Qed.

(** A zstd layer is given to the zlib decoder. *)
Example zstd_decoder : decoder_of ImageLayerZstd = Some ZlibDecoder.
Proof. reflexivity. Qed.
End Demo.
