(* ===== verification/Init.v ===== *)
(** * Programs run by the guest (src/instance/src/sh.rs, src/instance/src/init.rs)

    Every program is a child process that is waited for; anything but exit
    status 0 is a panic, and a panic reboots the guest (GuestMain.v). *)

From S2P Require Import Prelude Bytes Vmproto HostOps GuestOps.

Section init.
Context `{Env : Environment GuestI}.

Definition succeeded (status : cmd_status) : bool :=
  match status with ExitStatus (Some 0%Z) => true | _ => false end.

Definition cmd {S E} (args : list string) : eff GuestI S E () :=
  output ← perform (I := GuestI) (Busybox args);
  if succeeded output then mret () else panic.

Definition mke2fs {S E} (args : list string) : eff GuestI S E () :=
  output ← perform (I := GuestI) (Mke2fs args);
  if succeeded output then mret () else panic.

(** A session id that cannot be set is only logged. *)
Definition set_session_id {S E} : eff GuestI S E () :=
  _ ← perform (I := GuestI) Setsid; mret ().

Definition init {S E} : eff GuestI S E () :=
  cmd ["mount"; "-t"; "proc"; "proc"; "/proc"];;
  cmd ["mount"; "-t"; "sysfs"; "sysfs"; "/sys"];;
  cmd ["mount"; "-t"; "tmpfs"; "tmpfs"; "/run"];;
  cmd ["mount"; "-t"; "tmpfs"; "tmpfs"; "/var/run"];;
  cmd ["mkdir"; "-p"; "/dev/pts"];;
  cmd ["mount"; "-t"; "devpts"; "devpts"; "/dev/pts"];;
  cmd ["mount"; "-t"; "cgroup2"; "cgroup2"; "/sys/fs/cgroup"];;
  mke2fs ["-t"; "ext4"; "-O"; "^has_journal"; "/dev/vdb"];;
  cmd ["mount"; "/dev/vdb"; "/mnt"];;
  set_session_id;;
  cmd ["sysctl"; "-w"; "net.ipv4.ip_unprivileged_port_start=0"];;
  cmd ["sysctl"; "-w"; "net.ipv4.ip_forward=1"].

(** ** What a sequence of programs does *)

(** The entry of a program that did what it should. *)
Definition went_well (e : entry GuestI) : bool :=
  let 'existT o a := e in
  match o return guest_ans o → bool with
  | Busybox _ | Mke2fs _ => succeeded
  | _ => λ _, true
  end a.

(** [runs L m]: [m] performs the operations [L] in order; it returns when
    all went well and panics at the first that did not. *)
Definition runs {S E} (L : list (op GuestI)) (m : eff GuestI S E ()) : Prop :=
  ∀ s h, ⟪ s , h ⟫ m ⟪ o s' t , s' = s ∧
    match o with
    | Ok _ => ops t = L ∧ Forall (λ e, went_well e = true) t
    | Err _ => False
    | Panic => ∃ t0 e, t = t0 ++ [e] ∧ ops t `prefix_of` L ∧
        Forall (λ e, went_well e = true) t0 ∧ went_well e = false
    end ⟫.

Lemma runs_seq {S E} L1 L2 (m k : eff GuestI S E ()) :
  runs L1 m → runs L2 k → runs (L1 ++ L2) (m;; k).
Proof.
  intros Hm Hk s h. wp_step. wp_use Hm. intros [[]|e|] s1 t1 [-> Ht]; [|done|].
  - destruct Ht as [<- Hw]. wp_use Hk. intros [[]|e|] s2 t2 [-> Ht2]; (split; [done|]); [|done|].
    + destruct Ht2 as [<- Hw2]. split; [apply ops_app|by apply Forall_app].
    + destruct Ht2 as (t0 & e & -> & Hp & Hw0 & He). exists (t1 ++ t0), e.
      rewrite <-app_assoc. split_and!; [done| |by apply Forall_app|done].
      rewrite ops_app. by apply prefix_app.
  - split; [done|]. destruct Ht as (t0 & e & -> & Hp & Hw0 & He). exists t0, e.
    split_and!; [done|by apply prefix_app_r|done..].
Qed.

Lemma runs_cmd {S E} args : runs (S := S) (E := E) [Busybox args : op GuestI] (cmd args).
Proof.
  intros s h. unfold cmd. wp_step. apply (@wp_perform GuestI _ _ _ (Busybox args)). intros a _.
  destruct (succeeded a) eqn:Ha; wp_step; (split; [done|]).
  - split; [done|by repeat constructor].
  - by exists [], (existT (Busybox args : op GuestI) a).
Qed.

Lemma runs_mke2fs {S E} args : runs (S := S) (E := E) [Mke2fs args : op GuestI] (mke2fs args).
Proof.
  intros s h. unfold mke2fs. wp_step. apply (@wp_perform GuestI _ _ _ (Mke2fs args)). intros a _.
  destruct (succeeded a) eqn:Ha; wp_step; (split; [done|]).
  - split; [done|by repeat constructor].
  - by exists [], (existT (Mke2fs args : op GuestI) a).
Qed.

Lemma runs_setsid {S E} : runs (S := S) (E := E) [Setsid : op GuestI] set_session_id.
Proof.
  intros s h. unfold set_session_id. wp_step. apply (@wp_perform GuestI _ _ _ Setsid). intros a _.
  wp_step. split; [done|]. split; [done|by repeat constructor].
Qed.
End init.

Create HintDb runs discriminated.
#[export] Hint Resolve runs_cmd runs_mke2fs runs_setsid : runs.

Section init_spec.
Context `{Env : Environment GuestI}.

(** The file systems are mounted before the disk is formatted, the disk is
    formatted before it is mounted, and only then are the kernel's settings
    changed. *)
Definition INIT_PROGRAMS : list (op GuestI) :=
  [Busybox ["mount"; "-t"; "proc"; "proc"; "/proc"];
   Busybox ["mount"; "-t"; "sysfs"; "sysfs"; "/sys"];
   Busybox ["mount"; "-t"; "tmpfs"; "tmpfs"; "/run"];
   Busybox ["mount"; "-t"; "tmpfs"; "tmpfs"; "/var/run"];
   Busybox ["mkdir"; "-p"; "/dev/pts"];
   Busybox ["mount"; "-t"; "devpts"; "devpts"; "/dev/pts"];
   Busybox ["mount"; "-t"; "cgroup2"; "cgroup2"; "/sys/fs/cgroup"];
   Mke2fs ["-t"; "ext4"; "-O"; "^has_journal"; "/dev/vdb"];
   Busybox ["mount"; "/dev/vdb"; "/mnt"];
   Setsid;
   Busybox ["sysctl"; "-w"; "net.ipv4.ip_unprivileged_port_start=0"];
   Busybox ["sysctl"; "-w"; "net.ipv4.ip_forward=1"]].

Lemma init_runs {S E} : runs (S := S) (E := E) INIT_PROGRAMS init.
Proof.
  unfold init. repeat (eapply (runs_seq [_]); [eauto with runs|]). auto with runs.
Qed.
End init_spec.
