(* ===== verification/Layers.v ===== *)
(** * Pulling an image (src/instance/src/containers/mod.rs, containers/fs.rs)

    [pull_and_prepare_image]: the manifest is fetched, up to five threads take
    layers off a shared queue and unpack them, and the unpacked layers are
    mounted as one file system.

    The threads are modelled as turns on the state they share.  A turn is
    what a thread does between two visits of that state: taking a layer off the
    queue, creating its folder, pulling it, reporting it under the lock of the
    stream.  Which thread moves next is chosen by an arbitrary function of the
    history, so that every order of turns is covered; the requests of two pulls
    do not interleave inside a turn. *)

From Stdlib Require Import Ascii.
From S2P Require Import Prelude Bytes Vmproto HostOps Communicator GuestOps GuestComm RuntimeSpec Registry Init.

Definition CONCURRENT_LAYER_DOWNLOADS : nat := 5.

Definition FOLDER : Path := ["/"; "mnt"].

Definition layers_folder : Path := path_join FOLDER ["layers"].

(** [s.replace(":", "")] *)
Fixpoint remove_colons (s : string) : string :=
  match s with
  | EmptyString => EmptyString
  | String c s => if decide (c = ":"%char) then remove_colons s else String c (remove_colons s)
  end.

Definition layer_folder (layer : Descriptor) : Path :=
  path_join layers_folder [remove_colons (digest layer)].

(** number_prefix::NumberPrefix, with the numbers as they are displayed. *)
Inductive NumberPrefix : Set := Standalone (v : string) | Prefixed (prefix v : string).

Definition show_size (n : NumberPrefix) : string :=
  match n with
  | Standalone v => v +:+ " bytes"
  | Prefixed prefix v => v +:+ " " +:+ prefix +:+ "B"
  end.

(** Where a download thread is. *)
Inductive stage : Set :=
| Looping
| CreatingFolder (layer : Descriptor)
| Pulling (layer : Descriptor)
| Reporting (layer : Descriptor) (layer_compressed_size : Z)
| Finished (result : option RegistryErrors).

#[export] Instance stage_eq_dec : EqDecision stage.
Proof. solve_decision. Defined.

(** What the threads share, and the threads. *)
Record pool : Set := {
  queue : list Descriptor;
  progress : Z;
  workers : list stage;
}.

Definition set_worker (k : nat) (w : stage) (p : pool) : pool :=
  {| queue := queue p; progress := progress p; workers := <[k := w]> (workers p) |}.

Definition finished (w : stage) : bool := match w with Finished _ => true | _ => false end.

(** [for jh in worker_threads { jh.join()??; }]: [None] while it waits. *)
Fixpoint joined (ws : list stage) : option (option RegistryErrors) :=
  match ws with
  | [] => Some None
  | Finished None :: ws => joined ws
  | Finished (Some e) :: _ => Some (Some e)
  | _ :: _ => None
  end.

(** The threads that can still move, and the one that does. *)
Definition running (ws : list stage) : list nat :=
  filter (λ k, (finished <$> ws !! k) = Some false) (seq 0 (length ws)).

Definition pick (ws : list stage) (n : nat) : nat :=
  default 0 (running ws !! (n mod length (running ws))).

Section image.
Context `{Env : Environment GuestI} `{C : Codec}.

Variable profile_ : profile.
Variable granted : history GuestI → nat.
Variable decimal : Z → NumberPrefix.
Variable schedule : history GuestI → nat.
Variable reference : Reference.

Definition create_dir_all {S} (p : Path) : eff GuestI S RegistryErrors () :=
  created ← perform (I := GuestI) (GuestCreateDirAll p);
  if created : bool then mret () else throw IOErr.

Definition layer_message (i layer_count : Z) (layer : Descriptor) (size : Z) : string :=
  "Pulled and extracted layer " +:+ pretty i +:+ " of " +:+ pretty layer_count +:+ " - " +:+
  digest layer +:+ " (" +:+ show_size (decimal size) +:+ ")".

(** [progress.fetch_add(1)] and [i + 1], on i32. *)
Definition count_layer : eff GuestI pool RegistryErrors Z :=
  p ← get;
  put {| queue := queue p; progress := swrap 32 (progress p + 1); workers := workers p |};;
  or_panic (sarith profile_ 32 (progress p + 1)).

Definition turn (auth : option string) (layer_count : Z) (k : nat) : eff GuestI pool RegistryErrors () :=
  p ← get;
  match workers p !! k with
  | None | Some (Finished _) => mret ()
  | Some Looping =>
      match queue p with
      | [] => modify (set_worker k (Finished None))
      | layer :: rest =>
          put (set_worker k (CreatingFolder layer)
                 {| queue := rest; progress := progress p; workers := workers p |})
      end
  | Some (CreatingFolder layer) =>
      r ← try (create_dir_all (layer_folder layer));
      modify (set_worker k (match r with inr _ => Pulling layer | inl e => Finished (Some e) end))
  | Some (Pulling layer) =>
      r ← try (pull_and_extract_layer granted reference layer (layer_folder layer) auth);
      modify (set_worker k (match r with inr size => Reporting layer size | inl e => Finished (Some e) end))
  | Some (Reporting layer size) =>
      i ← count_layer;
      report (log_system_message (layer_message i layer_count layer size));;
      modify (set_worker k Looping)
  end.

(** The threads run until the main thread has joined them; [None] when
    [fuel] turns were not enough. *)
Fixpoint join_workers (fuel : nat) (auth : option string) (layer_count : Z)
    : eff GuestI pool RegistryErrors (option (option RegistryErrors)) :=
  p ← get;
  match joined (workers p) with
  | Some r => mret (Some r)
  | None =>
      match fuel with
      | 0 => mret None
      | S fuel =>
          (λ p h, turn auth layer_count (pick (workers p) (schedule h)) p h);;
          join_workers fuel auth layer_count
      end
  end.

Definition pool_of (layers : list Descriptor) : pool :=
  {| queue := layers; progress := 0;
     workers := replicate (CONCURRENT_LAYER_DOWNLOADS `min` length layers) Looping |}.

(** Turns that always suffice. *)
Definition pool_fuel (layers : list Descriptor) : nat := 4 * length layers + CONCURRENT_LAYER_DOWNLOADS.

Definition pull_layers {S} (layers : list Descriptor) (auth : option string) : eff GuestI S RegistryErrors () :=
  r ← owned (λ _, mret ()) (pool_of layers)
        (join_workers (pool_fuel layers) auth (Z.of_nat (length layers)));
  match r.1 with
  | Some None => mret ()
  | Some (Some e) => throw e
  | None => panic
  end.

(** ** The file system of the container (containers/fs.rs) *)

Definition create_overlay_fs {S E} (merged_path work_path : Path) (layers : list Path) : eff GuestI S E () :=
  cmd ["mount"; "-t"; "overlay"; "overlay"; "-o";
       "lowerdir=" +:+ join ":" (show_path <$> reverse layers) +:+
       ",upperdir=" +:+ show_path merged_path +:+ ",workdir=" +:+ show_path work_path;
       show_path merged_path].

Definition newline : string := String (ascii_of_nat 10) EmptyString.

Definition write_all {S} (p : Path) (contents : string) : eff GuestI S () () :=
  written ← perform (I := GuestI) (GuestWriteFile p contents);
  if written : bool then mret () else throw ().

Definition prepare_fs {S} (merged_path : Path) : eff GuestI S () () :=
  let etc := path_join merged_path ["etc"] in
  exists_ ← perform (I := GuestI) (GuestPathExists etc);
  if (exists_ : bool) then
    write_all (path_join etc ["resolv.conf"])
      ("# Generated by the user agent" +:+ newline +:+ "nameserver 8.8.8.8" +:+ newline);;
    write_all (path_join etc ["hostname"]) ("node" +:+ newline);;
    write_all (path_join etc ["hosts"])
      ("# Generated by the user agent" +:+ newline +:+ "127.0.0.1 localhost" +:+ newline +:+ "127.0.1.1 node")
  else mret ().

(** ** The whole pull *)

Definition save {S E} (p : Path) : eff GuestI S E () :=
  saved ← perform (I := GuestI) (SaveDocument p);
  if saved : bool then mret () else panic.

Variable Json : Type.
Variable to_json_value : string → option Json.
Variable schema_version_u64 : Json → option Z.
Variable image_index : Json → option (list Descriptor).
Variable image_manifest : string → option ImageManifest.
Variable image_configuration : string → option ImageConfiguration.
Variable oauth_token : string → option string.
Variable builder_accepts : ContainerSpec → bool.

Definition registry_token {S} : eff GuestI S RegistryErrors (option string) :=
  if decide (registry reference = "docker.io") then
    token ← map_err (λ _, AuthenticationError)
      (docker_io_oauth oauth_token "repository" (repository reference) ["pull"]);
    mret (Some token)
  else mret None.

Definition pull_and_prepare_image {S} (overrides : RuntimeOverrides) : eff GuestI S RegistryErrors RuntimeSpec :=
  report (state_change PullingContainerImage (Some "Starting to pull container image."));;
  auth ← registry_token;
  x ← get_manifest_and_config Json to_json_value schema_version_u64 image_index image_manifest
        image_configuration granted reference auth;
  let manifest := x.1 in let config := x.2 in
  create_dir_all layers_folder;;
  let layer_count := length (layers manifest) in
  report (log_system_message ("Image manifest fetched. Pulling " +:+ pretty (Z.of_nat layer_count) +:+ " layers... "));;
  for_each (λ layer, create_dir_all (layer_folder layer)) (layers manifest);;
  pull_layers (layers manifest) auth;;
  save (path_join FOLDER ["image_config.json"]);;
  spec ← match create_runtime_spec builder_accepts (image_config config) overrides with
         | inr spec => mret spec
         | inl _ => throw UnableToConstructRuntimeConfig
         end;
  save (path_join FOLDER ["config.json"]);;
  save (path_join FOLDER ["manifest.json"]);;
  let merged_path := path_join FOLDER ["rootfs"] in
  let work_path := path_join FOLDER ["work"] in
  create_dir_all merged_path;;
  create_dir_all work_path;;
  create_overlay_fs merged_path work_path (layer_folder <$> layers manifest);;
  unwrap (E' := ()) (prepare_fs merged_path);;
  mret spec.
End image.

(** ** The threads: what is where *)

Definition pending (w : stage) : option Descriptor :=
  match w with CreatingFolder l | Pulling l => Some l | _ => None end.

Definition to_report (w : stage) : option Descriptor :=
  match w with Reporting l _ => Some l | _ => None end.

Definition failure (w : stage) : option RegistryErrors :=
  match w with Finished (Some e) => Some e | _ => None end.

(** Turns a thread can still make without taking another layer. *)
Definition weight (w : stage) : nat :=
  match w with
  | Looping => 1
  | CreatingFolder _ => 4
  | Pulling _ => 3
  | Reporting _ _ => 2
  | Finished _ => 0
  end.

Definition measure (p : pool) : nat := 4 * length (queue p) + sum_list_with weight (workers p).

(** The archives a trace unpacked: decoder, blob and folder. *)
Definition unpack_entry (e : entry GuestI) : option (option decoder * string * Path) :=
  let 'existT o a := e in
  match o return guest_ans o → option (option decoder * string * Path) with
  | TarUnpack d blob folder => λ ok, if ok : bool then Some (Some d, blob, folder) else None
  | _ => λ _, None
  end a.

Definition unpacked (t : history GuestI) : list (option decoder * string * Path) := omap unpack_entry t.

Definition is_unpack (o : op GuestI) : bool := match o with TarUnpack _ _ _ => true | _ => false end.

Lemma unpacked_app t u : unpacked (t ++ u) = unpacked t ++ unpacked u.
Proof. apply omap_app. Qed.

Lemma unpacked_none t : Forall (λ o, is_unpack o = false) (ops t) → unpacked t = [].
Proof.
  intros Ht. apply omap_nil_Forall. apply List.Forall_map in Ht.
  eapply Forall_impl; [exact Ht|]. intros [o a] Ho. by destruct o.
Qed.

Lemma split_at {A} (l : list A) k x : l !! k = Some x →
  ∃ pre post, l = pre ++ x :: post ∧ ∀ y, <[k := y]> l = pre ++ y :: post.
Proof.
  intros Hk. exists (take k l), (drop (S k) l). split; [by rewrite take_drop_middle|].
  intros y. apply lookup_lt_Some in Hk. by rewrite insert_take_drop.
Qed.

Lemma joined_running ws : joined ws = None → ∃ k w, ws !! k = Some w ∧ finished w = false.
Proof.
  induction ws as [|w ws IH]; [done|].
  destruct (finished w) eqn:Hw; [|by intros _; exists 0, w].
  destruct w as [| | | |[e|]]; try done. intros (k & w & Hk & ?)%IH. by exists (S k), w.
Qed.

Lemma pick_running ws n : joined ws = None → ∃ w, ws !! pick ws n = Some w ∧ finished w = false.
Proof.
  intros (k & w & Hk & Hw)%joined_running. unfold pick.
  assert (k ∈ running ws) as Hin.
  { apply list_elem_of_filter. rewrite Hk. simpl. rewrite Hw. split; [done|].
    apply elem_of_seq. apply lookup_lt_Some in Hk. lia. }
  destruct (lookup_lt_is_Some_2 (running ws) (n mod length (running ws))) as [j Hj].
  { apply Nat.mod_upper_bound. destruct (running ws); [by apply elem_of_nil in Hin|done]. }
  rewrite Hj. simpl. apply list_elem_of_lookup_2, list_elem_of_filter in Hj as [Hj _].
  destruct (ws !! j) as [x|]; [|done]. exists x. split; [done|]. by injection Hj.
Qed.

Lemma joined_Ok ws : joined ws = Some None → omap pending ws = [] ∧ omap to_report ws = [] ∧
  omap failure ws = [] ∧ (ws = [] ∨ Finished None ∈ ws).
Proof.
  induction ws as [|w ws IH]; [by intros _; auto|]. csimpl. destruct w as [| | | |[e|]]; try done.
  intros (-> & -> & -> & _)%IH. split_and!; [done..|]. right. by left.
Qed.

Lemma joined_Err ws e : joined ws = Some (Some e) → e ∈ omap failure ws.
Proof.
  induction ws as [|w ws IH]; [done|]. csimpl. destruct w as [| | | |[x|]]; try done.
  intros [= ->]. left.
Qed.

Section pool.
Context `{Env : Environment GuestI} `{C : Codec}.
Variable profile_ : profile.
Variable granted : history GuestI → nat.
Variable decimal : Z → NumberPrefix.
Variable schedule : history GuestI → nat.
Variable reference : Reference.
Variable auth : option string.

#[local] Abbreviation a_turn := (turn profile_ granted decimal reference).
#[local] Abbreviation joins := (join_workers profile_ granted decimal schedule reference).
#[local] Abbreviation message_of := (layer_message decimal).

(** Where and how a layer belongs. *)
Definition place (layer : Descriptor) : option decoder * string * Path :=
  (decoder_of (media_type layer), blob_url reference (digest layer), layer_folder layer).

(** The messages of the layers [order], numbered from 1. *)
Definition numbered (n : Z) (order : list Descriptor) (ps : list GuestPacket) : Prop :=
  length ps = length order ∧
  ∀ i layer p, order !! i = Some layer → ps !! i = Some p →
    ∃ size, is_system_log (message_of (Z.of_nat (S i)) n layer size) p.

Lemma numbered_snoc n order ps layer p size :
  numbered n order ps → is_system_log (message_of (Z.of_nat (S (length order))) n layer size) p →
  numbered n (order ++ [layer]) (ps ++ [p]).
Proof.
  intros [Hl Hi] Hp. split; [rewrite !length_app; simpl; lia|].
  intros i l q [[? Ho]|[-> <-]]%lookup_snoc_Some [[? Hq]|[? <-]]%lookup_snoc_Some; try lia.
  - by eapply Hi.
  - by exists size.
Qed.

(** What holds whenever the threads have done [t]: every layer is in the
    queue, in the hands of one thread, unpacked but not reported, reported, or
    lost by a thread that failed; and the stream carries the messages of the
    reported ones. *)
Definition pool_inv (layers : list Descriptor) (t : history GuestI) (p : pool) : Prop :=
  ∃ reported lost ps,
    queue p ++ omap pending (workers p) ++ omap to_report (workers p) ++ reported ++ lost ≡ₚ layers ∧
    unpacked t ≡ₚ place <$> (omap to_report (workers p) ++ reported) ∧
    progress p = Z.of_nat (length reported) ∧
    wire t = stream_of ps ∧ numbered (Z.of_nat (length layers)) reported ps ∧
    length lost = length (omap failure (workers p)) ∧
    (Finished None ∈ workers p → queue p = []) ∧
    length (workers p) = CONCURRENT_LAYER_DOWNLOADS `min` length layers.

Lemma pool_inv_start layers : pool_inv layers [] (pool_of layers).
Proof.
  assert (∀ A (f : stage → option A) n, f Looping = None → omap f (replicate n Looping) = []) as Hf.
  { intros A f n Hl. apply omap_nil_Forall. by apply Forall_replicate. }
  exists [], [], []. unfold pool_of. cbn [queue progress workers]. rewrite !Hf by done. split_and!; try done.
  - by rewrite !app_nil_r.
  - by intros [? _]%elem_of_replicate.
  - apply length_replicate.
Qed.

Lemma measure_start layers : measure (pool_of layers) ≤ pool_fuel layers.
Proof.
  unfold measure, pool_of, pool_fuel. cbn [queue workers].
  assert (∀ n, sum_list_with weight (replicate n Looping) = n) as Hs by (induction n; simpl; lia).
  rewrite Hs. lia.
Qed.

(** A thread moving from [w] to [w']: it is enough to account for what it
    held. *)
Lemma pool_inv_move layers t t' p p' k w w' rep_add lost_add ps_add :
  pool_inv layers t p →
  workers p !! k = Some w → workers p' = <[k := w']> (workers p) →
  queue p' ++ option_list (pending w') ++ option_list (to_report w') ++ rep_add ++ lost_add
    ≡ₚ queue p ++ option_list (pending w) ++ option_list (to_report w) →
  unpacked t' ++ (place <$> option_list (to_report w)) ≡ₚ place <$> (option_list (to_report w') ++ rep_add) →
  progress p' = (progress p + Z.of_nat (length rep_add))%Z →
  wire t' = stream_of ps_add →
  (∀ reported ps, progress p = Z.of_nat (length reported) →
    numbered (Z.of_nat (length layers)) reported ps →
    numbered (Z.of_nat (length layers)) (reported ++ rep_add) (ps ++ ps_add)) →
  length lost_add + length (option_list (failure w)) = length (option_list (failure w')) →
  (queue p = [] → queue p' = []) → (w' = Finished None → queue p = []) →
  pool_inv layers (t ++ t') p'.
Proof.
  intros (reported & lost & ps & Hq & Hu & Hp & Hw & Hn & Hl & Hf & Hlen) Hk Hws Hmv Hun Hpr Hwi Hnum Hlost Hqe Hfin.
  exists (reported ++ rep_add), (lost ++ lost_add), (ps ++ ps_add).
  pose proof (split_at _ _ _ Hk) as (pre & post & Hpre & Hpost).
  rewrite Hws, Hpost. rewrite Hpre in Hq, Hu, Hl.
  assert (∀ A (f : stage → option A) x, omap f (pre ++ x :: post) = omap f pre ++ option_list (f x) ++ omap f post) as Ho.
  { intros A f x. rewrite omap_app. f_equal. csimpl. by destruct (f x). }
  rewrite !Ho in *. rewrite !fmap_app in *. split_and!.
  - revert Hmv Hq. generalize (option_list (pending w)), (option_list (pending w')), (option_list (to_report w)),
      (option_list (to_report w')). intros a b c d Hmv Hq. rewrite <-Hq. clear Hq.
    rewrite (Permutation_count_occ (λ x y, decide (x = y))) in Hmv |- *. intros x. specialize (Hmv x).
    rewrite !count_occ_app in *. lia.
  - rewrite unpacked_app, Hu. clear Hu. revert Hun.
    generalize (place <$> option_list (to_report w)), (place <$> option_list (to_report w')). intros c d Hun.
    rewrite (Permutation_count_occ (λ x y, decide (x = y))) in Hun |- *. intros x. specialize (Hun x).
    rewrite !count_occ_app in *. lia.
  - rewrite length_app. lia.
  - unfold stream_of in *. by rewrite wire_app, Hw, Hwi, bind_app.
  - auto.
  - rewrite !length_app in *. lia.
  - intros Hin. apply Hqe. apply elem_of_app in Hin as [Hin|[Hin|Hin]%elem_of_cons].
    + apply Hf. rewrite Hpre. apply elem_of_app. by left.
    + auto.
    + apply Hf. rewrite Hpre. apply elem_of_app. right. by right.
  - rewrite <-Hlen, Hpre, !length_app. done.
Qed.

Lemma sum_update {A} (f : A → nat) (l : list A) k x y : l !! k = Some x →
  sum_list_with f (<[k := y]> l) + f x = sum_list_with f l + f y.
Proof.
  intros (pre & post & -> & Hy)%split_at. rewrite Hy, !sum_list_with_app. simpl. lia.
Qed.

(** A turn that puts nothing on the stream and reports no layer. *)
Lemma pool_inv_silent layers t t' p p' k w w' lost_add :
  pool_inv layers t p →
  workers p !! k = Some w → workers p' = <[k := w']> (workers p) →
  progress p' = progress p → wire t' = [] → failure w = None →
  queue p' ++ option_list (pending w') ++ option_list (to_report w') ++ lost_add
    ≡ₚ queue p ++ option_list (pending w) ++ option_list (to_report w) →
  unpacked t' ++ (place <$> option_list (to_report w)) = place <$> option_list (to_report w') →
  length lost_add = length (option_list (failure w')) →
  (queue p = [] → queue p' = []) → (w' = Finished None → queue p = []) →
  pool_inv layers (t ++ t') p'.
Proof.
  intros Hinv Hk Hws Hpr Hwi Hf Hmv Hun Hl Hq Hfin.
  eapply (pool_inv_move layers t t' p p' k w w' [] lost_add []); try done.
  - by rewrite app_nil_r, Hun.
  - rewrite Hpr. simpl. lia.
  - intros reported ps _. by rewrite !app_nil_r.
  - rewrite Hf. simpl. lia.
Qed.

Lemma reported_below layers t p k l size :
  pool_inv layers t p → workers p !! k = Some (Reporting l size) →
  (0 <= progress p < Z.of_nat (length layers))%Z.
Proof.
  intros (reported & lost & ps & Hq & _ & Hp & _) Hk. apply Permutation_length in Hq.
  pose proof (split_at _ _ _ Hk) as (pre & post & Hpre & _). rewrite Hpre in Hq.
  rewrite !length_app, !omap_app, !length_app in Hq. csimpl in Hq. lia.
Qed.

Lemma create_dir_all_run {S} q (s : S) h :
  let ok := respond h (GuestCreateDirAll q : op GuestI) : bool in
  create_dir_all q s h =
    Run (if ok then Ok () else Err IOErr) s [existT (GuestCreateDirAll q : op GuestI) ok].
Proof. cbv zeta. unfold create_dir_all. eff_simpl. by destruct (respond _ _). Qed.

Lemma attempts_silent url tok bs a : wire (attempts url tok bs a) = [] ∧ unpacked (attempts url tok bs a) = [].
Proof.
  unfold attempts. rewrite wire_app, unpacked_app. induction bs as [|b bs [IH1 IH2]]; [done|].
  rewrite bind_cons, wire_app, unpacked_app. rewrite <-!app_assoc, IH1, IH2. done.
Qed.

(** What a pull leaves: its archive unpacked when it succeeds, nothing
    otherwise; it never panics. *)
Lemma pull_result {S} layer (s : S) h :
  ⟪ s , h ⟫ pull_and_extract_layer granted reference layer (layer_folder layer) auth ⟪ o s' t ,
    s' = s ∧ wire t = [] ∧
    match o with
    | Ok _ => unpacked t = [place layer]
    | Err _ => unpacked t = []
    | Panic => False
    end ⟫.
Proof.
  wp_use @pull_and_extract_layer_spec. cbv zeta. intros o s' t [-> (bs & a & _ & Ho)].
  pose proof (attempts_silent (blob_url reference (digest layer)) auth bs a) as [Hw Hu].
  destruct o as [size|e|]; [| |done].
  - destruct Ho as (d & r & _ & Hd & _ & ->). rewrite wire_app, unpacked_app, Hw, Hu.
    unfold place. by rewrite Hd.
  - destruct Ho as (t2 & -> & Ht2). rewrite wire_app, unpacked_app, Hw, Hu.
    by destruct Ht2 as [->|[d ->]].
Qed.

(** Reporting to the host: what [report] does with a message. *)
Lemma report_log {S E} m (s : S) h :
  ⟪ s , h ⟫ report (E := E) (log_system_message m) ⟪ o s' t , s' = s ∧ unpacked t = [] ∧
    match o with
    | Ok _ => ∃ p, is_system_log m p ∧ wire t = stream_of [p]
    | Err _ => False
    | Panic => ∃ e, last t = Some e ∧ refused e = true
    end ⟫.
Proof.
  apply wp_unwrap. eapply wp_mono; [apply wp_conj; [apply log_system_message_sends|apply log_system_message_talks]|].
  intros o s' t [[-> Hp] (_ & Hf & Hl)].
  assert (unpacked t = []) as Hu.
  { apply unpacked_none. eapply Forall_impl; [exact Hf|]. by intros [] ?. }
  destruct o as [[]|e|]; (split_and!; [done..|]); [|by apply Hl..].
  destruct (Hp eq_refl) as (ps & (p & -> & Hlog) & Hw). eauto.
Qed.
(** A turn of a thread that is not done keeps the accounts and brings the
    pool nearer its end; it panics only when the stream refuses its message. *)
Definition turn_post (layers : list Descriptor) (t : history GuestI) (p : pool)
    (o : outcome RegistryErrors ()) (p' : pool) (t' : history GuestI) : Prop :=
  match o with
  | Ok _ => pool_inv layers (t ++ t') p' ∧ measure p' < measure p
  | Err _ => False
  | Panic => ∃ e, last t' = Some e ∧ refused e = true
  end.

Lemma measure_move p p' k w w' :
  workers p !! k = Some w → workers p' = <[k := w']> (workers p) →
  4 * length (queue p') + weight w' < 4 * length (queue p) + weight w → measure p' < measure p.
Proof.
  intros Hk Hw Hlt. unfold measure. rewrite Hw.
  pose proof (sum_update weight (workers p) k w w' Hk). lia.
Qed.

Lemma take_turn layers t p k h :
  pool_inv layers t p → workers p !! k = Some Looping →
  wp (a_turn auth (Z.of_nat (length layers)) k) p h (turn_post layers t p).
Proof.
  intros Hinv Hk. unfold turn. apply wp_get_bind. rewrite Hk. destruct (queue p) as [|l rest] eqn:Hq; simpl.
  - split; [|eapply measure_move; [done|done|simpl; lia]].
    eapply (pool_inv_silent layers t [] p _ k Looping (Finished None) []); simpl; try done.
  - split; [|eapply measure_move; [done|done|simpl; rewrite Hq; simpl; lia]].
    eapply (pool_inv_silent layers t [] p _ k Looping (CreatingFolder l) []); simpl; try done.
    + rewrite Hq, app_nil_r. simpl. by rewrite <-Permutation_middle, app_nil_r.
    + by rewrite Hq.
Qed.

Lemma folder_turn layers t p k l h :
  pool_inv layers t p → workers p !! k = Some (CreatingFolder l) →
  wp (a_turn auth (Z.of_nat (length layers)) k) p h (turn_post layers t p).
Proof.
  intros Hinv Hk. unfold turn, wp. rewrite get_bind, Hk, bind_run. unfold try.
  rewrite create_dir_all_run. cbv zeta. set (ok := respond h _). clearbody ok.
  destruct ok; simpl; (split; [|eapply measure_move; [done|done|simpl; lia]]).
  - eapply (pool_inv_silent layers t [_] p _ k _ (Pulling l) []); simpl; try done.
  - eapply (pool_inv_silent layers t [_] p _ k _ (Finished (Some IOErr)) [l]); simpl; try done.
Qed.

Lemma pull_turn layers t p k l h :
  pool_inv layers t p → workers p !! k = Some (Pulling l) →
  wp (a_turn auth (Z.of_nat (length layers)) k) p h (turn_post layers t p).
Proof.
  intros Hinv Hk. unfold turn. apply wp_get_bind. rewrite Hk.
  wp_step. wp_step. wp_use @pull_result. intros o ? t' (-> & Hw & Hu). destruct o as [size|e|]; [| |done]; wp_step.
  - rewrite app_nil_r. split; [|eapply measure_move; [done|done|simpl; lia]].
    eapply (pool_inv_silent layers t t' p _ k _ (Reporting l size) []); simpl; try done.
    by rewrite Hu.
  - rewrite app_nil_r. split; [|eapply measure_move; [done|done|simpl; lia]].
    eapply (pool_inv_silent layers t t' p _ k _ (Finished (Some e)) [l]); simpl; try done.
    by rewrite Hu.
Qed.

Lemma report_turn layers t p k l size h :
  (Z.of_nat (length layers) < 2 ^ 31)%Z →
  pool_inv layers t p → workers p !! k = Some (Reporting l size) →
  wp (a_turn auth (Z.of_nat (length layers)) k) p h (turn_post layers t p).
Proof.
  intros Hn Hinv Hk. pose proof (reported_below layers t p k l size Hinv Hk) as Hb.
  unfold turn. apply wp_get_bind. rewrite Hk.
  wp_step. unfold count_layer. wp_step. wp_step. wp_step. wp_step. wp_step.
  rewrite sarith_fits by lia. wp_step. wp_use @report_log. intros o p1 t' (-> & Hu & Ho).
  destruct o as [[]|e|]; [|done|done]. destruct Ho as (pk & Hlog & Hw). wp_step. simpl. rewrite app_nil_r.
  split; [|eapply measure_move; [done|done|simpl; lia]].
  eapply (pool_inv_move layers t t' p _ k (Reporting l size) Looping [l] [] [pk]); simpl; try done.
  - by rewrite Hu.
  - rewrite swrap_small by lia. lia.
  - intros reported ps Hp Hnum. apply (numbered_snoc _ reported ps l pk size); [done|].
    by replace (Z.of_nat (S (length reported))) with (progress p + 1)%Z by lia.
Qed.

Lemma turn_spec layers t p k w h :
  (Z.of_nat (length layers) < 2 ^ 31)%Z →
  pool_inv layers t p → workers p !! k = Some w → finished w = false →
  wp (a_turn auth (Z.of_nat (length layers)) k) p h (turn_post layers t p).
Proof.
  intros Hn Hinv Hk Hw. destruct w; [by apply take_turn|by eapply folder_turn|by eapply pull_turn|
    by eapply report_turn|done].
Qed.

(** A computation chosen by the state and the history. *)
Lemma wp_choose {S E A} (f : S → history GuestI → eff GuestI S E A) s h
    (Q : outcome E A → S → history GuestI → Prop) :
  wp (f s h) s h Q → wp (λ s h, f s h s h) s h Q.
Proof. done. Qed.

Lemma join_workers_spec layers fuel t p h :
  (Z.of_nat (length layers) < 2 ^ 31)%Z → pool_inv layers t p → measure p ≤ fuel →
  ⟪ p , h ⟫ joins fuel auth (Z.of_nat (length layers)) ⟪ o p' t' ,
    match o with
    | Ok (Some r) => pool_inv layers (t ++ t') p' ∧ joined (workers p') = Some r
    | Ok None | Err _ => False
    | Panic => ∃ e, last t' = Some e ∧ refused e = true
    end ⟫.
Proof.
  intros Hn. revert t p h. induction fuel as [|fuel IH]; intros t p h Hinv Hm;
    cbn [join_workers]; apply wp_get_bind;
    destruct (joined (workers p)) as [r|] eqn:Hj; try (wp_step; rewrite ?app_nil_r; by split);
    destruct (pick_running (workers p) (schedule h) Hj) as (w & Hk & Hw).
  - exfalso. pose proof (sum_update weight (workers p) _ w (Finished None) Hk) as Hs.
    assert (0 < weight w) by (destruct w; simpl; [lia..|done]).
    unfold measure in Hm. simpl in Hs. lia.
  - wp_step. apply (wp_choose (λ p h, a_turn auth _ (pick (workers p) (schedule h)))).
    wp_use (turn_spec layers t p _ w h Hn Hinv Hk Hw). intros [[]|e|] p1 t1 Ht; simpl in Ht; [|done..].
    destruct Ht as [Hinv1 Hm1]. wp_use IH; [done|lia|]. intros o p2 t2. rewrite app_assoc.
    destruct o as [[r|]|e|]; try done. intros (e & He & Hr). exists e. by rewrite last_app, He.
Qed.

Lemma pull_layers_spec {S} layers (s : S) h :
  (Z.of_nat (length layers) < 2 ^ 31)%Z →
  ⟪ s , h ⟫ pull_layers profile_ granted decimal schedule reference layers auth ⟪ o s' t , s' = s ∧
    match o with
    | Ok _ => unpacked t ≡ₚ place <$> layers ∧
        ∃ order ps, order ≡ₚ layers ∧ wire t = stream_of ps ∧ numbered (Z.of_nat (length layers)) order ps
    | Err e => length (unpacked t) < length layers ∧
        ∃ order ps, order ⊆+ layers ∧ wire t = stream_of ps ∧ numbered (Z.of_nat (length layers)) order ps
    | Panic => ∃ e, last t = Some e ∧ refused e = true
    end ⟫.
Proof.
  intros Hn. unfold pull_layers. wp_step. wp_step.
  wp_use (join_workers_spec layers _ [] (pool_of layers) h Hn (pool_inv_start layers) (measure_start layers)).
  intros o p t Ho. destruct o as [[r|]|e|]; [| |done|by wp_step; simpl; rewrite app_nil_r]; [|done].
  destruct Ho as [(reported & lost & ps & Hq & Hu & _ & Hw & Hnum & Hl & Hf & Hlen) Hj]. simpl in Hu, Hw.
  simpl. destruct r as [e|]; wp_step; rewrite app_nil_r; (split; [done|]).
  - assert (0 < length lost) as Hlost.
    { rewrite Hl. apply joined_Err in Hj. by destruct (omap failure (workers p)); [apply elem_of_nil in Hj|simpl; lia]. }
    split.
    + rewrite Hu, length_fmap, <-Hq, !length_app. lia.
    + exists reported, ps. split_and!; [|done..]. rewrite <-Hq.
      do 3 apply submseteq_inserts_l. by apply submseteq_inserts_r.
  - apply joined_Ok in Hj as (Hp & Ht & Hfail & Hne). rewrite Hp, Ht in Hq. rewrite Ht in Hu. rewrite Hfail in Hl.
    destruct lost; [|done]. rewrite app_nil_r in Hq. simpl in Hq, Hu.
    assert (queue p = []) as Hqueue.
    { destruct Hne as [Hne|Hne]; [|by apply Hf]. rewrite Hne in Hlen. simpl in Hlen.
      destruct layers; [|done]. apply Permutation_length in Hq. rewrite length_app in Hq. simpl in Hq.
      apply length_zero_iff_nil. lia. }
    rewrite Hqueue in Hq. simpl in Hq. split; [by rewrite Hu, Hq|]. by exists reported, ps.
Qed.

(** C12: The download threads, for every order in which they move and every
    behaviour of the registry, the disk and the stream.  They always come to an
    end.  On success every layer of the image was unpacked exactly once, from
    its blob, with its decoder, into its folder, and the host was told of each of
    them by messages numbered from 1 in the order they were sent; on failure
    some layer was not unpacked and the messages sent are still numbered so; a
    panic means that the stream refused a message. *)
Theorem layers_pulled {S} layers (s : S) h :
  (Z.of_nat (length layers) < 2 ^ 31)%Z →
  let r := pull_layers profile_ granted decimal schedule reference layers auth s h in
  st r = s ∧
  match out r with
  | Ok _ => unpacked (tr r) ≡ₚ place <$> layers ∧
      ∃ order ps, order ≡ₚ layers ∧ wire (tr r) = stream_of ps ∧ numbered (Z.of_nat (length layers)) order ps
  | Err e => length (unpacked (tr r)) < length layers ∧
      ∃ order ps, order ⊆+ layers ∧ wire (tr r) = stream_of ps ∧ numbered (Z.of_nat (length layers)) order ps
  | Panic => ∃ e, last (tr r) = Some e ∧ refused e = true
  end.
Proof. apply pull_layers_spec. Qed.
End pool.

(** ** The whole pull *)

Definition is_program (o : op GuestI) : bool := match o with Busybox _ | Mke2fs _ => true | _ => false end.

Definition quiet (o : op GuestI) : bool := negb (is_unpack o || is_program o).

(** The entries after which the code panics. *)
Definition fatal (e : entry GuestI) : bool :=
  refused e || negb (went_well e) ||
  (let 'existT o a := e in
   match o return guest_ans o → bool with
   | SaveDocument _ | GuestWriteFile _ _ => negb
   | _ => λ _, false
   end a).

(** [preparing strict m]: [m] neither unpacks nor runs a program, and panics
    (when [strict], and fails) only after a fatal entry. *)
Definition preparing {S E A} (strict : bool) (m : eff GuestI S E A) : Prop :=
  ∀ s h, ⟪ s , h ⟫ m ⟪ o s' t , s' = s ∧ Forall (λ o, quiet o = true) (ops t) ∧
    ((if strict then negb (is_ok o) else is_panic o) = true → ∃ e, last t = Some e ∧ fatal e = true) ⟫.

Section preparing.
Context `{Env : Environment GuestI} `{C : Codec} {S : Type} {strict : bool}.

Lemma preparing_bind {E A B} (m : eff GuestI S E A) (k : A → eff GuestI S E B) :
  preparing strict m → (∀ a, preparing strict (k a)) → preparing strict (m ≫= k).
Proof.
  intros Hm Hk s h. wp_step. wp_use Hm. intros [a|e|] s1 t1 (-> & Hf & Hl); [|by split_and!..].
  wp_use Hk. intros o s2 t2 (-> & Hf2 & Hl2). rewrite ops_app. split_and!; [done|by apply Forall_app|].
  intros (e & He & Hr)%Hl2. exists e. by rewrite last_app, He.
Qed.

Lemma preparing_ret {E A} (a : A) : preparing (S := S) (E := E) strict (mret a).
Proof. intros s h. apply wp_ret. split_and!; [done|done|]. by destruct strict. Qed.

Lemma preparing_throw {E A} (e : E) : preparing (S := S) (A := A) false (throw e).
Proof. intros s h. apply wp_throw. by split_and!. Qed.

(** An operation whose refusal is an error or a panic. *)
Lemma preparing_perform {E A} (o : GuestOp) (k : guest_ans o → eff GuestI S E A) :
  quiet o = true →
  (∀ a, preparing strict (k a) ∨ (fatal (existT (o : op GuestI) a) = true ∧ ∀ s h, tr (k a s h) = [] ∧ st (k a s h) = s)) →
  preparing strict (a ← perform (I := GuestI) o; k a).
Proof.
  intros Ho Hk s h. wp_step. apply (@wp_perform GuestI _ _ _ o). intros a _.
  destruct (Hk a) as [Ha|[Hf Hka]].
  - wp_use Ha. intros r s' t (-> & Hf & Hl). split_and!; [done|by constructor|].
    intros (e & He & Hr)%Hl. exists e. by rewrite last_app, He.
  - unfold wp. destruct (Hka s (h ++ [existT (o : op GuestI) a])) as [-> ->].
    split_and!; [done|by repeat constructor|]. eauto.
Qed.

Lemma preparing_report {E} (m : eff GuestI S CommErrors ()) : talks m → preparing (E := E) strict (report m).
Proof.
  intros Hm s h. apply wp_unwrap. wp_use Hm. intros o s' t (-> & Hf & Hl).
  assert (Forall (λ o, quiet o = true) (ops t)).
  { eapply Forall_impl; [exact Hf|]. by intros [] ?. }
  destruct o as [a|e|]; (split_and!; [done..|]); [by destruct strict| |]; intros _;
    (destruct Hl as (e' & He & Hr); [done|]); exists e'; unfold fatal; by rewrite Hr.
Qed.

Lemma preparing_unwrap {E E' A} (m : eff GuestI S E' A) : preparing true m → preparing (E := E) strict (unwrap m).
Proof.
  intros Hm s h. wp_step. wp_use Hm. intros [] s' t (-> & Hf & Hl); split_and!; try done; auto. by destruct strict.
Qed.

Lemma preparing_save {E} p : preparing (S := S) (E := E) strict (save p).
Proof.
  apply (preparing_perform (SaveDocument p)); [done|]. intros []; [left; apply preparing_ret|by right].
Qed.

Lemma preparing_write_all p c : preparing (S := S) strict (write_all p c).
Proof.
  apply (preparing_perform (GuestWriteFile p c)); [done|]. intros []; [left; apply preparing_ret|by right].
Qed.

Lemma preparing_map_err {E E' A} (f : E → E') (m : eff GuestI S E A) : preparing strict m → preparing strict (map_err f m).
Proof. intros Hm s h. wp_step. wp_use Hm. by intros []. Qed.

Lemma preparing_for_each {E A} (f : A → eff GuestI S E ()) l :
  (∀ x, preparing strict (f x)) → preparing strict (for_each f l).
Proof. intros Hf. induction l; simpl; [apply preparing_ret|by apply preparing_bind]. Qed.
End preparing.

Lemma preparing_create_dir_all `{Env : Environment GuestI} {S} p : preparing (S := S) false (create_dir_all p).
Proof.
  apply (preparing_perform (GuestCreateDirAll p)); [done|]. intros [];
    left; [apply preparing_ret|apply preparing_throw].
Qed.

Create HintDb preparing discriminated.
#[export] Hint Resolve preparing_bind preparing_ret preparing_throw preparing_report
  preparing_unwrap preparing_create_dir_all preparing_save preparing_write_all preparing_map_err
  preparing_for_each : preparing.

Section prepared.
Context `{Env : Environment GuestI} `{C : Codec}.
Variable profile_ : profile.
Variable granted : history GuestI → nat.
Variable decimal : Z → NumberPrefix.
Variable schedule : history GuestI → nat.
Variable reference : Reference.
Variable Json : Type.
Variable to_json_value : string → option Json.
Variable schema_version_u64 : Json → option Z.
Variable image_index : Json → option (list Descriptor).
Variable image_manifest : string → option ImageManifest.
Variable image_configuration : string → option ImageConfiguration.
Variable oauth_token : string → option string.
Variable builder_accepts : ContainerSpec → bool.

#[local] Abbreviation fetch := (get_manifest_and_config Json to_json_value schema_version_u64 image_index
  image_manifest image_configuration granted reference).

Lemma preparing_fetch {S} auth : preparing (S := S) false (fetch auth).
Proof.
  intros s h. wp_use @get_manifest_and_config_spec. intros o s' t (-> & Hr & _ & Ho).
  split_and!; [done| |by destruct o]. eapply Forall_impl; [exact Hr|].
  by intros x [->|(name & [-> | ->])].
Qed.

Lemma preparing_token {S} : preparing (S := S) false (registry_token reference oauth_token).
Proof.
  unfold registry_token. case_decide; [|auto with preparing]. apply preparing_bind; [|auto with preparing].
  apply preparing_map_err, (preparing_perform (HttpGet _ _)); [done|]. intros a. left.
  destruct a as [|r]; [apply preparing_throw|]. destruct (text_ r ≫= _); auto with preparing.
Qed.

(** A file that cannot be written panics. *)
Lemma preparing_prepare_fs {S E strict} p : preparing (S := S) (E := E) strict (unwrap (E' := ()) (prepare_fs p)).
Proof.
  apply preparing_unwrap, (preparing_perform (GuestPathExists _)); [done|].
  intros []; left; auto 6 with preparing.
Qed.

#[local] Abbreviation no_program := (λ o : op GuestI, is_program o = false).

Lemma talks_performs {S E A} (m : eff GuestI S CommErrors A) :
  talks m → performs (E := E) no_program (unwrap m).
Proof.
  intros Hm s h. destruct (Hm s h) as (_ & Hf & _). unfold unwrap.
  destruct (m s h) as [[] s1 t1]; (eapply Forall_impl; [exact Hf|]); by intros [] ?.
Qed.

Lemma turn_performs auth n k : performs no_program (turn profile_ granted decimal reference auth n k).
Proof.
  unfold turn. apply performs_bind; [auto with performs|]. intros p.
  destruct (workers p !! k) as [[|l|l|l size|r]|]; auto with performs.
  - destruct (queue p); [auto with performs|by apply performs_pure].
  - apply performs_bind; [|auto with performs]. apply performs_try. unfold create_dir_all.
    apply performs_bind; [by apply (performs_perform no_program (GuestCreateDirAll _))|].
    intros a. destruct a; auto with performs.
  - apply performs_bind; [|auto with performs]. apply performs_try. intros s h.
    destruct (pull_and_extract_layer_spec granted reference l (layer_folder l) auth s h) as [_ (bs & a & _ & Ho)].
    assert (Forall no_program (ops (attempts (blob_url reference (digest l)) auth bs a))) as Ha.
    { eapply Forall_impl; [apply (attempts_requests reference); eauto|]. by intros x [->|(name & [-> | ->])]. }
    destruct (out _); [destruct Ho as (? & ? & _ & _ & _ & ->)|destruct Ho as (t2 & -> & Ht2)|done];
      rewrite ops_app; (apply Forall_app; split; [exact Ha|]); [by repeat constructor|].
    destruct Ht2 as [->|[d ->]]; by repeat constructor.
  - apply performs_bind.
    + apply performs_bind; [auto with performs|]. intros q. apply performs_bind; [by apply performs_pure|].
      auto with performs.
    + intros i. apply performs_bind; [apply talks_performs, log_system_message_talks|auto with performs].
Qed.

Lemma pull_layers_performs {S} layers auth :
  performs (S := S) no_program (pull_layers profile_ granted decimal schedule reference layers auth).
Proof.
  unfold pull_layers. apply performs_bind.
  - apply performs_owned; [|auto with performs]. generalize (pool_fuel layers). intros fuel.
    induction fuel as [|fuel IH]; simpl; (apply performs_bind; [auto with performs|]); intros p;
      destruct (joined (workers p)); auto with performs.
    apply performs_bind; [|done]. intros s h. apply turn_performs.
  - intros [[[e|]|] ?]; cbn [fst]; auto with performs.
Qed.

(** The mount of the layers: the last one on top. *)
Definition overlay_mount (layers : list Descriptor) : op GuestI :=
  Busybox ["mount"; "-t"; "overlay"; "overlay"; "-o";
           "lowerdir=" +:+ join ":" (show_path <$> reverse (layer_folder <$> layers)) +:+
           ",upperdir=/mnt/rootfs,workdir=/mnt/work"; "/mnt/rootfs"].

#[local] Abbreviation pull_this_image := (pull_and_prepare_image profile_ granted decimal schedule
  reference Json to_json_value schema_version_u64 image_index image_manifest image_configuration
  oauth_token builder_accepts).

(** How a pull ends.  [t1] is everything before the mount, [t2] what
    follows it. *)
Definition pull_post {S} (overrides : RuntimeOverrides) (s : S) (o : outcome RegistryErrors RuntimeSpec)
    (t : history GuestI) : Prop :=
  match o with
  | Ok spec => ∃ auth h' m c t1 t2,
      out (fetch auth s h') = Ok (m, c) ∧
      create_runtime_spec builder_accepts (image_config c) overrides = inr spec ∧
      t = t1 ++ [existT (overlay_mount (layers m)) (ExitStatus (Some 0%Z))] ++ t2 ∧
      unpacked t1 ≡ₚ place reference <$> layers m ∧
      Forall no_program (ops t1) ∧ Forall (λ o, quiet o = true) (ops t2)
  | Err _ => Forall no_program (ops t)
  | Panic => ∃ e, last t = Some e ∧ fatal e = true
  end.

(** The trace so far: no program yet, and the archives [U] unpacked. *)
Definition so_far (U : list (option decoder * string * Path)) (t0 : history GuestI) : Prop :=
  Forall no_program (ops t0) ∧ unpacked t0 ≡ₚ U.

Lemma so_far_quiet U t0 t1 : so_far U t0 → Forall (λ o, quiet o = true) (ops t1) → so_far U (t0 ++ t1).
Proof.
  intros [Hp Hu] Hq. split.
  - rewrite ops_app. apply Forall_app. split; [done|]. eapply Forall_impl; [exact Hq|].
    intros o. unfold quiet. by destruct (is_unpack o), (is_program o).
  - rewrite unpacked_app, (unpacked_none t1), app_nil_r; [done|]. eapply Forall_impl; [exact Hq|].
    intros o. unfold quiet. by destruct (is_unpack o).
Qed.

(** A step that prepares, on the way to the end of the pull. *)
Lemma pull_step {S A} overrides (m : eff GuestI S RegistryErrors A) k (s : S) h U t0 :
  preparing false m → so_far U t0 →
  (∀ a t1, out (m s h) = Ok a → so_far U (t0 ++ t1) →
    ⟪ s , h ++ t1 ⟫ k a ⟪ o s' t , s' = s ∧ pull_post overrides s o ((t0 ++ t1) ++ t) ⟫) →
  ⟪ s , h ⟫ m ≫= k ⟪ o s' t , s' = s ∧ pull_post overrides s o (t0 ++ t) ⟫.
Proof.
  intros Hm H0 Hk. wp_step. specialize (Hm s h). unfold wp in Hm |- * at 1.
  destruct (m s h) as [o s1 t1] eqn:Hrun. simpl in *. destruct Hm as (-> & Hq & Hl).
  pose proof (so_far_quiet U t0 t1 H0 Hq) as H1. destruct o as [a|e|].
  - wp_use (Hk a t1 eq_refl H1). intros o s2 t2. by rewrite app_assoc.
  - split; [done|]. apply H1.
  - split; [done|]. destruct (Hl eq_refl) as (e & He & Hf). exists e. by rewrite last_app, He.
Qed.

Lemma pull_throw {S} overrides e (s : S) h U t0 :
  so_far U t0 → ⟪ s , h ⟫ throw e ⟪ o s' t , s' = s ∧ pull_post overrides s o (t0 ++ t) ⟫.
Proof. intros [H _]. wp_step. split; [done|]. simpl. by rewrite app_nil_r. Qed.

Lemma unwrap_no_error {S E E' A} (m : eff GuestI S E' A) (s : S) h :
  ⟪ s , h ⟫ unwrap (E := E) m ⟪ o _ _ , ∀ e, o ≠ Err e ⟫.
Proof. apply wp_unwrap. unfold wp. by destruct (out _). Qed.

(** A program that went well exited with 0. *)
Lemma program_ok args t : ops t = [Busybox args : op GuestI] → Forall (λ e, went_well e = true) t →
  t = [existT (Busybox args : op GuestI) (ExitStatus (Some 0%Z))].
Proof.
  destruct t as [|[o a] [|]]; try done. simpl. intros [= ->] [Hw _]%Forall_cons. simpl in Hw.
  destruct a as [| |[[]|]]; done.
Qed.

(** From the unpacked layers to the end. *)
Lemma mount_phase {S} overrides m c auth (s : S) h h' t0 :
  so_far (place reference <$> layers m) t0 → out (fetch auth s h') = Ok (m, c) →
  ⟪ s , h ⟫ save (path_join FOLDER ["image_config.json"]);;
      spec ← match create_runtime_spec builder_accepts (image_config c) overrides with
             | inr spec => mret spec
             | inl _ => throw UnableToConstructRuntimeConfig
             end;
      save (path_join FOLDER ["config.json"]);;
      save (path_join FOLDER ["manifest.json"]);;
      create_dir_all (path_join FOLDER ["rootfs"]);;
      create_dir_all (path_join FOLDER ["work"]);;
      create_overlay_fs (path_join FOLDER ["rootfs"]) (path_join FOLDER ["work"]) (layer_folder <$> layers m);;
      unwrap (E' := ()) (prepare_fs (path_join FOLDER ["rootfs"]));;
      mret spec ⟪ o s' t , s' = s ∧ pull_post overrides s o (t0 ++ t) ⟫.
Proof.
  intros H0 Hfetch.
  eapply pull_step; [auto with preparing|done|]. intros _ t1 _ H1.
  destruct (create_runtime_spec _ _ _) as [e|spec] eqn:Hspec.
  { wp_step. by eapply pull_throw. }
  eapply pull_step; [auto with preparing|done|]. intros spec' t2 [= ->] H2.
  eapply pull_step; [auto with preparing|done|]. intros _ t3 _ H3.
  eapply pull_step; [auto with preparing|done|]. intros _ t4 _ H4.
  eapply pull_step; [auto with preparing|done|]. intros _ t5 _ H5.
  eapply pull_step; [auto with preparing|done|]. intros _ t6 _ H6.
  revert H6. generalize ((((((t0 ++ t1) ++ t2) ++ t3) ++ t4) ++ t5) ++ t6). intros T [HT HU].
  wp_step. wp_use @runs_cmd. intros o ? t7 (-> & Ho). destruct o as [[]|e|]; [|done|].
  2: { split; [done|]. destruct Ho as (tx & e & -> & _ & _ & He). exists e. unfold fatal.
       by rewrite app_assoc, last_snoc, He, orb_true_r. }
  destruct Ho as [Hops Hwell]. apply program_ok in Hops as ->; [|done].
  wp_step. eapply wp_mono; [apply wp_conj; [apply (preparing_prepare_fs (strict := false))|apply unwrap_no_error]|].
  intros o ? t8 [(-> & Hq & Hl) Hne]. destruct o as [[]|e|]; [|by destruct (Hne e)|].
  - wp_step. split; [done|]. exists auth, h', m, c, T, t8. rewrite app_nil_r. by split_and!.
  - split; [done|]. destruct (Hl eq_refl) as (e & He & Hf). exists e. by rewrite !last_app, He.
Qed.

Lemma pull_and_prepare_image_spec {S} overrides (s : S) h :
  (∀ t m, image_manifest t = Some m → Z.of_nat (length (layers m)) < 2 ^ 31)%Z →
  ⟪ s , h ⟫ pull_this_image overrides ⟪ o s' t , s' = s ∧ pull_post overrides s o t ⟫.
Proof.
  intros Hsmall. change (⟪ s , h ⟫ pull_this_image overrides ⟪ o s' t , s' = s ∧ pull_post overrides s o ([] ++ t) ⟫).
  unfold pull_and_prepare_image.
  apply (pull_step _ _ _ _ _ []); [auto with preparing talks|by repeat constructor|]. intros _ t1 _ H1.
  apply (pull_step _ _ _ _ _ []); [apply preparing_token|done|]. intros auth t2 _ H2.
  apply (pull_step _ _ _ _ _ []); [apply preparing_fetch|done|]. intros [m c] t3 Hfetch H3. cbn [fst snd].
  apply (pull_step _ _ _ _ _ []); [auto with preparing|done|]. intros _ t4 _ H4.
  apply (pull_step _ _ _ _ _ []); [auto with preparing talks|done|]. intros _ t5 _ H5.
  apply (pull_step _ _ _ _ _ []); [auto with preparing|done|]. intros _ t6 _ H6.
  assert (Z.of_nat (length (layers m)) < 2 ^ 31)%Z as Hm.
  { destruct (get_manifest_and_config_spec Json to_json_value schema_version_u64 image_index image_manifest
      image_configuration granted reference auth s ((h ++ t1) ++ t2)) as (_ & _ & _ & Hc).
    rewrite Hfetch in Hc. destruct Hc as (? & ? & ? & ? & ? & r2 & ? & _ & _ & _ & _ & _ & _ & (txt & _ & Hp) & _).
    by apply (Hsmall txt). }
  wp_step. eapply wp_mono; [apply wp_conj; [by apply pull_layers_spec|
    apply (performs_wp _ _ _ _ (pull_layers_performs (layers m) auth))]|].
  intros o ? t7 [[-> Ho] Hnp]. destruct o as [[]|e|].
  2: { split; [done|]. simpl. rewrite ops_app. apply Forall_app. split; [apply H6|exact Hnp]. }
  2: { split; [done|]. destruct Ho as (e & He & Hr). exists e. unfold fatal. by rewrite last_app, He, Hr. }
  assert (so_far (place reference <$> layers m) ((((((([] ++ t1) ++ t2) ++ t3) ++ t4) ++ t5) ++ t6) ++ t7)) as H7.
  { destruct H6 as [Hp6 Hu6], Ho as [Hu7 _]. split; [rewrite ops_app; by apply Forall_app|].
    by rewrite unpacked_app, Hu6, Hu7. }
  eapply wp_mono; [|intros o s' t Hpost; rewrite app_assoc; exact Hpost].
  apply (mount_phase overrides m c auth s _ _ _ H7 Hfetch).
Qed.

(** C8: Pulling an image as a whole, when the manifests it may read have
    fewer than 2^31 layers.  On success the specification returned is the one
    made from the configuration of the image that was fetched, every one of its
    layers has been unpacked once into its own folder before the only program
    that is run, and that program mounted the folders with the last layer on top.
    On an error no program has been run; and a panic follows only a refused
    message, an unwritable document or file, or a failed mount. *)
Theorem image_prepared {S} overrides (s : S) h :
  (∀ t m, image_manifest t = Some m → Z.of_nat (length (layers m)) < 2 ^ 31)%Z →
  let r := pull_this_image overrides s h in
  st r = s ∧
  match out r with
  | Ok spec => ∃ auth h' m c t1 t2,
      out (fetch auth s h') = Ok (m, c) ∧
      create_runtime_spec builder_accepts (image_config c) overrides = inr spec ∧
      tr r = t1 ++ [existT (overlay_mount (layers m)) (ExitStatus (Some 0%Z))] ++ t2 ∧
      unpacked t1 ≡ₚ place reference <$> layers m ∧
      Forall no_program (ops t1) ∧ Forall (λ o, quiet o = true) (ops t2)
  | Err _ => Forall no_program (ops (tr r))
  | Panic => ∃ e, last (tr r) = Some e ∧ fatal e = true
  end.
Proof. intros Hsmall. by apply pull_and_prepare_image_spec. Qed.

(** Nothing a pull tells the host is an exit. *)
Lemma pull_layer_tells {S} layer folder auth :
  tells (S := S) not_exit (pull_and_extract_layer granted reference layer folder auth).
Proof.
  apply tells_silent. intros s h.
  destruct (pull_and_extract_layer_spec granted reference layer folder auth s h) as [_ (bs & a & _ & Ho)].
  assert (Forall (λ o, silent o = true) (ops (attempts (blob_url reference (digest layer)) auth bs a))) as Ha.
  { eapply Forall_impl; [apply (attempts_requests reference); eauto|]. by intros x [->|(name & [-> | ->])]. }
  destruct (out _); [destruct Ho as (? & ? & _ & _ & _ & ->)|destruct Ho as (t2 & -> & Ht2)|done];
    rewrite ops_app; (apply Forall_app; split; [exact Ha|]); [by repeat constructor|].
  destruct Ht2 as [->|[d ->]]; by repeat constructor.
Qed.

Lemma fetch_tells {S} auth : tells (S := S) not_exit (fetch auth).
Proof.
  apply tells_silent. intros s h.
  destruct (get_manifest_and_config_spec Json to_json_value schema_version_u64 image_index image_manifest
    image_configuration granted reference auth s h) as (_ & Hr & _).
  eapply Forall_impl; [exact Hr|]. by intros x [->|(name & [-> | ->])].
Qed.

Lemma token_tells {S} : tells (S := S) not_exit (registry_token reference oauth_token).
Proof.
  unfold registry_token, docker_io_oauth. case_decide; [|auto with tells].
  apply tells_bind; [|auto with tells]. apply tells_map_err, tells_bind; [auto with tells|].
  intros [|r]; [auto with tells|]. destruct (text_ r ≫= _); auto with tells.
Qed.

Lemma turn_tells auth n k : tells not_exit (turn profile_ granted decimal reference auth n k).
Proof.
  pose proof (@pull_layer_tells pool). unfold turn, count_layer, create_dir_all.
  apply tells_bind; [auto with tells|]. intros p. destruct (workers p !! k) as [[]|]; auto 8 with tells.
  - destruct (queue p); auto with tells.
  - apply tells_bind; [|auto with tells]. apply tells_try, tells_bind; [auto with tells|].
    intros a. destruct a; auto with tells.
Qed.

Lemma pull_layers_tells {S} layers auth :
  tells (S := S) not_exit (pull_layers profile_ granted decimal schedule reference layers auth).
Proof.
  unfold pull_layers. apply tells_bind.
  - apply tells_owned. generalize (pool_fuel layers). intros fuel.
    induction fuel as [|fuel IH]; simpl; (apply tells_bind; [auto with tells|]); intros p;
      destruct (joined (workers p)); auto with tells.
    apply tells_bind; [|done]. intros s h. apply turn_tells.
  - intros [[[e|]|] ?]; cbn [fst]; auto with tells.
Qed.

Lemma dir_tells {S} p : tells (S := S) not_exit (create_dir_all p).
Proof. apply tells_bind; [auto with tells|]. intros a. destruct a; auto with tells. Qed.
Lemma save_tells {S E} p : tells (S := S) (E := E) not_exit (save p).
Proof. apply tells_bind; [auto with tells|]. intros a. destruct a; auto with tells. Qed.
Lemma cmd_tells {S E} args : tells (S := S) (E := E) not_exit (cmd args).
Proof. apply tells_bind; [auto with tells|]. intros a. destruct (succeeded a); auto with tells. Qed.
Lemma write_all_tells {S} p c : tells (S := S) not_exit (write_all p c).
Proof. apply tells_bind; [auto with tells|]. intros a. destruct a; auto with tells. Qed.
Lemma prepare_fs_tells {S} p : tells (S := S) not_exit (prepare_fs p).
Proof.
  pose proof (@write_all_tells S). apply tells_bind; [auto with tells|]. intros a.
  destruct a; auto 6 with tells.
Qed.

Lemma pull_tells {S} overrides : tells (S := S) not_exit (pull_this_image overrides).
Proof.
  unfold pull_and_prepare_image, create_overlay_fs.
  pose proof (@dir_tells S). pose proof (@save_tells S RegistryErrors).
  apply tells_bind; [auto with tells|]. intros _.
  apply tells_bind; [apply token_tells|]. intros auth.
  apply tells_bind; [apply fetch_tells|]. intros [m c]. cbn [fst snd].
  apply tells_bind; [done|]. intros _.
  apply tells_bind; [auto with tells|]. intros _.
  apply tells_bind; [auto with tells|]. intros _.
  apply tells_bind; [apply pull_layers_tells|]. intros _.
  apply tells_bind; [done|]. intros _.
  apply tells_bind; [destruct (create_runtime_spec _ _ _); auto with tells|]. intros spec.
  do 4 (apply tells_bind; [done|]; intros _).
  apply tells_bind; [apply cmd_tells|]. intros _.
  apply tells_bind; [apply tells_unwrap, prepare_fs_tells|auto with tells].
Qed.
End prepared.

(** ** Evaluation *)

Module Demo.
Import Registry.Demo.
#[local] Existing Instance registry_env.

(** Only the text of a message is sent. *)
#[local] Instance text_codec : Codec := {
  serialize_guest_packet p := match p with Log m => bytes (text m) | _ => [] end;
  deserialize_guest_packet _ := None;
  serialize_host_packet _ := [];
  deserialize_host_packet _ := None;
}.

Definition decimal (size : Z) : NumberPrefix := Standalone (pretty size).

(** Two layers, and threads that move in turn. *)
Abbreviation pull :=
  (pull_layers Debug (λ _, 2) decimal (λ h, length h) ref_ [desc "sha256:a" Amd64 Linux; desc "sha256:b" Amd64 Linux]
    None () []).

Lemma layers_pulled_witness :
  out pull = Ok () ∧ unpacked (tr pull) ≡ₚ
    [(Some GzDecoder, "https://r/v2/app/blobs/sha256:a", ["/"; "mnt"; "layers"; "sha256a"]);
     (Some GzDecoder, "https://r/v2/app/blobs/sha256:b", ["/"; "mnt"; "layers"; "sha256b"])].
Proof.
  split; [vm_compute; reflexivity|].
  assert (out pull = Ok ()) as Ho by (vm_compute; reflexivity).
  destruct (layers_pulled Debug (λ _, 2) decimal (λ h, length h) ref_ None
    [desc "sha256:a" Amd64 Linux; desc "sha256:b" Amd64 Linux] () []) as [_ H]; [vm_compute; reflexivity|].
  cbv zeta in H. rewrite Ho in H. exact (proj1 H).
Defined.

Abbreviation pull_image :=
  (pull_and_prepare_image Debug (λ _, 2) decimal (λ h, length h) ref_ string Some (λ _, Some 2%Z)
    (λ _, Some [desc "mine" Amd64 Linux]) (λ _, Some image) (λ _, Some {| image_config := None |}) (λ _, None)
    (λ _, true) {| additional_args := None; additional_env := None; terminal := false |} () []).

Example pulls_image : out pull_image = Ok DefaultSpec ∧
  filter (λ o, is_program o = true) (ops (tr pull_image)) =
    [Busybox ["mount"; "-t"; "overlay"; "overlay"; "-o";
              "lowerdir=/mnt/layers/layer2:/mnt/layers/layer1,upperdir=/mnt/rootfs,workdir=/mnt/work"; "/mnt/rootfs"]
      : op GuestI].
Proof. vm_compute. done. Qed.

Lemma image_prepared_witness :
  ∃ t1 t2 args, tr pull_image = t1 ++ [existT (Busybox args : op GuestI) (ExitStatus (Some 0%Z))] ++ t2 ∧
    unpacked t1 ≡ₚ place ref_ <$> layers image.
Proof.
  assert (out pull_image = Ok DefaultSpec) as Ho by (vm_compute; reflexivity).
  destruct (image_prepared Debug (λ _, 2) decimal (λ h, length h) ref_ string Some (λ _, Some 2%Z)
    (λ _, Some [desc "mine" Amd64 Linux]) (λ _, Some image) (λ _, Some {| image_config := None |}) (λ _, None)
    (λ _, true) {| additional_args := None; additional_env := None; terminal := false |} () []) as [_ H].
  { intros t m [= <-]. vm_compute. reflexivity. }
  cbv zeta in H. rewrite Ho in H. destruct H as (auth & h' & m & c & t1 & t2 & Hf & _ & Ht & Hu & _).
  destruct (get_manifest_and_config_spec string Some (λ _, Some 2%Z) (λ _, Some [desc "mine" Amd64 Linux])
    (λ _, Some image) (λ _, Some {| image_config := None |}) (λ _, 2) ref_ auth () h') as (_ & _ & _ & Hc).
  rewrite Hf in Hc. destruct Hc as (? & ? & ? & ? & ? & ? & ? & _ & _ & _ & _ & _ & _ & (? & _ & [= <-]) & _).
  exists t1, t2. eexists. split; [exact Ht|exact Hu].
Defined.
End Demo.
