(* ===== verification/GuestMain.v ===== *)
(** * The init program (src/instance/src/main.rs)

    The main thread ([main], after the hook is set), the thread that reads the
    host's packets ([listener]), the thread that waits for the container
    ([container_waiter]), and the whole process ([instance]): the logger, and
    the panic hook, which turns a panic of the main thread or of any other,
    at whatever moment, into a reboot.  The threads meet in the exit channel and
    in the stream to the host.  Of the calls that can wait, only the receive on the
    exit channel is taken to wait for ever when nothing comes; the others
    (HTTP, the stream, a child's end, the joins) are taken to return. *)

From S2P Require Import Prelude Bytes Vmproto HostOps Communicator GuestOps GuestComm PipeLog Mmds RuntimeSpec Registry Init Layers.

Definition CARGO_PKG_VERSION : string := "0.1.0".

Record Config : Set := {
  image : string;
  cmd_args : option (list string);
  env : option (list (string * string));
  vsock_port : Z;
}.

Definition rt_overrides (config : Config) : RuntimeOverrides :=
  {| additional_args := cmd_args config; additional_env := env config; terminal := false |}.

(** [{:?}] of an error. *)
Definition debug_error (e : RegistryErrors) : string :=
  match e with
  | NetworkError => "NetworkError"
  | RegistryResponseError => "RegistryResponseError"
  | NoCompatibleImageAvailable => "NoCompatibleImageAvailable"
  | UnsupportedRegistryImageFormat => "UnsupportedRegistryImageFormat"
  | UnableToParseImageIndex => "UnableToParseImageIndex"
  | UnableToParseImageManifest => "UnableToParseImageManifest"
  | UnableToParseImageConfiguration => "UnableToParseImageConfiguration"
  | UnableToConstructRuntimeConfig => "UnableToConstructRuntimeConfig"
  | AuthenticationError => "AuthenticationError"
  | IOErr => "IOErr"
  | ExtractIOError => "ExtractIOError"
  end.

(** ** The thread that reads the host's packets

    Every shutdown request is a code on the exit channel; the thread ends
    only by a panic, when no packet can be read.  [fuel] is the length of the
    stream: a packet takes at least four bytes. *)
Fixpoint listen `{C : Codec} (fuel : nat) (s : list byte) : list GuestExitCode :=
  match fuel with
  | 0 => []
  | S fuel =>
      match read_packet s with
      | inr (Shutdown, rest) => GracefulShutdown :: listen fuel rest
      | inl _ => []
      end
  end.

Definition listener `{C : Codec} (s : list byte) : list GuestExitCode := listen (length s) s.

Section guest_main.
Context `{Env : Environment GuestI} `{C : Codec}.

Variable profile_ : profile.
Variable granted : history GuestI → nat.
Variable decimal : Z → NumberPrefix.
Variable schedule : history GuestI → nat.
Variable config_from_json : string → option Config.
Variable reference_try_from : string → string + Reference.
Variable Json : Type.
Variable to_json_value : string → option Json.
Variable schema_version_u64 : Json → option Z.
Variable image_index : Json → option (list Descriptor).
Variable image_manifest : string → option ImageManifest.
Variable image_configuration : string → option ImageConfiguration.
Variable oauth_token : string → option string.
Variable builder_accepts : ContainerSpec → bool.

#[local] Abbreviation guest A := (eff GuestI () () A).

Definition require (o : GuestOp) (ok : guest_ans o → bool) : guest () :=
  a ← perform (I := GuestI) o;
  if ok a then mret () else panic.

(** [sync(); reboot(..); exit(1)], after flushing the standard streams. *)
Definition shutdown : guest () :=
  _ ← perform (I := GuestI) SyncAndReboot; mret ().

(** [exit_rx.recv().expect(..)].  [main] keeps a sender, [exit_tx], to its
    end, so the channel is never closed and the [expect] never fails: when no
    code comes the thread waits for ever.  That is the answer [None], and
    [Err ()], which nothing else in the main thread yields. *)
Definition recv : guest GuestExitCode :=
  code ← perform (I := GuestI) RecvExit;
  match code with Some code => mret code | None => throw () end.

(** The thread that waits for the container, and the code it sends. *)
Definition container_waiter : guest GuestExitCode :=
  res ← perform (I := GuestI) WaitContainer;
  code ← or_panic res;
  report (log_system_message ("Container exited with code: " +:+
    match code with Some c => pretty c | None => "unknown" end));;
  mret (ContainerExited (default 9999%Z code)).

(** [crun kill], whose failure is of no consequence. *)
Definition stop_container : guest () :=
  spawned ← perform (I := GuestI) (SpawnCrun ["kill"; "container"]);
  if spawned : bool then (_ ← perform (I := GuestI) WaitCrun; mret ()) else mret ().

(** From the running container to the reboot. *)
Definition run_container : guest () :=
  report (state_change ExecutingContainer None);;
  require (SpawnCrun ["run"; "container"]) id;;
  res ← recv;
  res ← (if decide (res = GracefulShutdown) then
           report (log_system_message "Received graceful shutdown command... Stopping container.");;
           stop_container;;
           recv
         else mret res);
  _ ← perform (I := GuestI) JoinLogThread;
  _ ← perform (I := GuestI) JoinLogThread;
  report (exit res None);;
  shutdown.

Definition fail_to_pull (message : string) : guest () :=
  report (exit FailedToPullContainerImage (Some message));;
  shutdown.

(** From the configuration to the end. *)
Definition container_of (config : Config) : guest () :=
  match reference_try_from (image config) with
  | inl e => fail_to_pull ("Failed to parse container image reference: " +:+ e)
  | inr reference =>
      r ← attempt (pull_and_prepare_image profile_ granted decimal schedule reference Json to_json_value
            schema_version_u64 image_index image_manifest image_configuration oauth_token builder_accepts
            (rt_overrides config));
      match r with
      | inl e => fail_to_pull ("Unable to pull and extract container image: " +:+ debug_error e)
      | inr _ => run_container
      end
  end.

(** What precedes the container, from the check of the pid on. *)
Definition start : guest Config :=
  require ProcessId (λ pid, (pid =? 1)%Z);;
  init;;
  mmds ← unwrap (E' := MMDSClientError) connect;
  config ← unwrap (E' := MMDSClientError)
    (owned (λ _, mret ()) mmds (mmds_get config_from_json "/latest/container"));
  let config := config.1 in
  unwrap (E' := CommErrors) (host_communication_new (vsock_port config));;
  report (state_change Online (Some ("Instance v. " +:+ CARGO_PKG_VERSION)));;
  unwrap (E' := CommErrors) clone_stream;;
  mret config.

(** [main] once the panic hook is set. *)
Definition main : guest () :=
  config ← start;
  container_of config.

(** [fn panic]: it logs, and ends like [shutdown]. *)
Definition panic_hook : guest () := shutdown.

(** A thread that panics runs the hook, on that thread. *)
Definition hooked (m : guest ()) : guest () := λ s h,
  match m s h with
  | Run Panic s1 t1 => let r := panic_hook s1 (h ++ t1) in Run (out r) (st r) (t1 ++ tr r)
  | r => r
  end.

Definition is_waiting (o : outcome () ()) : bool := match o with Err _ => true | _ => false end.

(** Another thread (the listener, the waiter, a log thread) may panic: after
    [k] operations of the main thread, [other = Some k].  Its hook ends the
    process there, and so it does for a main thread that waits for ever; a
    process that has ended already is not concerned. *)
Definition interrupted (other : option nat) (m : guest ()) : guest () := λ s h,
  let r := m s h in
  match other with
  | Some k =>
      if bool_decide (k < length (tr r)) || is_waiting (out r) then
        let t1 := take k (tr r) in
        let r2 := panic_hook s (h ++ t1) in Run (out r2) (st r2) (t1 ++ tr r2)
      else r
  | None => r
  end.

(** The process.  The logger comes before the hook: if it cannot be set up,
    nothing else happens. *)
Definition instance (other : option nat) : guest () :=
  require InitLogger id;;
  interrupted other (hooked main).
End guest_main.

(** ** Where a run can end *)

(** The crun invocations of a trace, and the number of codes taken off the
    exit channel. *)
Definition crun_of (o : op GuestI) : option (list string) :=
  match o with SpawnCrun args => Some args | _ => None end.

Definition cruns (t : history GuestI) : list (list string) := omap crun_of (ops t).

Definition is_recv (o : op GuestI) : bool := match o with RecvExit => true | _ => false end.

Definition receives (t : history GuestI) : nat := length (filter (λ o, is_recv o = true) (ops t)).

Definition is_reboot (o : op GuestI) : bool := match o with SyncAndReboot => true | _ => false end.

Lemma cruns_app t u : cruns (t ++ u) = cruns t ++ cruns u.
Proof. unfold cruns. by rewrite ops_app, omap_app. Qed.

Lemma receives_app t u : receives (t ++ u) = receives t + receives u.
Proof. unfold receives. by rewrite ops_app, filter_app, length_app. Qed.

Lemma no_reboot_app (t u : history GuestI) :
  Forall (λ o, is_reboot o = false) (ops t) → Forall (λ o, is_reboot o = false) (ops u) →
  Forall (λ o, is_reboot o = false) (ops (t ++ u)).
Proof. intros. rewrite ops_app. by apply Forall_app. Qed.

Lemma background_trace t : Forall (λ o, background o = true) (ops t) →
  cruns t = [] ∧ receives t = 0 ∧ Forall (λ o, is_reboot o = false) (ops t).
Proof.
  unfold cruns, receives. induction t as [|[o a] t IH]; [done|]. intros [Ho Ht]%Forall_cons.
  destruct (IH Ht) as (IH1 & IH2 & IH3).
  destruct o; try done; (split; [exact IH1|split; [exact IH2|by constructor]]).
Qed.

(** The last thing done is to wait for a code that never comes. *)
Definition waits (t : history GuestI) : Prop :=
  ∃ t0, t = t0 ++ [existT (RecvExit : op GuestI) None] ∧ Forall (λ o, is_reboot o = false) (ops t0).

Lemma waits_app (t1 t : history GuestI) :
  Forall (λ o, is_reboot o = false) (ops t1) → waits t → waits (t1 ++ t).
Proof.
  intros Ht1 (t0 & -> & Ht0). exists (t1 ++ t0). rewrite app_assoc. split; [done|]. by apply no_reboot_app.
Qed.

(** [ends Q m]: when [m] returns, the machine was rebooted as its last act and
    only then; it told the host whole packets, one of them an exit, with
    nothing but messages around it, and its trace, code and history satisfy
    [Q].  Otherwise nothing rebooted the machine, and [m] panicked or waits. *)
Definition ends `{C : Codec} (Q : history GuestI → history GuestI → GuestExitCode → Prop)
    (m : eff GuestI () () ()) : Prop :=
  ∀ s h, ⟪ s , h ⟫ m ⟪ o _ t ,
    match o with
    | Ok _ => ∃ t0 b ps code l,
        t = t0 ++ [existT (SyncAndReboot : op GuestI) b] ∧ Forall (λ o, is_reboot o = false) (ops t0) ∧
        wire t = stream_of (ps ++ Exited code :: l) ∧ Forall not_exit ps ∧ Forall not_exit l ∧ Q h t code
    | Err _ => waits t
    | Panic => Forall (λ o, is_reboot o = false) (ops t)
    end ⟫.

(** How an exit code comes about after a container was started: the first
    code received, unless that is a shutdown request, which is passed on to the
    container before the next code is waited for. *)
Definition exit_cause `{Env : Environment GuestI} (h t : history GuestI) (code : GuestExitCode) : Prop :=
  (cruns t = [] ∧ code = FailedToPullContainerImage) ∨
  (∃ h1, receives h1 = receives h ∧ respond h1 (RecvExit : op GuestI) = Some code ∧
     code ≠ GracefulShutdown ∧ cruns t = [["run"; "container"]]) ∨
  (∃ h1 h2, receives h1 = receives h ∧ respond h1 (RecvExit : op GuestI) = Some GracefulShutdown ∧
     receives h2 = S (receives h) ∧ respond h2 (RecvExit : op GuestI) = Some code ∧
     cruns t = [["run"; "container"]; ["kill"; "container"]]).

Section ends.
Context `{Env : Environment GuestI} `{C : Codec}.

Lemma ends_after {A} Q (m : eff GuestI () () A) k :
  tells not_exit m → (∀ s h, out (m s h) ≠ Err ()) →
  (∀ a, ends (λ h t code, ∀ h0 t0, h = h0 ++ t0 → Forall (λ o, background o = true) (ops t0) → Q h0 (t0 ++ t) code) (k a)) →
  ends Q (m ≫= k).
Proof.
  intros Hm He Hk s h. wp_step. specialize (He s h). specialize (Hm s h). unfold wp in Hm |- * at 1.
  destruct (m s h) as [[a|[]|] s1 t1]; simpl in *; [|done|apply background_trace, Hm].
  destruct Hm as [Hb (ps & Hw & Hps)]; [done|].
  pose proof (background_trace t1 Hb) as (_ & _ & Hr). wp_use Hk.
  intros [[]|e|] s2 t2; [|by apply waits_app|intros Ht2; rewrite ops_app; by apply Forall_app].
  intros (t0 & b & qs & code & l & -> & Hr0 & Hw0 & Hqs & Hl & HQ).
  exists (t1 ++ t0), b, (ps ++ qs), code, l. split_and!.
  - by rewrite app_assoc.
  - rewrite ops_app. by apply Forall_app.
  - unfold stream_of in *. rewrite wire_app, Hw, Hw0, <-app_assoc. symmetry. apply bind_app.
  - by apply Forall_app.
  - done.
  - by apply HQ.
Qed.

(** The exit packet and the reboot. *)
Lemma report_exit code message s h :
  ⟪ s , h ⟫ report (E := ()) (exit code message);; shutdown ⟪ o _ t ,
    match o with
    | Ok _ => ∃ t0 b l, t = t0 ++ [existT (SyncAndReboot : op GuestI) b] ∧
        Forall (λ o, background o = true) (ops t0) ∧ wire t = stream_of (Exited code :: l) ∧ Forall not_exit l
    | Err _ => False
    | Panic => Forall (λ o, background o = true) (ops t)
    end ⟫.
Proof.
  wp_step. apply wp_unwrap.
  eapply wp_mono; [apply wp_conj; [apply exit_sends|apply exit_talks]|].
  intros o s' t [[-> Ht] (_ & Hf & _)].
  assert (Forall (λ o, background o = true) (ops t)) as Hb.
  { eapply Forall_impl; [exact Hf|]. by intros [] ?. }
  destruct o as [[]|e|]; [|done|done]. destruct (Ht eq_refl) as (ps & (l & -> & Hl) & Hw).
  unfold shutdown. wp_step. apply (@wp_perform GuestI _ _ _ SyncAndReboot). intros b _. wp_step.
  exists t, b, l. split_and!; [done..| |by eapply system_logs_not_exit].
  by rewrite wire_app, Hw, app_nil_r.
Qed.

Lemma fail_to_pull_ends message : ends exit_cause (fail_to_pull message).
Proof.
  intros s h. wp_use report_exit. intros [[]|e|] _ t; [|done|intros Ht; by apply background_trace in Ht as (_ & _ & ?)].
  intros (t0 & b & l & -> & Hb & Hw & Hl). apply background_trace in Hb as (Hc & Hr & Hn).
  exists t0, b, [], FailedToPullContainerImage, l. split_and!; try done. left. by rewrite cruns_app, Hc.
Qed.

Lemma exit_cause_after h0 t0 t code :
  Forall (λ o, background o = true) (ops t0) → exit_cause (h0 ++ t0) t code → exit_cause h0 (t0 ++ t) code.
Proof.
  intros (Hc & Hr & _)%background_trace. unfold exit_cause. rewrite cruns_app, Hc, receives_app, Hr, Nat.add_0_r.
  done.
Qed.

Lemma ends_seq {A} (m : eff GuestI () () A) k :
  tells not_exit m → (∀ s h, out (m s h) ≠ Err ()) → (∀ a, ends exit_cause (k a)) → ends exit_cause (m ≫= k).
Proof.
  intros Hm He Hk. apply ends_after; [done..|]. intros a s h. wp_use Hk. intros o s' t Ht.
  destruct o as [[]|e|]; [|done..]. destruct Ht as (t0 & b & ps & code & l & ? & ? & ? & ? & ? & HQ).
  exists t0, b, ps, code, l. split_and!; try done. intros h0 t1 -> Hb. by apply exit_cause_after.
Qed.

(** What follows the last code. *)
Lemma finish code s h :
  ⟪ s , h ⟫ _ ← perform (I := GuestI) JoinLogThread;
      _ ← perform (I := GuestI) JoinLogThread;
      report (exit code None);; shutdown ⟪ o _ t ,
    match o with
    | Ok _ => ∃ t0 b l, t = t0 ++ [existT (SyncAndReboot : op GuestI) b] ∧
        Forall (λ o, background o = true) (ops t0) ∧ wire t = stream_of (Exited code :: l) ∧ Forall not_exit l
    | Err _ => False
    | Panic => Forall (λ o, background o = true) (ops t)
    end ⟫.
Proof.
  wp_step. apply (@wp_perform GuestI _ _ _ JoinLogThread). intros j1 _.
  wp_step. apply (@wp_perform GuestI _ _ _ JoinLogThread). intros j2 _.
  wp_use report_exit. intros [[]|e|] _ t; [|done|].
  - intros (t0 & b & l & -> & Hb & Hw & Hl).
    exists ([existT (JoinLogThread : op GuestI) j1] ++ [existT (JoinLogThread : op GuestI) j2] ++ t0), b, l.
    by repeat constructor.
  - intros Hb. by repeat constructor.
Qed.

Lemma report_no_error {S E} (m : eff GuestI S CommErrors ()) s h e : out (report (E := E) m s h) ≠ Err e.
Proof. unfold report, unwrap. by destruct (m s h) as [[] ??]. Qed.

(** Passing a shutdown request on, and waiting for the next code. *)
Lemma stop_and_wait h :
  ⟪ () , h ⟫ report (E := ()) (log_system_message "Received graceful shutdown command... Stopping container.");;
      stop_container;;
      recv ⟪ o _ t ,
    match o with
    | Ok code => cruns t = [["kill"; "container"]] ∧ Forall (λ o, is_reboot o = false) (ops t) ∧
        (∃ ps, wire t = stream_of ps ∧ Forall not_exit ps) ∧
        ∃ h2, receives h2 = receives h ∧ respond h2 (RecvExit : op GuestI) = Some code
    | Err _ => waits t
    | Panic => Forall (λ o, is_reboot o = false) (ops t)
    end ⟫.
Proof.
  wp_step. pose proof (report_no_error (E := ()) (log_system_message "Received graceful shutdown command... Stopping container.") () h) as Hne.
  pose proof (tells_log (S := ()) (E := ()) "Received graceful shutdown command... Stopping container." () h) as Ht.
  unfold wp in Ht |- * at 1. destruct (report _ _ _) as [[[]|e|] [] t1]; simpl in *;
    [|by destruct (Hne e)|apply background_trace, Ht].
  destruct Ht as [Hb (ps & Hw & Hps)]; [done|]. apply background_trace in Hb as (Hc & Hr & Hn).
  wp_step. unfold stop_container. wp_step. apply (@wp_perform GuestI _ _ _ (SpawnCrun ["kill"; "container"])).
  intros spawned _. set (e1 := existT (SpawnCrun ["kill"; "container"] : op GuestI) spawned : entry GuestI).
  change (existT _ spawned) with e1.
  assert (∀ te, cruns te = [] ∧ receives te = 0 ∧ Forall (λ o, is_reboot o = false) (ops te) ∧ wire te = [] →
    ⟪ () , (h ++ t1) ++ e1 :: te ⟫ recv ⟪ o _ t , match o with
      | Ok code => cruns (t1 ++ (e1 :: te) ++ t) = [["kill"; "container"]] ∧
          Forall (λ o, is_reboot o = false) (ops (t1 ++ (e1 :: te) ++ t)) ∧
          (∃ ps, wire (t1 ++ (e1 :: te) ++ t) = stream_of ps ∧ Forall not_exit ps) ∧
          ∃ h2, receives h2 = receives h ∧ respond h2 (RecvExit : op GuestI) = Some code
      | Err _ => waits (t1 ++ (e1 :: te) ++ t)
      | Panic => Forall (λ o, is_reboot o = false) (ops (t1 ++ (e1 :: te) ++ t)) end ⟫) as Hrecv.
  { intros te (Hc2 & Hr2 & Hn2 & Hw2). unfold recv. wp_step. apply (@wp_perform GuestI _ _ _ RecvExit).
    intros code Hcode.
    assert (Forall (λ o, is_reboot o = false) (ops (t1 ++ (e1 :: te) ++ [existT (RecvExit : op GuestI) code]))) as Hall.
    { apply no_reboot_app; [done|]. apply (no_reboot_app (e1 :: te)); by repeat constructor. }
    destruct code as [code|].
    2: { apply wp_throw. rewrite app_nil_r. exists (t1 ++ (e1 :: te)). rewrite <-app_assoc. split; [done|].
         apply no_reboot_app; [done|]. by constructor. }
    apply wp_ret. rewrite app_nil_r. split_and!.
    - rewrite !cruns_app, Hc. change (e1 :: te) with ([e1] ++ te). by rewrite cruns_app, Hc2.
    - exact Hall.
    - exists ps. split; [|done]. rewrite !wire_app, Hw. change (e1 :: te) with ([e1] ++ te).
      by rewrite wire_app, Hw2, !app_nil_r.
    - exists ((h ++ t1) ++ e1 :: te). split; [|done]. change (e1 :: te) with ([e1] ++ te).
      rewrite !receives_app, Hr, Hr2. simpl. lia. }
  destruct spawned; cbn [e1].
  - do 3 wp_step. apply (Hrecv [existT (WaitCrun : op GuestI) _]). by repeat constructor.
  - wp_step. apply (Hrecv []). by repeat constructor.
Qed.

(** The part of a run that follows the codes received. *)
Lemma finish_after code h pre ps :
  Forall (λ o, is_reboot o = false) (ops pre) → wire pre = stream_of ps → Forall not_exit ps →
  (∀ t, cruns t = [] → exit_cause h (pre ++ t) code) →
  ⟪ () , h ++ pre ⟫ _ ← perform (I := GuestI) JoinLogThread;
      _ ← perform (I := GuestI) JoinLogThread;
      report (exit code None);; shutdown ⟪ o _ t ,
    match o with
    | Ok _ => ∃ t0 b ps code l,
        pre ++ t = t0 ++ [existT (SyncAndReboot : op GuestI) b] ∧ Forall (λ o, is_reboot o = false) (ops t0) ∧
        wire (pre ++ t) = stream_of (ps ++ Exited code :: l) ∧ Forall not_exit ps ∧ Forall not_exit l ∧
        exit_cause h (pre ++ t) code
    | Err _ => False
    | Panic => Forall (λ o, is_reboot o = false) (ops (pre ++ t))
    end ⟫.
Proof.
  intros Hn Hw Hps Hex. wp_use finish. intros [[]|e|] _ t; [|done|].
  - intros (t0 & b & l & -> & (Hc & Hr & Hn0)%background_trace & Hw0 & Hl).
    exists (pre ++ t0), b, ps, code, l. split_and!; [by rewrite app_assoc|by apply no_reboot_app| |done..|].
    + unfold stream_of in *. rewrite wire_app, Hw, Hw0. symmetry. apply bind_app.
    + apply Hex. by rewrite cruns_app, Hc.
  - intros (_ & _ & ?)%background_trace. by apply no_reboot_app.
Qed.

Lemma run_container_ends : ends exit_cause run_container.
Proof.
  apply ends_seq; [auto with tells|intros; apply report_no_error|]. intros [] [] h.
  unfold require. do 2 wp_step. apply (@wp_perform GuestI _ _ _ (SpawnCrun ["run"; "container"])).
  intros [] _; simpl (id _); cbn iota; [|wp_step; by repeat constructor].
  wp_step. wp_step. unfold recv at 1. wp_step.
  apply (@wp_perform GuestI _ _ _ RecvExit). intros first Hfirst.
  set (e1 := existT (SpawnCrun ["run"; "container"] : op GuestI) true : entry GuestI) in *.
  set (e2 := existT (RecvExit : op GuestI) first : entry GuestI) in *.
  assert (Forall (λ o, is_reboot o = false) (ops [e1; e2])) as Hpre by by repeat constructor.
  assert (cruns [e1; e2] = [["run"; "container"]] ∧ receives [e1] = 0 ∧ receives [e2] = 1 ∧
    wire [e1; e2] = []) as (Hc & Hr1 & Hr2 & Hw) by done.
  assert (respond (h ++ [e1]) (RecvExit : op GuestI) = first) as Hf by done.
  destruct first as [first|]; [|apply wp_throw; by exists [e1]; repeat constructor].
  clearbody e1 e2. apply wp_ret. wp_step. case_decide as Hgs.
  - subst first. wp_use stop_and_wait.
    intros [code|e|] [] t1; [|by apply (waits_app [e1; e2])|by apply (no_reboot_app [e1; e2])].
    intros (Hc1 & Hn1 & (ps & Hw1 & Hps) & h2 & Hr3 & Hh2).
    match goal with |- wp _ _ ?x _ => replace x with (h ++ ([e1; e2] ++ t1)) by by simpl; rewrite <-!app_assoc end.
    wp_use (finish_after code h ([e1; e2] ++ t1) ps).
    + by apply no_reboot_app.
    + by rewrite wire_app, Hw.
    + done.
    + intros t Ht. right. right. exists (h ++ [e1]), h2.
      assert (receives h2 = S (receives h)) as Hh3.
      { transitivity (receives ((h ++ [e1]) ++ [e2])); [exact Hr3|].
        rewrite (receives_app (h ++ [e1])), (receives_app h), Hr1, Hr2. lia. }
      rewrite receives_app, Hr1, !cruns_app, Hc, Hc1, Ht. split_and!; try done; lia.
    + by intros [|[]|].
  - wp_step.
    match goal with |- wp _ _ ?x _ => replace x with (h ++ [e1; e2]) by by simpl; rewrite <-!app_assoc end.
    wp_use (finish_after first h [e1; e2] []); [done..| |by intros [|[]|]].
    intros t Ht. right. left. exists (h ++ [e1]). rewrite receives_app, Hr1, cruns_app, Hc, Ht.
    split_and!; try done; lia.
Qed.
Lemma require_run o ok (s : ()) h : require o ok s h =
  Run (if ok (respond h (o : op GuestI)) then Ok () else Panic) s [existT (o : op GuestI) (respond h (o : op GuestI))].
Proof.
  unfold require. rewrite bind_run. cbn [perform out st tr]. by destruct (ok _).
Qed.

(** A run cut by the panic of another thread. *)
Lemma take_no_reboot k (t0 : history GuestI) x :
  Forall (λ o, is_reboot o = false) (ops t0) → k < length (t0 ++ [x]) →
  Forall (λ o, is_reboot o = false) (ops (take k (t0 ++ [x]))).
Proof.
  intros Ht0 Hk. rewrite length_app in Hk. simpl in Hk. rewrite take_app_le by lia.
  unfold ops in *. rewrite <-(take_drop k t0), map_app in Ht0. by apply Forall_app in Ht0 as [? _].
Qed.

Lemma interrupted_ends other (m : eff GuestI () () ()) s h :
  match out (m s h) with
  | Ok _ => ∃ t0 b, tr (m s h) = t0 ++ [existT (SyncAndReboot : op GuestI) b] ∧
      Forall (λ o, is_reboot o = false) (ops t0)
  | Err _ => waits (tr (m s h))
  | Panic => False
  end →
  let r := interrupted other m s h in
  match out r with
  | Ok _ => ∃ t0 b, tr r = t0 ++ [existT (SyncAndReboot : op GuestI) b] ∧ Forall (λ o, is_reboot o = false) (ops t0)
  | Err _ => other = None ∧ waits (tr r)
  | Panic => False
  end.
Proof.
  intros Hm. unfold interrupted. destruct (m s h) as [o s1 t]. cbn [out tr] in *. cbv zeta.
  destruct other as [k|]; [|by destruct o].
  destruct (bool_decide _ || _) eqn:Hk.
  - eexists (take k t), _. split; [reflexivity|]. destruct o as [u|e|]; [|destruct Hm as (t0 & -> & Hn)|done].
    + destruct Hm as (t0 & b & -> & Hn). apply take_no_reboot; [done|].
      apply orb_true_iff in Hk as [Hk|Hk]; [by apply bool_decide_eq_true in Hk|done].
    + destruct (decide (k < length (t0 ++ [existT (RecvExit : op GuestI) None]))); [by apply take_no_reboot|].
      rewrite take_ge by by apply Nat.nlt_ge. apply no_reboot_app; [done|]. by constructor.
  - apply orb_false_iff in Hk as [_ Hk]. by destruct o.
Qed.
End ends.

(** ** The main thread as a whole *)

Definition never_fails {S E A} (m : eff GuestI S E A) : Prop := ∀ s h e, out (m s h) ≠ Err e.

Section never_fails.
Context `{Env : Environment GuestI} {S E : Type}.

Lemma never_fails_ret {A} (a : A) : never_fails (S := S) (E := E) (mret a).
Proof. by intros s h e. Qed.
Lemma never_fails_panic {A} : never_fails (S := S) (E := E) (A := A) panic.
Proof. by intros s h e. Qed.
Lemma never_fails_perform o : never_fails (S := S) (E := E) (perform (I := GuestI) o).
Proof. by intros s h e. Qed.
Lemma never_fails_unwrap {E' A} (m : eff GuestI S E' A) : never_fails (E := E) (unwrap m).
Proof. intros s h e. unfold unwrap. by destruct (m s h) as [[] ??]. Qed.
Lemma never_fails_attempt {E' A} (m : eff GuestI S E' A) : never_fails (E := E) (attempt m).
Proof. intros s h e. unfold attempt. by destruct (m s h) as [[] ??]. Qed.
Lemma never_fails_report (m : eff GuestI S CommErrors ()) : never_fails (E := E) (report m).
Proof. apply never_fails_unwrap. Qed.
Lemma never_fails_runs L (m : eff GuestI S E ()) : runs L m → never_fails m.
Proof. intros Hm s h e He. destruct (Hm s h) as [_ Ho]. by rewrite He in Ho. Qed.
Lemma never_fails_bind {A B} (m : eff GuestI S E A) (k : A → eff GuestI S E B) :
  never_fails m → (∀ a, never_fails (k a)) → never_fails (m ≫= k).
Proof.
  intros Hm Hk s h e. rewrite bind_run. specialize (Hm s h).
  destruct (m s h) as [[a|x|] s1 t1]; simpl in *; [apply Hk|by destruct (Hm x)|done].
Qed.
End never_fails.

Create HintDb never_fails discriminated.
#[export] Hint Resolve never_fails_ret never_fails_panic never_fails_perform never_fails_unwrap
  never_fails_attempt never_fails_report never_fails_bind : never_fails.

(** ** Several threads on one stream *)

(** The packets of several threads on one stream: each thread's packets in
    their order, a packet at a time (the lock of the stream). *)
Inductive merged {A} : list A → list A → list A → Prop :=
| merged_nil : merged [] [] []
| merged_left x l r all : merged l r all → merged (x :: l) r (x :: all)
| merged_right x l r all : merged l r all → merged l (x :: r) (x :: all).

Lemma merged_exit code ps l others all :
  merged (ps ++ Exited code :: l) others all → Forall not_exit ps → Forall not_exit others →
  ∃ a1 a2, all = a1 ++ Exited code :: a2 ∧ Forall not_exit a1.
Proof.
  remember (ps ++ Exited code :: l) as own eqn:Hown. intros Hm. revert ps Hown.
  induction Hm as [|x own r all Hm IH|x own r all Hm IH]; intros ps Hown Hps Ho; [by destruct ps|..].
  - destruct ps as [|p ps]; simplify_eq/=; [by exists [], all|].
    apply Forall_cons in Hps as [Hp Hps]. destruct (IH ps eq_refl Hps Ho) as (a1 & a2 & -> & Ha).
    exists (p :: a1), a2. split; [done|by constructor].
  - apply Forall_cons in Ho as [Hx Ho]. destruct (IH ps Hown Hps Ho) as (a1 & a2 & -> & Ha).
    exists (x :: a1), a2. split; [done|by constructor].
Qed.

Lemma not_exit_of p : not_exit p → exit_of p = None.
Proof. destruct p as [| |code]; [done..|]. intros H. by destruct (H code). Qed.

Section whole.
Context `{Env : Environment GuestI} `{C : Codec}.
Variable profile_ : profile.
Variable granted : history GuestI → nat.
Variable decimal : Z → NumberPrefix.
Variable schedule : history GuestI → nat.
Variable config_from_json : string → option Config.
Variable reference_try_from : string → string + Reference.
Variable Json : Type.
Variable to_json_value : string → option Json.
Variable schema_version_u64 : Json → option Z.
Variable image_index : Json → option (list Descriptor).
Variable image_manifest : string → option ImageManifest.
Variable image_configuration : string → option ImageConfiguration.
Variable oauth_token : string → option string.
Variable builder_accepts : ContainerSpec → bool.

#[local] Abbreviation this_container := (container_of profile_ granted decimal schedule reference_try_from Json
  to_json_value schema_version_u64 image_index image_manifest image_configuration oauth_token builder_accepts).
#[local] Abbreviation this_main := (main profile_ granted decimal schedule config_from_json reference_try_from Json
  to_json_value schema_version_u64 image_index image_manifest image_configuration oauth_token builder_accepts).
#[local] Abbreviation this_instance := (instance profile_ granted decimal schedule config_from_json
  reference_try_from Json to_json_value schema_version_u64 image_index image_manifest image_configuration
  oauth_token builder_accepts).

Lemma container_of_ends config : ends exit_cause (this_container config).
Proof.
  unfold container_of. destruct (reference_try_from _) as [e|reference]; [apply fail_to_pull_ends|].
  apply ends_seq; [apply tells_attempt, pull_tells|intros s h; apply never_fails_attempt|].
  intros [e|spec]; [apply fail_to_pull_ends|apply run_container_ends].
Qed.

Lemma gio_tells {S} (o : GuestOp) ok : silent o = true → tells (S := S) not_exit (gio o ok).
Proof.
  intros Ho. apply tells_bind; [by apply tells_perform|]. intros a. destruct (ok a); auto with tells.
Qed.

Lemma rotate_tells : tells not_exit rotate_token.
Proof.
  unfold rotate_token. apply tells_bind; [auto with tells|]. intros s. apply tells_bind; [auto with tells|].
  intros now. destruct (_ <=? _)%Z; [|auto with tells]. apply tells_bind; [auto with tells|]. intros now'.
  apply tells_bind; [auto with tells|]. intros [|r]; [auto with tells|].
  destruct (negb _); [auto with tells|]. destruct (text_ r); [|auto with tells]. case_decide; auto with tells.
Qed.

Lemma start_tells : tells not_exit (start config_from_json).
Proof.
  pose proof rotate_tells as Hrot. unfold start. apply tells_bind.
  { apply tells_bind; [auto with tells|]. intros pid. destruct (_ =? _)%Z; auto with tells. }
  intros _. apply tells_bind.
  { assert (∀ args, tells (S := ()) (E := ()) not_exit (mke2fs args)).
    { intros args. apply tells_bind; [auto with tells|]. intros a. destruct (succeeded a); auto with tells. }
    pose proof (@cmd_tells). unfold init, set_session_id. auto 20 with tells. }
  intros _. apply tells_bind.
  { apply tells_unwrap. unfold connect. auto with tells. }
  intros mmds. apply tells_bind.
  { apply tells_unwrap, tells_owned. unfold mmds_get. apply tells_bind; [done|]. intros _.
    apply tells_bind; [auto with tells|]. intros self. apply tells_bind; [auto with tells|].
    intros [|r]; [auto with tells|]. destruct (negb _); [auto with tells|].
    destruct (text_ r ≫= _); auto with tells. }
  intros config. apply tells_bind.
  { apply tells_unwrap. unfold host_communication_new. pose proof (@gio_tells ()). apply tells_bind; [auto with tells|].
    intros connected. apply tells_bind; [destruct connected; auto with tells|]. auto with tells. }
  intros _. apply tells_bind; [auto with tells|]. intros _.
  apply tells_bind; [apply tells_unwrap, gio_tells; done|auto with tells].
Qed.

Lemma start_never_fails : never_fails (start config_from_json).
Proof.
  pose proof (never_fails_runs INIT_PROGRAMS _ (init_runs (S := ()) (E := ()))). unfold start, require.
  apply never_fails_bind; [|auto 12 with never_fails].
  apply never_fails_bind; [auto with never_fails|]. intros a. destruct (_ =? _)%Z; auto with never_fails.
Qed.

Lemma main_ends : ends exit_cause this_main.
Proof.
  apply ends_seq; [apply start_tells|intros; apply start_never_fails|]. intros config. apply container_of_ends.
Qed.

(** How the hooked main thread ends. *)
Lemma hooked_main h :
  let r := hooked this_main () h in
  match out r with
  | Ok _ => ∃ t0 b, tr r = t0 ++ [existT (SyncAndReboot : op GuestI) b] ∧ Forall (λ o, is_reboot o = false) (ops t0)
  | Err _ => waits (tr r)
  | Panic => False
  end.
Proof.
  unfold hooked. pose proof (main_ends () h) as Hm. unfold wp in Hm.
  destruct (this_main () h) as [[[]|e|] s1 t1]; simpl in *; [|done|by eexists t1, _].
  destruct Hm as (t0 & b & _ & _ & _ & -> & Hn & _). by exists t0, b.
Qed.

(** C15: How the process of the guest ends, whatever fails in its main thread
    and whenever another of its threads panics.  It ends by rebooting the
    machine, exactly once and as the last thing it does, with two exceptions: it
    waits for ever for an exit code that never comes, as long as no other thread
    panics; or the logger, which is set up before the panic hook, could not be,
    and nothing else was done.  (The other blocking calls are taken to
    return.) *)
Theorem ends_by_rebooting other h :
  let r := this_instance other () h in
  match out r with
  | Ok _ => ∃ t0 b, tr r = t0 ++ [existT (SyncAndReboot : op GuestI) b] ∧ Forall (λ o, is_reboot o = false) (ops t0)
  | Err _ => other = None ∧
      ∃ t0, tr r = t0 ++ [existT (RecvExit : op GuestI) None] ∧ Forall (λ o, is_reboot o = false) (ops t0)
  | Panic => tr r = [existT (InitLogger : op GuestI) false]
  end.
Proof.
  cbv zeta. unfold instance. rewrite bind_run, require_run.
  destruct (respond h (InitLogger : op GuestI)); [|done]. cbn [id out st tr].
  match goal with |- context [interrupted _ _ _ ?h1] =>
    pose proof (interrupted_ends other (hooked this_main) () h1 (hooked_main h1)) as Hm;
    destruct (interrupted other (hooked this_main) () h1) as [o s t] end.
  cbn [out tr] in *. destruct o as [u|e|]; [| |done].
  - destruct Hm as (t0 & b & -> & Hn). by exists (existT (InitLogger : op GuestI) true :: t0), b; repeat constructor.
  - destruct Hm as (-> & t0 & -> & Hn). split; [done|].
    by exists (existT (InitLogger : op GuestI) true :: t0); repeat constructor.
Qed.

(** ** The exit code, from the channel to the host *)

Context `{EnvH : Environment HostI} `{B : CircularBuffer MachineLog} `{!CircularBufferLaws B} `{!CodecLaws C}.

(** std::sync::mpsc delivers in order: the n-th receive is answered with the
    n-th code sent. *)
Variable arrivals : list GuestExitCode.
Hypothesis fifo : ∀ h, respond h (RecvExit : op GuestI) = arrivals !! receives h.

(** C6: A container that runs to its exit [code], with [asked] shutdown
    requests of the host before it.  The guest runs the container once and
    passes the first request on to it (and only that one); it reports the
    container's exit code, unless it was asked twice, when it reports a
    shutdown without waiting for the container.  Whatever messages the other
    threads put on the stream in between, that code is what the host
    announces. *)
Theorem stop_protocol asked code rest h :
  arrivals = replicate asked GracefulShutdown ++ ContainerExited code :: rest → receives h = 0 →
  let r := this_main () h in
  out r = Ok () → cruns (tr r) ≠ [] →
  let reported := if decide (asked ≤ 1) then ContainerExited code else GracefulShutdown in
  cruns (tr r) = ["run"; "container"] :: (if decide (asked = 0) then [] else [["kill"; "container"]]) ∧
  ∃ own, wire (tr r) = stream_of own ∧
    ∀ others all after h', Forall not_exit others → merged own others all → Forall size_ok all →
      out (packet_handler (stream_of all ++ after) communicator_new h') = Ok (Some (machine_exit_from reported)).
Proof.
  intros Harr Hh r Ho Hrun reported. pose proof (main_ends () h) as Hm. unfold wp in Hm. fold r in Hm.
  rewrite Ho in Hm. destruct Hm as (t0 & b & ps & c & l & _ & _ & Hw & Hps & Hl & Hcause).
  assert (c = reported ∧
    cruns (tr r) = ["run"; "container"] :: (if decide (asked = 0) then [] else [["kill"; "container"]])) as [-> Hc].
  { unfold reported. destruct Hcause as [[Hc _]|[(h1 & Hr1 & Hf & Hgs & Hc)|(h1 & h2 & Hr1 & Hf & Hr2 & Hf2 & Hc)]];
      [by rewrite Hc in Hrun|..]; rewrite fifo, Hr1, Hh, Harr in Hf.
    - rewrite Hc. destruct asked; simpl in Hf; injection Hf as <-; [done|by destruct Hgs].
    - rewrite fifo, Hr2, Hh, Harr in Hf2. rewrite Hc.
      destruct asked as [|[|asked]]; simpl in Hf, Hf2; [done|..]; injection Hf2 as <-; done. }
  split; [done|]. exists (ps ++ Exited reported :: l). split; [done|].
  intros others all after h' Hothers Hmerged Hsz.
  destruct (merged_exit _ _ _ _ _ Hmerged Hps Hothers) as (a1 & a2 & -> & Ha).
  apply Forall_app in Hsz as [Hsz1 [Hsz2 _]%Forall_cons].
  assert (stream_of (a1 ++ Exited reported :: a2) ++ after =
          stream_of (a1 ++ [Exited reported]) ++ (stream_of a2 ++ after)) as ->.
  { rewrite cons_middle, app_assoc. unfold stream_of. by rewrite bind_app, <-app_assoc. }
  apply packet_handler_run; [|done]. rewrite Forall_forall in Ha, Hsz1. apply Forall_forall.
  intros p Hp. split; [by apply Hsz1|by apply not_exit_of, Ha].
Qed.
End whole.

(** ** The other threads *)

Section threads.
Context `{Env : Environment GuestI} `{C : Codec} `{!CodecLaws C}.

(** [n] shutdown requests are heard as [n] codes, whatever follows them:
    more only if that is read as a request too. *)
Lemma shutdown_requests_heard n rest :
  length (serialize_host_packet Shutdown) ≤ BUFFER_SIZE → (∀ x, read_packet rest ≠ inr x) →
  listener (concat (replicate n (frame (serialize_host_packet Shutdown))) ++ rest) = replicate n GracefulShutdown.
Proof.
  intros Hlen Hrest. unfold listener. set (data := serialize_host_packet Shutdown) in *.
  assert (∀ fuel, n ≤ fuel → listen fuel (concat (replicate n (frame data)) ++ rest) = replicate n GracefulShutdown) as H.
  { induction n as [|n IH]; intros [|fuel] Hf; [done| |lia|]; cbn [listen replicate concat].
    - cbn [app]. destruct (read_packet rest) as [e|x]; [done|]. by destruct (Hrest x).
    - rewrite <-app_assoc, read_packet_frame by done. unfold data at 1. rewrite host_roundtrip.
      by rewrite IH by lia. }
  apply H. rewrite length_app. clear H. induction n as [|n IH]; cbn [replicate concat]; [lia|].
  rewrite length_app, frame_length. lia.
Qed.

(** The code of a container that was killed by a signal is 9999. *)
Lemma container_waiter_spec h :
  ⟪ () , h ⟫ container_waiter ⟪ o _ t , match o with
    | Ok code => ∃ c, respond h (WaitContainer : op GuestI) = Some c ∧ code = ContainerExited (default 9999%Z c)
    | Err _ => False
    | Panic => True
    end ⟫.
Proof.
  unfold container_waiter. wp_step. apply (@wp_perform GuestI _ _ _ WaitContainer). intros res Hres.
  wp_step. wp_step. destruct res as [c|]; [|done]. wp_step.
  unfold wp at 1. pose proof (report_no_error (E := ()) (log_system_message ("Container exited with code: " +:+
    match c with Some c => pretty c | None => "unknown" end)) ()
    ((h ++ [existT (WaitContainer : op GuestI) (Some c)]) ++ [])) as Hne.
  destruct (report _ _ _) as [[[]|e|] s1 t1]; simpl; [|by destruct (Hne e)|done].
  exists c. split; [done|]. done.
Qed.
End threads.

(** ** Evaluation *)

Module Demo.
Import ListBuffer CountableCodec.
#[local] Existing Instance env_ok.

(** The registry of Registry.v, and a channel on which one shutdown request
    precedes the exit of the container. *)
Definition arrivals : list GuestExitCode := [GracefulShutdown; ContainerExited 3].

#[local] Instance guest_world : Environment GuestI := λ h o,
  match o return guest_ans o with
  | RecvExit => arrivals !! receives h
  | o => Registry.Demo.registry_env h o
  end.

Definition small_image : ImageManifest := {| manifest_config := Registry.Demo.desc "c" Amd64 Linux; layers := [Registry.Demo.desc "l" Amd64 Linux] |}.

Definition guest_config : Config := {| image := "r/app"; cmd_args := None; env := None; vsock_port := 5 |}.

Abbreviation run_main :=
  (main Debug (λ _, 2) Layers.Demo.decimal (λ h, length h) (λ _, Some guest_config) (λ _, inr Registry.Demo.ref_) string Some (λ _, Some 2%Z)
    (λ _, Some [Registry.Demo.desc "mine" Amd64 Linux]) (λ _, Some small_image) (λ _, Some {| image_config := None |}) (λ _, None)
    (λ _, true) () []).

Lemma merged_alone {A} (own : list A) : merged own [] own.
Proof. induction own; by constructor. Qed.

Lemma stop_protocol_witness :
  cruns (tr run_main) = [["run"; "container"]; ["kill"; "container"]] ∧
  ∃ own, wire (tr run_main) = stream_of own ∧
    (Forall size_ok own → out (packet_handler (stream_of own) communicator_new []) = Ok (Some (ExitContainer 3))).
Proof.
  destruct (stop_protocol Debug (λ _, 2) Layers.Demo.decimal (λ h, length h) (λ _, Some guest_config)
    (λ _, inr Registry.Demo.ref_) string Some (λ _, Some 2%Z) (λ _, Some [Registry.Demo.desc "mine" Amd64 Linux])
    (λ _, Some small_image) (λ _, Some {| image_config := None |}) (λ _, None) (λ _, true)
    arrivals (λ h, eq_refl) 1 3 [] [] eq_refl eq_refl) as (Hc & own & Hw & Hr).
  - vm_compute. reflexivity.
  - vm_compute. discriminate.
  - split; [exact Hc|]. exists own. split; [exact Hw|]. intros Hsz.
    rewrite <-(app_nil_r (stream_of own)). apply (Hr [] own [] []); [constructor|apply merged_alone|exact Hsz].
Defined.
End Demo.
