(* ===== verification/NodeCli.v ===== *)
(** * The command line client (src/nodecli/src/main.rs)

    What the client asks of the node manager for each command.  Argument
    parsing (clap) and the gRPC transport are outside: a command is a value of
    [Commands], a call is an operation of the environment. *)

From Stdlib Require Import Ascii.
From S2P Require Import Prelude Bytes Vmproto HostOps Networking Communicator Firecracker Machine Manager.

(** The types fix the ranges: [vcpus] is a u8 in 1..=32, [memory_mb] a u32, ports are u16. *)
Inductive Commands : Type :=
| Run (container_reference : string) (vcpus memory_mb : Z) (dont_tail_logs : bool)
      (environment : option (list string)) (args : list string)
| Rm (instance_id : string)
| Ls
| Logs (instance_id : string) (tail : bool)
| Pub (instance_id : string) (host_port guest_port : Z)
| Drain.

(** A log line as the client reads it: type, timestamp, text. *)
Record CliLog : Set := { cl_log_type : string; cl_timestamp : Z; cl_message : string }.

Inductive next_message : Set := NextLog (l : CliLog) | NoMoreLogs | StreamError.

Inductive CliOp : Type :=
| Connect (address : string)
| CallProvision (r : ProvisionRequest)
| CallDeprovision (r : DeprovisionRequest)
| CallListInstances
| CallStreamLogs (id : string)
| NextMessage
| CallGetLogs (id : string)
| CallPublishServicePort (r : PublishServicePortRequest)
| CallDrain
| Println (line : string)
| LogInfo (line : string)
| LogError (line : string).

(** [None] is an error status. *)
Definition cli_ans (o : CliOp) : Set :=
  match o with
  | CallProvision _ => option string
  | CallListInstances => option (list string)
  | CallGetLogs _ => option (list CliLog)
  | NextMessage => next_message
  | Println _ | LogInfo _ | LogError _ => unit
  | _ => bool
  end.

Definition CliI : Iface := {| op := CliOp; ans := cli_ans |}.

(** [s.split('=')] *)
Fixpoint split_equals (s : string) : string * list string :=
  match s with
  | EmptyString => (EmptyString, [])
  | String c s =>
      let '(part, parts) := split_equals s in
      if decide (c = "="%char) then (EmptyString, part :: parts) else (String c part, parts)
  end.

(** The first two parts of an argument [KEY=VALUE]; [None] is the error. *)
Definition parse_variable (env : string) : option (string * string) :=
  match split_equals env with
  | (key, value :: _) => Some (key, value)
  | (_, []) => None
  end.

Definition parse_env (environment : list string) : gmap string string :=
  foldl (λ parsed env,
    match parse_variable env with Some (key, value) => <[key := value]> parsed | None => parsed end)
    ∅ environment.

(** [DateTime::from_timestamp(ts / 1000, (ts as u32 % 1000) * 1_000_000)]: the
    seconds and the milliseconds shown. *)
Definition shown_time (timestamp : Z) : Z * Z :=
  (Z.quot timestamp 1000, wrap 32 timestamp `mod` 1000)%Z.

Section cli.
Context `{Env : Environment CliI}.

(** Formatting in the local time zone; [None] is the panic of [unwrap] on a
    time chrono cannot represent. *)
Variable format_time : Z → Z → option string.

Definition run_request (container_reference : string) (vcpus memory_mb : Z)
    (environment : option (list string)) (args : list string) : ProvisionRequest :=
  {| pr_container_reference := container_reference;
     pr_vcpus := vcpus;
     pr_memory_mb := swrap 32 memory_mb;
     pr_env := parse_env (default [] environment);
     pr_cmd_args := args |}.

Definition rm_request (instance_id : string) : DeprovisionRequest :=
  {| dr_instance_id := instance_id; dr_timeout_millis := 5000 |}.

Definition pub_request (instance_id : string) (host_port guest_port : Z) : PublishServicePortRequest :=
  {| ps_id := instance_id; ps_guest_port := guest_port; ps_host_port := host_port |}.

Definition tell {S E} (o : CliOp) : eff CliI S E () :=
  _ ← perform (I := CliI) o; mret ().

(** An argument that is no [KEY=VALUE] is reported and skipped. *)
Definition quoted (s : string) : string :=
  String (Ascii.ascii_of_nat 34) s +:+ String (Ascii.ascii_of_nat 34) EmptyString.

Definition report_invalid {S E} (env : string) : eff CliI S E () :=
  match parse_variable env with
  | Some _ => mret ()
  | None => tell (LogError ("Invalid environment variable format: " +:+ env +:+ ", expected " +:+
                            quoted "KEY=VALUE" +:+ "."))
  end.

Definition print_log {S E} (l : CliLog) : eff CliI S E () :=
  let '(secs, millis) := shown_time (cl_timestamp l) in
  ts ← or_panic (format_time secs (millis * 1000000)%Z);
  tell (Println ("[" +:+ cl_log_type l +:+ "] " +:+ ts +:+ " - " +:+ cl_message l)).

(** The loop over the stream, for at most [fuel] messages. *)
Fixpoint tail_logs {S E} (fuel : nat) (instance_id : string) : eff CliI S E () :=
  match fuel with
  | 0 => mret ()
  | S fuel =>
      next ← perform (I := CliI) NextMessage;
      match next with
      | NextLog l => print_log l;; tail_logs fuel instance_id
      | NoMoreLogs => tell (LogInfo ("No more logs for instance " +:+ instance_id))
      | StreamError => tell (LogError "Error receiving log message")
      end
  end.

Definition stream_logs_cli {S E} (fuel : nat) (instance_id : string) : eff CliI S E () :=
  ok ← perform (I := CliI) (CallStreamLogs instance_id);
  if ok : bool then tail_logs fuel instance_id
  else tell (LogError ("Failed to get logs for instance " +:+ instance_id)).

(** [Err ()] is a failed connection.  The description of an error status that
    ends an error line is left out. *)
Definition main {S} (fuel : nat) (address : option string) (command : Commands) : eff CliI S () () :=
  connected ← perform (I := CliI) (Connect (default "http://[::1]:50051" address));
  (if connected : bool then mret () else throw ());;
  match command with
  | Run container_reference vcpus memory_mb dont_tail_logs environment args =>
      for_each report_invalid (default [] environment);;
      response ← perform (I := CliI)
        (CallProvision (run_request container_reference vcpus memory_mb environment args));
      match response with
      | Some instance_id =>
          tell (LogInfo ("Provisioned instance with id " +:+ instance_id));;
          if dont_tail_logs then mret () else stream_logs_cli fuel instance_id
      | None => tell (LogError "Failed to provision instance")
      end
  | Rm instance_id =>
      ok ← perform (I := CliI) (CallDeprovision (rm_request instance_id));
      tell (if ok : bool then LogInfo ("Deprovisioned instance with id " +:+ instance_id)
            else LogError "Failed to deprovision instance")
  | Ls =>
      instances ← perform (I := CliI) CallListInstances;
      match instances with
      | Some instances => for_each (λ id, tell (Println id)) instances
      | None => tell (LogError "Failed to list instances")
      end
  | Logs instance_id tail =>
      if tail then stream_logs_cli fuel instance_id
      else
        logs ← perform (I := CliI) (CallGetLogs instance_id);
        match logs with
        | Some logs => for_each print_log logs
        | None => tell (LogError ("Failed to get logs for instance " +:+ instance_id))
        end
  | Pub instance_id host_port guest_port =>
      ok ← perform (I := CliI) (CallPublishServicePort (pub_request instance_id host_port guest_port));
      tell (if ok : bool then
              LogInfo ("Published port " +:+ pretty guest_port +:+ " on instance " +:+ instance_id +:+
                       " to host port " +:+ pretty host_port)
            else LogError "Failed to publish port")
  | Drain =>
      ok ← perform (I := CliI) CallDrain;
      tell (if ok : bool then LogInfo "Drained node!" else LogError "Failed to drain")
  end.
End cli.

(** ** Properties *)

Lemma split_append a b : no_equals a = true →
  split_equals (a +:+ String "=" b) = (a, (split_equals b).1 :: (split_equals b).2).
Proof.
  induction a as [|c a IH]; intros Ha.
  - change (("" : string) +:+ String "=" b) with (String "=" b). simpl. by destruct (split_equals b).
  - cbn [no_equals] in Ha. apply andb_true_iff in Ha as [Hc Ha].
    change (String c a +:+ String "=" b) with (String c (a +:+ String "=" b)). cbn [split_equals].
    rewrite (IH Ha). rewrite decide_False; [done|]. intros ->. by rewrite bool_decide_true in Hc.
Qed.

Lemma split_whole a : no_equals a = true → split_equals a = (a, []).
Proof.
  induction a as [|c a IH]; [done|]. intros [Hc Ha]%andb_true_iff. simpl. rewrite (IH Ha).
  rewrite decide_False; [done|]. intros ->. by rewrite bool_decide_true in Hc.
Qed.

(** The parts of a string put it back together. *)
Lemma split_inv s : no_equals (split_equals s).1 = true ∧
  match (split_equals s).2 with
  | [] => s = (split_equals s).1
  | q :: qs => ∃ rest, s = (split_equals s).1 +:+ String "=" rest ∧ split_equals rest = (q, qs)
  end.
Proof.
  induction s as [|c s IH]; [done|]. simpl. destruct (split_equals s) as [p ps] eqn:Hs.
  case_decide as Hc; simpl in *.
  - subst c. split; [done|]. by exists s.
  - rewrite bool_decide_false by done. destruct IH as [Hp IH]. split; [exact Hp|].
    destruct ps as [|q qs]; [by rewrite <-IH|]. destruct IH as (rest & Hrest & Hsplit).
    exists rest. split; [|done]. by rewrite Hrest at 1.
Qed.

(** What the argument [e] asks for: the variable [k] with the value [v].  The
    key ends at the first equals sign and the value at the second, if there is
    one. *)
Definition assigns (e k v : string) : Prop :=
  no_equals k = true ∧ no_equals v = true ∧
  (e = k +:+ "=" +:+ v ∨ ∃ cut, e = k +:+ "=" +:+ v +:+ "=" +:+ cut).

(** What a list of arguments asks for: the last one that sets [k] counts. *)
Definition asked_value (l : list string) (k v : string) : Prop :=
  ∃ before e after, l = before ++ e :: after ∧ assigns e k v ∧ ∀ e' v', e' ∈ after → ¬ assigns e' k v'.

Lemma parse_assigns e k v : parse_variable e = Some (k, v) ↔ assigns e k v.
Proof.
  unfold parse_variable, assigns. split.
  - destruct (split_inv e) as [Hk He]. destruct (split_equals e) as [p [|q qs]]; [done|].
    simpl in *. intros [= <- <-]. destruct He as (rest & He & Hrest). destruct (split_inv rest) as [Hv Hr].
    rewrite Hrest in Hv, Hr. simpl in Hv, Hr. split_and!; [done..|]. destruct qs as [|q' qs].
    + left. by rewrite He, Hr.
    + right. destruct Hr as (rest' & Hr & _). exists rest'. by rewrite He, Hr.
  - intros (Hk & Hv & [->|[cut ->]]).
    + change ("=" +:+ v) with (String "=" v). by rewrite split_append, split_whole.
    + change ("=" +:+ v +:+ "=" +:+ cut) with (String "=" (v +:+ String "=" cut)).
      by rewrite split_append, split_append.
Qed.

Lemma asked_snoc l e k v : asked_value (l ++ [e]) k v ↔
  assigns e k v ∨ asked_value l k v ∧ ∀ v', ¬ assigns e k v'.
Proof.
  split.
  - intros (l1 & x & l2 & Hl & Hx & Hlast). destruct l2 as [|y l2 _] using rev_ind.
    + apply app_inj_tail in Hl as [-> ->]. by left.
    + rewrite app_comm_cons, app_assoc in Hl. apply app_inj_tail in Hl as [-> ->]. right. split.
      * exists l1, x, l2. split_and!; [done..|]. intros e' v' Hin. apply Hlast, elem_of_app. by left.
      * intros v'. apply Hlast, elem_of_app. right. by left.
  - intros [He|((l1 & x & l2 & -> & Hx & Hlast) & He)].
    + exists l, e, []. split_and!; [done..|]. by intros ? ? ?%elem_of_nil.
    + exists l1, x, (l2 ++ [e]). split_and!; [by rewrite <-app_assoc|done|].
      intros e' v' [Hin| ->%list_elem_of_singleton]%elem_of_app; [by apply Hlast|apply He].
Qed.

(** The map the client sends holds exactly what was asked for. *)
Lemma parse_env_asked l k v : parse_env l !! k = Some v ↔ asked_value l k v.
Proof.
  unfold parse_env. revert v. induction l as [|e l IH] using rev_ind; intros v.
  - cbn [foldl]. split; [by intros ?%lookup_empty_Some|]. intros ([|] & ? & ? & ? & _); discriminate.
  - rewrite foldl_app, asked_snoc, <-IH. cbn [foldl].
    destruct (parse_variable e) as [[k' v']|] eqn:He.
    + pose proof (proj1 (parse_assigns e k' v') He) as Ha. destruct (decide (k' = k)) as [->|Hk].
      * rewrite lookup_insert_eq. split; [intros [= <-]; by left|]. intros [Hv|[_ Hn]].
        -- apply parse_assigns in Hv. congruence.
        -- by destruct (Hn v').
      * rewrite lookup_insert_ne by done. assert (∀ w, ¬ assigns e k w) as Hn
          by (intros w Hw%parse_assigns; congruence). naive_solver.
    + assert (∀ w, ¬ assigns e k w) as Hn by (intros w Hw%parse_assigns; congruence). naive_solver.
Qed.

(** An environment argument [KEY=VALUE] arrives as given exactly when
    the value has no equals sign; otherwise everything from the second equals
    sign on is silently dropped, and an argument without one is ignored. *)
Theorem parse_variable_cuts key value rest :
  no_equals key = true → no_equals value = true →
  parse_variable (key +:+ "=" +:+ value) = Some (key, value) ∧
  parse_variable (key +:+ "=" +:+ value +:+ "=" +:+ rest) = Some (key, value) ∧
  parse_variable key = None.
Proof.
  intros Hk Hv. split_and!; [apply parse_assigns; split_and!; eauto..|].
  unfold parse_variable. by rewrite split_whole.
Qed.

(** What the user asks for on the command line is what the machine gets:
    the casts of the client to 32-bit signed integers are undone by those of the
    node manager, for every memory size (above 2 GiB the value on the wire is
    negative), and a published port passes the manager's checks. *)
Theorem requested_resources_arrive container_reference vcpus memory_mb environment args :
  (1 <= vcpus <= 32)%Z → (0 <= memory_mb < 2 ^ 32)%Z →
  let request := run_request container_reference vcpus memory_mb environment args in
  wrap 8 (pr_vcpus request) = vcpus ∧ wrap 32 (pr_memory_mb request) = memory_mb ∧
  ∀ id host_port guest_port, (0 <= host_port < 2 ^ 16)%Z → (0 <= guest_port < 2 ^ 16)%Z →
    is_uint 16 (ps_host_port (pub_request id host_port guest_port)) = true ∧
    is_uint 16 (ps_guest_port (pub_request id host_port guest_port)) = true.
Proof.
  intros Hv Hm. cbn [run_request pr_vcpus pr_memory_mb]. split_and!.
  - by rewrite wrap_small by lia.
  - by rewrite wrap_swrap, wrap_small by lia.
  - intros id host guest Hh Hg. by rewrite !is_uint_spec.
Qed.

(** The milliseconds shown next to a log line are off by [296] for
    every full [2^32] milliseconds since the epoch: the timestamp is cut to 32
    bits before the remainder is taken. *)
Theorem shown_millis ts : (0 <= ts)%Z →
  (shown_time ts).1 = (ts / 1000)%Z ∧
  (shown_time ts).2 = ((ts - 296 * (ts / 2 ^ 32)) mod 1000)%Z.
Proof.
  intros Hts. unfold shown_time. simpl. split; [by rewrite Z.quot_div_nonneg by lia|].
  unfold wrap. rewrite (Z.mod_eq ts (2 ^ 32)) by lia. set (q := (ts / 2 ^ 32)%Z).
  replace (ts - 2 ^ 32 * q)%Z with (ts - 296 * q + (- 4294967 * q) * 1000)%Z by lia.
  apply Z.mod_add. lia.
Qed.

Lemma parse_variable_cuts_witness :
  parse_variable "OPTS=-Dx=1" = Some ("OPTS", "-Dx").
Proof. apply (parse_variable_cuts "OPTS" "-Dx" "1"); reflexivity. Defined.

Lemma requested_resources_arrive_witness :
  pr_memory_mb (run_request "nginx" 4 3000000000 None []) = (-1294967296)%Z ∧
  wrap 32 (pr_memory_mb (run_request "nginx" 4 3000000000 None [])) = 3000000000%Z.
Proof.
  split; [reflexivity|].
  destruct (requested_resources_arrive "nginx" 4 3000000000 None []) as (_ & H & _); [lia|lia|exact H].
Defined.

(** 2024-05-31T08:00:00.123Z *)
Lemma shown_millis_witness : (shown_time 1717142400123).2 = 19%Z ∧ (1717142400123 mod 1000 = 123)%Z.
Proof. split; [|reflexivity]. rewrite (proj2 (shown_millis 1717142400123 ltac:(lia))). reflexivity. Defined.
