(* ===== verification/EndToEnd.v ===== *)
(** * From the command line to the container

    The pieces of the system composed: what a user asks of [nodecli run]
    travels through the node manager's request into the requests that boot the
    machine, and through Firecracker's metadata store and the guest's
    configuration into the process of the container. *)

From S2P Require Import Prelude Bytes Vmproto HostOps Networking Communicator Firecracker Machine Manager NodeCli GuestOps RuntimeSpec GuestMain.

(** ** The whole way *)

Section way.
Context `{Env : Environment HostI} `{B : CircularBuffer MachineLog} `{C : Codec} `{J : ToJson} `{W : Auth.Jwt}.
Variable prof : profile.
Variable config : ManagerConfig.
Variable iter : ∀ V, history HostI → gmap string V → list (string * V).
Hypothesis iter_spec : ∀ V h (m : gmap string V), iter V h m ≡ₚ map_to_list m.

(** What the guest's client makes of [/latest/container] when Firecracker was
    started with a metadata file: the store serves the tree it was given, and
    serde reads back what it wrote (a BTreeMap being sorted by key). *)
Variable fetched : string → option Config.
Hypothesis metadata_law : ∀ m j, to_json (BLatest m) = Some j →
  (∀ l, md_env m = Some l → StronglySorted key_le l ∧ NoDup l.*1) →
  fetched j = Some {| image := md_image m; GuestMain.cmd_args := md_cmd_args m;
                      GuestMain.env := md_env m; GuestMain.vsock_port := md_vsock_port m |}.

(** C4: What is asked for with [nodecli run] is what runs.  When the node
    manager provisions the request of the command line, Firecracker is sent the
    boot requests of a machine with the processors and the memory asked for (the
    casts to signed and back cancel), and is started with a metadata file from
    which the guest reads the image asked for; and the process built from the
    image's configuration runs the image's entrypoint with the arguments of the
    command line in place of the image's command, in an environment where every
    variable asked for has its value, whatever the image says, and the image's
    other variables keep theirs.  An argument [KEY=VALUE] asks for the value up
    to its second equals sign, the last one for a key counts, and an argument
    without an equals sign asks for nothing ([asked_value]). *)
Theorem requested_container container_reference vcpus memory_mb environment cli_args (s : InnerNodeManager) h id :
  (1 <= vcpus <= 32)%Z → (0 <= memory_mb < 2 ^ 32)%Z →
  let asked := asked_value (default [] environment) in
  let r := provision_ prof config iter
    (run_request container_reference vcpus memory_mb environment cli_args) s h in
  out r = Ok id →
  ∃ m j guest_config,
    machines (st r) !! id = Some m ∧
    (∃ debug, sent (tr r) = expected (vm m) (boot_sequence
      {| container_reference := container_reference; vcpu_count := vcpus; mem_size_mb := memory_mb |}
      (Machine.network m) debug)) ∧
    WriteFile (Firecracker.root_path (vm m) ++ ["metadata.json"]) j ∈ ops (tr r) ∧
    fetched j = Some guest_config ∧ image guest_config = container_reference ∧
    ∀ builder_accepts img spec,
      create_runtime_spec builder_accepts (Some img) (rt_overrides guest_config) = inr (BuiltSpec spec) →
      args spec = (match cli_args, cmd img, entrypoint img with
                   | [], None, None => ["/bin/sh"]
                   | [], c, e => default [] e ++ default [] c
                   | a, _, e => default [] e ++ a
                   end) ∧
      (∀ k v, asked k v → lookup_env k (RuntimeSpec.env spec) = Some v) ∧
      (∀ k l, no_equals k = true → (∀ v, ¬ asked k v) → image_env img = Some l →
        lookup_env k (RuntimeSpec.env spec) = lookup_env k l).
Proof.
  intros Hv Hm asked r Ho. set (request := run_request _ _ _ _ _) in r.
  destruct (provision_configured prof config iter iter_spec request s h id Ho)
    as (m & Hmach & [debug Hsent] & entries & port & j & Hperm & Hsorted & _ & Hj & Hin).
  assert (NoDup entries.*1) as Hnd by (rewrite Hperm; apply NoDup_fst_map_to_list).
  assert (∀ k v, (k, v) ∈ entries ↔ asked k v) as Hvar.
  { intros k v. rewrite Hperm, elem_of_map_to_list. apply parse_env_asked. }
  exists m, j. eexists. split; [exact Hmach|]. split.
  { exists debug. unfold r. rewrite Hsent. cbn [request run_request pr_vcpus pr_memory_mb pr_container_reference].
    by rewrite wrap_swrap, !wrap_small by lia. }
  split; [exact Hin|]. split; [apply (metadata_law _ _ Hj)|].
  { intros l. cbn [md_env]. destruct entries; [done|]. by intros [= <-]. }
  split; [done|]. intros builder_accepts img spec Hspec.
  destruct (container_process builder_accepts img _ spec Hspec) as (Ha & Hnone & He). split.
  { rewrite Ha. cbn [additional_args rt_overrides GuestMain.cmd_args md_cmd_args request run_request pr_cmd_args].
    by destruct cli_args. }
  cbn [additional_env rt_overrides GuestMain.env md_env] in He, Hnone. destruct entries as [|x entries].
  - split; [intros k v Hk%Hvar; by apply elem_of_nil in Hk|].
    intros k l _ _ Hl. by rewrite (Hnone eq_refl eq_refl l Hl).
  - destruct (He (x :: entries) eq_refl eq_refl) as [Hgiven Hkept]; [|done|].
    { apply Forall_forall. intros [k v] Hk. apply Hvar in Hk as (? & ? & ? & _ & [Hk _] & _). exact Hk. }
    split; [intros k v Hk%Hvar; by apply Hgiven|].
    intros k l Hne Hk Hl. apply Hkept; [done| |done]. intros ([k' v] & -> & Hkv%Hvar)%list_elem_of_fmap.
    by apply (Hk v).
Qed.
End way.

(** ** Evaluation *)

Module Demo.
Import ListBuffer CountableCodec Manager.Demo.

(** A format that is read back as it was written. *)
#[local] Instance tuple_json : ToJson := λ b,
  match b with
  | BLatest c => Some (String.string_of_list_byte
      (bytes_of (md_image c, md_cmd_args c, md_env c, md_vsock_port c)))
  | _ => Some "{}"
  end.

Definition fetched (j : string) : option Config :=
  '(i, a, e, p) ← of_bytes (A := string * option (list string) * option (list (string * string)) * Z)
    (String.list_byte_of_string j);
  Some {| image := i; GuestMain.cmd_args := a; GuestMain.env := e; GuestMain.vsock_port := p |}.

Lemma fetched_law m j : to_json (BLatest m) = Some j →
  fetched j = Some {| image := md_image m; GuestMain.cmd_args := md_cmd_args m;
                      GuestMain.env := md_env m; GuestMain.vsock_port := md_vsock_port m |}.
Proof.
  intros [= <-]. unfold fetched. by rewrite String.list_byte_of_string_of_list_byte, of_bytes_of.
Qed.

Definition asked : ProvisionRequest := run_request "nginx" 2 256 (Some ["A=0"; "A=1=2"]) ["-v"].

Definition machine_state : InnerNodeManager := (node []).1.

Definition given : ImageConfig :=
  {| entrypoint := Some ["/entry"]; cmd := Some ["serve"]; image_env := Some ["A=0"; "B=2"] |}.

Abbreviation provisioned :=
  (provision_ (Env := env_fresh) (J := tuple_json) Debug node_config by_map asked machine_state []).

(** The last argument for [A] counts, up to its second equals sign. *)
Lemma asked_A : asked_value ["A=0"; "A=1=2"] "A" "1".
Proof. by apply parse_env_asked. Qed.

Lemma requested_container_witness :
  ∃ id, out provisioned = Ok id ∧
    ∃ m guest_config spec,
      (∃ debug, sent (tr provisioned) = expected (vm m) (boot_sequence
        {| container_reference := "nginx"; vcpu_count := 2; mem_size_mb := 256 |} (Machine.network m) debug)) ∧
      image guest_config = "nginx" ∧
      create_runtime_spec (λ _, true) (Some given) (rt_overrides guest_config) = inr (BuiltSpec spec) ∧
      args spec = ["/entry"; "-v"] ∧ lookup_env "A" (RuntimeSpec.env spec) = Some "1" ∧
      lookup_env "B" (RuntimeSpec.env spec) = Some "2".
Proof.
  assert (∃ id, out provisioned = Ok id) as [id Hid] by (eexists; vm_compute; reflexivity).
  exists id. split; [exact Hid|].
  destruct (requested_container (Env := env_fresh) (J := tuple_json) Debug node_config by_map by_map_spec fetched
    (λ m j Hj _, fetched_law m j Hj) "nginx" 2 256 (Some ["A=0"; "A=1=2"]) ["-v"] machine_state [] id)
    as (m & j & guest_config & _ & Hboot & _ & _ & Himage & Hspec); [lia|lia|exact Hid|].
  exists m, guest_config. eexists. split; [exact Hboot|]. split; [exact Himage|]. split; [reflexivity|].
  destruct (Hspec (λ _, true) given _ eq_refl) as (Ha & Hgiven & Hkept).
  split; [exact Ha|]. split; [apply Hgiven; exact asked_A|].
  rewrite (Hkept "B" ["A=0"; "B=2"]); [reflexivity|reflexivity| |reflexivity].
  intros v Hb%parse_env_asked. vm_compute in Hb. discriminate Hb.
Defined.
End Demo.
